(* ===== verification/_CoqProject ===== *)
-Q . S2P
Prelude.v
Atomic.v
ThreadLock.v
Singletons.v
Stream.v
Format.v
LogStream.v
Clock.v
Errno.v
Os.v
SockCtx.v
Epoll.v
EpollLife.v
Wakeup.v
Coroutine.v
Copoll.v
TaskManager.v
TimerManager.v
Arch.v
Context.v
ContextRisc.v
ContextMachines.v
ContextArm.v
ContextMips.v
ContextX86.v
ContextAll.v
Scheduler.v
Switching.v
Channel.v
ChannelRun.v
ChannelTraffic.v
ChannelLimit.v
Sleeping.v
ChannelHandles.v
CoMutex.v
Sock.v
IoWait.v
Net.v
TcpServer.v
PbRuntime.v
PbMessages.v
PbSchema.v
Protocol.v
Rpc.v
RpcServing.v
RpcClient.v
RpcSystem.v
