(* ===== verification/Prelude.v ===== *)
(** * A verification of the TIT coroutine library

    The library runs coroutines on a few scheduler threads and builds on them channels, a
    mutex, socket operations that suspend the coroutine instead of the thread, a TCP
    server and remote procedure calls. This development models it in Rocq and proves what
    makes its parts correct; where the code does not do what it means to, a theorem says
    what it does instead. Paths below are relative to src/.

    ** The program and its model

    The state of a component is a record with the fields of its class, an operation is a
    function of the same name that takes and gives the state, and a value of a C++ integer
    type is a [Z] with its wrap-around written out. What the C++ standard leaves
    undefined, a failed [CHECK] and a failed cast are values of [fault], so that an
    operation gives an [outcome]: a result, or the fault it runs into. In these places
    undefined behaviour is not a fault, but a value or an effect of its own:
    - restoring a stack writes 4000 bytes whatever was saved ([SchedulerImpl_Resume_prepare]):
      the bytes behind the stack are overwritten in the memory of the model
      ([restore_overruns_stack]), and theorems on whole runs assume that nobody uses them;
    - the state byte of a wait context is what [malloc] left there ([wait_junk], [cl_junk]):
      some theorems assume it to be [kInit], [channel_waiter_lost] has the other case;
    - the array of [Encode] may have room behind it ([FrameLayout] in Rpc): [Encode] faults
      where there is none ([Encode_overruns]); the theorems on frames assume one spare byte
      ([FrameRoom]);
    - the attribute of a [MutexLock] is not initialised; [MutexLock_new] makes the recursive
      mutex that is meant;
    - assigning [scheduler_] replaces the union member [func_] while that function runs;
      nothing is destroyed ([set_co_scheduler]).
    A failed [CHECK] ends an operation with a fault; for [LOG(FATAL)], of which src/ does not
    say whether it returns, Os and EpollLife have both cases. In a step relation ([mx_step],
    [gl_step], [sys_step], [server_step]) an operation that faults, or that does not come to
    its end within the step, is not a step: where this matters a theorem says that it does
    not happen ([guarded_ops_finish], [mutex_no_starvation], [rpc_calls_answered]) or the
    theorem's comment says what is left out (a response whose [Send] waits, in RpcServing).

    - Prelude: machine integers (include/def.h), faults and outcomes, blocks of bytes,
      numbers as text, runs of step relations and progress along them ([star],
      [eventually]); the tactics and the hint database [co].
    - Atomic: include/atomic.h and base/atomic_int.h, the three implementations of the
      atomic operations at their four sizes.
    - ThreadLock, Singletons: include/base/mutex.h with the steps of the threads that use
      it, base/singleton.h, base/thread_local_singleton.h, the counter of base/thread.h.
    - Stream, Format, LogStream: include/stream.h and src/stream.cc, the fixed buffer and
      the formatting of text, integers, pointers, doubles and counts with units; the
      buffer and the stream of include/log/log_stream.h. A scheduler saves the stack of a
      coroutine in a stream.
    - Clock, Errno, Os: include/t_time.h, src/t_time.cc, include/co_error.h, and the
      handlers of signals in src/os.cc.
    - SockCtx, Epoll, EpollLife, Wakeup: the coroutines that wait for a descriptor
      (src/sock_ctx.cc), the interest list of epoll kept in step with them, the making
      and destroying of an [Epoll], and the wake-up of the event loop by other threads
      (src/epoll.cc).
    - Coroutine, Copoll, TaskManager, TimerManager: a coroutine with its unions and wait
      contexts, the pool of coroutines, the queues of tasks with the threads that share
      them, and the timers in their multimap with its iterators.
    - Arch, Context, ContextRisc, ContextMachines: src/context/arch.h and context.S, which
      choose the code of a machine; context_x64.S on a machine of its own; context_arm64.S,
      context_arm.S, context_mips.S and context_x86.S, instruction by instruction, on one
      machine with registers, loads and stores. ContextArm, ContextMips and ContextX86 hold
      the proofs of the machines, ContextAll what holds on every one.
    - Scheduler: src/scheduler.cc, which puts the former together: shared stacks with
      their saving and restoring, the event loop, yielding, timers, and the choice of the
      scheduler for a new coroutine. What user code keeps is a field of the scheduler's
      world ([sw_user]). Switching: what a switch leaves as it was.
      Sleeping: a sleep, from the constructor through any number of turns.
    - Channel, ChannelHandles, CoMutex: src/channel.cc, the handles [Channel<T>] of
      include/channel.h, and src/mutex.cc.
    - ChannelRun, ChannelTraffic, ChannelLimit: the operations of a channel as the coroutines of one
      scheduler carry them out: a call that waits yields, the call that serves it makes
      its coroutine ready, the loop resumes it. ChannelRun has the definitions, the
      invariant and one operation, ChannelTraffic the loop and the theorem on producers and
      consumers, ChannelLimit a read whose time limit ends.
    - Sock, IoWait: src/sock.cc and src/io_event.cc. A loop around a system call runs
      against the list of the answers that the kernel gives to it; IoWait follows one wait
      through the event, epoll, the socket context and the scheduler.
    - Net, TcpServer: include/byte_order.h, the addresses of include/sock.h, and
      include/net/: addresses, connections, sockets and the accepting server.
    - PbRuntime, PbMessages, PbSchema: the generated classes under include/rpc/protos/gen,
      what they use of the protocol-buffer runtime, and the schema that each generated
      file carries.
    - Protocol: include/rpc/protocol.h, include/rpc/protocols/hello.h,
      include/rpc/protocol_manager.h: protocols, their serialisers and the registry.
    - Rpc, RpcServing: src/rpc/rpc_protocol_handler.cc, include/protocol/protocol_handler.h,
      [NetworkServer] of include/net/server.h and src/rpc/rpc_server_provider.cc: frames
      and the server, cut where its coroutines wait so that they interleave; what several
      connections do to each other.
    - RpcClient, RpcSystem: include/rpc/rpc_client.h and src/rpc/rpc_client.cc; a client
      and a server with the bytes between them as one system.

    ** Code outside of the repository

    It is a parameter, as a class of functions with laws that state its documented
    behaviour, and has an instance that satisfies them: the kernel's side of epoll
    ([EpollKernel], [EpollLaws] in Epoll), its tables of descriptors and the allocator
    ([FdKernel], [FdLaws] in EpollLife), the system calls of sockets ([NetKernel]) and the
    text of addresses ([InetText] in Net), the dispositions of signals ([SigKernel] in
    Os), the mutexes and the once-controls of pthread ([PthreadMutex] in ThreadLock,
    [PthreadOnce] in Singletons), and the protocol-buffer runtime ([PbRuntime],
    [PbRuntimeLaws] in PbRuntime, with varints and delimited fields written out in
    [WireRuntime]). What the compiler leaves behind an array is one, too ([FrameLayout]). The clocks and the user's functions are arguments of the definitions
    that call them.

    ** What is proved

    - Remote calls: in a client and a server with one connection, for calls that begin when
      the send channel has room and messages that fit in frames, whatever the
      interleaving and however the kernel splits the bytes, every call gets the answer to
      its own request ([rpc_answers_right]) and all calls end, by their answer or by their time
      limit ([rpc_calls_answered]). This
      rests on round trips of messages, serialisers and frames ([message_round_trip],
      [serializers_round_trip], [frame_round_trip]), on a server that answers a request
      with one frame ([server_answers], [hello_call_end_to_end]) and on ids that find
      their calls ([responses_reach_their_calls]). Parsing ends on every input
      ([InternalParse_total]); the generated classes do what their schema says
      ([generated_classes_follow_schema]).
    - Coroutines: a jump to a context and back restores the registers and the stack on
      each of the five machines; a first jump enters the function with its arguments
      ([context_switch_back], [context_first_entry]). A coroutine displaced from its shared
      stack finds it again ([shared_stack_round_trip]); one pass of the loop resumes the
      ready coroutines in order, each where it had yielded ([ready_tasks_resumed_in_order] in
      Switching); tasks are handed over in
      order and not forgotten, whatever the interleaving of producers and loop
      ([TaskManager_concurrent_fifo], [no_lost_wakeup]); the pool hands out unused
      coroutines in their initial state ([Copoll_Pop_unused]); the interest list of a
      scheduler and the socket contexts stay in step ([epoll_ops_in_sync], with the
      exception of [DelEvRead_foreign_writer]), and a wait for a socket is resumed ([io_wait_resumed]); the
      timers that are due are taken in order of their deadlines ([timer_container],
      [CollectTimeoutTasks_spec]).
    - Synchronisation: producers and consumers that a new scheduler runs over one channel
      come to their end after a bounded number of turns of the loop, each consumer with
      the blocks it was given, in the order of the sends
      ([producers_and_consumers_finish]: from the constructors, through stack switching,
      the task queues and the channel); a read with a time limit that nobody serves ends in
      the first turn that finds the limit over ([read_time_limit]). A channel is a bounded queue for buffers that
      are not on the stacks of coroutines that wait ([channel_ops_refine], [channel_fifo]) that lives as long as its handles ([handles_sound],
      [channel_handed_over]); the mutex of coroutines excludes in every interleaving,
      hands itself over in order and starves nobody ([mutex_exclusion],
      [mutex_hand_over], [mutex_no_starvation]); operations under a mutex of threads are
      atomic and end ([guarded_ops_atomic], [guarded_ops_finish]); singletons are made
      once ([singleton_once]); the implementations of the atomic operations agree
      ([atomic_branches_agree]).
    - Sockets: [recvn] and [send] move exactly the bytes asked for ([recvn_exact],
      [send_exact]); a socket closes its descriptor once unless a [Reset]
      sleeps ([socket_lifecycle], [Reset_wait_closes_twice]);
      the server starts a coroutine for each accepted connection
      ([server_start_and_loop]); an [Epoll] gives back what it took
      ([epoll_life_balanced]).
    - Text and signals: formatting is exact and bounded ([formatInteger_exact],
      [formatSI_width_and_value], [Stream_out_double_safe], [log_line_is_its_items]);
      signal handlers, but not their flags, are put back ([signal_handlers_round_trip]).
    - Where the code goes wrong: theorems of the form "the operation does ... instead",
      such as [second_connection_starves_first], [server_stops_after_disconnect],
      [response_misrouted], [second_waiter_lost], [sleep_never_ends], [Encode_overruns],
      [ended_reader_resumed], [recycled_after_yield_faults], [restore_overruns_stack], [channel_waiter_lost],
      [SendProtocol_hides_errors], [request_ids_collide], [arm64_loses_fp_registers]. The
      positive theorems have the hypotheses that exclude these cases; those of
      [rpc_calls_answered], for instance, are one connection, messages that fit in a frame
      and have no zero byte, and room in the send channel when a call begins. In RpcSystem the end of a time limit
      is a step of its own; a timer that outlives its wait ([timer_outlives_its_wait]) can
      end a later wait of its coroutine, as such a step does, but also resume a coroutine
      that has ended, which is not part of that system.

    ** Fuel

    Loops that are not structural take fuel, and a lemma says how much is enough:
    [convert_loop] and [convertHex_loop] as many turns as a 64-bit value has digits
    ([formatInteger_exact]), [parse_all] one for each byte and one more
    ([InternalParse_total]), [dec_exp] the 632 decimal exponents that finite doubles have,
    [wire_fields] one for each byte. Loops over the timers, the waiters
    of a channel and the queues are structural. The loops of Sock, the wake-up and the
    event loop run against the list of answers that they are given: no result means that
    they still wait. [conn_loop], which calls a delegate until the connection is closed, is
    as long as the peer makes it; [socket_else] never has enough.

    ** What is not modelled

    The Windows and Apple branches, and the code of the context switch for them
    (context_x64.asm, context_x86.asm and the parts of the .S files that ELF systems do not
    assemble); what include/base and include/log only declare, since its code is in
    prebuilt libraries (starting and joining threads, the destinations of the log);
    memory orders: an atomic operation is one step; the arenas and the reflection of
    the generated classes, and their accessors that pass ownership of a string (release,
    set_allocated), which depend on the representation of empty strings in the runtime;
    include/protocol/protocol_message.h, whose wrapper calls pure virtual functions by
    their qualified names and has methods that return nothing; nothing uses it.

    ** Further work

    Several clients of one server, and a channel between several schedulers with the turns
    of their loops interleaved ([channel_fifo] has the operations in any order already);
    time limits in ChannelTraffic, which need a wait that removes its timer; the time limit of the send channel
    (infinite in [kDefaultParams]); the accessors named above. *)

From stdpp Require Import base numbers list sorting.
From Stdlib Require Import Lia ZArith.

Open Scope Z_scope.

(** ** Machine integers

    A value of a C++ integer type is a [Z]; every conversion to a type of [w]
    bits is written out with the wrap-around of two's complement. *)

Definition uwrap (w z : Z) : Z := z mod 2 ^ w.

Definition swrap (w z : Z) : Z := (z + 2 ^ (w - 1)) mod 2 ^ w - 2 ^ (w - 1).

Abbreviation u8 := (uwrap 8).
Abbreviation u16 := (uwrap 16).
Abbreviation u32 := (uwrap 32).
Abbreviation u64 := (uwrap 64).
Abbreviation i32 := (swrap 32).
Abbreviation i64 := (swrap 64).

(** The limits [def.h] derives from the complement of zero; [~] works on the value
    promoted to [int] (32 bits) or kept at 64 bits, and the cast truncates it. *)
Definition MAX_UINT8 : Z := u8 (Z.lnot (u8 0)).
Definition MAX_UINT16 : Z := u16 (Z.lnot (u16 0)).
Definition MAX_UINT32 : Z := u32 (Z.lnot (u32 0)).
Definition MAX_UINT64 : Z := u64 (Z.lnot (u64 0)).
Definition MAX_INT8 : Z := swrap 8 (Z.shiftr MAX_UINT8 1).
Definition MAX_INT16 : Z := swrap 16 (Z.shiftr MAX_UINT16 1).
Definition MAX_INT32 : Z := i32 (Z.shiftr MAX_UINT32 1).
Definition MAX_INT64 : Z := i64 (Z.shiftr MAX_UINT64 1).
Definition MIN_INT8 : Z := swrap 8 (Z.lnot MAX_INT8).
Definition MIN_INT16 : Z := swrap 16 (Z.lnot MAX_INT16).
Definition MIN_INT32 : Z := i32 (Z.lnot MAX_INT32).
Definition MIN_INT64 : Z := i64 (Z.lnot MAX_INT64).

(** [eqm w a b]: equal as [w]-bit patterns. *)
Definition eqm (w a b : Z) : Prop := uwrap w a = uwrap w b.

(** ** Behaviours the C++ standard leaves undefined, and failed assertions *)

Inductive fault : Type :=
| OutOfBounds        (* an access outside an array, a vector or a block *)
| DanglingIterator   (* a container iterator that no longer denotes an element *)
| InactiveMember     (* a union member used while another one is active *)
| NullDereference
| AssertionFailed
| DivisionByZero
| BadCast            (* an object used at a type it does not have *)
| BadFree            (* a deletion of an object that is not alive *)
| UseAfterFree.      (* an object used after it was destroyed *)

(** A fallible operation: a value or the fault it runs into. *)
Inductive outcome (A : Type) : Type :=
| Ok (a : A)
| Fault (f : fault).
Arguments Ok {A} a.
Arguments Fault {A} f.

Definition obind {A B : Type} (x : outcome A) (k : A -> outcome B) : outcome B :=
  match x with
  | Ok a => k a
  | Fault f => Fault f
  end.

Declare Scope co_scope.
Delimit Scope co_scope with co.
Notation "'let*' x := e 'in' k" := (obind e (fun x => k))
  (at level 10, x pattern, e at level 200, k at level 200) : co_scope.
Open Scope co_scope.

(** ** Byte blocks

    A block of memory is the list of its bytes (or words). [splice l off src] is the
    block after [memcpy(block + off, src, length src)]; [slice l off n] is what
    [memcpy(_, block + off, n)] reads. *)

Definition splice {A : Type} (l : list A) (off : nat) (src : list A) : list A :=
  take off l ++ src ++ drop (off + length src) l.

Definition slice {A : Type} (l : list A) (off n : nat) : list A :=
  take n (drop off l).

(** ** Numbers as text *)

(** The decimal digits of a value that is not negative, as character codes. *)
Fixpoint decimal_digits (fuel : nat) (v : Z) : list Z :=
  match fuel with
  | O => []
  | S fuel => (if v <? 10 then [] else decimal_digits fuel (v / 10)) ++ [48 + v mod 10]
  end.
(** [std::to_string] of an unsigned value of up to 64 bits. *)
Definition decimal (v : Z) : list Z := decimal_digits 20 v.

(** ** Runs of a step relation *)

Inductive star {S : Type} (step : S -> S -> Prop) : S -> S -> Prop :=
| star_refl s : star step s s
| star_step s1 s2 s3 : step s1 s2 -> star step s2 s3 -> star step s1 s3.

(** [eventually step P s]: whatever steps are taken from [s], a state with [P] is reached
    after finitely many of them, and no run stops before. *)
Inductive eventually {S : Type} (step : S -> S -> Prop) (P : S -> Prop) (s : S) : Prop :=
| eventually_now : P s -> eventually step P s
| eventually_later :
    (exists s', step s s') -> (forall s', step s s' -> eventually step P s') ->
    eventually step P s.

(** ** Automation *)

Create HintDb co.

(** Splits hypotheses that are conjunctions or existentials, and substitutes. *)
Ltac crush_hyps :=
  repeat match goal with
         | H : _ /\ _ |- _ => destruct H
         | H : exists _, _ |- _ => destruct H
         | H : (_, _) = (_, _) |- _ => injection H as ?; subst
         | H : Ok _ = Ok _ |- _ => injection H as ?; subst
         | H : Some _ = Some _ |- _ => injection H as ?; subst
         | H : Fault _ = Ok _ |- _ => discriminate H
         | H : Ok _ = Fault _ |- _ => discriminate H
         | H : None = Some _ |- _ => discriminate H
         | H : Some _ = None |- _ => discriminate H
         end.

(** Case analysis on the boolean tests of integer comparisons in the goal. *)
Ltac case_ztests :=
  repeat match goal with
         | |- context [Z.eqb ?a ?b] => destruct (Z.eqb_spec a b)
         | |- context [Z.ltb ?a ?b] => destruct (Z.ltb_spec a b)
         | |- context [Z.leb ?a ?b] => destruct (Z.leb_spec a b)
         | |- context [Nat.eqb ?a ?b] => destruct (Nat.eqb_spec a b)
         | |- context [Nat.ltb ?a ?b] => destruct (Nat.ltb_spec a b)
         | |- context [Nat.leb ?a ?b] => destruct (Nat.leb_spec a b)
         end.

(** Closes a conjunction of comparisons between closed terms by evaluation. *)
Ltac eval_closed := repeat split; vm_compute; first [reflexivity | discriminate].

(** ** Lemmas on machine integers *)

Lemma uwrap_range w z : 0 <= w -> 0 <= uwrap w z < 2 ^ w.
Proof. intros. apply Z.mod_pos_bound. apply Z.pow_pos_nonneg; lia. Qed.

Lemma uwrap_small w z : 0 <= z < 2 ^ w -> uwrap w z = z.
Proof. apply Z.mod_small. Qed.

Lemma uwrap_idem w z : uwrap w (uwrap w z) = uwrap w z.
Proof. apply Zmod_mod. Qed.

Lemma uwrap_congr w a b k : a = b + k * 2 ^ w -> uwrap w a = uwrap w b.
Proof. intros ->. apply Z_mod_plus_full. Qed.

Lemma uwrap_add_l w a b : uwrap w (uwrap w a + b) = uwrap w (a + b).
Proof. apply Zplus_mod_idemp_l. Qed.

Lemma uwrap_add_r w a b : uwrap w (a + uwrap w b) = uwrap w (a + b).
Proof. apply Zplus_mod_idemp_r. Qed.

Lemma swrap_range w z : 0 < w -> - 2 ^ (w - 1) <= swrap w z < 2 ^ (w - 1).
Proof.
  intros Hw. unfold swrap.
  assert (E : 2 ^ w = 2 * 2 ^ (w - 1)) by (rewrite <- Z.pow_succ_r by lia; f_equal; lia).
  pose proof (Z.mod_pos_bound (z + 2 ^ (w - 1)) (2 ^ w)
                ltac:(apply Z.pow_pos_nonneg; lia)). lia.
Qed.

Lemma swrap_small w z : 0 < w -> - 2 ^ (w - 1) <= z < 2 ^ (w - 1) -> swrap w z = z.
Proof.
  intros Hw Hz. unfold swrap.
  assert (E : 2 ^ w = 2 * 2 ^ (w - 1)) by (rewrite <- Z.pow_succ_r by lia; f_equal; lia).
  rewrite Z.mod_small; lia.
Qed.

(** [swrap] moves a value by a multiple of the modulus. *)
Lemma swrap_congr w z : 0 < w -> exists k, swrap w z = z + k * 2 ^ w.
Proof.
  intros Hw. unfold swrap. exists (- ((z + 2 ^ (w - 1)) / 2 ^ w)).
  pose proof (Z_div_mod_eq_full (z + 2 ^ (w - 1)) (2 ^ w)). lia.
Qed.

Lemma uwrap_swrap w z : 0 < w -> uwrap w (swrap w z) = uwrap w z.
Proof. intros Hw. destruct (swrap_congr w z Hw) as [k E]. by apply (uwrap_congr _ _ _ k). Qed.

Lemma swrap_mod w a b : uwrap w a = uwrap w b -> swrap w a = swrap w b.
Proof.
  unfold uwrap, swrap. intros E. f_equal.
  rewrite <- Zplus_mod_idemp_l, E, Zplus_mod_idemp_l. done.
Qed.

Lemma swrap_uwrap w z : swrap w (uwrap w z) = swrap w z.
Proof. apply swrap_mod, uwrap_idem. Qed.

#[export] Hint Resolve uwrap_range swrap_range : co.

(** ** Equality of bit patterns is a congruence for the operators of C++ *)

#[export] Instance eqm_equivalence w : Equivalence (eqm w).
Proof. unfold eqm. split; congruence. Qed.

Lemma uwrap_eqm w a : eqm w (uwrap w a) a.
Proof. apply uwrap_idem. Qed.

Lemma swrap_eqm w a : 0 < w -> eqm w (swrap w a) a.
Proof. apply uwrap_swrap. Qed.

#[export] Instance eqm_add w : Proper (eqm w ==> eqm w ==> eqm w) Z.add.
Proof.
  intros a a' Ha b b' Hb. unfold eqm in *.
  rewrite <- uwrap_add_l, Ha, uwrap_add_l, <- uwrap_add_r, Hb. apply uwrap_add_r.
Qed.

#[export] Instance eqm_opp w : Proper (eqm w ==> eqm w) Z.opp.
Proof.
  intros a a' Ha. unfold eqm, uwrap in *.
  rewrite <- !Z.sub_0_l, <- Zminus_mod_idemp_r, Ha, Zminus_mod_idemp_r. done.
Qed.

#[export] Instance eqm_sub w : Proper (eqm w ==> eqm w ==> eqm w) Z.sub.
Proof. intros a a' Ha b b' Hb. rewrite <- !Z.add_opp_r, Ha, Hb. done. Qed.

Lemma eqm_bitwise w (f : Z -> Z -> Z) (g : bool -> bool -> bool) :
  0 <= w -> (forall a b n, Z.testbit (f a b) n = g (Z.testbit a n) (Z.testbit b n)) ->
  forall a a' b b', eqm w a a' -> eqm w b b' -> eqm w (f a b) (f a' b').
Proof.
  intros Hw Hf a a' b b' Ha Hb. unfold eqm, uwrap in *. apply Z.bits_inj'. intros n Hn.
  rewrite !Z.testbit_mod_pow2 by lia. destruct (n <? w) eqn:E; [|done]. simpl.
  rewrite !Hf. f_equal.
  - apply (f_equal (fun z => Z.testbit z n)) in Ha.
    by rewrite !Z.testbit_mod_pow2, E in Ha by lia.
  - apply (f_equal (fun z => Z.testbit z n)) in Hb.
    by rewrite !Z.testbit_mod_pow2, E in Hb by lia.
Qed.

(** ** Lemmas on blocks *)

Lemma length_splice {A} (l : list A) off src :
  (off + length src <= length l)%nat -> length (splice l off src) = length l.
Proof. intros H. unfold splice. rewrite !length_app, length_take, length_drop. lia. Qed.

Lemma lookup_splice_inside {A} (l : list A) off src i :
  (off + length src <= length l)%nat -> (off <= i < off + length src)%nat ->
  splice l off src !! i = src !! (i - off)%nat.
Proof.
  intros Hl Hi. unfold splice.
  rewrite lookup_app_r by (rewrite length_take; lia).
  rewrite length_take_le by lia. rewrite lookup_app_l by lia. done.
Qed.

Lemma lookup_splice_outside {A} (l : list A) off src i :
  (off + length src <= length l)%nat -> (i < off \/ off + length src <= i)%nat ->
  splice l off src !! i = l !! i.
Proof.
  intros Hl Hi. unfold splice. destruct (decide (i < off)%nat).
  - rewrite lookup_app_l by (rewrite length_take; lia). by rewrite lookup_take_lt by lia.
  - rewrite lookup_app_r by (rewrite length_take; lia). rewrite length_take_le by lia.
    rewrite lookup_app_r by lia. rewrite lookup_drop. f_equal. lia.
Qed.

Lemma lookup_slice {A} (l : list A) off n i :
  slice l off n !! i = if decide (i < n)%nat then l !! (off + i)%nat else None.
Proof.
  unfold slice. case_decide.
  - by rewrite lookup_take_lt, lookup_drop by lia.
  - apply lookup_ge_None. rewrite length_take. lia.
Qed.

Lemma length_slice {A} (l : list A) off n :
  (off + n <= length l)%nat -> length (slice l off n) = n.
Proof. intros H. unfold slice. rewrite length_take, length_drop. lia. Qed.

(** Reading back a block just written. *)
Lemma slice_splice {A} (l : list A) off src :
  (off + length src <= length l)%nat -> slice (splice l off src) off (length src) = src.
Proof.
  intros H. unfold slice, splice.
  rewrite drop_app_length' by (rewrite length_take; lia).
  by rewrite take_app_length.
Qed.

(** Reading a range that a write did not touch. *)
Lemma slice_splice_disjoint {A} (l : list A) off src off' n :
  (off + length src <= length l)%nat ->
  (off' + n <= off \/ off + length src <= off')%nat ->
  slice (splice l off src) off' n = slice l off' n.
Proof.
  intros Hl Hd. apply list_eq. intros i. rewrite !lookup_slice.
  case_decide; [|done]. rewrite lookup_splice_outside by lia. done.
Qed.

(** A sum over a list after one of its elements has been replaced. *)
Lemma sum_list_with_insert {A} (f : A -> nat) (l : list A) i x y :
  l !! i = Some x -> (sum_list_with f (<[i := y]> l) + f x = sum_list_with f l + f y)%nat.
Proof.
  intros Hi. pose proof (lookup_lt_Some _ _ _ Hi) as Hlt.
  rewrite <- (take_drop_middle l i x Hi) at 2.
  rewrite insert_take_drop by done. rewrite !sum_list_with_app. cbn. lia.
Qed.

(** ** Lemmas on runs *)

Section star_facts.
Context {S : Type} (step : S -> S -> Prop).

Lemma star_one s1 s2 : step s1 s2 -> star step s1 s2.
Proof. intros H. eapply star_step; [exact H | constructor]. Qed.

Lemma star_trans s1 s2 s3 : star step s1 s2 -> star step s2 s3 -> star step s1 s3.
Proof. induction 1; intros; [done|]. econstructor; eauto. Qed.

(** An invariant of the steps holds of every state a run reaches. *)
Lemma star_invariant (P : S -> Prop) :
  (forall s1 s2, P s1 -> step s1 s2 -> P s2) ->
  forall s1 s2, star step s1 s2 -> P s1 -> P s2.
Proof. intros Hstep s1 s2 Hrun. induction Hrun; eauto. Qed.
End star_facts.

(** Progress by a rank: under an invariant that carries a rank, a state without [P] can take
    a step, and every step of it leads to a state with a lower rank. *)
Lemma eventually_ranked {S : Type} (step : S -> S -> Prop) (P : S -> Prop) (I : nat -> S -> Prop) :
  (forall n s, I n s -> P s \/ (exists s', step s s') /\ forall s', step s s' -> exists n', (n' < n)%nat /\ I n' s') ->
  forall n s, I n s -> eventually step P s.
Proof.
  intros H n. induction n as [n IH] using lt_wf_ind. intros s Hs.
  destruct (H n s Hs) as [HP|[Hex Hall]]; [by left|].
  right; [done|]. intros s' Hstep. destruct (Hall s' Hstep) as (n' & Hlt & HI). eauto.
Qed.

(** Progress by a measure: the rank is a function of the state. *)
Lemma eventually_measure {S : Type} (step : S -> S -> Prop) (P I : S -> Prop) (mu : S -> nat) :
  (forall s, I s -> P s \/ (exists s', step s s') /\ forall s', step s s' -> I s' /\ (mu s' < mu s)%nat) ->
  forall s, I s -> eventually step P s.
Proof.
  intros H s Hs. apply (eventually_ranked step P (fun n s => I s /\ mu s = n)) with (mu s); [|done].
  intros n s' [HI <-]. destruct (H s' HI) as [HP|[Hex Hall]]; [by left|right]. split; [done|].
  intros s'' Hstep. destruct (Hall s'' Hstep). by exists (mu s'').
Qed.

Lemma eventually_mono {S : Type} (step : S -> S -> Prop) (P Q : S -> Prop) s :
  eventually step P s -> (forall s', P s' -> Q s') -> eventually step Q s.
Proof. induction 1; intros HPQ; [left; auto|right; auto]. Qed.

#[export] Hint Resolve star_refl star_one : co.
