(* ===== verification/Atomic.v ===== *)
(** * atomic.h and base/atomic_int.h

    The three preprocessor branches of [atomic.h] (MSVC intrinsics, the
    [__atomic] builtins, the [__sync] builtins) as functions on the bit pattern of a
    memory cell. Each operation takes the cell and returns the new cell and the
    returned value. Atomicity is what makes this sequential view adequate: an
    interleaving of threads is a sequence of whole operations (see
    [atomic_adds_any_order]). *)

From stdpp Require Import base numbers list sorting.
From Stdlib Require Import Lia ZArith.
From S2P Require Import Prelude.

(** ** Integer types *)

(** [xx::I<n>]: the sizes an atomic cell can have, in bytes. *)
Inductive isz : Type := I1 | I2 | I4 | I8.

Definition sizeof (i : isz) : Z :=
  match i with I1 => 1 | I2 => 2 | I4 => 4 | I8 => 8 end.

(** A C++ integer type. *)
Record ity : Type := Ity { isize : isz; isigned : bool }.

Definition bits (t : ity) : Z := 8 * sizeof (isize t).

(** Conversion of a value to type [t]. *)
Definition cast (t : ity) (z : Z) : Z :=
  if isigned t then swrap (bits t) z else uwrap (bits t) z.

(** [it::type]: char, short, long, long long, all signed. *)
Definition it_type (i : isz) : ity := Ity i true.

(** Reading a cell as a [t], and the bit pattern a [t] leaves in it. *)
Definition cell_load (t : ity) (p : Z) : Z := cast t p.
Definition cell_store (t : ity) (z : Z) : Z := uwrap (bits t) z.

(** The types the library's atomics are used at. *)
Definition uint8 : ity := Ity I1 false.
Definition uint32 : ity := Ity I4 false.
Definition int32 : ity := Ity I4 true.

(** ** Compiler builtins: new cell and returned value *)

Definition add_fetch (t : ity) (p v : Z) : Z * Z :=
  let n := cast t (cell_load t p + cast t v) in (cell_store t n, n).
Definition sub_fetch (t : ity) (p v : Z) : Z * Z :=
  let n := cast t (cell_load t p - cast t v) in (cell_store t n, n).
Definition fetch_add (t : ity) (p v : Z) : Z * Z :=
  (cell_store t (cast t (cell_load t p + cast t v)), cell_load t p).
Definition fetch_sub (t : ity) (p v : Z) : Z * Z :=
  (cell_store t (cast t (cell_load t p - cast t v)), cell_load t p).
Definition bit_fetch (f : Z -> Z -> Z) (t : ity) (p v : Z) : Z * Z :=
  let n := cast t (f (cell_load t p) (cast t v)) in (cell_store t n, n).
Definition fetch_bit (f : Z -> Z -> Z) (t : ity) (p v : Z) : Z * Z :=
  (cell_store t (cast t (f (cell_load t p) (cast t v))), cell_load t p).
Definition exchange_n (t : ity) (p v : Z) : Z * Z := (cell_store t v, cell_load t p).

(** [__atomic_compare_exchange_n(p, &x, v, ...)]: the new cell, and [x] after the
    call: unchanged on success, the value found on failure. *)
Definition compare_exchange_n (t : ity) (p x v : Z) : Z * Z :=
  if cell_load t p =? x then (cell_store t v, x) else (p, cell_load t p).

(** [__sync_val_compare_and_swap(p, o, v)]: returns the value found. *)
Definition val_compare_and_swap (t : ity) (p o v : Z) : Z * Z :=
  if cell_load t p =? o then (cell_store t v, cell_load t p) else (p, cell_load t p).

(** MSVC's [_Interlocked*] intrinsics on a cell of size [i]. *)
Definition InterlockedExchangeAdd (i : isz) (p v : Z) : Z * Z :=
  (cell_store (it_type i) (cell_load (it_type i) p + v), cell_load (it_type i) p).
Definition InterlockedIncrement (i : isz) (p : Z) : Z * Z :=
  let n := cast (it_type i) (cell_load (it_type i) p + 1) in (cell_store (it_type i) n, n).
Definition InterlockedDecrement (i : isz) (p : Z) : Z * Z :=
  let n := cast (it_type i) (cell_load (it_type i) p - 1) in (cell_store (it_type i) n, n).
Definition InterlockedBit (f : Z -> Z -> Z) (i : isz) (p v : Z) : Z * Z :=
  (cell_store (it_type i) (f (cell_load (it_type i) p) v), cell_load (it_type i) p).
Definition InterlockedExchange (i : isz) (p v : Z) : Z * Z :=
  (cell_store (it_type i) v, cell_load (it_type i) p).
Definition InterlockedCompareExchange (i : isz) (p v o : Z) : Z * Z :=
  if cell_load (it_type i) p =? o then (cell_store (it_type i) v, cell_load (it_type i) p)
  else (p, cell_load (it_type i) p).

(** ** The MSVC branch: overloads selected by the cell's size *)

Definition xx_atomic_inc (i : isz) (p : Z) : Z * Z :=
  match i with
  | I1 => let '(m, r) := InterlockedExchangeAdd I1 p 1 in (m, cast (it_type I1) (r + 1))
  | I2 | I4 | I8 => InterlockedIncrement i p
  end.
Definition xx_atomic_dec (i : isz) (p : Z) : Z * Z :=
  match i with
  | I1 => let '(m, r) := InterlockedExchangeAdd I1 p (-1) in (m, cast (it_type I1) (r - 1))
  | I2 | I4 | I8 => InterlockedDecrement i p
  end.
Definition xx_atomic_add (i : isz) (p v : Z) : Z * Z :=
  let '(m, r) := InterlockedExchangeAdd i p v in (m, cast (it_type i) (r + v)).
Definition xx_atomic_sub (i : isz) (p v : Z) : Z * Z :=
  let '(m, r) := InterlockedExchangeAdd i p (- v) in (m, cast (it_type i) (r - v)).
Definition xx_atomic_fetch_inc (i : isz) (p : Z) : Z * Z := InterlockedExchangeAdd i p 1.
Definition xx_atomic_fetch_dec (i : isz) (p : Z) : Z * Z := InterlockedExchangeAdd i p (-1).
Definition xx_atomic_fetch_add (i : isz) (p v : Z) : Z * Z := InterlockedExchangeAdd i p v.
Definition xx_atomic_fetch_sub (i : isz) (p v : Z) : Z * Z := InterlockedExchangeAdd i p (- v).
Definition xx_atomic_or (i : isz) (p v : Z) : Z * Z :=
  let '(m, r) := InterlockedBit Z.lor i p v in (m, cast (it_type i) (Z.lor r v)).
Definition xx_atomic_and (i : isz) (p v : Z) : Z * Z :=
  let '(m, r) := InterlockedBit Z.land i p v in (m, cast (it_type i) (Z.land r v)).
Definition xx_atomic_xor (i : isz) (p v : Z) : Z * Z :=
  let '(m, r) := InterlockedBit Z.lxor i p v in (m, cast (it_type i) (Z.lxor r v)).
Definition xx_atomic_fetch_or (i : isz) (p v : Z) : Z * Z := InterlockedBit Z.lor i p v.
Definition xx_atomic_fetch_and (i : isz) (p v : Z) : Z * Z := InterlockedBit Z.land i p v.
Definition xx_atomic_fetch_xor (i : isz) (p v : Z) : Z * Z := InterlockedBit Z.lxor i p v.
Definition xx_atomic_swap (i : isz) (p v : Z) : Z * Z := InterlockedExchange i p v.
Definition xx_atomic_compare_swap (i : isz) (p o v : Z) : Z * Z :=
  InterlockedCompareExchange i p v o.

(** The templates on top of them: the argument goes to [it::type], the result to [T]. *)

Definition msvc_atomic_inc (t : ity) (p : Z) : Z * Z :=
  let '(m, r) := xx_atomic_inc (isize t) p in (m, cast t r).
Definition msvc_atomic_dec (t : ity) (p : Z) : Z * Z :=
  let '(m, r) := xx_atomic_dec (isize t) p in (m, cast t r).
Definition msvc_atomic_add (t : ity) (p v : Z) : Z * Z :=
  let '(m, r) := xx_atomic_add (isize t) p (cast (it_type (isize t)) v) in (m, cast t r).
Definition msvc_atomic_sub (t : ity) (p v : Z) : Z * Z :=
  let '(m, r) := xx_atomic_sub (isize t) p (cast (it_type (isize t)) v) in (m, cast t r).
Definition msvc_atomic_fetch_inc (t : ity) (p : Z) : Z * Z :=
  let '(m, r) := xx_atomic_fetch_inc (isize t) p in (m, cast t r).
Definition msvc_atomic_fetch_dec (t : ity) (p : Z) : Z * Z :=
  let '(m, r) := xx_atomic_fetch_dec (isize t) p in (m, cast t r).
Definition msvc_atomic_fetch_add (t : ity) (p v : Z) : Z * Z :=
  let '(m, r) := xx_atomic_fetch_add (isize t) p (cast (it_type (isize t)) v) in (m, cast t r).
Definition msvc_atomic_fetch_sub (t : ity) (p v : Z) : Z * Z :=
  let '(m, r) := xx_atomic_fetch_sub (isize t) p (cast (it_type (isize t)) v) in (m, cast t r).
Definition msvc_atomic_or (t : ity) (p v : Z) : Z * Z :=
  let '(m, r) := xx_atomic_or (isize t) p (cast (it_type (isize t)) v) in (m, cast t r).
Definition msvc_atomic_and (t : ity) (p v : Z) : Z * Z :=
  let '(m, r) := xx_atomic_and (isize t) p (cast (it_type (isize t)) v) in (m, cast t r).
Definition msvc_atomic_xor (t : ity) (p v : Z) : Z * Z :=
  let '(m, r) := xx_atomic_xor (isize t) p (cast (it_type (isize t)) v) in (m, cast t r).
Definition msvc_atomic_fetch_or (t : ity) (p v : Z) : Z * Z :=
  let '(m, r) := xx_atomic_fetch_or (isize t) p (cast (it_type (isize t)) v) in (m, cast t r).
Definition msvc_atomic_fetch_and (t : ity) (p v : Z) : Z * Z :=
  let '(m, r) := xx_atomic_fetch_and (isize t) p (cast (it_type (isize t)) v) in (m, cast t r).
Definition msvc_atomic_fetch_xor (t : ity) (p v : Z) : Z * Z :=
  let '(m, r) := xx_atomic_fetch_xor (isize t) p (cast (it_type (isize t)) v) in (m, cast t r).
Definition msvc_atomic_swap (t : ity) (p v : Z) : Z * Z :=
  let '(m, r) := xx_atomic_swap (isize t) p (cast (it_type (isize t)) v) in (m, cast t r).
Definition msvc_atomic_compare_swap (t : ity) (p o v : Z) : Z * Z :=
  let '(m, r) := xx_atomic_compare_swap (isize t) p (cast (it_type (isize t)) o)
                   (cast (it_type (isize t)) v) in (m, cast t r).
Definition msvc_atomic_get (t : ity) (p : Z) : Z * Z := msvc_atomic_fetch_xor t p 0.
Definition msvc_atomic_set (t : ity) (p v : Z) : Z := fst (msvc_atomic_swap t p v).
Definition msvc_atomic_reset (t : ity) (p : Z) : Z := fst (msvc_atomic_swap t p 0).

(** ** The [__atomic] branch (clang, gcc 4.7 and later), the one Linux builds use *)

Definition atomic_inc (t : ity) (p : Z) : Z * Z := add_fetch t p 1.
Definition atomic_dec (t : ity) (p : Z) : Z * Z := sub_fetch t p 1.
Definition atomic_add (t : ity) (p v : Z) : Z * Z := add_fetch t p v.
Definition atomic_sub (t : ity) (p v : Z) : Z * Z := sub_fetch t p v.
Definition atomic_fetch_inc (t : ity) (p : Z) : Z * Z := fetch_add t p 1.
Definition atomic_fetch_dec (t : ity) (p : Z) : Z * Z := fetch_sub t p 1.
Definition atomic_fetch_add (t : ity) (p v : Z) : Z * Z := fetch_add t p v.
Definition atomic_fetch_sub (t : ity) (p v : Z) : Z * Z := fetch_sub t p v.
Definition atomic_or (t : ity) (p v : Z) : Z * Z := bit_fetch Z.lor t p v.
Definition atomic_and (t : ity) (p v : Z) : Z * Z := bit_fetch Z.land t p v.
Definition atomic_xor (t : ity) (p v : Z) : Z * Z := bit_fetch Z.lxor t p v.
Definition atomic_fetch_or (t : ity) (p v : Z) : Z * Z := fetch_bit Z.lor t p v.
Definition atomic_fetch_and (t : ity) (p v : Z) : Z * Z := fetch_bit Z.land t p v.
Definition atomic_fetch_xor (t : ity) (p v : Z) : Z * Z := fetch_bit Z.lxor t p v.
Definition atomic_swap (t : ity) (p v : Z) : Z * Z := exchange_n t p (cast t v).
Definition atomic_compare_swap (t : ity) (p o v : Z) : Z * Z :=
  compare_exchange_n t p (cast t o) (cast t v).
Definition atomic_get (t : ity) (p : Z) : Z * Z := (p, cell_load t p).
Definition atomic_set (t : ity) (p v : Z) : Z := cell_store t (cast t v).
Definition atomic_reset (t : ity) (p : Z) : Z := cell_store t (cast t 0).

(** ** The [__sync] branch (gcc 4.1 to 4.6) *)

Definition sync_atomic_inc (t : ity) (p : Z) : Z * Z := add_fetch t p 1.
Definition sync_atomic_dec (t : ity) (p : Z) : Z * Z := sub_fetch t p 1.
Definition sync_atomic_add (t : ity) (p v : Z) : Z * Z := add_fetch t p v.
Definition sync_atomic_sub (t : ity) (p v : Z) : Z * Z := sub_fetch t p v.
Definition sync_atomic_fetch_inc (t : ity) (p : Z) : Z * Z := fetch_add t p 1.
Definition sync_atomic_fetch_dec (t : ity) (p : Z) : Z * Z := fetch_sub t p 1.
Definition sync_atomic_fetch_add (t : ity) (p v : Z) : Z * Z := fetch_add t p v.
Definition sync_atomic_fetch_sub (t : ity) (p v : Z) : Z * Z := fetch_sub t p v.
Definition sync_atomic_or (t : ity) (p v : Z) : Z * Z := bit_fetch Z.lor t p v.
Definition sync_atomic_and (t : ity) (p v : Z) : Z * Z := bit_fetch Z.land t p v.
Definition sync_atomic_xor (t : ity) (p v : Z) : Z * Z := bit_fetch Z.lxor t p v.
Definition sync_atomic_fetch_or (t : ity) (p v : Z) : Z * Z := fetch_bit Z.lor t p v.
Definition sync_atomic_fetch_and (t : ity) (p v : Z) : Z * Z := fetch_bit Z.land t p v.
Definition sync_atomic_fetch_xor (t : ity) (p v : Z) : Z * Z := fetch_bit Z.lxor t p v.
Definition sync_atomic_swap (t : ity) (p v : Z) : Z * Z := exchange_n t p (cast t v).
Definition sync_atomic_compare_swap (t : ity) (p o v : Z) : Z * Z :=
  val_compare_and_swap t p (cast t o) (cast t v).
Definition sync_atomic_get (t : ity) (p : Z) : Z * Z := sync_atomic_fetch_or t p 0.
Definition sync_atomic_set (t : ity) (p v : Z) : Z := fst (exchange_n t p (cast t v)).
Definition sync_atomic_reset (t : ity) (p : Z) : Z := cell_store t 0.

(** ** [AtomicIntegerT<T>]: the cell is its [value_] *)

Definition AtomicIntegerT_init : Z := 0.
Definition AtomicIntegerT_Get (t : ity) (p : Z) : Z * Z := val_compare_and_swap t p 0 0.
Definition AtomicIntegerT_GetAndAdd (t : ity) (p x : Z) : Z * Z := fetch_add t p x.
Definition AtomicIntegerT_AddAndGet (t : ity) (p x : Z) : Z * Z :=
  let '(m, r) := AtomicIntegerT_GetAndAdd t p x in (m, cast t (r + x)).
Definition AtomicIntegerT_IncrementAndGet (t : ity) (p : Z) : Z * Z :=
  AtomicIntegerT_AddAndGet t p 1.
Definition AtomicIntegerT_DecrementAndGet (t : ity) (p : Z) : Z * Z :=
  AtomicIntegerT_AddAndGet t p (-1).
Definition AtomicIntegerT_Add (t : ity) (p x : Z) : Z := fst (AtomicIntegerT_GetAndAdd t p x).
Definition AtomicIntegerT_Increment (t : ity) (p : Z) : Z :=
  fst (AtomicIntegerT_IncrementAndGet t p).
Definition AtomicIntegerT_Decrement (t : ity) (p : Z) : Z :=
  fst (AtomicIntegerT_DecrementAndGet t p).
Definition AtomicIntegerT_GetAndSet (t : ity) (p x : Z) : Z * Z := exchange_n t p x.

(** ** All operations of the header, and the code each branch runs for one *)

Inductive atomic_op : Type :=
| AInc
| ADec
| AAdd (v : Z)
| ASub (v : Z)
| AFetchInc
| AFetchDec
| AFetchAdd (v : Z)
| AFetchSub (v : Z)
| AOr (v : Z)
| AAnd (v : Z)
| AXor (v : Z)
| AFetchOr (v : Z)
| AFetchAnd (v : Z)
| AFetchXor (v : Z)
| ASwap (v : Z)
| ACompareSwap (o v : Z)
| AGet
| ASet (v : Z)
| AReset.

Definition run_msvc (t : ity) (op : atomic_op) (p : Z) : Z * option Z :=
  let ret (x : Z * Z) := (fst x, Some (snd x)) in
  match op with
  | AInc => ret (msvc_atomic_inc t p)
  | ADec => ret (msvc_atomic_dec t p)
  | AAdd v => ret (msvc_atomic_add t p v)
  | ASub v => ret (msvc_atomic_sub t p v)
  | AFetchInc => ret (msvc_atomic_fetch_inc t p)
  | AFetchDec => ret (msvc_atomic_fetch_dec t p)
  | AFetchAdd v => ret (msvc_atomic_fetch_add t p v)
  | AFetchSub v => ret (msvc_atomic_fetch_sub t p v)
  | AOr v => ret (msvc_atomic_or t p v)
  | AAnd v => ret (msvc_atomic_and t p v)
  | AXor v => ret (msvc_atomic_xor t p v)
  | AFetchOr v => ret (msvc_atomic_fetch_or t p v)
  | AFetchAnd v => ret (msvc_atomic_fetch_and t p v)
  | AFetchXor v => ret (msvc_atomic_fetch_xor t p v)
  | ASwap v => ret (msvc_atomic_swap t p v)
  | ACompareSwap o v => ret (msvc_atomic_compare_swap t p o v)
  | AGet => ret (msvc_atomic_get t p)
  | ASet v => (msvc_atomic_set t p v, None)
  | AReset => (msvc_atomic_reset t p, None)
  end.

Definition run_gcc (t : ity) (op : atomic_op) (p : Z) : Z * option Z :=
  let ret (x : Z * Z) := (fst x, Some (snd x)) in
  match op with
  | AInc => ret (atomic_inc t p)
  | ADec => ret (atomic_dec t p)
  | AAdd v => ret (atomic_add t p v)
  | ASub v => ret (atomic_sub t p v)
  | AFetchInc => ret (atomic_fetch_inc t p)
  | AFetchDec => ret (atomic_fetch_dec t p)
  | AFetchAdd v => ret (atomic_fetch_add t p v)
  | AFetchSub v => ret (atomic_fetch_sub t p v)
  | AOr v => ret (atomic_or t p v)
  | AAnd v => ret (atomic_and t p v)
  | AXor v => ret (atomic_xor t p v)
  | AFetchOr v => ret (atomic_fetch_or t p v)
  | AFetchAnd v => ret (atomic_fetch_and t p v)
  | AFetchXor v => ret (atomic_fetch_xor t p v)
  | ASwap v => ret (atomic_swap t p v)
  | ACompareSwap o v => ret (atomic_compare_swap t p o v)
  | AGet => ret (atomic_get t p)
  | ASet v => (atomic_set t p v, None)
  | AReset => (atomic_reset t p, None)
  end.

Definition run_sync (t : ity) (op : atomic_op) (p : Z) : Z * option Z :=
  let ret (x : Z * Z) := (fst x, Some (snd x)) in
  match op with
  | AInc => ret (sync_atomic_inc t p)
  | ADec => ret (sync_atomic_dec t p)
  | AAdd v => ret (sync_atomic_add t p v)
  | ASub v => ret (sync_atomic_sub t p v)
  | AFetchInc => ret (sync_atomic_fetch_inc t p)
  | AFetchDec => ret (sync_atomic_fetch_dec t p)
  | AFetchAdd v => ret (sync_atomic_fetch_add t p v)
  | AFetchSub v => ret (sync_atomic_fetch_sub t p v)
  | AOr v => ret (sync_atomic_or t p v)
  | AAnd v => ret (sync_atomic_and t p v)
  | AXor v => ret (sync_atomic_xor t p v)
  | AFetchOr v => ret (sync_atomic_fetch_or t p v)
  | AFetchAnd v => ret (sync_atomic_fetch_and t p v)
  | AFetchXor v => ret (sync_atomic_fetch_xor t p v)
  | ASwap v => ret (sync_atomic_swap t p v)
  | ACompareSwap o v => ret (sync_atomic_compare_swap t p o v)
  | AGet => ret (sync_atomic_get t p)
  | ASet v => (sync_atomic_set t p v, None)
  | AReset => (sync_atomic_reset t p, None)
  end.

(** A cell after a sequence of atomic additions, in the order they took effect. *)
Definition run_adds (t : ity) (vs : list Z) (p : Z) : Z :=
  fold_left (fun m v => fst (atomic_add t m v)) vs p.


(** A cell holds a bit pattern of its size. *)
Definition cell_ok (t : ity) (p : Z) : Prop := 0 <= p < 2 ^ bits t.

(** ** Conversions only look at the bit pattern *)

Lemma bits_pos t : 0 < bits t.
Proof. unfold bits. destruct (isize t); simpl; lia. Qed.
#[export] Hint Resolve bits_pos : co.

Lemma cast_proper t a b : eqm (bits t) a b -> cast t a = cast t b.
Proof. unfold cast. destruct (isigned t); [apply swrap_mod | done]. Qed.

Lemma cast_eqm t z : eqm (bits t) (cast t z) z.
Proof. unfold cast. destruct (isigned t); [apply swrap_eqm; auto with co | apply uwrap_eqm]. Qed.

Lemma cast_type_eqm t z : eqm (bits t) (cast (it_type (isize t)) z) z.
Proof. exact (cast_eqm (it_type (isize t)) z). Qed.

#[export] Instance cast_congr t : Proper (eqm (bits t) ==> eqm (bits t)) (cast t).
Proof. intros a b E. by rewrite (cast_proper t a b E). Qed.

#[export] Instance cast_type_congr t :
  Proper (eqm (bits t) ==> eqm (bits t)) (cast (it_type (isize t))).
Proof. exact (cast_congr (it_type (isize t))). Qed.

Lemma cast_inj t a b : cast t a = cast t b <-> eqm (bits t) a b.
Proof. split; [|apply cast_proper]. intros E. by rewrite <- (cast_eqm t a), E, cast_eqm. Qed.

Lemma cast_eqb_size t t' a b :
  isize t = isize t' -> (cast t a =? cast t b) = (cast t' a =? cast t' b).
Proof.
  intros E. apply eq_true_iff_eq. rewrite !Z.eqb_eq, !cast_inj.
  unfold bits. by rewrite E.
Qed.

Lemma store_load t p : cell_ok t p -> cell_store t p = p.
Proof. intros H. by apply uwrap_small. Qed.

(** The operators are congruences of the bit patterns of a cell. *)
#[export] Instance eqm_lor t : Proper (eqm (bits t) ==> eqm (bits t) ==> eqm (bits t)) Z.lor.
Proof.
  intros a a' Ha b b' Hb. pose proof (bits_pos t).
  apply (eqm_bitwise _ _ orb); [lia | apply Z.lor_spec | done | done].
Qed.
#[export] Instance eqm_land t : Proper (eqm (bits t) ==> eqm (bits t) ==> eqm (bits t)) Z.land.
Proof.
  intros a a' Ha b b' Hb. pose proof (bits_pos t).
  apply (eqm_bitwise _ _ andb); [lia | apply Z.land_spec | done | done].
Qed.
#[export] Instance eqm_lxor t : Proper (eqm (bits t) ==> eqm (bits t) ==> eqm (bits t)) Z.lxor.
Proof.
  intros a a' Ha b b' Hb. pose proof (bits_pos t).
  apply (eqm_bitwise _ _ xorb); [lia | apply Z.lxor_spec | done | done].
Qed.


(** The two shapes of an equation between operations: the cell and the result. *)
Lemma store_proper t a b : eqm (bits t) a b -> cell_store t a = cell_store t b.
Proof. done. Qed.

Lemma store_type t z : cell_store (it_type (isize t)) z = cell_store t z.
Proof. done. Qed.

Ltac bit_patterns t :=
  rewrite ?store_type;
  first [ apply store_proper | apply cast_proper ];
  unfold cell_load; rewrite ?cast_type_eqm, ?cast_eqm, ?cast_type_eqm; try reflexivity.

Lemma msvc_compare_swap_eq t p o v :
  cell_ok t p -> msvc_atomic_compare_swap t p o v = atomic_compare_swap t p o v.
Proof.
  intros Hp. unfold msvc_atomic_compare_swap, xx_atomic_compare_swap,
    InterlockedCompareExchange, atomic_compare_swap, compare_exchange_n, cell_load.
  rewrite (cast_eqb_size (it_type (isize t)) t) by done.
  destruct (Z.eqb_spec (cast t p) (cast t o)) as [E|E].
  - f_equal; [bit_patterns t|]. rewrite <- E. bit_patterns t.
  - f_equal. bit_patterns t.
Qed.

(** The one-byte overloads, built from an exchange-add, agree with the increments. *)
Lemma xx_inc_eq i p : xx_atomic_inc i p = InterlockedIncrement i p.
Proof. destruct i; try done. apply pair_eq; split; bit_patterns (it_type I1). Qed.

Lemma xx_dec_eq i p : xx_atomic_dec i p = InterlockedDecrement i p.
Proof. destruct i; try done. apply pair_eq; split; bit_patterns (it_type I1). Qed.

Lemma msvc_run_eq t op p : cell_ok t p -> run_msvc t op p = run_gcc t op p.
Proof.
  intros Hp. destruct op; unfold run_msvc, run_gcc; cbv zeta.
  16: by rewrite msvc_compare_swap_eq.
  all: unfold msvc_atomic_inc, msvc_atomic_dec, msvc_atomic_get, msvc_atomic_set,
    msvc_atomic_reset; rewrite ?xx_inc_eq, ?xx_dec_eq.
  all: apply pair_eq; split; try done; try (apply (f_equal Some)); try (bit_patterns t).
  16: { change (cell_store t (Z.lxor (cast (it_type (isize t)) p) (cast (it_type (isize t)) 0)) = p).
       etransitivity; [|apply (store_load t p Hp)].
       apply store_proper. by rewrite !cast_type_eqm, Z.lxor_0_r. }
  all: refine (store_proper t _ _ _); bit_patterns t.
Qed.

Lemma sync_run_eq t op p : cell_ok t p -> run_sync t op p = run_gcc t op p.
Proof.
  intros Hp. destruct op; try done; unfold run_sync, run_gcc; cbv zeta.
  - unfold sync_atomic_compare_swap, val_compare_and_swap, atomic_compare_swap,
      compare_exchange_n.
    by destruct (Z.eqb_spec (cell_load t p) (cast t o)) as [->|].
  - apply pair_eq; split; [|done].
    change (cell_store t (cast t (Z.lor (cast t p) (cast t 0))) = p).
    etransitivity; [|apply (store_load t p Hp)].
    apply store_proper. by rewrite !cast_eqm, Z.lor_0_r.
  - apply pair_eq; split; [|done]. apply store_proper. by rewrite cast_eqm.
Qed.

(** Counting by atomic additions. *)
Lemma atomic_add_cell t p v : fst (atomic_add t p v) = cell_store t (p + v).
Proof. cbn. apply store_proper. unfold cell_load. by rewrite !cast_eqm. Qed.

Lemma run_adds_sum t vs p :
  cell_ok t p -> run_adds t vs p = cell_store t (p + foldr Z.add 0 vs).
Proof.
  unfold run_adds. revert p. induction vs as [|v vs IH]; intros p Hp; cbn [fold_left foldr].
  - by rewrite Z.add_0_r, store_load.
  - rewrite IH, atomic_add_cell.
    + unfold cell_store. rewrite uwrap_add_l. f_equal. lia.
    + rewrite atomic_add_cell. apply uwrap_range. pose proof (bits_pos t). lia.
Qed.

Lemma foldr_add_perm (l l' : list Z) : l ≡ₚ l' -> foldr Z.add 0 l = foldr Z.add 0 l'.
Proof. induction 1; cbn; lia. Qed.

(** ** Properties *)

(** The three preprocessor branches of [atomic.h] implement the same operations:
    for every integer type of 1, 2, 4 or 8 bytes, every operation and every cell, the
    MSVC code, the [__atomic] code and the [__sync] code leave the same bits in the cell
    and return the same value. *)
Theorem atomic_branches_agree t op p :
  cell_ok t p ->
  run_msvc t op p = run_gcc t op p /\ run_sync t op p = run_gcc t op p.
Proof. intros Hp. split; [by apply msvc_run_eq | by apply sync_run_eq]. Qed.

Lemma atomic_branches_agree_witness :
  cell_ok (Ity I1 true) 127 /\
  run_msvc (Ity I1 true) AInc 127 = (128, Some (-128)) /\
  run_msvc (Ity I1 true) AInc 127 = run_gcc (Ity I1 true) AInc 127.
Proof.
  assert (H : cell_ok (Ity I1 true) 127) by (unfold cell_ok; change (bits _) with 8; lia).
  split; [exact H|]. split; [reflexivity|].
  exact (proj1 (atomic_branches_agree (Ity I1 true) AInc 127 H)).
Defined.

(** Atomic additions by concurrent threads commute: whatever the order in which a
    set of [atomic_add]s takes effect, the cell ends as the initial value plus their
    sum, modulo the width of its type. *)
Theorem atomic_adds_any_order t vs vs' p :
  cell_ok t p -> vs ≡ₚ vs' ->
  run_adds t vs' p = run_adds t vs p /\
  run_adds t vs p = uwrap (bits t) (p + foldr Z.add 0 vs).
Proof.
  intros Hp Hvs. rewrite !run_adds_sum by done. by rewrite (foldr_add_perm vs vs' Hvs).
Qed.

Lemma atomic_adds_any_order_witness :
  run_adds uint8 [200; 3; 100] 0 = run_adds uint8 [100; 200; 3] 0 /\
  run_adds uint8 [100; 200; 3] 0 = 47.
Proof.
  split; [|reflexivity].
  refine (proj1 (atomic_adds_any_order uint8 [100; 200; 3] [200; 3; 100] 0 _ _)).
  - unfold cell_ok; change (bits _) with 8; lia.
  - apply (Permutation_cons_app [200; 3] []). rewrite app_nil_r. reflexivity.
Defined.

(** [AtomicIntegerT<T>] is a counter over the same cells: [Get] returns the value and
    leaves it alone although it is a compare-and-swap with 0, [AddAndGet] and its
    derivatives agree with [atomic_add], and [GetAndSet] with [atomic_swap]. *)
Theorem AtomicIntegerT_refines_atomic t p x :
  cell_ok t p ->
  AtomicIntegerT_Get t p = atomic_get t p /\
  AtomicIntegerT_AddAndGet t p x = atomic_add t p x /\
  AtomicIntegerT_IncrementAndGet t p = atomic_inc t p /\
  AtomicIntegerT_DecrementAndGet t p = atomic_dec t p /\
  AtomicIntegerT_GetAndSet t p x = atomic_swap t p x.
Proof.
  intros Hp. repeat split.
  - unfold AtomicIntegerT_Get, val_compare_and_swap, atomic_get.
    destruct (Z.eqb_spec (cell_load t p) 0) as [E|]; [|done].
    f_equal. rewrite <- E. etransitivity; [|apply (store_load t p Hp)].
    apply store_proper, cast_eqm.
  - apply pair_eq; split; [done|]. apply cast_proper. by rewrite cast_eqm.
  - apply pair_eq; split; [done|]. apply cast_proper. by rewrite cast_eqm.
  - apply pair_eq; split; [refine (store_proper t _ _ _)|refine (cast_proper t _ _ _)];
      by rewrite ?cast_eqm.
  - apply pair_eq; split; [|done]. refine (store_proper t _ _ _). by rewrite cast_eqm.
Qed.

Lemma AtomicIntegerT_refines_atomic_witness :
  AtomicIntegerT_Get int32 0 = (0, 0) /\
  AtomicIntegerT_IncrementAndGet int32 41 = (42, 42).
Proof.
  split.
  - refine (proj1 (AtomicIntegerT_refines_atomic int32 0 0 _)). unfold cell_ok; change (bits _) with 32; lia.
  - refine (proj1 (proj2 (proj2 (AtomicIntegerT_refines_atomic int32 41 0 _)))).
    unfold cell_ok; change (bits _) with 32; lia.
Defined.
