(* ===== verification/ThreadLock.v ===== *)
(** * base/mutex.h: the mutex of threads and its guard

    [MutexLock] wraps a pthread mutex of the recursive kind and remembers in [holder_]
    which thread has locked it. The pthread library is a class with the laws of its
    documentation; thread identifiers ([PlatformThread::CurrentId]) are an argument.

    [gl_step] is what any number of threads do when each of them runs operations whose
    bodies stand between a [MutexLockGuard] and the end of its scope: the two halves of
    [Lock], every action of the body and the two halves of [UnLock] are steps of their
    own, interleaved at will. The theorems say that this is the same as running whole
    operations one after the other, and that every thread gets to the end. The components
    that guard their methods with a [MutexLock] build on that. *)

From stdpp Require Import base numbers list.
From Stdlib Require Import Lia ZArith.
From S2P Require Import Prelude.

(** ** Pthread mutexes *)

Definition PTHREAD_MUTEX_RECURSIVE_NP : Z := 1.
Definition EPERM : Z := 1.
Definition EAGAIN_mutex : Z := 11.
Definition EBUSY : Z := 16.

(** A recursive mutex knows its owner and how often it has been locked; the calls return
    an error number, and a call that blocks gives [None]. Threads are numbered. *)
Class PthreadMutex (M : Type) : Type := {
  pthread_mutex_init : Z -> M;
  pthread_mutex_lock : M -> nat -> option (M * Z);
  pthread_mutex_unlock : M -> nat -> M * Z;
  pthread_mutex_destroy : M -> Z;
  mutex_owner : M -> option (nat * nat);
  mutex_max : nat;
  mutex_max_pos : (0 < mutex_max)%nat;
  mutex_init_free : mutex_owner (pthread_mutex_init PTHREAD_MUTEX_RECURSIVE_NP) = None;
  mutex_lock_free m t : mutex_owner m = None ->
    exists m', pthread_mutex_lock m t = Some (m', 0) /\ mutex_owner m' = Some (t, 1%nat);
  mutex_lock_again m t n : mutex_owner m = Some (t, n) -> (n < mutex_max)%nat ->
    exists m', pthread_mutex_lock m t = Some (m', 0) /\ mutex_owner m' = Some (t, S n);
  mutex_lock_limit m t n : mutex_owner m = Some (t, n) -> (mutex_max <= n)%nat ->
    pthread_mutex_lock m t = Some (m, EAGAIN_mutex);
  mutex_lock_blocks m t t' n : mutex_owner m = Some (t', n) -> t <> t' ->
    pthread_mutex_lock m t = None;
  mutex_unlock_last m t : mutex_owner m = Some (t, 1%nat) ->
    exists m', pthread_mutex_unlock m t = (m', 0) /\ mutex_owner m' = None;
  mutex_unlock_nested m t n : mutex_owner m = Some (t, S (S n)) ->
    exists m', pthread_mutex_unlock m t = (m', 0) /\ mutex_owner m' = Some (t, S n);
  mutex_unlock_not_owner m t : (forall n, mutex_owner m <> Some (t, n)) ->
    pthread_mutex_unlock m t = (m, EPERM);
  mutex_destroy_free m : mutex_owner m = None -> pthread_mutex_destroy m = 0;
  mutex_destroy_held m o : mutex_owner m = Some o -> pthread_mutex_destroy m = EBUSY
}.

(** ** MutexLock *)

Record MutexLock (M : Type) : Type := mkMutexLock { mutex_ : M; holder_ : Z }.
Arguments mkMutexLock {M} _ _.
Arguments mutex_ {M} _.
Arguments holder_ {M} _.

(** [MCHECK(ret)]: the call must have succeeded. *)
Definition MCHECK (ret : Z) : outcome unit :=
  if ret =? 0 then Ok tt else Fault AssertionFailed.

Section MutexLock.
Context {M : Type} `{PthreadMutex M} (CurrentId : nat -> Z).

Definition MutexLock_new : MutexLock M :=
  mkMutexLock (pthread_mutex_init PTHREAD_MUTEX_RECURSIVE_NP) 0.

Definition MutexLock_destroy (l : MutexLock M) : outcome unit :=
  if holder_ l =? 0 then MCHECK (pthread_mutex_destroy (mutex_ l)) else Fault AssertionFailed.

Definition IsLockedByThisThread (l : MutexLock M) (t : nat) : bool := holder_ l =? CurrentId t.

Definition AssertLocked (l : MutexLock M) (t : nat) : outcome unit :=
  if IsLockedByThisThread l t then Ok tt else Fault AssertionFailed.

Definition AssignHolder (l : MutexLock M) (t : nat) : MutexLock M :=
  mkMutexLock (mutex_ l) (CurrentId t).
Definition UnassignHolder (l : MutexLock M) : MutexLock M := mkMutexLock (mutex_ l) 0.

(** The halves of [Lock] and [UnLock] between which other threads can run. *)
Definition Lock_acquire (l : MutexLock M) (t : nat) : outcome (option (MutexLock M)) :=
  match pthread_mutex_lock (mutex_ l) t with
  | None => Ok None
  | Some (m, ret) => let* _ := MCHECK ret in Ok (Some (mkMutexLock m (holder_ l)))
  end.
Definition UnLock_release (l : MutexLock M) (t : nat) : outcome (MutexLock M) :=
  let '(m, ret) := pthread_mutex_unlock (mutex_ l) t in
  let* _ := MCHECK ret in Ok (mkMutexLock m (holder_ l)).

(** [Lock] and [UnLock] by thread [t]; [None]: the thread blocks. *)
Definition MutexLock_Lock (l : MutexLock M) (t : nat) : outcome (option (MutexLock M)) :=
  let* r := Lock_acquire l t in
  match r with
  | None => Ok None
  | Some l => Ok (Some (AssignHolder l t))
  end.
Definition MutexLock_UnLock (l : MutexLock M) (t : nat) : outcome (MutexLock M) :=
  UnLock_release (UnassignHolder l) t.

Definition MutexLockGuard_new := MutexLock_Lock.
Definition MutexLockGuard_destroy := MutexLock_UnLock.

(** ** One thread *)

Lemma Lock_acquire_free l t :
  mutex_owner (mutex_ l) = None ->
  exists m, Lock_acquire l t = Ok (Some (mkMutexLock m (holder_ l))) /\ mutex_owner m = Some (t, 1%nat).
Proof.
  intros Ho. destruct (mutex_lock_free _ t Ho) as (m & E & Hm). exists m.
  unfold Lock_acquire. by rewrite E.
Qed.

Lemma UnLock_release_last l t :
  mutex_owner (mutex_ l) = Some (t, 1%nat) ->
  exists m, UnLock_release l t = Ok (mkMutexLock m (holder_ l)) /\ mutex_owner m = None.
Proof.
  intros Ho. destruct (mutex_unlock_last _ t Ho) as (m & E & Hm). exists m.
  unfold UnLock_release. by rewrite E.
Qed.

Lemma destroy_free l : mutex_owner (mutex_ l) = None -> holder_ l = 0 -> MutexLock_destroy l = Ok tt.
Proof. intros Ho Hh. unfold MutexLock_destroy, MCHECK. by rewrite Hh, mutex_destroy_free. Qed.

(** A guard around a section, from a free lock: inside the section the lock is held by the
    thread and asserting it succeeds, every other thread blocks, and after the section the
    lock is free again and can be destroyed. *)
Lemma guard_section l t :
  mutex_owner (mutex_ l) = None ->
  exists l1 l2, MutexLockGuard_new l t = Ok (Some l1) /\ MutexLockGuard_destroy l1 t = Ok l2 /\
    AssertLocked l1 t = Ok tt /\ (forall t', t' <> t -> MutexLock_Lock l1 t' = Ok None) /\
    mutex_owner (mutex_ l2) = None /\ MutexLock_destroy l2 = Ok tt.
Proof.
  intros Ho. destruct (Lock_acquire_free l t Ho) as (m & E & Hm).
  destruct (UnLock_release_last (UnassignHolder (mkMutexLock m (CurrentId t))) t Hm) as (m' & E' & Hm').
  exists (mkMutexLock m (CurrentId t)), (mkMutexLock m' 0).
  unfold MutexLockGuard_new, MutexLock_Lock, MutexLockGuard_destroy, MutexLock_UnLock. rewrite E, E'.
  split; [done|]. split; [done|]. split_and!.
  - unfold AssertLocked, IsLockedByThisThread. cbn. by rewrite Z.eqb_refl.
  - intros t' Hne. unfold Lock_acquire. cbn. by rewrite (mutex_lock_blocks _ _ _ _ Hm Hne).
  - done.
  - unfold MutexLock_destroy. cbn. by rewrite (mutex_destroy_free _ Hm').
Qed.
End MutexLock.

(** ** Threads that run guarded operations

    [D] is the state the lock protects, [L] what a thread keeps to itself. The body of an
    operation is a list of actions, each of which reads and writes the protected state and
    the local state of its thread. *)

Section Guarded.
Context {M : Type} `{PthreadMutex M} (CurrentId : nat -> Z) {D L : Type}.

Definition action : Type := D -> L -> D * L.
Definition operation : Type := list action.

Fixpoint run_body (body : operation) (d : D) (l : L) : D * L :=
  match body with
  | [] => (d, l)
  | a :: body => let '(d, l) := a d l in run_body body d l
  end.

(** Where a thread is: between its operations; in [Lock], with the pthread mutex taken and
    [holder_] not written yet; in the body, with the actions left; in [UnLock], with
    [holder_] cleared and the pthread mutex not released yet. *)
Inductive gl_pc : Type :=
| GOut
| GGot (op : operation)
| GBody (op rest : operation)
| GReleasing (op : operation).

Record gl_thread : Type := mkGlThread { gt_pc : gl_pc; gt_todo : list operation }.

(** The lock, the protected state, the local states, the threads, and the operations
    finished so far, in the order they finished. *)
Record gl_state : Type := mkGl {
  gl_lock : MutexLock M;
  gl_data : D;
  gl_locals : list L;
  gl_threads : list gl_thread;
  gl_log : list (nat * operation)
}.

Inductive gl_step : gl_state -> gl_state -> Prop :=
| GlAcquire lk lk' d ls ths log i op todo :
    ths !! i = Some (mkGlThread GOut (op :: todo)) -> Lock_acquire lk i = Ok (Some lk') ->
    gl_step (mkGl lk d ls ths log) (mkGl lk' d ls (<[i := mkGlThread (GGot op) todo]> ths) log)
| GlAssign lk d ls ths log i op todo :
    ths !! i = Some (mkGlThread (GGot op) todo) ->
    gl_step (mkGl lk d ls ths log)
            (mkGl (AssignHolder CurrentId lk i) d ls (<[i := mkGlThread (GBody op op) todo]> ths) log)
| GlAction lk d d' ls l l' ths log i op a rest todo :
    ths !! i = Some (mkGlThread (GBody op (a :: rest)) todo) -> ls !! i = Some l -> a d l = (d', l') ->
    gl_step (mkGl lk d ls ths log)
            (mkGl lk d' (<[i := l']> ls) (<[i := mkGlThread (GBody op rest) todo]> ths) log)
| GlUnassign lk d ls ths log i op todo :
    ths !! i = Some (mkGlThread (GBody op []) todo) ->
    gl_step (mkGl lk d ls ths log)
            (mkGl (UnassignHolder lk) d ls (<[i := mkGlThread (GReleasing op) todo]> ths) log)
| GlRelease lk lk' d ls ths log i op todo :
    ths !! i = Some (mkGlThread (GReleasing op) todo) -> UnLock_release lk i = Ok lk' ->
    gl_step (mkGl lk d ls ths log) (mkGl lk' d ls (<[i := mkGlThread GOut todo]> ths) (log ++ [(i, op)])).

(** Each thread has its program to run, and the lock is new. *)
Definition gl_init (d : D) (ls : list L) (progs : list (list operation)) : gl_state :=
  mkGl MutexLock_new d ls (map (mkGlThread GOut) progs) [].

(** ** The reference: whole operations, one after the other *)

Definition serial_op (io : nat * operation) (dl : D * list L) : D * list L :=
  let '(i, op) := io in
  let '(d, ls) := dl in
  match ls !! i with
  | None => (d, ls)
  | Some l => let '(d', l') := run_body op d l in (d', <[i := l']> ls)
  end.
Fixpoint serial (log : list (nat * operation)) (dl : D * list L) : D * list L :=
  match log with
  | [] => dl
  | io :: log => serial log (serial_op io dl)
  end.

(** The operations of thread [i] in a log. *)
Definition ops_of (i : nat) (log : list (nat * operation)) : list operation :=
  omap (fun '(j, op) => if decide (i = j) then Some op else None) log.

Lemma serial_app log1 log2 dl : serial (log1 ++ log2) dl = serial log2 (serial log1 dl).
Proof. revert dl. induction log1 as [|io log1 IH]; intros dl; cbn; [done|]. apply IH. Qed.

Lemma run_body_app b1 b2 d l : run_body (b1 ++ b2) d l = let '(d, l) := run_body b1 d l in run_body b2 d l.
Proof.
  revert d l. induction b1 as [|a b1 IH]; intros d l; cbn; [done|]. destruct (a d l). apply IH.
Qed.

Lemma length_serial log dl : length (snd (serial log dl)) = length (snd dl).
Proof.
  revert dl. induction log as [|[i op] log IH]; intros [d ls]; cbn; [done|]. rewrite IH. cbn.
  destruct (ls !! i); [|done]. destruct (run_body op d _). cbn. by rewrite length_insert.
Qed.

Lemma ops_of_snoc i log j op :
  ops_of i (log ++ [(j, op)]) = ops_of i log ++ (if decide (i = j) then [op] else []).
Proof. unfold ops_of. rewrite omap_app. cbn. by case_decide. Qed.

(** ** The invariant

    Either nobody is in an operation and the lock is free, or exactly one thread is, it
    owns the pthread mutex, and the states are those of the finished operations followed
    by the part of its body that it has done. *)

Definition gl_pending (pc : gl_pc) : list operation :=
  match pc with
  | GOut => []
  | GGot op | GBody op _ | GReleasing op => [op]
  end.

(** Every thread has run, runs and will run its own program. *)
Definition gl_order (progs : list (list operation)) (ths : list gl_thread) (log : list (nat * operation)) : Prop :=
  length ths = length progs /\ Forall (fun io => (fst io < length progs)%nat) log /\
  forall i th, ths !! i = Some th ->
    progs !! i = Some (ops_of i log ++ gl_pending (gt_pc th) ++ gt_todo th).

(** What the thread that owns the lock has done since it got it. *)
Definition gl_partial (i : nat) (pc : gl_pc) (holder : Z) (base now : D * list L) : Prop :=
  match pc with
  | GOut => False
  | GGot _ => holder = 0 /\ now = base
  | GBody op rest => holder = CurrentId i /\ exists done, op = done ++ rest /\ now = serial_op (i, done) base
  | GReleasing op => holder = 0 /\ now = serial_op (i, op) base
  end.

Definition gl_free (lk : MutexLock M) (ths : list gl_thread) : Prop :=
  mutex_owner (mutex_ lk) = None /\ holder_ lk = 0 /\
  forall i th, ths !! i = Some th -> gt_pc th = GOut.

Definition gl_held (i : nat) (th : gl_thread) (lk : MutexLock M) (ths : list gl_thread) : Prop :=
  ths !! i = Some th /\ mutex_owner (mutex_ lk) = Some (i, 1%nat) /\
  forall j th', ths !! j = Some th' -> j <> i -> gt_pc th' = GOut.

Definition gl_inv (dl0 : D * list L) (progs : list (list operation)) (s : gl_state) : Prop :=
  gl_order progs (gl_threads s) (gl_log s) /\ length (gl_locals s) = length (gl_threads s) /\
  (gl_free (gl_lock s) (gl_threads s) /\ (gl_data s, gl_locals s) = serial (gl_log s) dl0 \/
   exists i th, gl_held i th (gl_lock s) (gl_threads s) /\
     gl_partial i (gt_pc th) (holder_ (gl_lock s)) (serial (gl_log s) dl0) (gl_data s, gl_locals s)).

Lemma gl_order_insert progs ths log i th th' :
  gl_order progs ths log -> ths !! i = Some th ->
  gl_pending (gt_pc th) ++ gt_todo th = gl_pending (gt_pc th') ++ gt_todo th' ->
  gl_order progs (<[i := th']> ths) log.
Proof.
  intros (Hl & Hf & Ho) Hi E. split; [by rewrite length_insert|]. split; [done|]. intros j thj Hj.
  apply list_lookup_insert_Some in Hj as [(<- & <- & _)|(_ & Hj)]; [|by apply Ho].
  rewrite <- E. by apply Ho.
Qed.

Lemma gl_held_move i th th' lk lk' ths :
  gl_held i th lk ths -> mutex_owner (mutex_ lk') = Some (i, 1%nat) ->
  gl_held i th' lk' (<[i := th']> ths).
Proof.
  intros (Hi & _ & Ho) Hlk. split; [|split; [done|]].
  - apply list_lookup_insert_eq. by eapply lookup_lt_Some.
  - intros j thj Hj Hne. rewrite list_lookup_insert_ne in Hj by done. eauto.
Qed.

(** The thread that takes a step inside an operation is the one that holds the lock. *)
Lemma gl_inv_holder dl0 progs lk d ls ths log i th :
  gl_inv dl0 progs (mkGl lk d ls ths log) -> ths !! i = Some th -> gt_pc th <> GOut ->
  gl_held i th lk ths /\ gl_partial i (gt_pc th) (holder_ lk) (serial log dl0) (d, ls).
Proof.
  intros (_ & _ & [[(_ & _ & Hout) _]|(j & thj & Hheld & Hp)]) Hi Hpc; cbn in *.
  - by apply Hout in Hi.
  - pose proof Hheld as (Hj & _ & Ho). destruct (decide (i = j)) as [->|Hne].
    + rewrite Hi in Hj. injection Hj as <-. done.
    + by rewrite (Ho i th Hi Hne) in Hpc.
Qed.

Lemma Lock_acquire_inv lk i lk' :
  Lock_acquire lk i = Ok (Some lk') -> mutex_owner (mutex_ lk) = None ->
  mutex_owner (mutex_ lk') = Some (i, 1%nat) /\ holder_ lk' = holder_ lk.
Proof. intros E Ho. destruct (Lock_acquire_free lk i Ho) as (m & E' & Hm). rewrite E in E'. by injection E' as ->. Qed.

Lemma Lock_acquire_held lk i j n :
  mutex_owner (mutex_ lk) = Some (j, n) -> i <> j -> Lock_acquire lk i = Ok None.
Proof. intros Ho Hne. unfold Lock_acquire. by rewrite (mutex_lock_blocks _ _ _ _ Ho Hne). Qed.

Lemma UnLock_release_inv lk i lk' :
  UnLock_release lk i = Ok lk' -> mutex_owner (mutex_ lk) = Some (i, 1%nat) ->
  mutex_owner (mutex_ lk') = None /\ holder_ lk' = holder_ lk.
Proof. intros E Ho. destruct (UnLock_release_last lk i Ho) as (m & E' & Hm). rewrite E in E'. by injection E' as ->. Qed.

(** One more action of the body. *)
Lemma serial_op_action i done a base d ls l d' l' :
  (d, ls) = serial_op (i, done) base -> length (snd base) = length ls -> ls !! i = Some l -> a d l = (d', l') ->
  (d', <[i := l']> ls) = serial_op (i, done ++ [a]) base.
Proof.
  destruct base as [d0 ls0]. cbn. intros E Hl Hi Ha.
  destruct (ls0 !! i) as [l0|] eqn:E0.
  - rewrite run_body_app. destruct (run_body done d0 l0) as [d1 l1] eqn:Er. injection E as -> ->.
    rewrite list_lookup_insert_eq in Hi by (by eapply lookup_lt_Some). injection Hi as ->.
    cbn. rewrite Ha. by rewrite list_insert_insert_eq.
  - apply lookup_ge_None in E0. apply lookup_lt_Some in Hi. lia.
Qed.

Lemma gl_step_inv dl0 progs s s' : length (snd dl0) = length progs ->
  gl_inv dl0 progs s -> gl_step s s' -> gl_inv dl0 progs s'.
Proof.
  intros Hl0 Hinv Hstep. destruct Hstep as [lk lk' d ls ths log i op todo Hi E|lk d ls ths log i op todo Hi
    |lk d d' ls l l' ths log i op a rest todo Hi Hl Ha|lk d ls ths log i op todo Hi|lk lk' d ls ths log i op todo Hi E].
  - destruct Hinv as (Hord & Hlen & Hcase); cbn in *. split_and!; cbn.
    + by eapply gl_order_insert.
    + by rewrite length_insert.
    + destruct Hcase as [[(Ho & Hh & Hout) Hs]|(j & th & (Hj & Ho & _) & Hp)].
      * right. exists i, (mkGlThread (GGot op) todo). destruct (Lock_acquire_inv _ _ _ E Ho) as [Ho' Hh'].
        split; [|cbn; split; [congruence|done]]. split; [apply list_lookup_insert_eq; by eapply lookup_lt_Some|].
        split; [done|]. intros j th Hj Hne. rewrite list_lookup_insert_ne in Hj by done. eauto.
      * destruct (decide (i = j)) as [->|Hne]; [rewrite Hi in Hj; by injection Hj as <-|].
        by rewrite (Lock_acquire_held _ _ _ _ Ho Hne) in E.
  - destruct (gl_inv_holder _ _ _ _ _ _ _ _ _ Hinv Hi) as [Hheld Hp]; [done|].
    destruct Hinv as (Hord & Hlen & _), Hp as [_ Hp]; cbn in *. split_and!; cbn.
    + by eapply gl_order_insert.
    + by rewrite length_insert.
    + right. eexists i, _. split; [eapply gl_held_move; [done|apply Hheld]|]. cbn. split; [done|].
      exists []. split; [done|]. rewrite Hp. destruct (serial log dl0) as [d0 ls0]. cbn.
      destruct (ls0 !! i) eqn:El; [|done]. by rewrite list_insert_id.
  - destruct (gl_inv_holder _ _ _ _ _ _ _ _ _ Hinv Hi) as [Hheld Hp]; [done|].
    destruct Hinv as (Hord & Hlen & _), Hp as (Hh & dn & -> & Hp); cbn in *. split_and!; cbn.
    + by eapply gl_order_insert.
    + by rewrite !length_insert.
    + right. eexists i, _. split; [eapply gl_held_move; [done|apply Hheld]|]. cbn. split; [done|].
      exists (dn ++ [a]). split; [by rewrite <- app_assoc|]. eapply serial_op_action; try done.
      rewrite length_serial. destruct Hord as (Hord & _ & _). lia.
  - destruct (gl_inv_holder _ _ _ _ _ _ _ _ _ Hinv Hi) as [Hheld Hp]; [done|].
    destruct Hinv as (Hord & Hlen & _), Hp as (Hh & dn & -> & Hp); cbn in *. split_and!; cbn.
    + by eapply gl_order_insert.
    + by rewrite length_insert.
    + right. eexists i, _. split; [eapply gl_held_move; [done|apply Hheld]|]. cbn.
      by rewrite app_nil_r.
  - destruct (gl_inv_holder _ _ _ _ _ _ _ _ _ Hinv Hi) as [(Hi' & Ho & Hout) Hp]; [done|].
    destruct Hinv as ((Hol & Hf & Hord) & Hlen & _), Hp as [Hh Hp]; cbn in *.
    destruct (UnLock_release_inv _ _ _ E Ho) as [Ho' Hh']. pose proof (lookup_lt_Some _ _ _ Hi) as Hlt.
    split_and!; cbn; [| |left; split; [split_and!|]].
    + split; [by rewrite length_insert|]. split.
      { apply Forall_app; split; [done|]. repeat constructor. cbn. lia. }
      intros j th Hj. rewrite ops_of_snoc.
      apply list_lookup_insert_Some in Hj as [(<- & <- & _)|(Hne & Hj)]; cbn.
      * rewrite decide_True by done. apply Hord in Hi. cbn in Hi. by rewrite <- app_assoc.
      * rewrite decide_False by done. rewrite app_nil_r. by apply Hord.
    + by rewrite length_insert.
    + done.
    + congruence.
    + intros j th Hj. apply list_lookup_insert_Some in Hj as [(<- & <- & _)|(Hne & Hj)]; [done|]. eauto.
    + rewrite serial_app. cbn [serial]. exact Hp.
Qed.

Lemma gl_inv_init d ls progs :
  length ls = length progs -> gl_inv (d, ls) progs (gl_init d ls progs).
Proof.
  intros Hl. unfold gl_init. split; [|split; [|left; split; [split_and!|done]]]; cbn.
  - split; [by rewrite length_map|]. split; [constructor|]. intros i th Hi. rewrite list_lookup_fmap in Hi.
    destruct (progs !! i) as [p|]; [|done]. cbn in Hi. by injection Hi as <-.
  - by rewrite length_map.
  - apply mutex_init_free.
  - done.
  - intros i th Hi. rewrite list_lookup_fmap in Hi. destruct (progs !! i); [|done]. cbn in Hi. by injection Hi as <-.
Qed.

Lemma gl_inv_reachable d ls progs s :
  length ls = length progs -> star gl_step (gl_init d ls progs) s -> gl_inv (d, ls) progs s.
Proof.
  intros Hl Hrun. refine (star_invariant _ _ _ _ _ Hrun (gl_inv_init _ _ _ Hl)).
  intros s1 s2. by apply gl_step_inv.
Qed.

(** ** Progress *)

Definition gl_finished (s : gl_state) : Prop :=
  forall i th, gl_threads s !! i = Some th -> th = mkGlThread GOut [].

Definition op_work (op : operation) : nat := length op + 4.
Definition pc_work (pc : gl_pc) : nat :=
  match pc with
  | GOut => 0
  | GGot op => length op + 3
  | GBody _ rest => length rest + 2
  | GReleasing _ => 1
  end.
Definition thread_work (th : gl_thread) : nat := pc_work (gt_pc th) + sum_list_with op_work (gt_todo th).
Definition gl_work (s : gl_state) : nat := sum_list_with thread_work (gl_threads s).

Lemma gl_step_work s s' : gl_step s s' -> (gl_work s' < gl_work s)%nat.
Proof.
  intros Hstep. unfold gl_work. destruct Hstep; cbn [gl_threads];
  match goal with
  | Hi : ?ths !! ?i = Some ?th |- context [<[?i := ?th']> ?ths] =>
      pose proof (sum_list_with_insert thread_work ths i th th' Hi) as E
  end; unfold thread_work, op_work in E; cbn in E; unfold thread_work, op_work; cbn; lia.
Qed.

(** Unless every thread has finished, one of them can take its next step. *)
Lemma gl_progress dl0 progs s : length (snd dl0) = length progs ->
  gl_inv dl0 progs s -> gl_finished s \/ exists s', gl_step s s'.
Proof.
  intros Hl0 Hinv. destruct s as [lk d ls ths log].
  pose proof Hinv as ((Hol & _ & _) & Hlen & [[(Ho & _ & Hout) _]|(i & [pc todo] & (Hi & Ho & _) & Hp)]); cbn in *.
  - destruct (decide (Forall (fun th => gt_todo th = []) ths)) as [Hall|Hsome].
    + left. intros i [pc todo] Hi. cbn in Hi. pose proof (Hout i _ Hi). cbn in *. subst.
      by rewrite Forall_lookup in Hall; rewrite (Hall i _ Hi : todo = []).
    + right. apply not_Forall_Exists in Hsome; [|intros th; destruct (gt_todo th); [by left|by right]].
      apply Exists_exists in Hsome as ([pc todo] & [i Hi]%list_elem_of_lookup & Hne). cbn in Hne.
      pose proof (Hout i _ Hi) as Hpc. cbn in Hpc. subst pc. destruct todo as [|op todo]; [done|].
      destruct (Lock_acquire_free lk i Ho) as (m & E & _). eexists. by eapply GlAcquire.
  - right. destruct pc as [|op|op [|a rest]|op]; cbn in Hp.
    + done.
    + eexists. by apply (GlAssign _ _ _ _ _ i op todo).
    + eexists. by apply (GlUnassign _ _ _ _ _ i op todo).
    + destruct (lookup_lt_is_Some_2 ls i) as [l Hl]; [apply lookup_lt_Some in Hi; lia|].
      destruct (a d l) as [d' l'] eqn:Ha. eexists. by eapply GlAction.
    + destruct (UnLock_release_last lk i Ho) as (m & E & _). eexists. by eapply GlRelease.
Qed.

(** The call of the pthread library that a thread is due to make passes its [MCHECK]:
    [Lock_acquire] gives the lock or blocks, [UnLock_release] frees it. *)
Definition calls_pass (s : gl_state) : Prop :=
  forall i pc todo, gl_threads s !! i = Some (mkGlThread pc todo) ->
    match pc with
    | GOut => todo <> [] -> exists r, Lock_acquire (gl_lock s) i = Ok r
    | GReleasing _ => exists lk, UnLock_release (gl_lock s) i = Ok lk
    | _ => True
    end.

Lemma gl_inv_calls_pass dl0 progs s : gl_inv dl0 progs s -> calls_pass s.
Proof.
  intros Hinv i pc todo Hi. destruct s as [lk d ls ths log]. destruct pc as [| | |op]; try done; cbn in *.
  - intros _. destruct Hinv as (_ & _ & [[(Ho & _ & _) _]|(j & [pc' todo'] & (Hj & Ho & _) & Hp)]); cbn in *.
    + destruct (Lock_acquire_free lk i Ho) as (m & -> & _). by eexists.
    + destruct (decide (i = j)) as [->|Hne]; [rewrite Hi in Hj; by injection Hj as <- <-|].
      rewrite (Lock_acquire_held _ _ _ _ Ho Hne). by eexists.
  - destruct (gl_inv_holder _ _ _ _ _ _ _ _ _ Hinv Hi) as [(_ & Ho & _) _]; [done|].
    destruct (UnLock_release_last lk i Ho) as (m & -> & _). by eexists.
Qed.

(** Guarded operations are atomic: in every state that the threads can reach
    there is at most one thread in an operation; while it runs its body it is the one that
    [IsLockedByThisThread] reports, and when nobody is in an operation the protected state
    and the local states are those of the finished operations run whole, one after the
    other, each thread's in the order of its program. *)
Lemma guarded_serializable d ls progs s :
  length ls = length progs -> star gl_step (gl_init d ls progs) s ->
  (forall i j thi thj, gl_threads s !! i = Some thi -> gl_threads s !! j = Some thj ->
     gt_pc thi <> GOut -> gt_pc thj <> GOut -> i = j) /\
  (forall i op rest todo, gl_threads s !! i = Some (mkGlThread (GBody op rest) todo) ->
     AssertLocked CurrentId (gl_lock s) i = Ok tt) /\
  (forall i th, gl_threads s !! i = Some th ->
     progs !! i = Some (ops_of i (gl_log s) ++ gl_pending (gt_pc th) ++ gt_todo th)) /\
  Forall (fun io => (fst io < length progs)%nat) (gl_log s) /\ length (gl_threads s) = length progs /\
  ((forall i th, gl_threads s !! i = Some th -> gt_pc th = GOut) ->
     (gl_data s, gl_locals s) = serial (gl_log s) (d, ls)).
Proof.
  intros Hl Hrun. pose proof (gl_inv_reachable _ _ _ _ Hl Hrun) as Hinv.
  destruct s as [lk d1 ls1 ths log]. cbn. split_and!.
  - intros i j thi thj Hi Hj Hpi Hpj.
    destruct (gl_inv_holder _ _ _ _ _ _ _ _ _ Hinv Hi Hpi) as [(_ & Ho & _) _].
    destruct (gl_inv_holder _ _ _ _ _ _ _ _ _ Hinv Hj Hpj) as [(_ & Ho' & _) _]. congruence.
  - intros i op rest todo Hi.
    destruct (gl_inv_holder _ _ _ _ _ _ _ _ _ Hinv Hi) as [_ [Hh _]]; [done|].
    unfold AssertLocked, IsLockedByThisThread. cbn in Hh. by rewrite Hh, Z.eqb_refl.
  - apply Hinv.
  - apply Hinv.
  - apply Hinv.
  - intros Hout. destruct Hinv as (_ & _ & [[_ Hs]|(i & th & (Hi & _) & Hp)]); [done|].
    by rewrite (Hout i th Hi) in Hp.
Qed.

End Guarded.
Arguments action D L : clear implicits.
Arguments operation D L : clear implicits.

(** ** An instance: the owner and the count are the mutex *)

Definition counting_lock (m : option (nat * nat)) (t : nat) : option (option (nat * nat) * Z) :=
  match m with
  | None => Some (Some (t, 1%nat), 0)
  | Some (t', n) =>
      if Nat.eqb t t' then if Nat.ltb n 1000 then Some (Some (t, S n), 0) else Some (m, EAGAIN_mutex)
      else None
  end.
Definition counting_unlock (m : option (nat * nat)) (t : nat) : option (nat * nat) * Z :=
  match m with
  | Some (t', S n) =>
      if Nat.eqb t t' then (match n with O => None | S _ => Some (t', n) end, 0) else (m, EPERM)
  | _ => (m, EPERM)
  end.

#[export] Instance counting_mutex : PthreadMutex (option (nat * nat)).
Proof.
  refine {| pthread_mutex_init := fun _ => None;
            pthread_mutex_lock := counting_lock;
            pthread_mutex_unlock := counting_unlock;
            pthread_mutex_destroy := fun m => match m with None => 0 | Some _ => EBUSY end;
            mutex_owner := fun m => m;
            mutex_max := 1000 |}; unfold counting_lock, counting_unlock.
  - lia.
  - done.
  - intros m t ->. eauto.
  - intros m t n -> Hn. rewrite Nat.eqb_refl. destruct (Nat.ltb_spec n 1000); [eauto|lia].
  - intros m t n -> Hn. rewrite Nat.eqb_refl. destruct (Nat.ltb_spec n 1000); [lia|done].
  - intros m t t' n -> Hne. by destruct (Nat.eqb_spec t t').
  - intros m t ->. rewrite Nat.eqb_refl. eauto.
  - intros m t n ->. rewrite Nat.eqb_refl. eauto.
  - intros [[t' [|n]]|] t Hno; [done| |done]. destruct (Nat.eqb_spec t t') as [->|]; [|done].
    by destruct (Hno (S n)).
  - by intros m ->.
  - by intros m o ->.
Defined.

(** ** Theorems *)

(** C12: Guarded operations are atomic. Threads that run their operations under
    [MutexLockGuard]s, every half of [Lock] and [UnLock] and every action of a body being a
    step of its own, can only reach states in which at most one of them is in an operation
    and [AssertLocked] succeeds in the body; and whenever nobody is in an operation the
    protected state and the local states are those of whole operations run one after the
    other, those of each thread in the order of its program. *)
Theorem guarded_ops_atomic {M D L} `{PthreadMutex M} CurrentId (d : D) (ls : list L) progs s :
  length ls = length progs -> star (gl_step CurrentId) (gl_init d ls progs) s ->
  (forall i j thi thj, gl_threads s !! i = Some thi -> gl_threads s !! j = Some thj ->
     gt_pc thi <> GOut -> gt_pc thj <> GOut -> i = j) /\
  (forall i op rest todo, gl_threads s !! i = Some (mkGlThread (GBody op rest) todo) ->
     AssertLocked CurrentId (gl_lock s) i = Ok tt) /\
  ((forall i th, gl_threads s !! i = Some th -> gt_pc th = GOut) ->
     (gl_data s, gl_locals s) = serial (gl_log s) (d, ls) /\
     forall i th, gl_threads s !! i = Some th -> progs !! i = Some (ops_of i (gl_log s) ++ gt_todo th)).
Proof.
  intros Hl Hrun. destruct (guarded_serializable _ _ _ _ _ Hl Hrun) as (Hex & Has & Hord & _ & _ & Hser).
  split_and!; [done|done|]. intros Hout. split; [by apply Hser|]. intros i th Hi.
  rewrite (Hord i th Hi), (Hout i th Hi). done.
Qed.

(** C23: Threads under a [MutexLock] make progress (a recursive mutex, as its constructor
    means to make it: the attribute it sets is not initialised). Whatever the interleaving, every
    thread comes to the end of its program, and then the protected state is the one of all
    their operations run whole in some order, and the lock can be destroyed. On the way, in
    every state that can be reached, no thread is due to make a call of the pthread library
    that fails its [MCHECK]: [Lock] gets the mutex or waits, [UnLock] frees it. *)
Theorem guarded_ops_finish {M D L} `{PthreadMutex M} CurrentId (d : D) (ls : list L) progs :
  length ls = length progs ->
  eventually (gl_step CurrentId)
    (fun s => gl_finished s /\ (gl_data s, gl_locals s) = serial (gl_log s) (d, ls) /\
       (forall i prog, progs !! i = Some prog -> ops_of i (gl_log s) = prog) /\
       MutexLock_destroy (gl_lock s) = Ok tt)
    (gl_init d ls progs) /\
  forall s, star (gl_step CurrentId) (gl_init d ls progs) s -> calls_pass s.
Proof.
  intros Hl. split; [|intros s Hrun; eapply gl_inv_calls_pass, (gl_inv_reachable CurrentId d ls progs); done].
  apply (eventually_measure _ _ (gl_inv CurrentId (d, ls) progs) gl_work); [|by apply gl_inv_init].
  intros s Hinv. destruct (gl_progress CurrentId (d, ls) progs s Hl Hinv) as [Hf|Hex].
  - left. split; [done|]. destruct Hinv as ((Hol & _ & Hord) & _ & [[(Hown & Hh & _) Hs]|(i & th & (Hi & _) & Hp)]).
    + split; [done|]. split; [|by apply destroy_free]. intros i prog Hi. destruct (lookup_lt_is_Some_2 (gl_threads s) i) as [th Hth].
      { rewrite Hol. by eapply lookup_lt_Some. }
      pose proof (Hord i th Hth) as E. rewrite (Hf i th Hth) in E. cbn in E. rewrite app_nil_r in E. congruence.
    + by rewrite (Hf i th Hi) in Hp.
  - right. split; [done|]. intros s' Hstep. split; [by apply (gl_step_inv CurrentId (d, ls) progs s)|].
    by eapply gl_step_work.
Qed.

(** A lock that is recursive forgets its holder: after a nested [Lock] and its [UnLock] the
    thread still owns the pthread mutex, but [IsLockedByThisThread] is false and
    [AssertLocked] fails, inside the outer section. *)
Theorem nested_unlock_forgets_holder {M} `{PthreadMutex M} CurrentId (l : MutexLock M) t :
  mutex_owner (mutex_ l) = Some (t, 1%nat) -> (1 < mutex_max)%nat -> CurrentId t <> 0 ->
  exists l1 l2, MutexLock_Lock CurrentId l t = Ok (Some l1) /\ MutexLock_UnLock l1 t = Ok l2 /\
    mutex_owner (mutex_ l2) = Some (t, 1%nat) /\ AssertLocked CurrentId l2 t = Fault AssertionFailed.
Proof.
  intros Ho Hm Hid. destruct (mutex_lock_again _ _ _ Ho Hm) as (m1 & E1 & Ho1).
  destruct (mutex_unlock_nested _ _ _ Ho1) as (m2 & E2 & Ho2).
  exists (mkMutexLock m1 (CurrentId t)), (mkMutexLock m2 0). split_and!.
  - unfold MutexLock_Lock, Lock_acquire. by rewrite E1.
  - unfold MutexLock_UnLock, UnLock_release. cbn. by rewrite E2.
  - done.
  - unfold AssertLocked, IsLockedByThisThread. cbn [holder_]. destruct (Z.eqb_spec 0 (CurrentId t)); [congruence|done].
Qed.

(** ** Witnesses *)

(** Two threads that each double a counter by reading it, then writing twice what they
    read. *)
Definition double_op : operation Z Z := [fun d _ => (d, d); fun _ l => (2 * l, l)].
Definition double_init : gl_state (M := option (nat * nat)) (D := Z) (L := Z) :=
  gl_init 1 [0; 0] [[double_op]; [double_op]].
Definition thread_id (t : nat) : Z := 100 + Z.of_nat t.

(** The first thread has run, the second has not begun. *)
Definition double_mid : gl_state (M := option (nat * nat)) (D := Z) (L := Z) :=
  mkGl (mkMutexLock None 0) 2 [1; 0] [mkGlThread GOut []; mkGlThread GOut [double_op]]
    [(0%nat, double_op)].

Lemma guarded_ops_atomic_witness :
  (gl_data double_mid, gl_locals double_mid) = serial [(0%nat, double_op)] (1, [0; 0]).
Proof.
  refine (proj1 (proj2 (proj2 (guarded_ops_atomic thread_id 1 [0; 0] [[double_op]; [double_op]]
    double_mid eq_refl _)) _)).
  - eapply star_step; [by eapply (GlAcquire _ _ _ _ _ _ _ 0 double_op [])|].
    eapply star_step; [by eapply (GlAssign _ _ _ _ _ _ 0 double_op [])|].
    eapply star_step; [by eapply (GlAction _ _ _ _ _ _ _ _ _ 0 double_op)|].
    eapply star_step; [by eapply (GlAction _ _ _ _ _ _ _ _ _ 0 double_op)|].
    eapply star_step; [by eapply (GlUnassign _ _ _ _ _ _ 0 double_op [])|].
    eapply star_step; [by eapply (GlRelease _ _ _ _ _ _ _ 0 double_op [])|].
    constructor.
  - intros [|[|[|i]]] th [= <-]; reflexivity.
Defined.

Lemma guarded_ops_finish_witness :
  eventually (gl_step thread_id)
    (fun s => gl_finished s /\ (gl_data s, gl_locals s) = serial (gl_log s) (1, [0; 0]) /\
       (forall i prog, [[double_op]; [double_op]] !! i = Some prog -> ops_of i (gl_log s) = prog) /\
       MutexLock_destroy (gl_lock s) = Ok tt)
    double_init /\ calls_pass double_init.
Proof.
  destruct (guarded_ops_finish thread_id 1 [0; 0] [[double_op]; [double_op]] eq_refl) as [Hend Hpass].
  split; [exact Hend|]. apply Hpass. constructor.
Defined.

Lemma nested_unlock_forgets_holder_witness :
  exists l1 l2, MutexLock_Lock thread_id (mkMutexLock (Some (0%nat, 1%nat)) 100) 0 = Ok (Some l1) /\
    MutexLock_UnLock l1 0 = Ok l2 /\ mutex_owner (mutex_ l2) = Some (0%nat, 1%nat) /\
    AssertLocked thread_id l2 0 = Fault AssertionFailed.
Proof. apply (nested_unlock_forgets_holder thread_id (mkMutexLock (Some (0%nat, 1%nat)) 100) 0); cbn; [done|lia|done]. Defined.
