(* ===== verification/Singletons.v ===== *)
(** * base/singleton.h, base/thread_local_singleton.h and the counters of base/thread.h

    [Singleton<T>] makes its object on first use, under [pthread_once], and has it deleted
    at exit; the socket contexts and the protocol manager are such objects. The steps of
    [instance()] are interleaved at will ([sg_step]).

    [ThreadLocalSingleton<T>] keeps an object per thread and has it deleted when the
    thread ends, through a key of the pthread library; the scheduler of a thread is such
    an object. Its operations touch only what belongs to their thread, so a concurrent
    execution is a sequence of calls ([tl_run]). *)

From stdpp Require Import base numbers list gmap.
From Stdlib Require Import Lia ZArith.
From S2P Require Import Prelude Atomic ThreadLock.

(** ** pthread_once *)

Inductive once_state : Type := OnceFresh | OnceRunning | OnceDone.

(** [once_begin] is the beginning of [pthread_once]: [None] while another thread runs the
    routine (the caller waits), true when the caller has to run it, false when it has been
    run; [once_end] is the return from the routine. *)
Class PthreadOnce (O : Type) : Type := {
  PTHREAD_ONCE_INIT : O;
  once_begin : O -> option (O * bool);
  once_end : O -> O;
  once_view : O -> once_state;
  once_init_fresh : once_view PTHREAD_ONCE_INIT = OnceFresh;
  once_begin_fresh o : once_view o = OnceFresh ->
    exists o', once_begin o = Some (o', true) /\ once_view o' = OnceRunning;
  once_begin_running o : once_view o = OnceRunning -> once_begin o = None;
  once_begin_done o : once_view o = OnceDone -> once_begin o = Some (o, false);
  once_end_running o : once_view o = OnceRunning -> once_view (once_end o) = OnceDone
}.

#[export] Instance once_by_view : PthreadOnce once_state.
Proof.
  refine {| PTHREAD_ONCE_INIT := OnceFresh;
            once_begin := fun o => match o with
                                   | OnceFresh => Some (OnceRunning, true)
                                   | OnceRunning => None
                                   | OnceDone => Some (OnceDone, false)
                                   end;
            once_end := fun _ => OnceDone;
            once_view := fun o => o |}; try done; intros o ->; eauto.
Defined.

(** ** Singleton<T> *)

Section Singleton.
Context {O : Type} `{PthreadOnce O}.

(** The static members, how many objects have been made (the address of an object is its
    number) and how many times [destroy] has been registered. *)
Record Singleton : Type := mkSingleton {
  ponce_ : O;
  value_ : option nat;
  sg_made : nat;
  sg_atexit : nat
}.

Definition Singleton_static : Singleton := mkSingleton PTHREAD_ONCE_INIT None 0 0.

(** The two effects of [init]. *)
Definition init_new (s : Singleton) : Singleton :=
  mkSingleton (ponce_ s) (Some (sg_made s)) (S (sg_made s)) (sg_atexit s).
Definition init_atexit (has_no_destroy : bool) (s : Singleton) : Singleton :=
  if has_no_destroy then s
  else mkSingleton (ponce_ s) (value_ s) (sg_made s) (S (sg_atexit s)).
Definition Singleton_init (has_no_destroy : bool) (s : Singleton) : Singleton :=
  init_atexit has_no_destroy (init_new s).

(** The end of [instance]: the assertion and the reference. *)
Definition instance_value (s : Singleton) : outcome nat :=
  match value_ s with
  | None => Fault AssertionFailed
  | Some p => Ok p
  end.

(** [instance()] by one thread alone; [None]: it waits. *)
Definition Singleton_instance (has_no_destroy : bool) (s : Singleton) : outcome (option (Singleton * nat)) :=
  match once_begin (ponce_ s) with
  | None => Ok None
  | Some (o, run) =>
      let s := mkSingleton o (value_ s) (sg_made s) (sg_atexit s) in
      let s := if run then
                 let s := Singleton_init has_no_destroy s in
                 mkSingleton (once_end (ponce_ s)) (value_ s) (sg_made s) (sg_atexit s)
               else s in
      let* p := instance_value s in Ok (Some (s, p))
  end.

(** [destroy], which runs at exit. *)
Definition Singleton_destroy (s : Singleton) : Singleton :=
  mkSingleton (ponce_ s) None (sg_made s) (sg_atexit s).

(** Threads in [instance()]. *)
Inductive sg_pc : Type :=
| SgCall | SgNew | SgAtexit | SgEnd | SgAssert | SgReturned (p : nat) | SgFailed.

Inductive sg_step (nd : bool) : Singleton * list sg_pc -> Singleton * list sg_pc -> Prop :=
| SgBegin s pcs i o run :
    pcs !! i = Some SgCall -> once_begin (ponce_ s) = Some (o, run) ->
    sg_step nd (s, pcs) (mkSingleton o (value_ s) (sg_made s) (sg_atexit s),
                         <[i := if run then SgNew else SgAssert]> pcs)
| SgMake s pcs i :
    pcs !! i = Some SgNew -> sg_step nd (s, pcs) (init_new s, <[i := SgAtexit]> pcs)
| SgRegister s pcs i :
    pcs !! i = Some SgAtexit -> sg_step nd (s, pcs) (init_atexit nd s, <[i := SgEnd]> pcs)
| SgReturn s pcs i :
    pcs !! i = Some SgEnd ->
    sg_step nd (s, pcs) (mkSingleton (once_end (ponce_ s)) (value_ s) (sg_made s) (sg_atexit s),
                         <[i := SgAssert]> pcs)
| SgCheck s pcs i :
    pcs !! i = Some SgAssert ->
    sg_step nd (s, pcs) (s, <[i := match instance_value s with Ok p => SgReturned p | Fault _ => SgFailed end]> pcs).

(** ** The invariant *)

Definition in_init (pc : sg_pc) : Prop := pc = SgNew \/ pc = SgAtexit \/ pc = SgEnd.

(** What the thread in [init] has done so far. *)
Definition init_done (nd : bool) (pc : sg_pc) (s : Singleton) : Prop :=
  match pc with
  | SgNew => value_ s = None /\ sg_made s = 0%nat /\ sg_atexit s = 0%nat
  | SgAtexit => value_ s = Some 0%nat /\ sg_made s = 1%nat /\ sg_atexit s = 0%nat
  | _ => value_ s = Some 0%nat /\ sg_made s = 1%nat /\ sg_atexit s = (if nd then 0 else 1)%nat
  end.

(** Nobody has begun; one thread is in [init]; or the object is there. *)
Definition sg_inv (nd : bool) (st : Singleton * list sg_pc) : Prop :=
  let '(s, pcs) := st in
  match once_view (ponce_ s) with
  | OnceFresh => s = mkSingleton (ponce_ s) None 0 0 /\ forall i pc, pcs !! i = Some pc -> pc = SgCall
  | OnceRunning =>
      exists i pc, pcs !! i = Some pc /\ in_init pc /\
        (forall j pcj, pcs !! j = Some pcj -> j <> i -> pcj = SgCall) /\
        init_done nd pc s
  | OnceDone =>
      value_ s = Some 0%nat /\ sg_made s = 1%nat /\ sg_atexit s = (if nd then 0 else 1)%nat /\
      forall i pc, pcs !! i = Some pc -> pc = SgCall \/ pc = SgAssert \/ pc = SgReturned 0
  end.

Lemma sg_inv_init nd n : sg_inv nd (Singleton_static, replicate n SgCall).
Proof.
  unfold sg_inv. cbn. rewrite once_init_fresh. split; [done|]. by intros i pc [-> _]%lookup_replicate.
Qed.

(** A thread in [init] is the one that [pthread_once] has chosen. *)
Lemma sg_inv_in_init nd s pcs i pc :
  sg_inv nd (s, pcs) -> pcs !! i = Some pc -> in_init pc ->
  once_view (ponce_ s) = OnceRunning /\
  (forall j pcj, pcs !! j = Some pcj -> j <> i -> pcj = SgCall) /\
  init_done nd pc s.
Proof.
  unfold sg_inv. intros Hinv Hi Hin. destruct (once_view (ponce_ s)).
  - destruct Hinv as [_ Hall]. apply Hall in Hi. subst. by destruct Hin as [?|[?|?]].
  - destruct Hinv as (j & pcj & Hj & _ & Hother & Hst). destruct (decide (i = j)) as [->|Hne].
    + rewrite Hi in Hj. by injection Hj as <-.
    + rewrite (Hother i pc Hi Hne) in Hin. by destruct Hin as [?|[?|?]].
  - destruct Hinv as (_ & _ & _ & Hall). destruct (Hall i pc Hi) as [->|[->| ->]]; by destruct Hin as [?|[?|?]].
Qed.

(** The chosen thread goes on, still in [init]. *)
Lemma sg_inv_running nd s pcs i pc :
  once_view (ponce_ s) = OnceRunning -> (i < length pcs)%nat -> in_init pc ->
  (forall j pcj, pcs !! j = Some pcj -> j <> i -> pcj = SgCall) ->
  init_done nd pc s ->
  sg_inv nd (s, <[i := pc]> pcs).
Proof.
  intros Hv Hlt Hin Hother Hst. unfold sg_inv. rewrite Hv. exists i, pc.
  split; [by apply list_lookup_insert_eq|]. split_and!; [done| |done].
  intros j pcj Hj Hne. rewrite list_lookup_insert_ne in Hj by done. eauto.
Qed.

Lemma sg_step_inv nd st st' : sg_inv nd st -> sg_step nd st st' -> sg_inv nd st'.
Proof.
  intros Hinv Hstep. destruct Hstep as [s pcs i o run Hi E|s pcs i Hi|s pcs i Hi|s pcs i Hi|s pcs i Hi];
    pose proof (lookup_lt_Some _ _ _ Hi) as Hlt.
  - unfold sg_inv in Hinv. destruct (once_view (ponce_ s)) eqn:Ev.
    + destruct Hinv as [Es Hall]. destruct (once_begin_fresh _ Ev) as (o' & E' & Ev').
      rewrite E in E'. injection E' as -> ->. rewrite Es. apply sg_inv_running; cbn; try done; [by left|].
      intros j pcj Hj _. by apply (Hall j).
    + by rewrite (once_begin_running _ Ev) in E.
    + rewrite (once_begin_done _ Ev) in E. injection E as <- <-. unfold sg_inv. cbn. rewrite Ev.
      destruct Hinv as (H1 & H2 & H3 & Hall). split_and!; try done. intros j pcj Hj.
      apply list_lookup_insert_Some in Hj as [(_ & <- & _)|(_ & Hj)]; [auto|by apply (Hall j)].
  - destruct (sg_inv_in_init _ _ _ _ _ Hinv Hi) as (Ev & Hother & H1 & H2 & H3); [by left|].
    apply sg_inv_running; cbn; try done; [by right; left|]. by rewrite H2.
  - destruct (sg_inv_in_init _ _ _ _ _ Hinv Hi) as (Ev & Hother & H1 & H2 & H3); [by right; left|].
    apply sg_inv_running; unfold init_atexit; destruct nd; cbn; try done; try (by right; right). by rewrite H3.
  - destruct (sg_inv_in_init _ _ _ _ _ Hinv Hi) as (Ev & Hother & H1 & H2 & H3); [by right; right|].
    unfold sg_inv. cbn. rewrite (once_end_running _ Ev). split_and!; try done. intros j pcj Hj.
    apply list_lookup_insert_Some in Hj as [(_ & <- & _)|(Hne & Hj)]; [auto|]. left. by apply (Hother j).
  - unfold sg_inv in Hinv. destruct (once_view (ponce_ s)) eqn:Ev.
    + destruct Hinv as [_ Hall]. by apply Hall in Hi.
    + destruct Hinv as (j & pcj & Hj & Hin & Hother & _). destruct (decide (i = j)) as [->|Hne].
      * rewrite Hi in Hj. injection Hj as <-. by destruct Hin as [?|[?|?]].
      * discriminate (Hother i _ Hi Hne).
    + unfold sg_inv. rewrite Ev. destruct Hinv as (H1 & H2 & H3 & Hall). split_and!; try done.
      intros j pcj Hj. apply list_lookup_insert_Some in Hj as [(_ & <- & _)|(_ & Hj)]; [|by apply (Hall j)].
      unfold instance_value. rewrite H1. auto.
Qed.

(** ** Progress *)

Definition sg_work (pc : sg_pc) : nat :=
  match pc with
  | SgCall => 5 | SgNew => 4 | SgAtexit => 3 | SgEnd => 2 | SgAssert => 1 | SgReturned _ | SgFailed => 0
  end.

Lemma sg_step_work nd st st' :
  sg_step nd st st' -> (sum_list_with sg_work (snd st') < sum_list_with sg_work (snd st))%nat.
Proof.
  intros Hstep. destruct Hstep; cbn [snd];
  match goal with
  | Hi : ?pcs !! ?i = Some ?pc |- context [<[?i := ?pc']> ?pcs] =>
      pose proof (sum_list_with_insert sg_work pcs i pc pc' Hi) as E
  end; cbn in E; [destruct run; cbn in E; lia|lia|lia|lia|].
  destruct (instance_value s); cbn in E; lia.
Qed.

Lemma sg_progress nd s pcs :
  sg_inv nd (s, pcs) ->
  (forall i pc, pcs !! i = Some pc -> pc = SgReturned 0) \/ exists st', sg_step nd (s, pcs) st'.
Proof.
  intros Hinv. unfold sg_inv in Hinv. destruct (once_view (ponce_ s)) eqn:Ev.
  - destruct Hinv as [_ Hall]. destruct pcs as [|pc pcs]; [by left|right].
    destruct (once_begin_fresh _ Ev) as (o & E & _). eexists. apply (SgBegin _ _ _ 0 o true); [|done].
    by rewrite <- (Hall 0%nat pc eq_refl).
  - destruct Hinv as (i & pc & Hi & [->|[->| ->]] & _); right; eexists.
    + by apply (SgMake _ _ _ i).
    + by apply (SgRegister _ _ _ i).
    + by apply (SgReturn _ _ _ i).
  - destruct Hinv as (_ & _ & _ & Hall).
    destruct (decide (Forall (fun pc => sg_work pc = 0%nat) pcs)) as [Hz|Hz].
    + left. intros i pc Hi. rewrite Forall_lookup in Hz. specialize (Hz i pc Hi).
      by destruct (Hall i pc Hi) as [->|[->| ->]].
    + right. apply not_Forall_Exists in Hz; [|intros pc; apply _].
      apply Exists_exists in Hz as (pc & [i Hi]%list_elem_of_lookup & Hne).
      destruct (Hall i pc Hi) as [->|[->| ->]]; [| |by destruct Hne]; eexists.
      * apply (SgBegin _ _ _ i (ponce_ s) false); [done|by apply once_begin_done].
      * by apply (SgCheck _ _ _ i).
Qed.
End Singleton.
Arguments Singleton O : clear implicits.

(** ** ThreadLocalSingleton<T> *)

(** The [t_value_] of every thread, the value of [pkey_] in every thread, and the objects
    alive. *)
Record tl_world (T : Type) : Type := mkTl {
  t_value_ : gmap nat nat;
  tl_specific : gmap nat nat;
  tl_heap : gmap nat T
}.
Arguments mkTl {T} _ _ _.
Arguments t_value_ {T} _.
Arguments tl_specific {T} _.
Arguments tl_heap {T} _.

Section ThreadLocalSingleton.
Context {T : Type} (T_init : T).
Local Abbreviation world := (tl_world T).

Definition tl_start : world := mkTl ∅ ∅ ∅.

(** [Deleter::set] by thread [t]. *)
Definition Deleter_set (w : world) (t newObj : nat) : outcome world :=
  match tl_specific w !! t with
  | Some _ => Fault AssertionFailed
  | None => Ok (mkTl (t_value_ w) (<[t := newObj]> (tl_specific w)) (tl_heap w))
  end.

(** [instance()] by thread [t]: the address of the object; [addr] is what [new] returns if
    it is called. *)
Definition ThreadLocalSingleton_instance (w : world) (t addr : nat) : outcome (world * nat) :=
  match t_value_ w !! t with
  | Some p => Ok (w, p)
  | None =>
      let w := mkTl (<[t := addr]> (t_value_ w)) (tl_specific w) (<[addr := T_init]> (tl_heap w)) in
      let* w := Deleter_set w t addr in Ok (w, addr)
  end.

(** An assignment through the reference that [instance()] returns. *)
Definition instance_assign (w : world) (p : nat) (v : T) : outcome world :=
  match tl_heap w !! p with
  | None => Fault BadFree
  | Some _ => Ok (mkTl (t_value_ w) (tl_specific w) (<[p := v]> (tl_heap w)))
  end.

Definition ThreadLocalSingleton_pointer (w : world) (t : nat) : option nat := t_value_ w !! t.

(** [destructor(obj)] in thread [t]. *)
Definition ThreadLocalSingleton_destructor (w : world) (t obj : nat) : outcome world :=
  match t_value_ w !! t with
  | None => Fault AssertionFailed
  | Some p =>
      if negb (Nat.eqb obj p) then Fault AssertionFailed
      else match tl_heap w !! p with
           | None => Fault BadFree
           | Some _ => Ok (mkTl (delete t (t_value_ w)) (tl_specific w) (delete p (tl_heap w)))
           end
  end.

(** The end of thread [t]: the library clears the value of the key and calls the
    destructor with what it was. *)
Definition thread_exit (w : world) (t : nat) : outcome world :=
  match tl_specific w !! t with
  | None => Ok w
  | Some obj => ThreadLocalSingleton_destructor (mkTl (t_value_ w) (delete t (tl_specific w)) (tl_heap w)) t obj
  end.

Inductive tl_call : Type :=
| TlAssign (t addr : nat) (v : T)  (* instance() = v *)
| TlExit (t : nat).

Definition tl_do (c : tl_call) (w : world) : outcome world :=
  match c with
  | TlAssign t addr v =>
      let* (w, p) := ThreadLocalSingleton_instance w t addr in instance_assign w p v
  | TlExit t => thread_exit w t
  end.

(** The value a thread reads through [instance()]. *)
Definition tl_read (w : world) (t : nat) : option T :=
  match t_value_ w !! t with
  | None => None
  | Some p => tl_heap w !! p
  end.

(** The key follows [t_value_], each thread has an object of its own, and no other object
    is alive. *)
Definition tl_inv (w : world) : Prop :=
  tl_specific w = t_value_ w /\
  (forall t t' p, t_value_ w !! t = Some p -> t_value_ w !! t' = Some p -> t = t') /\
  (forall p, is_Some (tl_heap w !! p) <-> exists t, t_value_ w !! t = Some p).

(** [new] returns an address that is not in use. *)
Definition tl_fresh (c : tl_call) (w : world) : Prop :=
  match c with
  | TlAssign _ addr _ => tl_heap w !! addr = None
  | TlExit _ => True
  end.

(** What the call does to the values of the threads. *)
Definition tl_spec (c : tl_call) (m : gmap nat T) : gmap nat T :=
  match c with
  | TlAssign t _ v => <[t := v]> m
  | TlExit t => delete t m
  end.

Lemma tl_read_Some w t p : tl_inv w -> t_value_ w !! t = Some p -> exists v, tl_heap w !! p = Some v.
Proof. intros (_ & _ & Hh) Ht. apply Hh. eauto. Qed.

(** Objects of other threads are elsewhere. *)
Lemma tl_read_other w t t' p :
  tl_inv w -> t_value_ w !! t = Some p -> t' <> t -> t_value_ w !! t' <> Some p.
Proof. intros (_ & Hinj & _) Ht Hne Ht'. by apply Hne, (Hinj t' t p). Qed.

Lemma instance_ok w t addr :
  tl_inv w -> tl_heap w !! addr = None ->
  exists w' p, ThreadLocalSingleton_instance w t addr = Ok (w', p) /\ tl_inv w' /\
    t_value_ w' !! t = Some p /\ (forall t', t' <> t -> tl_read w' t' = tl_read w t').
Proof.
  intros Hinv Hf. unfold ThreadLocalSingleton_instance.
  destruct (t_value_ w !! t) as [p|] eqn:Et; [by exists w, p|].
  pose proof Hinv as (Hsp & Hinj & Hh).
  assert (Hno : forall t', t_value_ w !! t' <> Some addr).
  { intros t' Ht'. destruct (Hh addr) as [_ [v Hv]]; [eauto|]. congruence. }
  unfold Deleter_set. cbn. rewrite Hsp, Et. cbn. eexists _, addr. split; [done|]. unfold tl_inv. split_and!; cbn.
  - done.
  - intros t1 t2 p H1 H2. rewrite lookup_insert_Some in H1, H2.
    destruct H1 as [[<- <-]|[Hn1 H1]], H2 as [[<- ?]|[Hn2 H2]]; try congruence; eauto; subst; exfalso; by eapply Hno.
  - intros p. rewrite lookup_insert_is_Some. split.
    + intros [<-|[Hne Hp]]; [exists t; by rewrite lookup_insert_eq|].
      apply Hh in Hp as [t' Ht']. exists t'. rewrite lookup_insert_ne; congruence.
    + intros [t' Ht']. rewrite lookup_insert_Some in Ht'. destruct Ht' as [[_ ->]|[_ Ht']]; [by left|].
      destruct (decide (addr = p)) as [->|Hne]; [by left|right]. split; [done|]. apply Hh. eauto.
  - by rewrite lookup_insert_eq.
  - intros t' Hne. unfold tl_read. cbn. rewrite lookup_insert_ne by done.
    destruct (t_value_ w !! t') as [p|] eqn:Ep; [|done]. rewrite lookup_insert_ne; [done|].
    intros ->. by apply (Hno t').
Qed.

(** Every call works, keeps the invariant and changes the value of its thread alone. *)
Lemma tl_do_ok c w :
  tl_inv w -> tl_fresh c w ->
  exists w', tl_do c w = Ok w' /\ tl_inv w' /\
    forall m, (forall t, m !! t = tl_read w t) -> forall t, tl_spec c m !! t = tl_read w' t.
Proof.
  intros Hinv Hf. destruct c as [t addr v|t]; cbn [tl_do tl_spec].
  - destruct (instance_ok w t addr Hinv Hf) as (w1 & p & E & Hinv1 & Ht & Hoth). rewrite E. cbn [obind].
    destruct (tl_read_Some w1 t p Hinv1 Ht) as [v0 Hv0]. unfold instance_assign. rewrite Hv0.
    eexists. split; [done|]. pose proof Hinv1 as (Hsp & Hinj & Hh). split.
    + unfold tl_inv. split_and!; cbn; [done|done|]. intros q. rewrite <- Hh, lookup_insert_is_Some.
      destruct (decide (p = q)) as [<-|Hne]; [|tauto]. split; [by exists v0|by left].
    + intros m Hm t'. unfold tl_read. cbn. destruct (decide (t = t')) as [<-|Hne].
      * by rewrite lookup_insert_eq, Ht, lookup_insert_eq.
      * rewrite lookup_insert_ne, Hm, <- Hoth by congruence. unfold tl_read.
        destruct (t_value_ w1 !! t') as [q|] eqn:Eq; [|done]. rewrite lookup_insert_ne; [done|].
        intros ->. by apply (tl_read_other w1 t t' q Hinv1 Ht ltac:(congruence)).
  - unfold thread_exit. pose proof Hinv as (Hsp & Hinj & Hh). rewrite Hsp.
    destruct (t_value_ w !! t) as [p|] eqn:Et.
    + destruct (tl_read_Some w t p Hinv Et) as [v0 Hv0]. unfold ThreadLocalSingleton_destructor. cbn.
      rewrite Et, Nat.eqb_refl, Hv0. cbn. eexists. split; [done|]. split.
      * unfold tl_inv. split_and!; cbn; [done| |].
        -- intros t1 t2 q [_ H1]%lookup_delete_Some [_ H2]%lookup_delete_Some. eauto.
        -- intros q. rewrite lookup_delete_is_Some. setoid_rewrite lookup_delete_Some. split.
           ++ intros [Hne [t' Ht']%Hh]. exists t'. split; [congruence|done].
           ++ intros (t' & Hne & Ht'). split; [|apply Hh; eauto]. intros <-. by apply Hne, (Hinj t t' p).
      * intros m Hm t'. unfold tl_read. cbn. destruct (decide (t = t')) as [<-|Hne].
        -- by rewrite !lookup_delete_eq.
        -- rewrite !lookup_delete_ne, Hm by done. unfold tl_read.
           destruct (t_value_ w !! t') as [q|] eqn:Eq; [|done]. rewrite lookup_delete_ne; [done|].
           intros ->. by apply (tl_read_other w t t' q Hinv Et ltac:(congruence)).
    + exists w. split; [done|]. split; [done|]. intros m Hm t'. destruct (decide (t = t')) as [<-|Hne].
      * rewrite lookup_delete_eq. unfold tl_read. by rewrite Et.
      * by rewrite lookup_delete_ne.
Qed.
End ThreadLocalSingleton.

(** ** The class Thread

    What base/thread.h defines itself: the flag [running_], read under its lock, and the
    counter [num_created_], a static of every file that includes the header. *)

Record Thread (M : Type) : Type := mkThread { running_lock_ : MutexLock M; running_ : bool }.
Arguments mkThread {M} _ _.
Arguments running_lock_ {M} _.
Arguments running_ {M} _.

(** [IsRunning] by thread [t]; [None]: it waits for the lock. *)
Definition Thread_IsRunning {M} `{PthreadMutex M} (CurrentId : nat -> Z) (th : Thread M) (t : nat)
  : outcome (option (Thread M * bool)) :=
  let* l := MutexLockGuard_new CurrentId (running_lock_ th) t in
  match l with
  | None => Ok None
  | Some l =>
      let r := running_ th in
      let* l := MutexLockGuard_destroy l t in Ok (Some (mkThread l (running_ th), r))
  end.

(** [NumCreated()]: the counter after the call, and the result. *)
Definition Thread_NumCreated (num_created_ : Z) : Z * Z :=
  AtomicIntegerT_IncrementAndGet int32 num_created_.

Lemma Thread_IsRunning_spec {M} `{PthreadMutex M} CurrentId (th : Thread M) t :
  mutex_owner (mutex_ (running_lock_ th)) = None ->
  exists th', Thread_IsRunning CurrentId th t = Ok (Some (th', running_ th)) /\
    running_ th' = running_ th /\ mutex_owner (mutex_ (running_lock_ th')) = None.
Proof.
  intros Ho. destruct (guard_section CurrentId _ t Ho) as (l1 & l2 & E1 & E2 & _ & _ & Ho2 & _).
  unfold Thread_IsRunning. rewrite E1. cbn [obind]. rewrite E2. by eexists.
Qed.

(** ** Theorems *)

(** C33: A singleton is made once. However the calls of [instance()] by any number of
    threads are interleaved, at most one object is ever made, no caller fails the
    assertion, all that have returned have the same object and by then its deletion is
    registered (once, unless the class has [no_destroy]); and every caller returns. *)
Theorem singleton_once {O} `{PthreadOnce O} (nd : bool) n :
  (forall s pcs, star (sg_step nd) (Singleton_static, replicate n SgCall) (s, pcs) ->
     (sg_made s <= 1)%nat /\ (forall i, pcs !! i <> Some SgFailed) /\
     (forall i p, pcs !! i = Some (SgReturned p) ->
        value_ s = Some p /\ p = 0%nat /\ sg_atexit s = (if nd then 0 else 1)%nat)) /\
  eventually (sg_step nd) (fun st => forall i pc, snd st !! i = Some pc -> pc = SgReturned 0)
    (Singleton_static, replicate n SgCall).
Proof.
  split.
  - intros s pcs Hrun.
    pose proof (star_invariant _ _ (sg_step_inv nd) _ _ Hrun (sg_inv_init nd n)) as Hinv.
    unfold sg_inv in Hinv. destruct (once_view (ponce_ s)).
    + destruct Hinv as [Es Hall]. rewrite Es. cbn. split_and!; [lia| |];
        [intros i Hi|intros i p Hi]; discriminate (Hall i _ Hi).
    + destruct Hinv as (i & pc & Hi & Hin & Hoth & Hd). split_and!.
      * destruct pc; cbn in Hd; lia.
      * intros j Hj. destruct (decide (j = i)) as [->|Hne]; [|discriminate (Hoth j _ Hj Hne)].
        rewrite Hi in Hj. injection Hj as ->. by destruct Hin as [?|[?|?]].
      * intros j p Hj. destruct (decide (j = i)) as [->|Hne]; [|discriminate (Hoth j _ Hj Hne)].
        rewrite Hi in Hj. injection Hj as ->. by destruct Hin as [?|[?|?]].
    + destruct Hinv as (H1 & H2 & H3 & Hall). split_and!; [lia| |].
      * intros i Hi. by destruct (Hall i _ Hi) as [?|[?|?]].
      * intros i p Hi. destruct (Hall i _ Hi) as [?|[?|[= ->]]]; done.
  - apply (eventually_measure _ _ (sg_inv nd) (fun st => sum_list_with sg_work (snd st)));
      [|apply sg_inv_init].
    intros [s pcs] Hinv. destruct (sg_progress nd s pcs Hinv) as [Hall|Hex]; [by left|right].
    split; [done|]. intros st' Hstep. split; [by eapply sg_step_inv|by eapply sg_step_work].
Qed.

(** After [destroy] has run at exit, [instance()] fails its assertion: [pthread_once] does
    not run [init] a second time. *)
Theorem instance_after_destroy {O} `{PthreadOnce O} (nd : bool) (s : Singleton O) :
  once_view (ponce_ s) = OnceDone ->
  Singleton_instance nd (Singleton_destroy s) = Fault AssertionFailed.
Proof.
  intros Hd. unfold Singleton_instance. cbn. by rewrite (once_begin_done _ Hd).
Qed.

(** An object per thread. After any sequence of assignments through [instance()] and
    of ends of threads, in which [new] returns addresses that are not in use, nothing has
    failed; every thread reads what it assigned last since it began, whatever the others
    did, and the objects alive are those of the threads that have one: nothing leaks and
    nothing is deleted twice. *)
Theorem thread_local_objects {T} (T_init : T) (calls : list (tl_call (T := T))) :
  forall (ok : forall w pre c post, calls = pre ++ c :: post ->
           foldl (fun w c => let* w := w in tl_do T_init c w) (Ok tl_start) pre = Ok w -> tl_fresh c w),
  exists w, foldl (fun w c => let* w := w in tl_do T_init c w) (Ok tl_start) calls = Ok w /\ tl_inv w /\
    forall t, tl_read w t = foldl (fun m c => tl_spec c m) ∅ calls !! t.
Proof.
  induction calls as [|c calls IH] using rev_ind; intros Hok.
  - exists tl_start. split; [done|]. split; [|done]. unfold tl_inv. cbn. split_and!; [done| |].
    + intros t t' p H _. by rewrite lookup_empty in H.
    + intros p. rewrite lookup_empty. split; [by intros [? ?]|]. intros [t H]. by rewrite lookup_empty in H.
  - destruct IH as (w & E & Hinv & Hr).
    { intros w pre c' post Hc. apply (Hok w pre c' (post ++ [c])). by rewrite Hc, <- app_assoc. }
    destruct (tl_do_ok T_init c w Hinv) as (w' & E' & Hinv' & Hr').
    { by apply (Hok w calls c []). }
    exists w'. rewrite !foldl_app, E. cbn. split; [done|]. split; [done|]. intros t. symmetry. apply Hr'.
    intros t'. by rewrite Hr.
Qed.

(** Reading [NumCreated] changes it: two calls in a row give different numbers. *)
Theorem NumCreated_counts_its_calls n :
  0 <= n -> n < 2 ^ 31 - 2 ->
  let '(n1, r1) := Thread_NumCreated n in
  let '(n2, r2) := Thread_NumCreated n1 in
  r1 = n + 1 /\ r2 = n + 2.
Proof.
  intros H0 H1. change (2 ^ 31) with 2147483648 in H1.
  assert (E : forall m, 0 <= m -> m < 2147483647 -> Thread_NumCreated m = (m + 1, m + 1)).
  { intros m Hm Hm'. unfold Thread_NumCreated, AtomicIntegerT_IncrementAndGet, AtomicIntegerT_AddAndGet,
      AtomicIntegerT_GetAndAdd, fetch_add, cell_load, cell_store. unfold cast. change (isigned int32) with true. cbv iota.
    change (bits int32) with 32. rewrite (swrap_small 32 m), (swrap_small 32 1), (swrap_small 32 (m + 1)),
      uwrap_small; change (2 ^ (32 - 1)) with 2147483648; change (2 ^ 32) with 4294967296; done || lia. }
  rewrite !E by lia. lia.
Qed.

(** ** Witnesses *)

Lemma singleton_once_witness :
  eventually (sg_step false) (fun st => forall i pc, snd st !! i = Some pc -> pc = SgReturned 0)
    (@Singleton_static once_state _, replicate 3 SgCall).
Proof. exact (proj2 (singleton_once false 3)). Defined.

Lemma thread_local_objects_witness :
  exists w, foldl (fun w c => let* w := w in tl_do 0 c w) (Ok tl_start)
              [TlAssign 1 10 5; TlAssign 2 11 6; TlExit 1] = Ok w /\
    tl_read w 2 = Some 6 /\ tl_read w 1 = None.
Proof.
  destruct (thread_local_objects 0 [TlAssign 1 10 5; TlAssign 2 11 6; TlExit 1]) as (w & E & _ & Hr).
  - intros w [|c1 [|c2 [|c3 pre]]] c post Ec Ew.
    + injection Ec as <- _. vm_compute in Ew. injection Ew as <-. reflexivity.
    + injection Ec as <- <- _. vm_compute in Ew. injection Ew as <-. reflexivity.
    + injection Ec as <- <- <- _. exact I.
    + injection Ec as _ _ _ Ec. by destruct pre.
  - exists w. split; [exact E|]. rewrite !Hr. split; reflexivity.
Defined.
