(* ===== verification/Stream.v ===== *)
(** * stream.h and stream.cc: FixedBuffer, Stream and the integer formatting

    A [FixedBuffer<SIZE>] is the block [data_] and the offset of [cur_] in it. Reads
    and writes through [current()] go straight to the block, so the formatting
    functions are given with their bounds: a write past the end of [data_] is a
    [Fault]. [Stream] is a [FixedBuffer<kSmallBuffer>]; it is also the private stack of
    a coroutine ([Coroutine::stack_]). *)

From stdpp Require Import base numbers list.
From Stdlib Require Import Lia ZArith.
From S2P Require Import Prelude.

(** ** FixedBuffer *)

Definition kSmallBuffer : Z := 4000.
Definition kLargeBuffer : Z := 4000 * 1000.
Definition kMaxNumericSize : Z := 48.

(** [SIZE] is the template argument; [cur] is [cur_ - data_]. *)
Record FixedBuffer : Type := mkFixedBuffer {
  fb_SIZE : Z;
  fb_data : list Z;
  fb_cur : Z
}.

(** The constructor leaves [data_] uninitialised: [junk] is what the memory holds. *)
Definition FixedBuffer_new (SIZE : Z) (junk : list Z) : FixedBuffer :=
  mkFixedBuffer SIZE junk 0.

Definition FixedBuffer_length (b : FixedBuffer) : Z := i32 (fb_cur b).
Definition FixedBuffer_avail (b : FixedBuffer) : Z := i32 (fb_SIZE b - fb_cur b).
Definition FixedBuffer_size (b : FixedBuffer) : Z := fb_SIZE b.
Definition FixedBuffer_add (b : FixedBuffer) (len : Z) : FixedBuffer :=
  mkFixedBuffer (fb_SIZE b) (fb_data b) (fb_cur b + len).
Definition FixedBuffer_reset (b : FixedBuffer) : FixedBuffer :=
  mkFixedBuffer (fb_SIZE b) (fb_data b) 0.
Definition FixedBuffer_bzero (b : FixedBuffer) : FixedBuffer :=
  mkFixedBuffer (fb_SIZE b) (replicate (length (fb_data b)) 0) (fb_cur b).
Definition FixedBuffer_toString (b : FixedBuffer) : list Z :=
  take (Z.to_nat (FixedBuffer_length b)) (fb_data b).

(** [append(buf, len)]: the comparison is between [size_t]s. *)
Definition FixedBuffer_append (b : FixedBuffer) (buf : list Z) (len : Z) : FixedBuffer :=
  if u64 len <? u64 (FixedBuffer_avail b) then
    mkFixedBuffer (fb_SIZE b)
      (splice (fb_data b) (Z.to_nat (fb_cur b)) (take (Z.to_nat len) buf))
      (fb_cur b + len)
  else b.

(** Writing [bytes] through [current() + off]. *)
Definition FixedBuffer_poke (b : FixedBuffer) (off : Z) (bytes : list Z)
  : outcome FixedBuffer :=
  if fb_cur b + off + Z.of_nat (length bytes) <=? fb_SIZE b then
    Ok (mkFixedBuffer (fb_SIZE b)
          (splice (fb_data b) (Z.to_nat (fb_cur b + off)) bytes) (fb_cur b))
  else Fault OutOfBounds.

(** [debugString] terminates the string in place, then returns [data_]. *)
Definition FixedBuffer_debugString (b : FixedBuffer) : outcome FixedBuffer :=
  FixedBuffer_poke b 0 [0].

(** ** Integer to string *)

(** ["9876543210123456789"]; [zero] points at its tenth character. *)
Definition digits : list Z :=
  [57; 56; 55; 54; 53; 52; 51; 50; 49; 48; 49; 50; 51; 52; 53; 54; 55; 56; 57].
Definition zero (lsd : Z) : Z := nth (Z.to_nat (9 + lsd)) digits 0.

(** The do-while loop of [convert]: the characters in the order they are stored,
    least significant first; [None] when the fuel runs out. *)
Fixpoint convert_loop (fuel : nat) (i : Z) : option (list Z) :=
  match fuel with
  | O => None
  | S fuel' =>
      let lsd := Z.rem i 10 in
      let i' := Z.quot i 10 in
      let c := zero lsd in
      if i' =? 0 then Some [c]
      else match convert_loop fuel' i' with
           | Some p => Some (c :: p)
           | None => None
           end
  end.

(** [convert(buf, value)]: the characters it leaves in [buf] (the terminating NUL not
    counted); 20 rounds are enough for 64-bit values ([convert_digits]). *)
Definition convert (value : Z) : option (list Z) :=
  match convert_loop 20 value with
  | Some p => Some (rev (if value <? 0 then p ++ [45] else p))
  | None => None
  end.

(** ["0123456789ABCDEF"] *)
Definition digitsHex : list Z :=
  [48; 49; 50; 51; 52; 53; 54; 55; 56; 57; 65; 66; 67; 68; 69; 70].

Fixpoint convertHex_loop (fuel : nat) (i : Z) : option (list Z) :=
  match fuel with
  | O => None
  | S fuel' =>
      let lsd := i mod 16 in
      let i' := i / 16 in
      let c := nth (Z.to_nat lsd) digitsHex 0 in
      if i' =? 0 then Some [c]
      else match convertHex_loop fuel' i' with
           | Some p => Some (c :: p)
           | None => None
           end
  end.

Definition convertHex (value : Z) : option (list Z) :=
  match convertHex_loop 16 value with
  | Some p => Some (rev p)
  | None => None
  end.

(** ** Stream: a [FixedBuffer<kSmallBuffer>] with output operators *)

Abbreviation Stream := FixedBuffer.

Definition Stream_new (junk : list Z) : Stream := FixedBuffer_new kSmallBuffer junk.

(** [append] of a span: the [int] length becomes a [size_t]. *)
Definition Stream_append (s : Stream) (data : list Z) (len : Z) : Stream :=
  FixedBuffer_append s data (i32 len).
Definition Stream_reset (s : Stream) : Stream := FixedBuffer_reset s.
Definition Stream_bzero (s : Stream) : Stream := FixedBuffer_bzero s.
Definition Stream_size (s : Stream) : Z := FixedBuffer_size s.
Definition Stream_data (s : Stream) : list Z := fb_data s.

Definition Stream_out_bool (s : Stream) (v : bool) : Stream :=
  FixedBuffer_append s (if v then [49] else [48]) 1.
Definition Stream_out_char (s : Stream) (v : Z) : Stream := FixedBuffer_append s [v] 1.
Definition Stream_out_string (s : Stream) (v : list Z) : Stream :=
  FixedBuffer_append s v (Z.of_nat (length v)).
Definition Stream_out_buffer (s : Stream) (v : FixedBuffer) : Stream :=
  Stream_out_string s (FixedBuffer_toString v).

(** The output operator on C strings: [None] is the null pointer, printed as (null). *)
Definition Stream_out_cstr (s : Stream) (str : option (list Z)) : Stream :=
  match str with
  | Some str => FixedBuffer_append s str (Z.of_nat (length str))
  | None => FixedBuffer_append s [40; 110; 117; 108; 108; 41] 6
  end.

(** [formatInteger]: [convert] writes the characters and a NUL at [current()]. *)
Definition formatInteger (s : Stream) (v : Z) : outcome Stream :=
  if kMaxNumericSize <=? FixedBuffer_avail s then
    match convert v with
    | Some cs => let* s' := FixedBuffer_poke s 0 (cs ++ [0]) in
                 Ok (FixedBuffer_add s' (Z.of_nat (length cs)))
    | None => Fault OutOfBounds
    end
  else Ok s.

Definition Stream_out_int (s : Stream) (v : Z) : outcome Stream := formatInteger s v.
Definition Stream_out_unsigned (s : Stream) (v : Z) : outcome Stream := formatInteger s v.
Definition Stream_out_long (s : Stream) (v : Z) : outcome Stream := formatInteger s v.
Definition Stream_out_unsigned_long (s : Stream) (v : Z) : outcome Stream := formatInteger s v.
Definition Stream_out_long_long (s : Stream) (v : Z) : outcome Stream := formatInteger s v.
Definition Stream_out_unsigned_long_long (s : Stream) (v : Z) : outcome Stream :=
  formatInteger s v.
Definition Stream_out_short (s : Stream) (v : Z) : outcome Stream := Stream_out_int s (i32 v).
Definition Stream_out_unsigned_short (s : Stream) (v : Z) : outcome Stream :=
  Stream_out_unsigned s (u32 v).

(** The output operator on pointers. *)
Definition Stream_out_pointer (s : Stream) (v : Z) : outcome Stream :=
  if kMaxNumericSize <=? FixedBuffer_avail s then
    match convertHex v with
    | Some cs => let* s1 := FixedBuffer_poke s 0 [48; 120] in
                 let* s2 := FixedBuffer_poke s1 2 (cs ++ [0]) in
                 Ok (FixedBuffer_add s2 (Z.of_nat (length cs) + 2))
    | None => Fault OutOfBounds
    end
  else Ok s.

(** ** Specification *)

Definition fb_wf (b : FixedBuffer) : Prop :=
  0 < fb_SIZE b < 2 ^ 31 /\ Z.of_nat (length (fb_data b)) = fb_SIZE b /\
  0 <= fb_cur b <= fb_SIZE b.

(** What has been written to the buffer so far. *)
Definition fb_contents (b : FixedBuffer) : list Z := take (Z.to_nat (fb_cur b)) (fb_data b).

(** The value of a list of digits in base [B], most significant first. *)
Definition digits_value (B : Z) (ds : list Z) : Z := fold_left (fun n d => n * B + d) ds 0.

(** The number a string of the form [-?[0-9]+] denotes. *)
Definition decimal_value (s : list Z) : Z :=
  match s with
  | [] => 0
  | c :: ds => if c =? 45 then - digits_value 10 (map (fun c => c - 48) ds)
               else digits_value 10 (map (fun c => c - 48) s)
  end.

Definition is_digit (c : Z) : Prop := 48 <= c <= 57.

(** A canonical decimal numeral: a sign only on a negative number, no leading zero. *)
Definition canonical_decimal (s : list Z) : Prop :=
  match s with
  | [] => False
  | c :: ds =>
      if c =? 45 then match ds with
                      | [] => False
                      | d :: ds' => is_digit d /\ Forall is_digit ds' /\ d <> 48
                      end
      else is_digit c /\ Forall is_digit ds /\ (c = 48 -> ds = [])
  end.

Definition hex_value (c : Z) : Z := if c <=? 57 then c - 48 else c - 55.

(** ** Lemmas on the buffer *)

Lemma fb_avail_eq b : fb_wf b -> FixedBuffer_avail b = fb_SIZE b - fb_cur b.
Proof. intros (H1 & H2 & H3). apply swrap_small; lia. Qed.

Lemma fb_length_eq b : fb_wf b -> FixedBuffer_length b = fb_cur b.
Proof. intros (H1 & H2 & H3). apply swrap_small; lia. Qed.

Lemma fb_toString_contents b : fb_wf b -> FixedBuffer_toString b = fb_contents b.
Proof. intros H. unfold FixedBuffer_toString. by rewrite fb_length_eq. Qed.

(** Writing [src] at [cur_] and advancing by its length extends the contents. *)
Lemma fb_contents_splice b src n :
  fb_wf b -> fb_cur b + Z.of_nat (length src) <= fb_SIZE b -> (n <= length src)%nat ->
  fb_contents (mkFixedBuffer (fb_SIZE b) (splice (fb_data b) (Z.to_nat (fb_cur b)) src)
                 (fb_cur b + Z.of_nat n)) = fb_contents b ++ take n src.
Proof.
  intros (H1 & H2 & H3) Hl Hn. unfold fb_contents, splice. cbn.
  replace (Z.to_nat (fb_cur b + Z.of_nat n)) with (Z.to_nat (fb_cur b) + n)%nat by lia.
  rewrite take_app. rewrite length_take_le by lia.
  rewrite take_ge by (rewrite length_take; lia). f_equal.
  replace (Z.to_nat (fb_cur b) + n - Z.to_nat (fb_cur b))%nat with n by lia.
  by rewrite take_app_le by lia.
Qed.

Lemma fb_wf_splice b src n :
  fb_wf b -> fb_cur b + Z.of_nat (length src) <= fb_SIZE b -> 0 <= n <= Z.of_nat (length src) ->
  fb_wf (mkFixedBuffer (fb_SIZE b) (splice (fb_data b) (Z.to_nat (fb_cur b)) src) (fb_cur b + n)).
Proof.
  intros (H1 & H2 & H3) Hl Hn. repeat split; cbn; try lia. rewrite length_splice; lia.
Qed.

Lemma poke0_ok b bytes :
  fb_cur b + Z.of_nat (length bytes) <= fb_SIZE b ->
  FixedBuffer_poke b 0 bytes =
  Ok (mkFixedBuffer (fb_SIZE b) (splice (fb_data b) (Z.to_nat (fb_cur b)) bytes) (fb_cur b)).
Proof.
  intros H. unfold FixedBuffer_poke. rewrite Z.add_0_r.
  by destruct (Z.leb_spec (fb_cur b + Z.of_nat (length bytes)) (fb_SIZE b)); [|lia].
Qed.

#[export] Hint Resolve fb_wf_splice : co.

(** ** Lemmas on digits *)

Lemma digits_value_app B ds d : digits_value B (ds ++ [d]) = digits_value B ds * B + d.
Proof. unfold digits_value. by rewrite fold_left_app. Qed.

Lemma zero_nonneg d : 0 <= d < 10 -> zero d = 48 + d.
Proof.
  intros H. assert (d = 0 \/ d = 1 \/ d = 2 \/ d = 3 \/ d = 4 \/ d = 5 \/ d = 6 \/ d = 7 \/
    d = 8 \/ d = 9) as C by lia.
  repeat destruct C as [->|C]; try reflexivity. by subst.
Qed.

Lemma zero_opp d : 0 <= d < 10 -> zero (- d) = 48 + d.
Proof.
  intros H. assert (d = 0 \/ d = 1 \/ d = 2 \/ d = 3 \/ d = 4 \/ d = 5 \/ d = 6 \/ d = 7 \/
    d = 8 \/ d = 9) as C by lia.
  repeat destruct C as [->|C]; try reflexivity. by subst.
Qed.

(** The table is symmetric around [zero]: a negative value prints its absolute value. *)
Lemma convert_loop_opp fuel i : 0 <= i -> convert_loop fuel (- i) = convert_loop fuel i.
Proof.
  revert i. induction fuel as [|fuel IH]; intros i Hi; [done|]. cbn [convert_loop].
  rewrite Z.rem_opp_l, Z.quot_opp_l by lia.
  rewrite Z.rem_mod_nonneg, Z.quot_div_nonneg by lia.
  pose proof (Z.mod_pos_bound i 10). rewrite zero_opp, zero_nonneg by lia.
  pose proof (Z.div_pos i 10). rewrite IH by lia.
  case_ztests; try done; lia.
Qed.

(** What the loop leaves: the digits of [i], least significant first. *)
Lemma convert_loop_spec fuel i :
  0 <= i < 10 ^ Z.of_nat fuel -> (0 < fuel)%nat ->
  exists d ds, convert_loop fuel i = Some (rev (d :: ds)) /\
    (length (d :: ds) <= fuel)%nat /\ Forall is_digit (d :: ds) /\
    digits_value 10 (map (fun c => c - 48) (d :: ds)) = i /\ (d = 48 -> ds = []).
Proof.
  revert i. induction fuel as [|fuel IH]; intros i Hi Hf; [lia|]. cbn [convert_loop].
  rewrite Z.rem_mod_nonneg, Z.quot_div_nonneg by lia.
  pose proof (Z.mod_pos_bound i 10 ltac:(lia)). pose proof (Z.div_pos i 10).
  pose proof (Z_div_mod_eq_full i 10). rewrite zero_nonneg by lia.
  destruct (Z.eqb_spec (i / 10) 0) as [E|E].
  - exists (48 + i mod 10), []. split; [done|]. split; [cbn; lia|]. split; [|split; [|done]].
    + repeat constructor; unfold is_digit; lia.
    + unfold digits_value; cbn. lia.
  - rewrite Nat2Z.inj_succ, Z.pow_succ_r in Hi by lia.
    assert (i / 10 < 10 ^ Z.of_nat fuel) by (apply Z.div_lt_upper_bound; lia).
    destruct fuel as [|fuel']; [change (10 ^ Z.of_nat 0) with 1 in *; lia|].
    destruct (IH (i / 10)) as (d & ds & -> & Hlen & Hd & Hv & Hz); [lia|lia|].
    exists d, (ds ++ [48 + i mod 10]). split; [|split; [|split; [|split]]].
    + change (d :: ds ++ [48 + i mod 10]) with ((d :: ds) ++ [48 + i mod 10]).
      by rewrite (rev_app_distr (d :: ds)).
    + cbn in *. rewrite length_app. cbn. lia.
    + change (Forall is_digit ((d :: ds) ++ [48 + i mod 10])).
      apply Forall_app; split; [done|]. repeat constructor; unfold is_digit; lia.
    + change (d :: ds ++ [48 + i mod 10]) with ((d :: ds) ++ [48 + i mod 10]).
      rewrite map_app. refine (eq_trans (digits_value_app 10 _ _) _). rewrite Hv. lia.
    + intros ->. exfalso. specialize (Hz eq_refl). subst ds. cbn in Hv. lia.
Qed.

(** More fuel does not change a result. *)
Lemma convert_loop_more fuel i p :
  convert_loop fuel i = Some p -> convert_loop (S fuel) i = Some p.
Proof.
  revert i p. induction fuel as [|fuel IH]; intros i p H; [done|].
  cbn [convert_loop] in H. change (convert_loop (S (S fuel)) i) with
    (if Z.quot i 10 =? 0 then Some [zero (Z.rem i 10)]
     else match convert_loop (S fuel) (Z.quot i 10) with
          | Some p => Some (zero (Z.rem i 10) :: p) | None => None end).
  destruct (Z.quot i 10 =? 0); [done|].
  destruct (convert_loop fuel (Z.quot i 10)) as [q|] eqn:E; [|done].
  by rewrite (IH _ _ E).
Qed.

(** [convert] prints the canonical decimal numeral of every 64-bit value, signed or
    unsigned, in at most 20 characters. *)
Lemma convert_digits v :
  - 2 ^ 63 <= v < 2 ^ 64 ->
  exists s, convert v = Some s /\ decimal_value s = v /\ canonical_decimal s /\
    (1 <= length s <= 20)%nat.
Proof.
  intros Hv. unfold convert. destruct (Z.ltb_spec v 0) as [Hn|Hn].
  - destruct (convert_loop_spec 19 (- v)) as (d & ds & E & Hl & Hd & Hval & Hz);
      [change (10 ^ Z.of_nat 19) with 10000000000000000000; lia|lia|].
    apply convert_loop_more in E. rewrite <- convert_loop_opp, Z.opp_involutive in E by lia.
    rewrite E, rev_app_distr, rev_involutive. cbn [rev app].
    exists (45 :: d :: ds). apply Forall_cons in Hd as [H1 H2]. split; [done|].
    split; [|split; [split; [done|split; [done|]]|cbn in *; lia]].
    + cbn -[digits_value map]. rewrite Hval. lia.
    + intros ->. rewrite (Hz eq_refl) in Hval. cbn in Hval. lia.
  - destruct (convert_loop_spec 20 v) as (d & ds & E & Hl & Hd & Hval & Hz);
      [change (10 ^ Z.of_nat 20) with 100000000000000000000; lia|lia|].
    rewrite E, rev_involutive. exists (d :: ds). apply Forall_cons in Hd as [H1 H2].
    assert (d <> 45) by (unfold is_digit in H1; lia).
    split; [done|]. split; [|split; [|cbn in *; lia]].
    + unfold decimal_value. by destruct (Z.eqb_spec d 45).
    + unfold canonical_decimal. by destruct (Z.eqb_spec d 45).
Qed.

Lemma hex_digit_value d : 0 <= d < 16 -> hex_value (nth (Z.to_nat d) digitsHex 0) = d.
Proof.
  intros H.
  assert (E : forall n, (n < 16)%nat -> hex_value (nth n digitsHex 0) = Z.of_nat n).
  { intros n Hn. do 16 (destruct n as [|n]; [reflexivity|]). lia. }
  rewrite E; lia.
Qed.

Lemma convertHex_loop_spec fuel i :
  0 <= i < 16 ^ Z.of_nat fuel -> (0 < fuel)%nat ->
  exists p, convertHex_loop fuel i = Some p /\ (1 <= length p <= fuel)%nat /\
    digits_value 16 (map hex_value (rev p)) = i.
Proof.
  revert i. induction fuel as [|fuel IH]; intros i Hi Hf; [lia|]. cbn [convertHex_loop].
  pose proof (Z.mod_pos_bound i 16 ltac:(lia)). pose proof (Z.div_pos i 16).
  pose proof (Z_div_mod_eq_full i 16).
  destruct (Z.eqb_spec (i / 16) 0) as [E|E].
  - eexists. split; [done|]. split; [cbn; lia|].
    cbn [rev app map]. unfold digits_value; cbn -[hex_value nth]. rewrite hex_digit_value; lia.
  - rewrite Nat2Z.inj_succ, Z.pow_succ_r in Hi by lia.
    assert (i / 16 < 16 ^ Z.of_nat fuel) by (apply Z.div_lt_upper_bound; lia).
    destruct fuel as [|fuel']; [change (16 ^ Z.of_nat 0) with 1 in *; lia|].
    destruct (IH (i / 16)) as (p & -> & Hlen & Hv); [lia|lia|].
    eexists. split; [done|]. split; [cbn; lia|].
    cbn [rev]. rewrite map_app. refine (eq_trans (digits_value_app 16 _ _) _).
    rewrite Hv, hex_digit_value; lia.
Qed.

Lemma convertHex_digits v :
  0 <= v < 2 ^ 64 ->
  exists s, convertHex v = Some s /\ (1 <= length s <= 16)%nat /\
    digits_value 16 (map hex_value s) = v.
Proof.
  intros Hv. unfold convertHex.
  destruct (convertHex_loop_spec 16 v) as (p & -> & Hl & Hval);
    [change (16 ^ Z.of_nat 16) with (2 ^ 64); lia|lia|].
  exists (rev p). by rewrite length_rev.
Qed.

(** Writing a string and its NUL at [current()], then advancing over the string. *)
Lemma poke_add_spec b cs :
  fb_wf b -> fb_cur b + Z.of_nat (length cs) + 1 <= fb_SIZE b ->
  exists b', FixedBuffer_poke b 0 (cs ++ [0]) = Ok b' /\
    fb_wf (FixedBuffer_add b' (Z.of_nat (length cs))) /\
    fb_contents (FixedBuffer_add b' (Z.of_nat (length cs))) = fb_contents b ++ cs.
Proof.
  intros Hb Hl. eexists. split.
  { apply poke0_ok. rewrite length_app. cbn. lia. }
  unfold FixedBuffer_add; cbn [fb_SIZE fb_data fb_cur]. split.
  - apply fb_wf_splice; [done| |]; rewrite length_app; cbn; lia.
  - rewrite fb_contents_splice; [|done|rewrite length_app; cbn; lia|rewrite length_app; lia].
    by rewrite take_app_length.
Qed.

Lemma append_spec b buf len :
  fb_wf b -> 0 <= len -> len = Z.of_nat (length buf) -> len < 2 ^ 63 ->
  let b' := FixedBuffer_append b buf len in
  fb_wf b' /\ (if len <? fb_SIZE b - fb_cur b then fb_contents b' = fb_contents b ++ buf
               else b' = b).
Proof.
  intros Hb H0 Hl Hmax b'. pose proof Hb as (H1 & H2 & H3).
  unfold b', FixedBuffer_append. rewrite fb_avail_eq by done.
  rewrite !uwrap_small by lia.
  destruct (Z.ltb_spec len (fb_SIZE b - fb_cur b)); [|done].
  rewrite Hl, Nat2Z.id, firstn_all. split.
  - apply fb_wf_splice; [done|lia|lia].
  - rewrite fb_contents_splice by (done || lia). by rewrite firstn_all.
Qed.

(** ** Properties *)

(** [FixedBuffer::append] is all or nothing and never leaves the block: it keeps the
    buffer well formed, appends the whole span when more than [len] bytes are free, and
    changes nothing otherwise. *)
Theorem FixedBuffer_append_all_or_nothing b buf :
  fb_wf b -> Z.of_nat (length buf) < 2 ^ 63 ->
  fb_wf (FixedBuffer_append b buf (Z.of_nat (length buf))) /\
  FixedBuffer_toString (FixedBuffer_append b buf (Z.of_nat (length buf))) =
    if Z.of_nat (length buf) <? FixedBuffer_avail b
    then FixedBuffer_toString b ++ buf else FixedBuffer_toString b.
Proof.
  intros Hb Hl.
  destruct (append_spec b buf (Z.of_nat (length buf))) as [Hw Hc]; [done|lia|done|done|].
  split; [done|]. rewrite !fb_toString_contents, fb_avail_eq by done.
  case_ztests; [done|]. by rewrite Hc.
Qed.

Lemma FixedBuffer_append_all_or_nothing_witness :
  FixedBuffer_toString
    (FixedBuffer_append (FixedBuffer_append (FixedBuffer_new 4 [0; 0; 0; 0]) [65; 66] 2)
       [67; 68] 2) = [65; 66].
Proof.
  set (b := FixedBuffer_append (FixedBuffer_new 4 [0; 0; 0; 0]) [65; 66] 2).
  assert (Hb : fb_wf b) by eval_closed.
  exact (proj2 (FixedBuffer_append_all_or_nothing b [67; 68] Hb ltac:(cbn; lia))).
Defined.

(** Printing an integer is exact and stays in the buffer: for every 64-bit value,
    signed (the minimum included) or unsigned, [formatInteger] never writes past
    [data_]; with at least [kMaxNumericSize] bytes free it appends the canonical decimal
    numeral of the value, and with less it changes nothing. *)
Theorem formatInteger_exact s v :
  fb_wf s -> - 2 ^ 63 <= v < 2 ^ 64 ->
  exists s', formatInteger s v = Ok s' /\ fb_wf s' /\
    (if kMaxNumericSize <=? FixedBuffer_avail s
     then exists cs, FixedBuffer_toString s' = FixedBuffer_toString s ++ cs /\
            decimal_value cs = v /\ canonical_decimal cs
     else s' = s).
Proof.
  intros Hs Hv. unfold formatInteger. rewrite fb_avail_eq by done.
  destruct (Z.leb_spec kMaxNumericSize (fb_SIZE s - fb_cur s)) as [Ha|Ha]; [|by eexists].
  destruct (convert_digits v Hv) as (cs & -> & Hval & Hcan & Hlen).
  unfold kMaxNumericSize in Ha.
  destruct (poke_add_spec s cs) as (b' & -> & Hw & Hc); [done|lia|].
  eexists. split; [reflexivity|]. split; [done|]. exists cs.
  by rewrite !fb_toString_contents by done.
Qed.

Lemma formatInteger_exact_witness :
  exists s', formatInteger (FixedBuffer_new 64 (replicate 64 0)) (- 2 ^ 63) = Ok s' /\
    FixedBuffer_toString s' =
      [45; 57; 50; 50; 51; 51; 55; 50; 48; 51; 54; 56; 53; 52; 55; 55; 53; 56; 48; 56].
Proof.
  destruct (formatInteger_exact (FixedBuffer_new 64 (replicate 64 0)) (- 2 ^ 63))
    as (s' & E & _); [eval_closed | lia |].
  exists s'. split; [exact E|]. vm_compute in E. injection E as <-. reflexivity.
Defined.

(** Printing a pointer stays in the buffer and can be read back: with at least
    [kMaxNumericSize] bytes free it appends 0x and upper-case hexadecimal digits whose
    value is the pointer, otherwise it changes nothing. *)
Theorem Stream_out_pointer_exact s v :
  fb_wf s -> 0 <= v < 2 ^ 64 ->
  exists s', Stream_out_pointer s v = Ok s' /\ fb_wf s' /\
    (if kMaxNumericSize <=? FixedBuffer_avail s
     then exists cs, FixedBuffer_toString s' = FixedBuffer_toString s ++ [48; 120] ++ cs /\
            digits_value 16 (map hex_value cs) = v
     else s' = s).
Proof.
  intros Hs Hv. unfold Stream_out_pointer. rewrite fb_avail_eq by done.
  destruct (Z.leb_spec kMaxNumericSize (fb_SIZE s - fb_cur s)) as [Ha|Ha]; [|by eexists].
  destruct (convertHex_digits v Hv) as (cs & -> & Hlen & Hval).
  unfold kMaxNumericSize in Ha. pose proof Hs as (H1 & H2 & H3).
  rewrite poke0_ok by (cbn; lia). cbn [obind].
  set (s1 := mkFixedBuffer _ _ (fb_cur s)). set (s1' := FixedBuffer_add s1 2).
  assert (Hw1 : fb_wf s1') by (apply (fb_wf_splice s [48; 120] 2); [done| |]; cbn; lia).
  assert (Hc1 : fb_contents s1' = fb_contents s ++ [48; 120])
    by (apply (fb_contents_splice s [48; 120] 2); [done| |]; cbn; lia).
  assert (E : FixedBuffer_poke s1 2 (cs ++ [0]) =
    let* x := FixedBuffer_poke s1' 0 (cs ++ [0]) in Ok (mkFixedBuffer (fb_SIZE x) (fb_data x) (fb_cur s1))).
  { unfold FixedBuffer_poke, s1'. cbn [FixedBuffer_add fb_cur fb_SIZE fb_data].
    rewrite Z.add_0_r. by case_match. }
  destruct (poke_add_spec s1' cs) as (b' & E' & Hw & Hc); [done|cbn; lia|].
  rewrite E, E'. cbn [obind].
  assert (Hcur : fb_cur b' = fb_cur s1').
  { unfold FixedBuffer_poke in E'. case_match; [|done]. by injection E' as <-. }
  assert (Eb : FixedBuffer_add (mkFixedBuffer (fb_SIZE b') (fb_data b') (fb_cur s1))
                 (Z.of_nat (length cs) + 2) = FixedBuffer_add b' (Z.of_nat (length cs))).
  { unfold FixedBuffer_add; cbn. rewrite Hcur. f_equal. cbn. lia. }
  rewrite Eb. eexists. split; [reflexivity|]. split; [done|]. exists cs.
  rewrite !fb_toString_contents by done. rewrite Hc, Hc1. by rewrite <- app_assoc.
Qed.

Lemma Stream_out_pointer_exact_witness :
  exists s', Stream_out_pointer (FixedBuffer_new 64 (replicate 64 0)) 48879 = Ok s' /\
    FixedBuffer_toString s' = [48; 120; 66; 69; 69; 70].
Proof.
  destruct (Stream_out_pointer_exact (FixedBuffer_new 64 (replicate 64 0)) 48879)
    as (s' & E & _); [eval_closed | lia |].
  exists s'. split; [exact E|]. vm_compute in E. injection E as <-. reflexivity.
Defined.
