(* ===== verification/Format.v ===== *)
(** * stream.cc: numbers with units, and floating-point output

    [formatSI] and [formatIEC] print a count with a unit prefix, the output operator of
    [Stream] prints doubles with [%.12g]. Every finite double is a multiple of 2^-1074, the
    least positive one, so a finite double is modelled by that multiple, a [Z]: comparing
    is comparing integers, and the result of an operation is the exact result rounded to
    53 significant bits, ties to even ([fl]; the values here are far below the largest
    double). [snprintf] rounds the exact value of its argument in the same way. *)

From stdpp Require Import base numbers list.
From Corelib Require Import SpecFloat.
From Stdlib Require Import Lia ZArith.
From S2P Require Import Prelude Stream.

(** ** Doubles *)

(** The integer nearest to [num / den], the even one of two. *)
Definition round_half_even (num den : Z) : Z :=
  let q := num / den in
  let r := num mod den in
  if 2 * r <? den then q
  else if den <? 2 * r then q + 1
  else if Z.even q then q else q + 1.

(** One, as a multiple of the least double. *)
Definition one : Z := 2 ^ 1074.

(** The double nearest to [num / den], for numbers that are not negative. *)
Definition fl_nonneg (num den : Z) : Z :=
  let k := Z.max 0 (Z.log2 (num * one / den) - 52) in
  round_half_even (num * one) (den * 2 ^ k) * 2 ^ k.
Definition fl (num den : Z) : Z :=
  if num <? 0 then - fl_nonneg (- num) den else fl_nonneg num den.

(** [static_cast<double>(s)], the operators of the code, and a decimal literal
    [num / den]. *)
Definition double_of (s : Z) : Z := fl s 1.
Definition ddiv (x y : Z) : Z := fl x y.
Definition dmul (x y : Z) : Z := fl (x * y) (one * one).
Definition literal (num den : Z) : Z := fl num den.

(** ** printf *)

(** The last [p] decimal digits of [v]. *)
Fixpoint pad_digits (p : nat) (v : Z) : list Z :=
  match p with
  | O => []
  | S p => pad_digits p (v / 10) ++ [48 + v mod 10]
  end.

(** [%.<p>f] of a double that is not negative: its decimal digits up to the [p]-th after
    the point, as a number, and as text. *)
Definition fixed_digits (p : nat) (x : Z) : Z := round_half_even (x * 10 ^ Z.of_nat p) one.
Definition fixed_text (p : nat) (n : Z) : list Z :=
  decimal (n / 10 ^ Z.of_nat p) ++
  match p with O => [] | S _ => 46 :: pad_digits p (n mod 10 ^ Z.of_nat p) end.
Definition printf_f (p : nat) (x : Z) : list Z := fixed_text p (fixed_digits p x).

(** [%" PRId64 "]. *)
Definition printf_d (s : Z) : list Z := if s <? 0 then 45 :: decimal (- s) else decimal s.

(** [snprintf] to [char buf[64]], and the string made of [buf]. *)
Definition snprintf64 (text : list Z) : list Z := take 63 text.

(** ** formatSI *)

Definition formatSI (s : Z) : list Z :=
  let n := double_of s in
  let e k := literal (10 ^ k) 1 in
  snprintf64
    (if s <? 1000 then printf_d s
     else if s <? 9995 then printf_f 2 (ddiv n (e 3)) ++ [107]
     else if s <? 99950 then printf_f 1 (ddiv n (e 3)) ++ [107]
     else if s <? 999500 then printf_f 0 (ddiv n (e 3)) ++ [107]
     else if s <? 9995000 then printf_f 2 (ddiv n (e 6)) ++ [77]
     else if s <? 99950000 then printf_f 1 (ddiv n (e 6)) ++ [77]
     else if s <? 999500000 then printf_f 0 (ddiv n (e 6)) ++ [77]
     else if s <? 9995000000 then printf_f 2 (ddiv n (e 9)) ++ [71]
     else if s <? 99950000000 then printf_f 1 (ddiv n (e 9)) ++ [71]
     else if s <? 999500000000 then printf_f 0 (ddiv n (e 9)) ++ [71]
     else if s <? 9995000000000 then printf_f 2 (ddiv n (e 12)) ++ [84]
     else if s <? 99950000000000 then printf_f 1 (ddiv n (e 12)) ++ [84]
     else if s <? 999500000000000 then printf_f 0 (ddiv n (e 12)) ++ [84]
     else if s <? 9995000000000000 then printf_f 2 (ddiv n (e 15)) ++ [80]
     else if s <? 99950000000000000 then printf_f 1 (ddiv n (e 15)) ++ [80]
     else if s <? 999500000000000000 then printf_f 0 (ddiv n (e 15)) ++ [80]
     else printf_f 2 (ddiv n (e 18)) ++ [69]).

(** ** formatIEC *)

Definition Ki : Z := literal 1024 1.
Definition Mi : Z := dmul Ki (literal 1024 1).
Definition Gi : Z := dmul Mi (literal 1024 1).
Definition Ti : Z := dmul Gi (literal 1024 1).
Definition Pi : Z := dmul Ti (literal 1024 1).
Definition Ei : Z := dmul Pi (literal 1024 1).

Definition formatIEC (s : Z) : list Z :=
  let n := double_of s in
  let c9995 := literal 9995 1000 in
  let c9995_ := literal 9995 100 in
  let c10235 := literal 10235 10 in
  snprintf64
    (if n <? Ki then printf_d s
     else if n <? dmul Ki c9995 then printf_f 2 (ddiv n Ki) ++ [75; 105]
     else if n <? dmul Ki c9995_ then printf_f 1 (ddiv n Ki) ++ [75; 105]
     else if n <? dmul Ki c10235 then printf_f 0 (ddiv n Ki) ++ [75; 105]
     else if n <? dmul Mi c9995 then printf_f 2 (ddiv n Mi) ++ [77; 105]
     else if n <? dmul Mi c9995_ then printf_f 1 (ddiv n Mi) ++ [77; 105]
     else if n <? dmul Mi c10235 then printf_f 0 (ddiv n Mi) ++ [77; 105]
     else if n <? dmul Gi c9995 then printf_f 2 (ddiv n Gi) ++ [71; 105]
     else if n <? dmul Gi c9995_ then printf_f 1 (ddiv n Gi) ++ [71; 105]
     else if n <? dmul Gi c10235 then printf_f 0 (ddiv n Gi) ++ [71; 105]
     else if n <? dmul Ti c9995 then printf_f 2 (ddiv n Ti) ++ [84; 105]
     else if n <? dmul Ti c9995_ then printf_f 1 (ddiv n Ti) ++ [84; 105]
     else if n <? dmul Ti c10235 then printf_f 0 (ddiv n Ti) ++ [84; 105]
     else if n <? dmul Pi c9995 then printf_f 2 (ddiv n Pi) ++ [80; 105]
     else if n <? dmul Pi c9995_ then printf_f 1 (ddiv n Pi) ++ [80; 105]
     else if n <? dmul Pi c10235 then printf_f 0 (ddiv n Pi) ++ [80; 105]
     else if n <? dmul Ei c9995 then printf_f 2 (ddiv n Ei) ++ [69; 105]
     else printf_f 1 (ddiv n Ei) ++ [69; 105]).

(** ** Lemmas on rounding *)

Lemma rhe_spec num den : 0 < den -> Z.abs (2 * num - 2 * round_half_even num den * den) <= den.
Proof.
  intros Hd. unfold round_half_even.
  pose proof (Z_div_mod_eq_full num den) as E. pose proof (Z.mod_pos_bound num den Hd) as B.
  destruct (Z.ltb_spec (2 * (num mod den)) den); [lia|].
  destruct (Z.ltb_spec den (2 * (num mod den))); [lia|].
  destruct (Z.even (num / den)); lia.
Qed.

Lemma rhe_exact q den : 0 < den -> round_half_even (q * den) den = q.
Proof.
  intros Hd. unfold round_half_even. rewrite Z.div_mul, Z.mod_mul by lia.
  by destruct (Z.ltb_spec (2 * 0) den); [|lia].
Qed.

Lemma rhe_le num den K : 0 < den -> 2 * num < (2 * K + 1) * den -> round_half_even num den <= K.
Proof. intros Hd H. pose proof (rhe_spec num den Hd). nia. Qed.

Lemma rhe_ge num den K : 0 < den -> (2 * K - 1) * den < 2 * num -> K <= round_half_even num den.
Proof. intros Hd H. pose proof (rhe_spec num den Hd). nia. Qed.

Lemma rhe_nonneg num den : 0 < den -> 0 <= num -> 0 <= round_half_even num den.
Proof. intros Hd Hn. apply rhe_ge; [done|]. lia. Qed.

Lemma one_pos : 0 < one.
Proof. apply Z.pow_pos_nonneg; lia. Qed.

(** The relative error of a rounding to a normal double is at most 2^-53. *)
Lemma fl_rel num den :
  0 < den -> 0 <= num -> 2 ^ 53 * den <= num * one ->
  2 ^ 53 * Z.abs (fl num den * den - num * one) <= num * one.
Proof.
  intros Hd Hn Hbig. unfold fl. destruct (Z.ltb_spec num 0); [lia|]. unfold fl_nonneg.
  set (A := num * one) in *. set (L := Z.log2 (A / den)).
  assert (HA : 2 ^ 53 <= A / den) by (apply Z.div_le_lower_bound; lia).
  assert (H53 : 0 < 2 ^ 53) by (apply Z.pow_pos_nonneg; lia).
  assert (HL : 53 <= L) by (apply Z.log2_le_pow2; lia).
  rewrite (Z.max_r 0) by lia. set (k := L - 52).
  assert (Hk : 0 < 2 ^ k) by (apply Z.pow_pos_nonneg; lia).
  pose proof (Z.log2_spec (A / den) ltac:(lia)) as [Hlo _]. fold L in Hlo.
  assert (HlA : 2 ^ L * den <= A).
  { pose proof (Z.mul_div_le A den Hd). nia. }
  assert (E : 2 ^ L = 2 ^ 52 * 2 ^ k) by (rewrite <- Z.pow_add_r by lia; f_equal; lia).
  pose proof (rhe_spec A (den * 2 ^ k) ltac:(nia)) as Hr.
  set (q := round_half_even A (den * 2 ^ k)) in *.
  replace (q * 2 ^ k * den - A) with (- (A - q * (den * 2 ^ k))) by ring.
  rewrite Z.abs_opp.
  assert (Hr' : 2 * Z.abs (A - q * (den * 2 ^ k)) <= den * 2 ^ k) by lia.
  change (2 ^ 53) with (2 * 2 ^ 52). rewrite E in HlA. nia.
Qed.

(** A result that is a double is exact. *)
Lemma fl_exact c j num den :
  0 < den -> 0 <= c <= 2 ^ 53 -> 0 <= j -> num * one = c * 2 ^ j * den -> 0 <= num -> fl num den = c * 2 ^ j.
Proof.
  intros Hd Hc Hj E Hn. unfold fl. destruct (Z.ltb_spec num 0); [lia|]. unfold fl_nonneg.
  rewrite E, Z.div_mul by lia.
  destruct (Z.eq_dec c 0) as [->|Hc0].
  { rewrite !Z.mul_0_l. cbn [Z.log2]. rewrite (Z.max_l 0) by lia. unfold round_half_even.
    rewrite Z.div_0_l, Z.mod_0_l by (rewrite Z.pow_0_r; lia). by case_ztests; [|lia|lia]. }
  rewrite Z.log2_mul_pow2 by lia.
  assert (Hl : Z.log2 c <= 53) by (rewrite <- (Z.log2_pow2 53) by lia; apply Z.log2_le_mono; lia).
  set (k := Z.max 0 (j + Z.log2 c - 52)).
  destruct (Z_le_gt_dec k j) as [Hk|Hk].
  - replace (c * 2 ^ j * den) with (c * 2 ^ (j - k) * (den * 2 ^ k)).
    + rewrite rhe_exact by (apply Z.mul_pos_pos; [lia|]; apply Z.pow_pos_nonneg; lia).
      rewrite <- Z.mul_assoc, <- Z.pow_add_r by lia. do 2 f_equal. lia.
    + replace (2 ^ j) with (2 ^ (j - k) * 2 ^ k) by (rewrite <- Z.pow_add_r by lia; f_equal; lia). ring.
  - assert (Ec : c = 2 ^ 53).
    { assert (53 <= Z.log2 c) by lia. assert (2 ^ 53 <= c); [|lia].
      etransitivity; [apply Z.pow_le_mono_r; [lia|eassumption]|apply Z.log2_spec; lia]. }
    assert (El : Z.log2 c = 53) by (rewrite Ec; apply Z.log2_pow2; lia).
    assert (Ek : k = j + 1) by lia. clearbody k. subst k c.
    replace (2 ^ 53 * 2 ^ j * den) with (2 ^ 52 * (den * 2 ^ (j + 1)))
      by (rewrite Z.pow_add_r by lia; change (2 ^ 53) with (2 ^ 52 * 2); ring).
    rewrite rhe_exact by (apply Z.mul_pos_pos; [lia|]; apply Z.pow_pos_nonneg; lia).
    rewrite Z.pow_add_r by lia. change (2 ^ 53) with (2 ^ 52 * 2). ring.
Qed.

(** Every result has at most 53 significant bits. *)
Lemma fl_shape num den :
  0 < den -> 0 <= num -> exists c j, fl num den = c * 2 ^ j /\ 0 <= c <= 2 ^ 53 /\ 0 <= j.
Proof.
  intros Hd Hn. unfold fl. destruct (Z.ltb_spec num 0); [lia|]. unfold fl_nonneg.
  set (A := num * one). set (k := Z.max 0 (Z.log2 (A / den) - 52)).
  exists (round_half_even A (den * 2 ^ k)), k. split; [done|]. split; [|lia].
  assert (Hk : 0 < 2 ^ k) by (apply Z.pow_pos_nonneg; lia).
  assert (HA : 0 <= A) by (unfold A; pose proof one_pos; nia).
  split; [apply rhe_nonneg; nia|]. apply rhe_le; [nia|].
  assert (H1 : A < 2 ^ (k + 53) * den).
  { assert (A / den < 2 ^ (k + 53)).
    { destruct (Z.eq_dec (A / den) 0) as [->|H0]; [apply Z.pow_pos_nonneg; lia|].
      pose proof (Z.div_pos A den HA Hd). apply Z.log2_lt_pow2; lia. }
    pose proof (Z_div_mod_eq_full A den). pose proof (Z.mod_pos_bound A den Hd). nia. }
  rewrite Z.pow_add_r in H1 by lia. nia.
Qed.

(** A count is off by one rounding. *)
Lemma double_of_close s : 1 <= s -> 2 ^ 53 * Z.abs (double_of s - s * one) <= s * one.
Proof.
  intros Hs. pose proof one_pos. rewrite <- (Z.mul_1_r (double_of s)).
  apply fl_rel; [lia|lia|]. change (2 ^ 53 * 1) with (2 ^ 53). transitivity (1 * one); [|nia].
  rewrite Z.mul_1_l. apply Z.pow_le_mono_r; lia.
Qed.

(** ** Lemmas on text *)

Lemma length_decimal_digits fuel k v :
  0 <= v < 10 ^ Z.of_nat k -> (1 <= k)%nat -> (length (decimal_digits fuel v) <= k)%nat.
Proof.
  revert k v. induction fuel as [|fuel IH]; intros k v Hv Hk; cbn; [lia|]. rewrite length_app. cbn.
  destruct (Z.ltb_spec v 10); cbn; [lia|].
  destruct k as [|[|k]]; [lia|cbn in Hv; lia|].
  assert (length (decimal_digits fuel (v / 10)) <= S k)%nat; [|lia]. apply IH; [|lia].
  rewrite Nat2Z.inj_succ, Z.pow_succ_r in Hv by lia.
  split; [apply Z.div_pos; lia|apply Z.div_lt_upper_bound; lia].
Qed.

Lemma length_decimal k v : 0 <= v < 10 ^ Z.of_nat k -> (1 <= k)%nat -> (length (decimal v) <= k)%nat.
Proof. apply length_decimal_digits. Qed.

Lemma length_pad_digits p v : length (pad_digits p v) = p.
Proof. revert v. induction p as [|p IH]; intros v; cbn; [done|]. rewrite length_app, IH. cbn. lia. Qed.

Lemma length_fixed_text p i n :
  0 <= n < 10 ^ Z.of_nat (i + p) -> (1 <= i)%nat ->
  (length (fixed_text p n) <= i + (match p with O => 0 | S _ => S p end))%nat.
Proof.
  intros Hn Hi. unfold fixed_text. rewrite length_app.
  assert (length (decimal (n / 10 ^ Z.of_nat p)) <= i)%nat.
  { apply length_decimal; [|done]. assert (0 < 10 ^ Z.of_nat p) by (apply Z.pow_pos_nonneg; lia).
    split; [apply Z.div_pos; lia|]. apply Z.div_lt_upper_bound; [done|].
    rewrite <- Z.pow_add_r by lia. replace (Z.of_nat p + Z.of_nat i) with (Z.of_nat (i + p)) by lia. apply Hn. }
  destruct p as [|p]; cbn [length]; [lia|]. rewrite length_pad_digits. lia.
Qed.

Lemma length_snprintf64 t k : (length t <= k)%nat -> (length (snprintf64 t) <= k)%nat.
Proof. intros H. unfold snprintf64. rewrite length_take. lia. Qed.

(** ** formatSI *)

(** A count, as a double, divided by a unit: the quotient is off by two roundings. *)
Lemma ddiv_bound s U :
  1000 <= s -> 0 < U <= 10 ^ 18 ->
  let v := ddiv (double_of s) (U * one) in
  0 <= v /\
  (2 ^ 53 - 1) * (2 ^ 53 - 1) * (s * one) <= 2 ^ 106 * (v * U) <= (2 ^ 53 + 1) * (2 ^ 53 + 1) * (s * one).
Proof.
  intros Hs HU. pose proof one_pos as H1. set (x := double_of s). cbv zeta.
  assert (Hbig : 2 ^ 60 * 2 ^ 60 <= one) by (unfold one; rewrite <- Z.pow_add_r by lia; apply Z.pow_le_mono_r; lia).
  assert (Hx : 2 ^ 53 * Z.abs (x - s * one) <= s * one) by (apply double_of_close; lia).
  clearbody x. set (P := 2 ^ 53) in *. assert (HP : P = 9007199254740992) by done.
  assert (Hx' : (P - 1) * (s * one) <= P * x <= (P + 1) * (s * one)) by lia.
  assert (Hx0 : one <= x).
  { assert (P * one <= P * x); [|lia]. assert (2 * one <= s * one) by nia. nia. }
  clear Hx. set (v := ddiv x (U * one)).
  assert (Hv : P * Z.abs (v * (U * one) - x * one) <= x * one).
  { apply fl_rel; [nia|lia|]. rewrite Z.mul_assoc. apply Z.mul_le_mono_nonneg_r; [lia|].
    etransitivity; [|exact Hx0]. etransitivity; [|exact Hbig]. change (2 ^ 60) with 1152921504606846976.
    change (10 ^ 18) with 1000000000000000000 in HU. fold P. lia. }
  clearbody v.
  assert (Hv0 : 0 <= v).
  { destruct (Z_lt_le_dec v 0); [|done]. exfalso. assert (v * (U * one) <= 0) by nia. nia. }
  assert (Hv' : (P - 1) * x <= P * (v * U) <= (P + 1) * x).
  { split; apply (Z.mul_le_mono_pos_r _ _ one H1); nia. }
  change (2 ^ 106) with (P * P). split; [done|]. replace (P * P * (v * U)) with (P * (P * (v * U))) by ring.
  split; [transitivity (P * ((P - 1) * x)); nia|transitivity (P * ((P + 1) * x)); nia].
Qed.

(** Digits [n] that are nearest to a double [v] which is close to [s / U] show [s]. *)
Lemma shown_close o U T n v s :
  0 < o -> 0 < U -> 0 < T -> 0 <= s -> Z.abs (2 * (v * T) - 2 * n * o) <= o ->
  2 ^ 51 * Z.abs (v * U - s * o) <= s * o ->
  2 ^ 50 * Z.abs (2 * (n * U - s * T)) <= 2 ^ 50 * U + s * T.
Proof.
  intros Ho HU HT Hs Hn Hv. change (2 ^ 51) with (2 * 2 ^ 50) in Hv.
  set (S50 := 2 ^ 50) in *. assert (HS : 0 < S50) by done. clearbody S50.
  apply (Z.mul_le_mono_pos_r _ _ o Ho).
  assert (E1 : Z.abs (2 * (n * U - s * T)) * o <= Z.abs (2 * (v * T) - 2 * n * o) * U + 2 * T * Z.abs (v * U - s * o)).
  { rewrite <- (Z.abs_eq o) at 1 by lia. rewrite <- (Z.abs_eq U) at 2 by lia.
    rewrite <- (Z.abs_eq (2 * T)) at 1 by lia. rewrite <- !Z.abs_mul.
    replace (2 * (n * U - s * T) * o) with (2 * T * (v * U - s * o) - (2 * (v * T) - 2 * n * o) * U) by ring.
    lia. }
  set (X := Z.abs (v * U - s * o)) in *. set (Y := Z.abs (2 * (v * T) - 2 * n * o)) in *. clearbody X Y.
  assert (E2 : Y * U <= o * U) by (apply Z.mul_le_mono_nonneg_r; lia).
  assert (E3 : S50 * (2 * T * X) <= T * (s * o)).
  { replace (S50 * (2 * T * X)) with (T * (2 * S50 * X)) by ring. apply Z.mul_le_mono_nonneg_l; lia. }
  rewrite <- Z.mul_assoc. set (W := Z.abs (2 * (n * U - s * T)) * o) in *. clearbody W.
  transitivity (S50 * (o * U + 2 * T * X)); [apply Z.mul_le_mono_nonneg_l; lia|].
  rewrite Z.mul_add_distr_l. lia.
Qed.

(** The digits printed, with a bound on either side and their distance from the count. *)
Lemma si_digits s U p lo K :
  1000 <= s -> 0 < U <= 10 ^ 18 -> literal U 1 = U * one -> 0 <= lo ->
  2 ^ 106 * ((2 * lo - 1) * U) < (2 ^ 53 - 1) * (2 ^ 53 - 1) * (2 * 10 ^ Z.of_nat p * s) ->
  (2 ^ 53 + 1) * (2 ^ 53 + 1) * (2 * 10 ^ Z.of_nat p * s) < 2 ^ 106 * ((2 * K + 1) * U) ->
  let n := fixed_digits p (ddiv (double_of s) (literal U 1)) in
  lo <= n <= K /\
  2 ^ 50 * Z.abs (2 * (n * U - s * 10 ^ Z.of_nat p)) <= 2 ^ 50 * U + s * 10 ^ Z.of_nat p.
Proof.
  intros Hs HU HeU Hlo Ha Hb. rewrite HeU. destruct (ddiv_bound s U Hs HU) as (Hv0 & Hv1 & Hv2).
  pose proof one_pos as H1. set (v := ddiv _ _) in *. clearbody v. cbv zeta.
  assert (HT : 0 < 10 ^ Z.of_nat p) by (apply Z.pow_pos_nonneg; lia).
  unfold fixed_digits. set (T := 10 ^ Z.of_nat p) in *.
  assert (HR : 0 < 2 ^ 106) by (by apply Z.pow_pos_nonneg).
  split; [split; [apply rhe_ge|apply rhe_le]|]; try done.
  - set (Q := (2 ^ 53 - 1) * (2 ^ 53 - 1)) in *. set (R := 2 ^ 106) in *.
    apply (Z.mul_lt_mono_pos_l (R * U)); [nia|].
    replace (R * U * (2 * (v * T))) with (2 * T * (R * (v * U))) by ring.
    replace (R * U * ((2 * lo - 1) * one)) with (R * ((2 * lo - 1) * U) * one) by ring.
    apply (Z.lt_le_trans _ (2 * T * (Q * (s * one)))); [|nia].
    replace (2 * T * (Q * (s * one))) with (Q * (2 * T * s) * one) by ring. nia.
  - set (Q := (2 ^ 53 + 1) * (2 ^ 53 + 1)) in *. set (R := 2 ^ 106) in *.
    apply (Z.mul_lt_mono_pos_l (R * U)); [nia|].
    replace (R * U * (2 * (v * T))) with (2 * T * (R * (v * U))) by ring.
    replace (R * U * ((2 * K + 1) * one)) with (R * ((2 * K + 1) * U) * one) by ring.
    apply (Z.le_lt_trans _ (2 * T * (Q * (s * one)))); [nia|].
    replace (2 * T * (Q * (s * one))) with (Q * (2 * T * s) * one) by ring. nia.
  - apply (shown_close one _ _ _ v); try done; [lia|lia|by apply rhe_spec|].
    change (2 ^ 106) with 81129638414606681695789005144064 in *. change (2 ^ 53) with 9007199254740992 in *.
    change (2 ^ 51) with 2251799813685248. lia.
Qed.

Lemma literal_pow10 k : 0 <= k <= 15 -> literal (10 ^ k) 1 = 10 ^ k * one.
Proof.
  intros Hk. unfold literal. rewrite (fl_exact (10 ^ k) 1074); [done|lia| |lia| |].
  - split; [apply Z.pow_nonneg; lia|]. transitivity (10 ^ 15); [apply Z.pow_le_mono_r; lia|eval_closed].
  - rewrite Z.mul_1_r. done.
  - apply Z.pow_nonneg; lia.
Qed.

Lemma literal_1e18 : literal (10 ^ 18) 1 = 10 ^ 18 * one.
Proof.
  unfold literal. rewrite (fl_exact (5 ^ 18) 1092); [|lia|eval_closed|lia| |eval_closed].
  - change 1092 with (18 + 1074). rewrite Z.pow_add_r by lia. fold one. rewrite Z.mul_assoc. f_equal.
  - change 1092 with (18 + 1074). rewrite Z.pow_add_r by lia. fold one. rewrite Z.mul_1_r, Z.mul_assoc. f_equal.
Qed.

(** The unit that a prefix stands for. *)
Definition si_unit (c : Z) : option Z :=
  if c =? 107 then Some (10 ^ 3) else if c =? 77 then Some (10 ^ 6) else if c =? 71 then Some (10 ^ 9)
  else if c =? 84 then Some (10 ^ 12) else if c =? 80 then Some (10 ^ 15) else if c =? 69 then Some (10 ^ 18)
  else None.

(** A text made of [n], scaled by [10^p], and a prefix, that shows the count [s] rounded to
    the last digit shown. *)
Definition shows_si (s : Z) (text : list Z) (lo hi : Z) : Prop :=
  exists p n c U, text = fixed_text p n ++ [c] /\ si_unit c = Some U /\ lo <= n <= hi /\
    2 ^ 50 * Z.abs (2 * (n * U - s * 10 ^ Z.of_nat p)) <= 2 ^ 50 * U + s * 10 ^ Z.of_nat p /\
    (length text <= (if (hi <? 1000)%Z then 5 else 6))%nat.

Lemma si_branch s k p hi w c :
  si_unit c = Some (10 ^ k) -> literal (10 ^ k) 1 = 10 ^ k * one ->
  1000 <= s -> 0 < 10 ^ k <= 10 ^ 18 ->
  2 ^ 106 * ((2 * 100 - 1) * 10 ^ k) < (2 ^ 53 - 1) * (2 ^ 53 - 1) * (2 * 10 ^ Z.of_nat p * s) ->
  (2 ^ 53 + 1) * (2 ^ 53 + 1) * (2 * 10 ^ Z.of_nat p * s) < 2 ^ 106 * ((2 * hi + 1) * 10 ^ k) ->
  (1 <= w)%nat -> hi < 10 ^ Z.of_nat (w + p) ->
  (w + (match p with O => 0 | S _ => S p end) + 1 <= (if (hi <? 1000)%Z then 5 else 6))%nat ->
  shows_si s (snprintf64 (printf_f p (ddiv (double_of s) (literal (10 ^ k) 1)) ++ [c])) 100 hi.
Proof.
  intros Hc He Hs HU Ha Hb Hw Hhi Hlen.
  destruct (si_digits s (10 ^ k) p 100 hi Hs HU He ltac:(lia) Ha Hb) as [Hn Hclose].
  unfold printf_f. set (n := fixed_digits _ _) in *. clearbody n.
  pose proof (length_fixed_text p w n ltac:(lia) Hw) as Hl.
  assert (Ht : (length (fixed_text p n ++ [c]) <= (if (hi <? 1000)%Z then 5 else 6))%nat)
    by (rewrite length_app; cbn [length]; lia).
  unfold snprintf64. rewrite take_ge by (destruct (hi <? 1000); lia).
  exists p, n, c, (10 ^ k). split_and!; try done; lia.
Qed.

(** Proves one branch of [formatSI]: digits at most [hi], [w - p] of them before the point. *)
Ltac si_solve hi w :=
  match goal with
  | |- shows_si ?s (snprintf64 (printf_f ?p (ddiv _ (literal (10 ^ ?k) 1)) ++ [?c])) _ _ =>
      apply (si_branch s k p hi (w - p)%nat c);
      [reflexivity|first [apply literal_1e18|apply literal_pow10; lia]|lia|eval_closed| | |cbn; lia|reflexivity|cbn; lia];
      change (2 ^ 53) with 9007199254740992; change (2 ^ 106) with 81129638414606681695789005144064;
      cbn [Z.of_nat Pos.of_succ_nat Pos.succ]; lia
  end.

Lemma formatSI_small s : 0 <= s < 1000 -> formatSI s = decimal s /\ (length (formatSI s) <= 3)%nat.
Proof.
  intros Hs. unfold formatSI. cbv beta zeta. destruct (Z.ltb_spec s 1000); [|lia]. unfold printf_d, snprintf64.
  destruct (Z.ltb_spec s 0); [lia|]. pose proof (length_decimal 3 s ltac:(cbn; lia)).
  rewrite take_ge by lia. split; [done|lia].
Qed.

Lemma formatSI_three_digits s : 1000 <= s < 2 ^ 53 -> shows_si s (formatSI s) 100 999.
Proof.
  change (2 ^ 53) with 9007199254740992. intros Hs. unfold formatSI. cbv beta zeta.
  destruct (Z.ltb_spec s 1000); [lia|].
  repeat match goal with |- context [s <? ?T] => destruct (Z.ltb_spec s T) end; try lia; si_solve 999 3%nat.
Qed.

Lemma formatSI_any s : 1000 <= s < 2 ^ 63 -> exists lo hi, shows_si s (formatSI s) lo hi.
Proof.
  change (2 ^ 63) with 9223372036854775808. intros Hs. unfold formatSI. cbv beta zeta. exists 100, 1000.
  destruct (Z.ltb_spec s 1000); [lia|].
  repeat match goal with |- context [s <? ?T] => destruct (Z.ltb_spec s T) end; try lia; si_solve 1000 4%nat.
Qed.

(** ** formatIEC *)

(** The rounding of a quotient in the binade of [2^52 / 2^i], [c] being the nearest
    integer to its multiple. *)
Lemma fl_round c i num den :
  0 < den -> 0 <= num -> 0 <= i <= 1074 ->
  Z.abs (2 * (num * 2 ^ i) - 2 * c * den) < den -> 2 ^ 52 * den <= num * 2 ^ i < 2 ^ 53 * den ->
  fl num den = c * 2 ^ (1074 - i).
Proof.
  intros Hd Hn Hi Hc [Hlo Hhi]. unfold fl. destruct (Z.ltb_spec num 0); [lia|]. unfold fl_nonneg.
  set (k := 1074 - i). assert (Hk : 0 < 2 ^ k) by (apply Z.pow_pos_nonneg; lia).
  assert (EA : num * one = num * 2 ^ i * 2 ^ k).
  { unfold one. rewrite <- Z.mul_assoc, <- Z.pow_add_r by lia. do 2 f_equal. lia. }
  assert (EL : Z.log2 (num * one / den) = 52 + k).
  { apply Z.log2_unique; [lia|]. rewrite EA. split.
    - rewrite Z.pow_add_r by lia. apply Z.div_le_lower_bound; nia.
    - replace (Z.succ (52 + k)) with (53 + k) by lia. rewrite Z.pow_add_r by lia.
      apply Z.div_lt_upper_bound; nia. }
  rewrite EL. replace (52 + k - 52) with k by lia. rewrite (Z.max_r 0) by lia. f_equal.
  rewrite EA. pose proof (rhe_spec (num * 2 ^ i * 2 ^ k) (den * 2 ^ k) ltac:(nia)) as Hr.
  set (q := round_half_even _ _) in *. clearbody q. nia.
Qed.

Lemma literal_9995 : literal 9995 1000 = 5626684784446013 * 2 ^ (1074 - 49).
Proof. apply fl_round; [lia|lia|lia|eval_closed|eval_closed]. Qed.
Lemma literal_9995_ : literal 9995 100 = 7033355980557517 * 2 ^ (1074 - 46).
Proof. apply fl_round; [lia|lia|lia|eval_closed|eval_closed]. Qed.
Lemma literal_10235 : literal 10235 10 = 9002801208229888 * 2 ^ (1074 - 43).
Proof. apply fl_round; [lia|lia|lia|eval_closed|eval_closed]. Qed.

(** Powers of two scale exactly. *)
Lemma dmul_pow2 a c j : 0 <= a -> 0 <= c <= 2 ^ 53 -> 0 <= j -> dmul (2 ^ a * one) (c * 2 ^ j) = c * 2 ^ (j + a).
Proof.
  intros Ha Hc Hj. pose proof one_pos. assert (0 < 2 ^ a) by (apply Z.pow_pos_nonneg; lia).
  assert (0 < 2 ^ j) by (apply Z.pow_pos_nonneg; lia).
  unfold dmul. apply fl_exact; [nia|done|lia| |nia]. rewrite Z.pow_add_r by lia. ring.
Qed.

Lemma ddiv_pow2 a c j : 0 <= a <= j -> 0 <= c <= 2 ^ 53 -> ddiv (c * 2 ^ j) (2 ^ a * one) = c * 2 ^ (j - a).
Proof.
  intros Ha Hc. pose proof one_pos. assert (0 < 2 ^ a) by (apply Z.pow_pos_nonneg; lia).
  assert (0 < 2 ^ j) by (apply Z.pow_pos_nonneg; lia).
  unfold ddiv. apply fl_exact; [nia|done|lia| |nia].
  replace (2 ^ j) with (2 ^ (j - a) * 2 ^ a) by (rewrite <- Z.pow_add_r by lia; f_equal; lia). ring.
Qed.

Lemma literal_1024 : literal 1024 1 = 2 ^ 10 * one.
Proof. unfold literal. rewrite (fl_exact (2 ^ 10) 1074); [done|lia|lia|lia| |lia]. by rewrite Z.mul_1_r. Qed.

Lemma next_unit a : 0 <= a -> dmul (2 ^ a * one) (literal 1024 1) = 2 ^ (a + 10) * one.
Proof.
  intros Ha. rewrite literal_1024. unfold one at 2. rewrite dmul_pow2 by lia.
  rewrite !Z.pow_add_r by lia. fold one. ring.
Qed.

Lemma iec_units :
  Ki = 2 ^ 10 * one /\ Mi = 2 ^ 20 * one /\ Gi = 2 ^ 30 * one /\ Ti = 2 ^ 40 * one /\
  Pi = 2 ^ 50 * one /\ Ei = 2 ^ 60 * one.
Proof.
  assert (E1 : Ki = 2 ^ 10 * one) by exact literal_1024.
  assert (E2 : Mi = 2 ^ 20 * one) by (unfold Mi; rewrite E1; by apply next_unit).
  assert (E3 : Gi = 2 ^ 30 * one) by (unfold Gi; rewrite E2; by apply next_unit).
  assert (E4 : Ti = 2 ^ 40 * one) by (unfold Ti; rewrite E3; by apply next_unit).
  assert (E5 : Pi = 2 ^ 50 * one) by (unfold Pi; rewrite E4; by apply next_unit).
  assert (E6 : Ei = 2 ^ 60 * one) by (unfold Ei; rewrite E5; by apply next_unit).
  exact (conj E1 (conj E2 (conj E3 (conj E4 (conj E5 E6))))).
Qed.

(** A double below [c * 2^j] is at most [(c - 1) * 2^j], if [c] uses all 53 bits. *)
Lemma below_double c' j' c j :
  0 <= c' <= 2 ^ 53 -> 0 <= j' -> 0 <= j -> 2 ^ 52 < c -> c' * 2 ^ j' < c * 2 ^ j -> c' * 2 ^ j' <= (c - 1) * 2 ^ j.
Proof.
  intros Hc' Hj' Hj Hc H. destruct (Z_le_gt_dec j j') as [Hle|Hgt].
  - replace (2 ^ j') with (2 ^ (j' - j) * 2 ^ j) in * by (rewrite <- Z.pow_add_r by lia; f_equal; lia).
    assert (Hp : 0 < 2 ^ j) by (apply Z.pow_pos_nonneg; lia). rewrite Z.mul_assoc in *.
    apply Z.mul_lt_mono_pos_r in H; [|done]. apply Z.mul_le_mono_nonneg_r; lia.
  - assert (E : 2 ^ j = 2 * 2 ^ (j - 1)) by (rewrite <- Z.pow_succ_r by lia; f_equal; lia).
    assert (2 ^ j' <= 2 ^ (j - 1)) by (apply Z.pow_le_mono_r; lia).
    assert (0 < 2 ^ j') by (apply Z.pow_pos_nonneg; lia).
    change (2 ^ 53) with (2 * 2 ^ 52) in Hc'. nia.
Qed.

(** The unit that a binary prefix stands for. *)
Definition iec_unit (u : list Z) : option Z :=
  match u with
  | [c; _] => if c =? 75 then Some (2 ^ 10) else if c =? 77 then Some (2 ^ 20) else if c =? 71 then Some (2 ^ 30)
              else if c =? 84 then Some (2 ^ 40) else if c =? 80 then Some (2 ^ 50) else if c =? 69 then Some (2 ^ 60)
              else None
  | _ => None
  end.

Definition shows_iec (s : Z) (text : list Z) : Prop :=
  exists p n u U, text = fixed_text p n ++ u /\ iec_unit u = Some U /\ 0 <= n <= 1023 /\
    2 ^ 50 * Z.abs (2 * (n * U - s * 10 ^ Z.of_nat p)) <= 2 ^ 50 * U + s * 10 ^ Z.of_nat p /\
    (length text <= 6)%nat.

(** One branch of [formatIEC], below the threshold [c * 2^-i] units. *)
Lemma iec_branch s a p u c i w hi :
  iec_unit u = Some (2 ^ a) -> 0 <= a <= 60 -> 0 <= i <= 1074 -> 1000 <= s -> 2 ^ 52 < c ->
  double_of s < c * 2 ^ (1074 - i + a) ->
  2 * ((c - 1) * 10 ^ Z.of_nat p) < (2 * hi + 1) * 2 ^ i -> hi <= 1023 ->
  (1 <= w)%nat -> hi < 10 ^ Z.of_nat (w + p) -> length u = 2%nat ->
  (w + (match p with O => 0 | S _ => S p end) + 2 <= 6)%nat ->
  shows_iec s (snprintf64 (printf_f p (ddiv (double_of s) (2 ^ a * one)) ++ u)).
Proof.
  intros Hu Ha Hi Hs Hc Hlt Hdig Hhi Hw Hw' Hlu Hlen. pose proof one_pos as H1.
  pose proof (double_of_close s ltac:(lia)) as Hx.
  destruct (fl_shape s 1 ltac:(lia) ltac:(lia)) as (c' & j' & Ex & Hc' & Hj'). fold (double_of s) in Ex.
  rewrite Ex in *. clear Ex.
  assert (Hj : a <= j').
  { destruct (Z_le_gt_dec a j'); [done|]. exfalso.
    assert (2 ^ j' <= 2 ^ 60) by (apply Z.pow_le_mono_r; lia).
    assert (0 < 2 ^ j') by (apply Z.pow_pos_nonneg; lia).
    assert (2 ^ 60 * 2 ^ 60 <= one) by (unfold one; rewrite <- Z.pow_add_r by lia; apply Z.pow_le_mono_r; lia).
    change (2 ^ 53) with 9007199254740992 in *. change (2 ^ 60) with 1152921504606846976 in *. nia. }
  rewrite ddiv_pow2 by (done || lia). set (v := c' * 2 ^ (j' - a)).
  assert (HU : 0 < 2 ^ a) by (apply Z.pow_pos_nonneg; lia).
  assert (Ev : c' * 2 ^ j' = v * 2 ^ a).
  { unfold v. rewrite <- Z.mul_assoc, <- Z.pow_add_r by lia. do 2 f_equal. lia. }
  assert (Hv0 : 0 <= v) by (unfold v; assert (0 < 2 ^ (j' - a)) by (apply Z.pow_pos_nonneg; lia); nia).
  pose proof (below_double c' j' c (1074 - i + a) Hc' Hj' ltac:(lia) Hc Hlt) as Hbel. rewrite Ev in *. clearbody v.
  assert (HT : 0 < 10 ^ Z.of_nat p) by (apply Z.pow_pos_nonneg; lia). set (T := 10 ^ Z.of_nat p) in *.
  assert (HI : 0 < 2 ^ i) by (apply Z.pow_pos_nonneg; lia).
  assert (Hvc : v * 2 ^ i <= (c - 1) * one).
  { apply (Z.mul_le_mono_pos_r _ _ (2 ^ a)); [done|].
    replace (v * 2 ^ i * 2 ^ a) with (v * 2 ^ a * 2 ^ i) by ring.
    etransitivity; [apply Z.mul_le_mono_nonneg_r; [lia|exact Hbel]|]. unfold one.
    rewrite <- !Z.mul_assoc, <- !Z.pow_add_r by lia. apply Z.eq_le_incl. do 2 f_equal. lia. }
  assert (Hn : 0 <= fixed_digits p v <= hi).
  { unfold fixed_digits. fold T. split; [apply rhe_nonneg; nia|]. apply rhe_le; [done|].
    apply (Z.mul_lt_mono_pos_r (2 ^ i)); [done|].
    apply (Z.le_lt_trans _ (2 * ((c - 1) * T) * one)); [|nia].
    replace (2 * (v * T) * 2 ^ i) with (2 * T * (v * 2 ^ i)) by ring. nia. }
  assert (Hclose : 2 ^ 50 * Z.abs (2 * (fixed_digits p v * 2 ^ a - s * T)) <= 2 ^ 50 * 2 ^ a + s * T).
  { apply (shown_close one _ _ _ v); try done; [lia|by apply rhe_spec|].
    change (2 ^ 53) with 9007199254740992 in Hx. change (2 ^ 51) with 2251799813685248. lia. }
  unfold printf_f. set (n := fixed_digits p v) in *. clearbody n.
  pose proof (length_fixed_text p w n ltac:(lia) Hw) as Hl.
  assert (Ht : (length (fixed_text p n ++ u) <= 6)%nat) by (rewrite length_app; lia).
  unfold snprintf64. rewrite take_ge by lia.
  exists p, n, u, (2 ^ a). split_and!; try done; lia.
Qed.

(** The thresholds of the comparisons. *)
Lemma iec_threshold a c i :
  0 <= a -> 0 <= c <= 2 ^ 53 -> 0 <= i <= 1074 ->
  dmul (2 ^ a * one) (c * 2 ^ (1074 - i)) = c * 2 ^ (1074 - i + a).
Proof. intros Ha Hc Hi. apply dmul_pow2; lia. Qed.

Lemma double_of_exact s : 0 <= s <= 2 ^ 53 -> double_of s = s * one.
Proof. intros Hs. unfold double_of, one. apply fl_exact; [lia|done|lia|unfold one; ring|lia]. Qed.

(** The first comparison separates the counts below 1024. *)
Lemma double_of_Ki s : 0 <= s -> double_of s < 2 ^ 10 * one <-> s < 1024.
Proof.
  intros Hs. pose proof one_pos as H1. change (2 ^ 10) with 1024. destruct (Z_le_gt_dec s 1024) as [Hle|Hgt].
  - rewrite double_of_exact by (change (2 ^ 53) with 9007199254740992; lia). nia.
  - pose proof (double_of_close s ltac:(lia)) as Hx. change (2 ^ 53) with 9007199254740992 in Hx. nia.
Qed.

Lemma formatIEC_small s : 0 <= s < 1024 -> formatIEC s = decimal s /\ (length (formatIEC s) <= 4)%nat.
Proof.
  intros Hs. destruct iec_units as (E1 & _). unfold formatIEC. cbv zeta. rewrite E1.
  destruct (Z.ltb_spec (double_of s) (2 ^ 10 * one)) as [_|Hge]; [|exfalso; apply Z.le_ngt in Hge; apply Hge, double_of_Ki; lia].
  unfold printf_d, snprintf64. destruct (Z.ltb_spec s 0); [lia|].
  pose proof (length_decimal 4 s ltac:(cbn; lia) ltac:(lia)). rewrite take_ge by lia. split; [done|lia].
Qed.

(** Proves one branch of [formatIEC]. *)
Ltac iec_solve w hi :=
  match goal with
  | H : double_of ?s < ?c * 2 ^ (1074 - ?i + ?a), Hs : 1024 <= ?s < _ |-
      shows_iec ?s (snprintf64 (printf_f ?p (ddiv (double_of ?s) (2 ^ ?a * one)) ++ ?u)) =>
      apply (iec_branch s a p u c i w hi);
      [reflexivity|eval_closed|eval_closed|clear - Hs; lia|reflexivity|exact H|reflexivity|eval_closed
      |repeat constructor|reflexivity|reflexivity|repeat constructor]
  end.

Ltac iec_branch_solve :=
  lazymatch goal with
  | |- context [printf_f 2 _] => iec_solve 1%nat 999
  | |- context [printf_f 1 _] => iec_solve 2%nat 999
  | |- context [printf_f 0 _] => iec_solve 4%nat 1023
  end.

Lemma formatIEC_shows s : 1024 <= s < 2 ^ 63 -> shows_iec s (formatIEC s).
Proof.
  intros Hs. pose proof one_pos as H1. pose proof (double_of_close s ltac:(lia)) as Hx.
  destruct iec_units as (E1 & E2 & E3 & E4 & E5 & E6). unfold formatIEC. cbv zeta.
  rewrite E1, E2, E3, E4, E5, E6, literal_9995, literal_9995_, literal_10235.
  rewrite !iec_threshold by (lia || eval_closed).
  destruct (Z.ltb_spec (double_of s) (2 ^ 10 * one)) as [Hlt|_].
  { apply double_of_Ki in Hlt; lia. }
  repeat match goal with
         | |- context [if double_of s <? ?T then _ else _] =>
             destruct (Z.ltb_spec (double_of s) T) as [?|?]; [iec_branch_solve|]
         end.
  exfalso. match goal with H : 5626684784446013 * 2 ^ (1074 - 49 + 60) <= _ |- _ => rename H into Hge end.
  replace (1074 - 49 + 60) with (11 + 1074) in Hge by lia. rewrite Z.pow_add_r in Hge by lia.
  fold one in Hge. change (2 ^ 53) with 9007199254740992 in Hx. change (2 ^ 63) with 9223372036854775808 in Hs.
  change (2 ^ 11) with 2048 in Hge.
  assert (Hso : s * one <= 9223372036854775807 * one) by (apply Z.mul_le_mono_nonneg_r; lia).
  set (so := s * one) in *. clearbody so. lia.
Qed.

(** ** Output of doubles *)

(** A double: not a number, an infinity, or a finite one with its absolute value as a
    multiple of the least double. *)
Inductive double : Type := DNan (neg : bool) | DInf (neg : bool) | DFin (neg : bool) (x : Z).

(** [10^X <= x]. *)
Definition ge_pow10 (X x : Z) : bool :=
  if 0 <=? X then 10 ^ X * one <=? x else one <=? x * 10 ^ (- X).

(** The decimal exponent of [x], searched downwards from [X]. *)
Fixpoint dec_exp (fuel : nat) (X x : Z) : Z :=
  match fuel with
  | O => X
  | S fuel => if ge_pow10 X x then X else dec_exp fuel (X - 1) x
  end.

(** The twelve significant digits of [x], as a number [n], and the exponent of the first. *)
Definition g_round (X x : Z) : Z :=
  if 11 <=? X then round_half_even x (10 ^ (X - 11) * one) else round_half_even (x * 10 ^ (11 - X)) one.
Definition g_digits (x : Z) : Z * Z :=
  let X := dec_exp 632 308 x in
  let n := g_round X x in
  if n =? 10 ^ 12 then (10 ^ 11, X + 1) else (n, X).

(** Trailing zeros after the point go, and the point if nothing follows it. *)
Fixpoint strip_rev (l : list Z) : list Z :=
  match l with
  | c :: l' => if c =? 48 then strip_rev l' else if c =? 46 then l' else l
  | [] => []
  end.
Definition strip_zeros (l : list Z) : list Z := rev (strip_rev (rev l)).

Definition exponent_text (X : Z) : list Z :=
  101 :: (if X <? 0 then 45 else 43) ::
  (if Z.abs X <? 10 then 48 :: decimal (Z.abs X) else decimal (Z.abs X)).

(** [%.12g] of a positive double. *)
Definition g_text (x : Z) : list Z :=
  let '(n, X) := g_digits x in
  if (-4 <=? X) && (X <? 12) then
    let p := Z.to_nat (11 - X) in
    match p with O => fixed_text 0 n | S _ => strip_zeros (fixed_text p n) end
  else strip_zeros (fixed_text 11 n) ++ exponent_text X.

Definition printf_g (v : double) : list Z :=
  let sign (neg : bool) (t : list Z) := if neg then 45 :: t else t in
  match v with
  | DNan neg => sign neg [110; 97; 110]
  | DInf neg => sign neg [105; 110; 102]
  | DFin neg x => sign neg (if x =? 0 then [48] else g_text x)
  end.

(** The output operator on doubles: [snprintf] writes at [current()], at most
    [kMaxNumericSize] bytes with the terminating NUL, and returns the length of the text. *)
Definition Stream_out_double (s : Stream) (v : double) : outcome Stream :=
  if kMaxNumericSize <=? FixedBuffer_avail s then
    let text := printf_g v in
    let* s' := FixedBuffer_poke s 0 (take (Z.to_nat kMaxNumericSize - 1) text ++ [0]) in
    Ok (FixedBuffer_add s' (Z.of_nat (length text)))
  else Ok s.

(** The operator on [float]s converts; every float is a double. *)
Definition Stream_out_float (s : Stream) (v : double) : outcome Stream := Stream_out_double s v.

(** A value that a double can have: below 2^1024. *)
Definition double_ok (v : double) : Prop :=
  match v with DFin _ x => 0 <= x < 2 ^ 1024 * one | _ => True end.

Lemma dec_exp_spec fuel X x :
  ge_pow10 (X - Z.of_nat fuel) x = true -> ge_pow10 (X + 1) x = false ->
  X - Z.of_nat fuel <= dec_exp fuel X x <= X /\
  ge_pow10 (dec_exp fuel X x) x = true /\ ge_pow10 (dec_exp fuel X x + 1) x = false.
Proof.
  revert X. induction fuel as [|fuel IH]; intros X Hlo Hhi; cbn [dec_exp].
  - replace (X - Z.of_nat 0) with X in * by lia. auto with lia.
  - destruct (ge_pow10 X x) eqn:E; [split; [lia|done]|].
    destruct (IH (X - 1)) as (H1 & H2 & H3).
    + by replace (X - 1 - Z.of_nat fuel) with (X - Z.of_nat (S fuel)) by lia.
    + by replace (X - 1 + 1) with X by lia.
    + split; [lia|done].
Qed.

Lemma dec_exp_range x :
  0 < x < 2 ^ 1024 * one ->
  -324 <= dec_exp 632 308 x <= 308 /\
  ge_pow10 (dec_exp 632 308 x) x = true /\ ge_pow10 (dec_exp 632 308 x + 1) x = false.
Proof.
  intros Hx. pose proof one_pos as H1.
  destruct (dec_exp_spec 632 308 x) as (Ha & Hb); [| |split; [|exact Hb]].
  - replace (308 - Z.of_nat 632) with (-324) by done. unfold ge_pow10. cbn [Z.leb Z.compare Z.opp].
    apply Z.leb_le. transitivity (1 * 10 ^ 324); [|apply Z.mul_le_mono_nonneg_r; [apply Z.pow_nonneg|]; lia].
    apply Z.leb_le. vm_compute. reflexivity.
  - unfold ge_pow10. cbn [Z.leb Z.compare Z.add Pos.add]. apply Z.leb_gt. destruct Hx as [_ Hx].
    eapply Z.lt_le_trans; [exact Hx|]. apply Z.mul_le_mono_nonneg_r; [lia|].
    apply Z.leb_le. vm_compute. reflexivity.
  - replace (308 - Z.of_nat 632) with (-324) in Ha by done. exact Ha.
Qed.

(** The unit of the last digit, as a fraction of doubles: [unit_num / unit_den]. *)
Lemma g_round_spec X x :
  -324 <= X -> ge_pow10 X x = true -> ge_pow10 (X + 1) x = false ->
  10 ^ 11 <= g_round X x <= 10 ^ 12 /\
  (if 11 <=? X then 2 * Z.abs (x - g_round X x * (10 ^ (X - 11) * one)) <= 10 ^ (X - 11) * one
   else 2 * Z.abs (x * 10 ^ (11 - X) - g_round X x * one) <= one).
Proof.
  intros HX Hlo Hhi. pose proof one_pos as H1. unfold g_round, ge_pow10 in *.
  destruct (Z.leb_spec 11 X) as [H11|H11].
  - assert (Hp : 0 < 10 ^ (X - 11)) by (apply Z.pow_pos_nonneg; lia).
    set (u := 10 ^ (X - 11) * one). assert (Hu : 0 < u) by (unfold u; nia).
    destruct (Z.leb_spec 0 X); [|lia]. destruct (Z.leb_spec 0 (X + 1)); [|lia].
    apply Z.leb_le in Hlo. apply Z.leb_gt in Hhi.
    replace (10 ^ X) with (10 ^ 11 * 10 ^ (X - 11)) in Hlo by (rewrite <- Z.pow_add_r by lia; f_equal; lia).
    replace (10 ^ (X + 1)) with (10 ^ 12 * 10 ^ (X - 11)) in Hhi by (rewrite <- Z.pow_add_r by lia; f_equal; lia).
    rewrite <- Z.mul_assoc in Hlo, Hhi. fold u in Hlo, Hhi. pose proof (rhe_spec x u Hu) as Hr.
    split; [split; [apply rhe_ge|apply rhe_le]; try done; clearbody u; lia|]. clearbody u. lia.
  - assert (Hp : 0 < 10 ^ (11 - X)) by (apply Z.pow_pos_nonneg; lia).
    pose proof (rhe_spec (x * 10 ^ (11 - X)) one H1) as Hr.
    assert (Hb : 10 ^ 11 * one <= x * 10 ^ (11 - X) < 10 ^ 12 * one).
    { split.
      - destruct (Z.leb_spec 0 X); apply Z.leb_le in Hlo.
        + replace (10 ^ 11) with (10 ^ X * 10 ^ (11 - X)) by (rewrite <- Z.pow_add_r by lia; f_equal; lia). nia.
        + replace (10 ^ (11 - X)) with (10 ^ 11 * 10 ^ (- X)) by (rewrite <- Z.pow_add_r by lia; f_equal; lia). nia.
      - destruct (Z.leb_spec 0 (X + 1)); apply Z.leb_gt in Hhi.
        + replace (10 ^ 12) with (10 ^ (X + 1) * 10 ^ (11 - X)) by (rewrite <- Z.pow_add_r by lia; f_equal; lia). nia.
        + replace (10 ^ (11 - X)) with (10 ^ 12 * 10 ^ (- (X + 1))) by (rewrite <- Z.pow_add_r by lia; f_equal; lia). nia. }
    set (y := x * 10 ^ (11 - X)) in *. clearbody y.
    split; [split; [apply rhe_ge|apply rhe_le]; try done; lia|]. lia.
Qed.

(** The digits and the exponent of a positive double. *)
Lemma g_digits_spec x :
  0 < x < 2 ^ 1024 * one ->
  10 ^ 11 <= fst (g_digits x) < 10 ^ 12 /\ -324 <= snd (g_digits x) <= 309.
Proof.
  intros Hx. destruct (dec_exp_range x Hx) as (HX & Hlo & Hhi). unfold g_digits.
  set (X := dec_exp 632 308 x) in *. clearbody X.
  destruct (g_round_spec X x ltac:(lia) Hlo Hhi) as [Hn _].
  destruct (Z.eqb_spec (g_round X x) (10 ^ 12)); cbn [fst snd]; [|lia].
  split; [|lia]. split; [lia|by apply Z.ltb_lt].
Qed.

Lemma length_strip_rev l : (length (strip_rev l) <= length l)%nat.
Proof. induction l as [|c l IH]; cbn; [lia|]. destruct (c =? 48); [lia|]. destruct (c =? 46); cbn; lia. Qed.

Lemma length_strip_zeros l : (length (strip_zeros l) <= length l)%nat.
Proof.
  unfold strip_zeros. rewrite length_rev. pose proof (length_strip_rev (rev l)) as H. by rewrite length_rev in H.
Qed.

Lemma length_exponent X : -324 <= X <= 309 -> (length (exponent_text X) <= 5)%nat.
Proof.
  intros HX. unfold exponent_text. cbn [length]. destruct (Z.ltb_spec (Z.abs X) 10); cbn [length].
  - pose proof (length_decimal 1 (Z.abs X) ltac:(cbn; lia)). lia.
  - pose proof (length_decimal 3 (Z.abs X) ltac:(cbn; lia)). lia.
Qed.

Lemma length_g_text x : 0 < x < 2 ^ 1024 * one -> (length (g_text x) <= 18)%nat.
Proof.
  intros Hx. destruct (g_digits_spec x Hx) as [Hn HX]. unfold g_text.
  destruct (g_digits x) as [n X]. cbn [fst snd] in *. change (10 ^ 11) with 100000000000 in Hn.
  change (10 ^ 12) with 1000000000000 in Hn.
  destruct (Z.leb_spec (-4) X); cbn [andb].
  destruct (Z.ltb_spec X 12).
  2,3: rewrite length_app; pose proof (length_exponent X HX);
    pose proof (length_strip_zeros (fixed_text 11 n));
    assert (length (fixed_text 11 n) <= 13)%nat by (apply (length_fixed_text 11 1 n); [cbn; lia|lia]); lia.
  destruct (Z.to_nat (11 - X)) as [|p] eqn:Ep.
  - assert (length (fixed_text 0 n) <= 12)%nat by (apply (length_fixed_text 0 12 n); [cbn; lia|lia]). lia.
  - pose proof (length_strip_zeros (fixed_text (S p) n)) as Hs.
    destruct (Z_le_gt_dec 0 X) as [HX0|HX0].
    + pose proof (length_fixed_text (S p) (Z.to_nat (X + 1)) n) as Hf.
      replace (Z.to_nat (X + 1) + S p)%nat with 12%nat in Hf by lia.
      specialize (Hf ltac:(cbn; lia) ltac:(lia)). cbn beta iota in Hf. lia.
    + pose proof (length_fixed_text (S p) 1 n) as Hf.
      assert (0 <= n < 10 ^ Z.of_nat (1 + S p)); [|specialize (Hf ltac:(done) ltac:(lia)); cbn beta iota in Hf; lia].
      split; [lia|]. eapply Z.lt_le_trans; [apply Hn|]. change 1000000000000 with (10 ^ 12).
      apply Z.pow_le_mono_r; lia.
Qed.

Lemma length_printf_g v : double_ok v -> (length (printf_g v) <= 19)%nat.
Proof.
  intros Hv. destruct v as [[]|[]|neg x]; cbn [printf_g length]; try lia.
  destruct (Z.eqb_spec x 0); [destruct neg; cbn; lia|].
  destruct Hv as [Hv0 Hv1]. assert (Hx : 0 < x) by (clear Hv1; lia).
  pose proof (length_g_text x (conj Hx Hv1)) as Hl. clear Hv1. destruct neg; cbn [length]; lia.
Qed.

(** ** Agreement with the Standard Library's floating-point numbers, on samples *)

(** The value of a [spec_float] as a multiple of the least double. *)
Definition of_spec_float (f : spec_float) : option Z :=
  match f with
  | S754_zero _ => Some 0
  | S754_finite neg m e => if -1074 <=? e then Some ((if neg then -1 else 1) * Zpos m * 2 ^ (e + 1074)) else None
  | _ => None
  end.

Definition spec_of (s : Z) : spec_float := binary_normalize 53 1024 s 0 false.

Example conversions_agree :
  map (fun s => of_spec_float (spec_of s)) [0; 1; -7; 9007199254740993; 9223372036854775807]
  = map (fun s => Some (double_of s)) [0; 1; -7; 9007199254740993; 9223372036854775807].
Proof. vm_compute. reflexivity. Qed.

Example divisions_agree :
  map (fun s => of_spec_float (SFdiv 53 1024 (spec_of s) (spec_of 1000000))) [1234567; 99949999999999999]
  = map (fun s => Some (ddiv (double_of s) (double_of 1000000))) [1234567; 99949999999999999].
Proof. vm_compute. reflexivity. Qed.

(** ** Theorems *)

(** C34: [formatSI] is as its comment says, for counts below 2^53: a number below 1000 is
    printed as it is; any other with exactly three significant digits and a unit, in at
    most five characters, and what is printed differs from the count by half of its last
    digit at most (up to the rounding of doubles, 2^-50 of the count). For larger counts
    up to the largest 64-bit one it still prints at most six characters. *)
Theorem formatSI_width_and_value s :
  0 <= s < 2 ^ 63 ->
  (s < 1000 -> formatSI s = decimal s) /\
  (1000 <= s < 2 ^ 53 -> shows_si s (formatSI s) 100 999) /\
  (length (formatSI s) <= (if (s <? 2 ^ 53)%Z then 5 else 6))%nat.
Proof.
  intros Hs. split_and!.
  - intros H. exact (proj1 (formatSI_small s (conj (proj1 Hs) H))).
  - apply formatSI_three_digits.
  - destruct (Z_lt_le_dec s 1000) as [Hlt|Hge].
    { destruct (formatSI_small s) as [_ H]; [lia|]. destruct (s <? 2 ^ 53); lia. }
    destruct (Z.ltb_spec s (2 ^ 53)) as [Hlt|Hge'].
    + destruct (formatSI_three_digits s (conj Hge Hlt)) as (p & n & c & U & _ & _ & _ & _ & Hl). exact Hl.
    + destruct (formatSI_any s (conj Hge (proj2 Hs))) as (lo & hi & p & n & c & U & _ & _ & _ & _ & Hl).
      destruct (hi <? 1000); lia.
Qed.

(** The comment of [formatSI] promises five characters; 99949999999999999 takes six, since
    its double is the next power of ten, and 999499999999999999 is shown as 1000P. *)
Theorem formatSI_too_wide :
  formatSI 99949999999999999 = [49; 48; 48; 46; 48; 80] /\
  formatSI 999499999999999999 = [49; 48; 48; 48; 80].
Proof. vm_compute. split; reflexivity. Qed.

(** [formatIEC] prints every 64-bit count that is not negative in at most six
    characters: a count below 1024 as it is, any other in units of a power of 1024 and to
    half of the last digit printed (up to the rounding of doubles). *)
Theorem formatIEC_width_and_value s :
  0 <= s < 2 ^ 63 ->
  (length (formatIEC s) <= 6)%nat /\ (s < 1024 -> formatIEC s = decimal s) /\
  (1024 <= s -> shows_iec s (formatIEC s)).
Proof.
  intros Hs. destruct (Z_lt_le_dec s 1024) as [Hlt|Hge].
  - destruct (formatIEC_small s) as [E Hl]; [lia|]. split_and!; [lia|done|lia].
  - assert (H : shows_iec s (formatIEC s)) by (apply formatIEC_shows; lia). split_and!; [|lia|done].
    destruct H as (p & n & u & U & _ & _ & _ & _ & Hl). exact Hl.
Qed.

(** Printing a double stays in the buffer. For every double, with at least
    [kMaxNumericSize] bytes free the operator appends exactly the text of [%.12g], which
    has at most 19 characters; with less it changes nothing. The twelve significant
    digits of a finite value that is not zero are those of a number of twelve digits. *)
Theorem Stream_out_double_safe s v :
  fb_wf s -> double_ok v ->
  (length (printf_g v) <= 19)%nat /\
  (forall neg x, v = DFin neg x -> x <> 0 -> 10 ^ 11 <= fst (g_digits x) < 10 ^ 12) /\
  exists s', Stream_out_double s v = Ok s' /\ fb_wf s' /\
    FixedBuffer_toString s' =
      if kMaxNumericSize <=? FixedBuffer_avail s then FixedBuffer_toString s ++ printf_g v
      else FixedBuffer_toString s.
Proof.
  intros Hs Hv. pose proof (length_printf_g v Hv) as Hl. split; [done|]. split.
  { intros neg x -> Hx. destruct Hv as [Hv0 Hv1]. assert (Hx0 : 0 < x) by (clear Hv1; lia).
    apply (g_digits_spec x (conj Hx0 Hv1)). }
  unfold Stream_out_double. destruct (Z.leb_spec kMaxNumericSize (FixedBuffer_avail s)) as [Ha|Ha]; [|by exists s].
  rewrite fb_avail_eq in Ha by done. unfold kMaxNumericSize in *. change (Z.to_nat 48 - 1)%nat with 47%nat.
  rewrite take_ge by lia. destruct (poke_add_spec s (printf_g v) Hs) as (b' & E & Hw & Hc); [lia|].
  rewrite E. cbn [obind]. eexists. split; [reflexivity|]. split; [done|].
  by rewrite !fb_toString_contents, Hc by done.
Qed.

(** ** Witnesses *)

Lemma formatSI_width_and_value_witness : (length (formatSI 1234567) <= 5)%nat.
Proof.
  refine (proj2 (proj2 (formatSI_width_and_value 1234567 _))). split; [lia|reflexivity].
Defined.

Lemma formatIEC_width_and_value_witness : (length (formatIEC 1048063) <= 6)%nat.
Proof.
  refine (proj1 (formatIEC_width_and_value 1048063 _)). split; [lia|reflexivity].
Defined.

Lemma Stream_out_double_safe_witness : (length (printf_g (DFin true (3 * 2 ^ 1073))) <= 19)%nat.
Proof.
  refine (proj1 (Stream_out_double_safe (FixedBuffer_new 64 (replicate 64 0)) (DFin true (3 * 2 ^ 1073)) _ _));
    eval_closed.
Defined.
