(* ===== verification/LogStream.v ===== *)
(** * log/log_stream.h and base/types.h: the stream that log lines are written to

    log_stream.h has a [FixedBuffer] of its own, in another namespace, and [LogStream] on
    top of it; what the header defines inline is modelled here (the operators on numbers
    are only declared there). The class is the one of stream.h but for [size], and
    [log_buffer_same] says so; the theorem gives what a sequence of outputs leaves in the
    buffer. base/types.h has the small templates that both buffers use. *)

From stdpp Require Import base numbers list.
From Stdlib Require Import Lia ZArith.
From S2P Require Import Prelude Stream.

(** ** base/types.h *)

(** [memZero(p, n)]: the block that begins at [p], afterwards. *)
Definition memZero (block : list Z) (n : nat) : outcome (list Z) :=
  if Nat.leb n (length block) then Ok (splice block 0 (replicate n 0)) else Fault OutOfBounds.

(** [implicit_cast<size_t>] of an [int]. *)
Definition implicit_cast_size_t (f : Z) : Z := u64 f.

(** [down_cast<To>(f)] of a pointer to an object of a class: [is_a] is the class hierarchy,
    the object is its address and its class. With assertions, a cast to a class that the
    object does not have fails; without, the result is a pointer of the wrong type. *)
Definition down_cast {C : Type} (is_a : C -> C -> bool) (ndebug : bool) (To : C) (f : option (nat * C))
  : outcome (option (nat * C)) :=
  match f with
  | None => Ok None
  | Some (p, c) =>
      if ndebug then Ok (Some (p, To))
      else if is_a c To then Ok (Some (p, To)) else Fault AssertionFailed
  end.

(** With assertions a cast succeeds exactly on null pointers and on objects of the class. *)
Lemma down_cast_checked {C} (is_a : C -> C -> bool) To (f : option (nat * C)) :
  (exists r, down_cast is_a false To f = Ok r) <-> (forall p c, f = Some (p, c) -> is_a c To = true).
Proof.
  destruct f as [[p c]|]; cbn.
  - destruct (is_a c To) eqn:E; split; try (by eauto); [intros _ p' c' [= _ <-]; done|by intros [r ?]|].
    intros H. by rewrite (H p c eq_refl) in E.
  - split; [done|eauto].
Qed.

(** ** The buffer of log_stream.h *)

Definition log_kSmallBuffer : Z := 4000.
Definition log_kLargeBuffer : Z := 4000 * 1000.

(** [cookie_] takes the value of one of two empty functions. *)
Inductive cookie : Type := cookieStart | cookieEnd.

Record LogBuffer : Type := mkBuffer { lb_SIZE : Z; lb_data : list Z; lb_cur : Z; lb_cookie : cookie }.

(** The constructor; [junk] is what the memory held. *)
Definition LogBuffer_new (size : Z) (junk : list Z) : LogBuffer := mkBuffer size junk 0 cookieStart.
Definition LogBuffer_destroy (b : LogBuffer) : LogBuffer := mkBuffer (lb_SIZE b) (lb_data b) (lb_cur b) cookieEnd.

Definition LogBuffer_length (b : LogBuffer) : Z := i32 (lb_cur b).
Definition LogBuffer_avail (b : LogBuffer) : Z := i32 (lb_SIZE b - lb_cur b).
Definition LogBuffer_add (b : LogBuffer) (len : Z) : LogBuffer := mkBuffer (lb_SIZE b) (lb_data b) (lb_cur b + len) (lb_cookie b).
Definition LogBuffer_reset (b : LogBuffer) : LogBuffer := mkBuffer (lb_SIZE b) (lb_data b) 0 (lb_cookie b).
Definition LogBuffer_bzero (b : LogBuffer) : outcome LogBuffer :=
  let* d := memZero (lb_data b) (Z.to_nat (lb_SIZE b)) in Ok (mkBuffer (lb_SIZE b) d (lb_cur b) (lb_cookie b)).
Definition LogBuffer_toString (b : LogBuffer) : list Z := take (Z.to_nat (LogBuffer_length b)) (lb_data b).

Definition LogBuffer_append (b : LogBuffer) (buf : list Z) (len : Z) : LogBuffer :=
  if u64 len <? implicit_cast_size_t (LogBuffer_avail b) then
    mkBuffer (lb_SIZE b) (splice (lb_data b) (Z.to_nat (lb_cur b)) (take (Z.to_nat len) buf)) (lb_cur b + len) (lb_cookie b)
  else b.

(** ** LogStream: its state is its buffer *)

Abbreviation LogStream := LogBuffer.
Definition LogStream_new (junk : list Z) : LogStream := LogBuffer_new log_kSmallBuffer junk.

Definition LogStream_out_bool (s : LogStream) (v : bool) : LogStream := LogBuffer_append s (if v then [49] else [48]) 1.
Definition LogStream_out_char (s : LogStream) (v : Z) : LogStream := LogBuffer_append s [v] 1.
Definition LogStream_out_string (s : LogStream) (v : list Z) : LogStream := LogBuffer_append s v (Z.of_nat (length v)).
Definition LogStream_out_buffer (s : LogStream) (v : LogBuffer) : LogStream := LogStream_out_string s (LogBuffer_toString v).

(** C strings, without their NUL; [None] is the null pointer. *)
Definition LogStream_out_cstr (s : LogStream) (str : option (list Z)) : LogStream :=
  match str with
  | Some str => LogBuffer_append s str (Z.of_nat (length str))
  | None => LogBuffer_append s [40; 110; 117; 108; 108; 41] 6
  end.
Definition LogStream_out_ucstr (s : LogStream) (str : option (list Z)) : LogStream := LogStream_out_cstr s str.

Definition LogStream_append (s : LogStream) (data : list Z) (len : Z) : LogStream := LogBuffer_append s data (i32 len).
Definition LogStream_resetBuffer (s : LogStream) : LogStream := LogBuffer_reset s.


(** ** The two buffers are the same *)

(** The buffer of stream.h with the same block. *)
Definition as_stream (b : LogBuffer) : FixedBuffer :=
  mkFixedBuffer (lb_SIZE b) (lb_data b) (lb_cur b).

Lemma log_buffer_same b buf len n :
  as_stream (LogBuffer_append b buf len) = FixedBuffer_append (as_stream b) buf len /\
  as_stream (LogBuffer_reset b) = FixedBuffer_reset (as_stream b) /\
  as_stream (LogBuffer_add b n) = FixedBuffer_add (as_stream b) n /\
  LogBuffer_toString b = FixedBuffer_toString (as_stream b) /\
  LogBuffer_length b = FixedBuffer_length (as_stream b) /\ LogBuffer_avail b = FixedBuffer_avail (as_stream b).
Proof.
  split_and!; try reflexivity. unfold LogBuffer_append, FixedBuffer_append, implicit_cast_size_t.
  change (LogBuffer_avail b) with (FixedBuffer_avail (as_stream b)). by destruct (_ <? _).
Qed.

Lemma log_bzero_same b :
  fb_wf (as_stream b) ->
  exists b', LogBuffer_bzero b = Ok b' /\ as_stream b' = FixedBuffer_bzero (as_stream b).
Proof.
  intros (_ & Hl & _). cbn in Hl. unfold LogBuffer_bzero, memZero. rewrite <- Hl, Nat2Z.id, Nat.leb_refl. cbn [obind].
  eexists. split; [reflexivity|]. unfold as_stream, FixedBuffer_bzero. cbn. f_equal; [done|].
  unfold splice. cbn. rewrite length_replicate, drop_all, app_nil_r. done.
Qed.

(** ** What a sequence of outputs leaves *)

Inductive log_item : Type :=
| LBool (v : bool) | LChar (v : Z) | LString (v : list Z) | LBuffer (v : LogBuffer)
| LCstr (v : option (list Z)) | LUcstr (v : option (list Z)) | LAppend (data : list Z).

Definition log_out (s : LogStream) (i : log_item) : LogStream :=
  match i with
  | LBool v => LogStream_out_bool s v
  | LChar v => LogStream_out_char s v
  | LString v => LogStream_out_string s v
  | LBuffer v => LogStream_out_buffer s v
  | LCstr v => LogStream_out_cstr s v
  | LUcstr v => LogStream_out_ucstr s v
  | LAppend d => LogStream_append s d (Z.of_nat (length d))
  end.

(** The text of an item. *)
Definition log_text (i : log_item) : list Z :=
  match i with
  | LBool v => if v then [49] else [48]
  | LChar v => [v]
  | LString v | LAppend v => v
  | LBuffer v => LogBuffer_toString v
  | LCstr v | LUcstr v => default [40; 110; 117; 108; 108; 41] v
  end.

(** The line so far, with an item added if it leaves a byte free. *)
Definition line_add (line : list Z) (i : log_item) : list Z :=
  if Z.of_nat (length line + length (log_text i)) <? log_kSmallBuffer then line ++ log_text i else line.

Lemma log_out_spec s i :
  fb_wf (as_stream s) -> Z.of_nat (length (log_text i)) < 2 ^ 31 ->
  fb_wf (as_stream (log_out s i)) /\ lb_SIZE (log_out s i) = lb_SIZE s /\
  LogBuffer_toString (log_out s i) =
    if Z.of_nat (length (log_text i)) <? lb_SIZE s - lb_cur s then LogBuffer_toString s ++ log_text i
    else LogBuffer_toString s.
Proof.
  intros Hs Hl.
  assert (E : log_out s i = LogBuffer_append s (log_text i) (Z.of_nat (length (log_text i)))).
  { destruct i as [[]| | | |[]|[]|d]; cbn in *; try done.
    unfold LogStream_append. by rewrite swrap_small by (change (2 ^ (32 - 1)) with (2 ^ 31); lia). }
  rewrite E. destruct (log_buffer_same s (log_text i) (Z.of_nat (length (log_text i))) 0) as (Ea & _).
  destruct (append_spec (as_stream s) (log_text i) (Z.of_nat (length (log_text i)))) as [Hw Hc];
    [done|lia|done|change (2 ^ 63) with 9223372036854775808; change (2 ^ 31) with 2147483648 in Hl; lia|].
  rewrite <- Ea in Hw, Hc. split; [done|]. split; [unfold LogBuffer_append; destruct (u64 _ <? _); reflexivity|].
  change (LogBuffer_toString (LogBuffer_append s (log_text i) (Z.of_nat (length (log_text i))))) with
    (FixedBuffer_toString (as_stream (LogBuffer_append s (log_text i) (Z.of_nat (length (log_text i)))))).
  change (LogBuffer_toString s) with (FixedBuffer_toString (as_stream s)).
  rewrite !fb_toString_contents by done. cbn [fb_SIZE fb_cur as_stream] in Hc.
  destruct (Z.ltb_spec (Z.of_nat (length (log_text i))) (lb_SIZE s - lb_cur s)); [done|]. by rewrite Hc.
Qed.

Lemma length_toString s : fb_wf (as_stream s) -> Z.of_nat (length (LogBuffer_toString s)) = lb_cur s.
Proof.
  intros Hs. change (LogBuffer_toString s) with (FixedBuffer_toString (as_stream s)).
  rewrite fb_toString_contents by done. destruct Hs as (H1 & H2 & H3). unfold fb_contents.
  rewrite length_take. cbn in *. lia.
Qed.

(** ** Theorem *)

(** A log line is its items in order, each of them whole or left out. Whatever is
    written to a new [LogStream], its buffer holds the concatenation of the texts, except
    that an item which would not leave a byte free is dropped as a whole; the line always
    has less than [kSmallBuffer] bytes, and nothing is written outside the buffer. *)
Theorem log_line_is_its_items junk items :
  length junk = Z.to_nat 4000 -> Forall (fun i => Z.of_nat (length (log_text i)) < 2 ^ 31) items ->
  let s := fold_left log_out items (LogStream_new junk) in
  LogBuffer_toString s = fold_left line_add items [] /\ fb_wf (as_stream s) /\
  Z.of_nat (length (LogBuffer_toString s)) < log_kSmallBuffer.
Proof.
  intros Hj Hf. cbv zeta.
  assert (H : forall s line, fb_wf (as_stream s) -> lb_SIZE s = log_kSmallBuffer -> LogBuffer_toString s = line ->
    Z.of_nat (length line) < log_kSmallBuffer ->
    LogBuffer_toString (fold_left log_out items s) = fold_left line_add items line /\
    fb_wf (as_stream (fold_left log_out items s)) /\
    Z.of_nat (length (LogBuffer_toString (fold_left log_out items s))) < log_kSmallBuffer).
  { clear Hj. induction Hf as [|i items Hi Hf IH]; intros s line Hw HS Hl Hlt; cbn [fold_left].
    { rewrite Hl. done. }
    destruct (log_out_spec s i Hw Hi) as (Hw' & HS' & Ht). apply IH; [done|congruence| |].
    - rewrite Ht. unfold line_add. pose proof (length_toString s Hw) as Hc. rewrite Hl in *.
      case_ztests; [done|lia|lia|done].
    - unfold line_add. case_ztests; [rewrite length_app; lia|done]. }
  apply H; [|done|done|done]. unfold fb_wf. cbn. rewrite Hj. unfold log_kSmallBuffer. lia.
Qed.

Lemma log_line_is_its_items_witness :
  LogBuffer_toString (fold_left log_out [LCstr (Some [97; 98]); LBool true; LCstr None] (LogStream_new (replicate (Z.to_nat 4000) 0)))
  = [97; 98; 49; 40; 110; 117; 108; 108; 41].
Proof.
  refine (proj1 (log_line_is_its_items (replicate (Z.to_nat 4000) 0) [LCstr (Some [97; 98]); LBool true; LCstr None] _ _)).
  - apply length_replicate.
  - repeat constructor.
Defined.
