(* ===== verification/Clock.v ===== *)
(** * t_time.h and t_time.cc: clocks, sleeping and the stopwatch

    The kernel's answers are inputs: a clock reading is the [timespec] or [timeval] the
    system call filled in, and [sleep] runs against the list of answers of the
    successive [nanosleep] calls. *)

From stdpp Require Import base numbers list.
From Stdlib Require Import Lia ZArith.
From S2P Require Import Prelude.

Record timespec : Type := mkTimespec { tv_sec : Z; tv_nsec : Z }.
Record timeval : Type := mkTimeval { tv_sec' : Z; tv_usec : Z }.

(** ** Clocks *)

Definition mono_ms (t : timespec) : Z := i64 (i64 (tv_sec t) * 1000 + Z.quot (tv_nsec t) 1000000).
Definition mono_us (t : timespec) : Z := i64 (i64 (tv_sec t) * 1000000 + Z.quot (tv_nsec t) 1000).
Definition now_ms (t : timespec) : Z := mono_ms t.
Definition now_us (t : timespec) : Z := mono_us t.
Definition epoch_ms (t : timeval) : Z := i64 (i64 (tv_sec' t) * 1000 + Z.quot (tv_usec t) 1000).
Definition epoch_us (t : timeval) : Z := i64 (i64 (tv_sec' t) * 1000000 + tv_usec t).

(** ** Sleeping *)

(** The answers of [nanosleep(&ts, &ts)]: done, interrupted with the remaining time
    stored back into [ts], or failed with another error. *)
Inductive nanosleep_result : Type :=
| NsDone
| NsInterrupted (rem : timespec)
| NsError.

(** [while (nanosleep(&ts, &ts) == -1 && errno == EINTR);] against the answers the
    kernel gives: the requests made, in order, and whether the loop has ended (the list
    of answers may be too short). *)
Fixpoint nanosleep_loop (ts : timespec) (answers : list nanosleep_result)
  : list timespec * bool :=
  match answers with
  | [] => ([], false)
  | NsDone :: _ | NsError :: _ => ([ts], true)
  | NsInterrupted rem :: answers' =>
      let '(reqs, ended) := nanosleep_loop rem answers' in (ts :: reqs, ended)
  end.

(** [n % 1000 * 1000000] is computed in [uint32_t]. *)
Definition sleep_ms_request (n : Z) : timespec :=
  mkTimespec (n / 1000) (u32 (u32 (n mod 1000) * 1000000)).
Definition sleep_ms (n : Z) (answers : list nanosleep_result) : list timespec * bool :=
  nanosleep_loop (sleep_ms_request n) answers.
Definition sleep_sec (n : Z) (answers : list nanosleep_result) : list timespec * bool :=
  nanosleep_loop (mkTimespec n 0) answers.

(** ** The stopwatch *)

Record Timer : Type := mkTimer { _start : Z }.
Definition Timer_new (now : timespec) : Timer := mkTimer (now_us now).
Definition Timer_restart (tm : Timer) (now : timespec) : Timer := mkTimer (now_us now).
Definition Timer_us (tm : Timer) (now : timespec) : Z := i64 (now_us now - _start tm).
Definition Timer_ms (tm : Timer) (now : timespec) : Z := Z.quot (Timer_us tm now) 1000.

(** ** Specification *)

Definition timespec_ok (t : timespec) : Prop := 0 <= tv_sec t /\ 0 <= tv_nsec t < 10 ^ 9.
Definition nanos (t : timespec) : Z := tv_sec t * 10 ^ 9 + tv_nsec t.

(** The time slept by a run of the loop: an interrupted call slept the part of its
    request the kernel did not give back. *)
Fixpoint slept (ts : timespec) (answers : list nanosleep_result) : Z :=
  match answers with
  | [] | NsError :: _ => 0
  | NsDone :: _ => nanos ts
  | NsInterrupted rem :: answers' => nanos ts - nanos rem + slept rem answers'
  end.

(** Every signal is followed by another answer, and the last one is a completed sleep. *)
Fixpoint ends_done (answers : list nanosleep_result) : Prop :=
  match answers with
  | NsDone :: _ => True
  | NsInterrupted _ :: answers' => ends_done answers'
  | _ => False
  end.

Lemma slept_all ts answers : ends_done answers -> slept ts answers = nanos ts.
Proof.
  revert ts. induction answers as [|[|rem|] answers IH]; intros ts H; cbn in *; try done.
  rewrite IH by done. lia.
Qed.

Lemma nanosleep_loop_ends ts answers : ends_done answers -> snd (nanosleep_loop ts answers) = true.
Proof.
  revert ts. induction answers as [|[|rem|] answers IH]; intros ts H; cbn in *; try done.
  specialize (IH rem H). by destruct (nanosleep_loop rem answers).
Qed.

(** ** Properties *)

(** [sleep::ms(n)] sleeps exactly [n] milliseconds however often signals interrupt it:
    its first request is a normalised [timespec] of [n] milliseconds (no overflow in the
    32-bit product), the loop ends when the kernel reports a completed sleep, and the
    time slept over all calls is the time asked for. *)
Theorem sleep_ms_total n answers :
  0 <= n < 2 ^ 32 -> ends_done answers ->
  timespec_ok (sleep_ms_request n) /\ nanos (sleep_ms_request n) = n * 10 ^ 6 /\
  snd (sleep_ms n answers) = true /\ slept (sleep_ms_request n) answers = n * 10 ^ 6.
Proof.
  intros Hn Ha. pose proof (Z.mod_pos_bound n 1000). pose proof (Z.div_pos n 1000).
  pose proof (Z_div_mod_eq_full n 1000).
  assert (E : sleep_ms_request n = mkTimespec (n / 1000) (n mod 1000 * 1000000)).
  { unfold sleep_ms_request. rewrite (uwrap_small 32 (n mod 1000)) by lia.
    by rewrite uwrap_small by lia. }
  assert (En : nanos (sleep_ms_request n) = n * 10 ^ 6) by (rewrite E; unfold nanos; cbn [tv_sec tv_nsec]; lia).
  repeat split; try (rewrite E; unfold nanos; cbn [tv_sec tv_nsec]; lia); try done.
  - by apply nanosleep_loop_ends.
  - by rewrite slept_all.
Qed.

Lemma sleep_ms_total_witness :
  slept (sleep_ms_request 1500) [NsInterrupted (mkTimespec 0 700000000); NsDone] = 1500 * 10 ^ 6.
Proof.
  refine (proj2 (proj2 (proj2 (sleep_ms_total 1500 [NsInterrupted (mkTimespec 0 700000000); NsDone] _ _)))).
  - lia.
  - exact Logic.I.
Defined.

(** The millisecond and microsecond clocks agree: for a normalised reading in range,
    [now::ms()] is [now::us()] divided by 1000, so the deadlines the timers compute and
    the times the stopwatch reports are on one scale. *)
Theorem now_ms_us t :
  timespec_ok t -> tv_sec t < 2 ^ 40 -> now_ms t = Z.quot (now_us t) 1000.
Proof.
  intros [H1 H2] H3. unfold now_ms, now_us, mono_ms, mono_us.
  rewrite (swrap_small 64 (tv_sec t)) by lia.
  rewrite (Z.quot_div_nonneg (tv_nsec t) 1000), (Z.quot_div_nonneg (tv_nsec t) 1000000) by lia.
  pose proof (Z.div_pos (tv_nsec t) 1000 ltac:(lia) ltac:(lia)).
  pose proof (Z.div_pos (tv_nsec t) 1000000 ltac:(lia) ltac:(lia)).
  assert (tv_nsec t / 1000 < 1000000) by (apply Z.div_lt_upper_bound; lia).
  assert (tv_nsec t / 1000000 < 1000) by (apply Z.div_lt_upper_bound; lia).
  rewrite !swrap_small by lia.
  rewrite Z.quot_div_nonneg by lia.
  replace (tv_sec t * 1000000 + tv_nsec t / 1000)
    with (tv_nsec t / 1000 + tv_sec t * 1000 * 1000) by lia.
  rewrite Z.div_add, Z.div_div by lia. change (1000 * 1000) with 1000000. lia.
Qed.

Lemma now_ms_us_witness : now_ms (mkTimespec 12 345678901) = Z.quot (now_us (mkTimespec 12 345678901)) 1000.
Proof. apply now_ms_us; [eval_closed | reflexivity]. Defined.
