(* ===== verification/Errno.v ===== *)
(** * co_error.h: error numbers (Linux values) and their names *)

From stdpp Require Import base numbers list.
From Stdlib Require Import Lia ZArith String.
From S2P Require Import Prelude.

Definition EPERM : Z := 1.
Definition ENOENT : Z := 2.
Definition EINTR : Z := 4.
Definition EIO : Z := 5.
Definition EBADF : Z := 9.
Definition EAGAIN : Z := 11.
Definition EWOULDBLOCK : Z := 11.
Definition EFAULT : Z := 14.
Definition EEXIST : Z := 17.
Definition EINVAL : Z := 22.
Definition EFBIG : Z := 27.
Definition ENOSPC : Z := 28.
Definition EPIPE : Z := 32.
Definition EDESTADDRREQ : Z := 89.
Definition ETIMEDOUT : Z := 110.
Definition EINPROGRESS : Z := 115.
Definition EDQUOT : Z := 122.

(** The chain of comparisons of [stderror()], on the value of [errno]. *)
Definition stderror (errno : Z) : string :=
  (if (errno =? EAGAIN)%Z then "EAGAIN"
   else if (errno =? EWOULDBLOCK)%Z then "EWOULDBLOCK"
   else if (errno =? EBADF)%Z then "EBADF"
   else if (errno =? EDESTADDRREQ)%Z then "EDESTADDRREQ"
   else if (errno =? EDQUOT)%Z then "EDQUOT"
   else if (errno =? EFAULT)%Z then "EFAULT"
   else if (errno =? EFBIG)%Z then "EFBIG"
   else if (errno =? EINTR)%Z then "EINTR"
   else if (errno =? EINVAL)%Z then "EINVAL"
   else if (errno =? EIO)%Z then "EIO"
   else if (errno =? ENOSPC)%Z then "ENOSPC"
   else if (errno =? EPERM)%Z then "EPERM"
   else if (errno =? EPIPE)%Z then "EPIPE"
   else "unknown error")%string.

(** The answer of a read or write system call: the count, or [-1] with [errno]. *)
Inductive io_result : Type :=
| IoRet (n : Z)
| IoErr (errno : Z).
