(* ===== verification/Os.v ===== *)
(** * os.h and os.cc: the handlers of signals

    [FailureHandler] installs handlers for the signals that end a process, remembers the
    ones they replace, and puts those back before it raises a signal again. The kernel's
    table of dispositions is a class with the laws of [sigaction]; the signals raised are
    recorded. [LOG(FATAL)] is in a prebuilt library: whether it returns is an argument. *)

From stdpp Require Import base numbers list gmap.
From Stdlib Require Import Lia ZArith.
From S2P Require Import Prelude.

(** ** Signals *)

Definition SIGINT : Z := 2.
Definition SIGQUIT : Z := 3.
Definition SIGILL : Z := 4.
Definition SIGABRT : Z := 6.
Definition SIGBUS : Z := 7.
Definition SIGFPE : Z := 8.
Definition SIGSEGV : Z := 11.
Definition SIGPIPE : Z := 13.
Definition SIGTERM : Z := 15.

Definition SA_ONSTACK : Z := 134217728.   (* 0x08000000 *)
Definition SA_RESTART : Z := 268435456.   (* 0x10000000 *)

(** A [sig_handler_t]: the three special values and functions; [SIG_DFL] is the null
    pointer. *)
Inductive sig_handler_t : Type :=
| SIG_DFL | SIG_IGN | SIG_ERR
| on_signal_fn | on_failure_fn
| user_handler (f : nat).

#[export] Instance sig_handler_eq_dec : EqDecision sig_handler_t.
Proof. solve_decision. Defined.

(** Signals whose disposition a process can change: not SIGKILL, not SIGSTOP. *)
Definition catchable (sig : Z) : Prop := 1 <= sig <= 64 /\ sig <> 9 /\ sig <> 19.

(** [sigaction(sig, act, old)] with the handler and flags of [act]: the return value and
    the handler and flags of [old]. *)
Class SigKernel (K : Type) : Type := {
  sigaction : K -> Z -> sig_handler_t -> Z -> K * Z * (sig_handler_t * Z);
  disposition : K -> Z -> sig_handler_t * Z;
  sigaction_ok k sig h fl : catchable sig ->
    exists k', sigaction k sig h fl = (k', 0, disposition k sig) /\
      disposition k' sig = (h, fl) /\ (forall s, s <> sig -> disposition k' s = disposition k s);
  sigaction_bad k sig h fl : ~ catchable sig ->
    exists old, sigaction k sig h fl = (k, -1, old)
}.

(** ** The operations *)

Section Os.
Context {K : Type} `{SigKernel K}.

(** [signal(sig, handler, flag)]. *)
Definition signal (k : K) (sig : Z) (handler : sig_handler_t) (flag : Z) : K * sig_handler_t :=
  let sa_flags := if 0 <? flag then flag else 0 in
  let '(k, r, old) := sigaction k sig handler sa_flags in
  (k, if r =? 0 then fst old else SIG_ERR).

(** [_old_handlers]. *)
Abbreviation FailureHandler := (gmap Z sig_handler_t).

(** [_old_handlers[sig] = signal(sig, handler, flag)]. *)
Definition replace_handler (sig : Z) (handler : sig_handler_t) (flag : Z) (st : K * FailureHandler)
  : K * FailureHandler :=
  let '(k, m) := st in
  let '(k, old) := signal k sig handler flag in (k, <[sig := old]> m).

(** The constructor. *)
Definition FailureHandler_new (k : K) : K * FailureHandler :=
  let x := Z.lor SA_RESTART SA_ONSTACK in
  let st := (k, ∅) in
  let st := replace_handler SIGINT on_signal_fn 0 st in
  let st := replace_handler SIGTERM on_signal_fn 0 st in
  let st := replace_handler SIGQUIT on_signal_fn 0 st in
  let st := replace_handler SIGABRT on_failure_fn x st in
  let st := replace_handler SIGSEGV on_failure_fn x st in
  let st := replace_handler SIGFPE on_failure_fn x st in
  let st := replace_handler SIGBUS on_failure_fn x st in
  let st := replace_handler SIGILL on_failure_fn x st in
  (fst (signal (fst st) SIGPIPE SIG_IGN 0), snd st).

(** The destructor. *)
Definition FailureHandler_destroy (k : K) : K :=
  let reset k sig := fst (signal k sig SIG_DFL 0) in
  let k := reset k SIGINT in
  let k := reset k SIGTERM in
  let k := reset k SIGABRT in
  let k := reset k SIGSEGV in
  let k := reset k SIGFPE in
  let k := reset k SIGBUS in
  reset k SIGILL.

(** The process: the kernel, the handler object and the signals raised so far. *)
Record os_world : Type := mkOs { os_k : K; old_handlers_ : FailureHandler; os_raised : list Z }.

(** [signal(sig, _old_handlers[sig]); raise(sig)]: the subscript makes a missing entry,
    with the null pointer in it. *)
Definition reraise (w : os_world) (sig : Z) : os_world :=
  let old := default SIG_DFL (old_handlers_ w !! sig) in
  let m := <[sig := old]> (old_handlers_ w) in
  mkOs (fst (signal (os_k w) sig old 0)) m (os_raised w ++ [sig]).

Definition FailureHandler_on_signal (w : os_world) (sig : Z) : os_world := reraise w sig.

(** Which message [on_failure] logs. *)
Inductive failure_message : Type :=
| MsgAborted | MsgSegmentationFault | MsgFloatingPoint | MsgBusError | MsgIllegalInstruction | MsgUnexpected.

Definition on_failure_message (sig : Z) : failure_message :=
  if sig =? SIGABRT then MsgAborted
  else if sig =? SIGSEGV then MsgSegmentationFault
  else if sig =? SIGFPE then MsgFloatingPoint
  else if sig =? SIGBUS then MsgBusError
  else if sig =? SIGILL then MsgIllegalInstruction
  else MsgUnexpected.

(** [on_failure]: the message, and the world if the log call returns. *)
Definition FailureHandler_on_failure (log_returns : failure_message -> bool) (w : os_world) (sig : Z)
  : failure_message * option os_world :=
  let msg := on_failure_message sig in
  (msg, if log_returns msg then Some (reraise w sig) else None).

(** [global()]: the object is made at the first call. *)
Definition global (k : K) (g : option FailureHandler) : K * FailureHandler :=
  match g with
  | Some m => (k, m)
  | None => FailureHandler_new k
  end.

(** [on_signal_] and [on_failure_], the functions that are installed. *)
Definition on_signal_ (k : K) (g : option FailureHandler) (raised : list Z) (sig : Z) : os_world :=
  let '(k, m) := global k g in FailureHandler_on_signal (mkOs k m raised) sig.
Definition on_failure_ (log_returns : failure_message -> bool) (k : K) (g : option FailureHandler)
  (raised : list Z) (sig : Z) : failure_message * option os_world :=
  let '(k, m) := global k g in FailureHandler_on_failure log_returns (mkOs k m raised) sig.

(** ** Lemmas *)

Definition ending_signals : list Z := [SIGINT; SIGTERM; SIGQUIT].
Definition failure_signals : list Z := [SIGABRT; SIGSEGV; SIGFPE; SIGBUS; SIGILL].

Definition failure_messages : list (Z * failure_message) :=
  [(SIGABRT, MsgAborted); (SIGSEGV, MsgSegmentationFault); (SIGFPE, MsgFloatingPoint); (SIGBUS, MsgBusError);
   (SIGILL, MsgIllegalInstruction)].

(** The flags [signal] passes on. *)
Definition passed_flags (flag : Z) : Z := if 0 <? flag then flag else 0.

Lemma signal_spec k sig h flag :
  catchable sig ->
  exists k', signal k sig h flag = (k', fst (disposition k sig)) /\
    disposition k' sig = (h, passed_flags flag) /\
    (forall s, s <> sig -> disposition k' s = disposition k s).
Proof.
  intros Hs. unfold signal. fold (passed_flags flag).
  destruct (sigaction_ok k sig h (passed_flags flag) Hs) as (k' & E & H1 & H2).
  rewrite E. cbn. eauto.
Qed.

Lemma signal_uncatchable k sig h flag : ~ catchable sig -> signal k sig h flag = (k, SIG_ERR).
Proof.
  intros Hs. unfold signal. fold (passed_flags flag).
  destruct (sigaction_bad k sig h (passed_flags flag) Hs) as (old & E). by rewrite E.
Qed.

(** The entry of a signal in a list of dispositions. *)
Fixpoint entry (done : list (Z * (sig_handler_t * Z))) (s : Z) : option (sig_handler_t * Z) :=
  match done with
  | [] => None
  | (sig, e) :: done => if sig =? s then Some e else entry done s
  end.

(** What a sequence of replacements leaves: the signals in [done] have their new
    dispositions and their old handlers are remembered, the others are as at the start. *)
Definition replaced (k0 : K) (done : list (Z * (sig_handler_t * Z))) (st : K * FailureHandler) : Prop :=
  (forall s, disposition (fst st) s =
     default (disposition k0 s) (entry done s)) /\
  (forall s, snd st !! s = (fun _ => fst (disposition k0 s)) <$> entry done s).

Lemma replaced_step k0 done st sig h flag :
  catchable sig -> entry done sig = None -> replaced k0 done st ->
  replaced k0 ((sig, (h, passed_flags flag)) :: done) (replace_handler sig h flag st).
Proof.
  intros Hs Hnew [Hd Hm]. destruct st as [k m]. cbn in Hd, Hm. unfold replace_handler.
  destruct (signal_spec k sig h flag Hs) as (k' & E & H1 & H2). rewrite E. split; cbn; intros s.
  - destruct (Z.eqb_spec sig s) as [<-|Hne]; [done|]. by rewrite H2, Hd by congruence.
  - destruct (Z.eqb_spec sig s) as [<-|Hne].
    + by rewrite lookup_insert_eq, Hd, Hnew.
    + by rewrite lookup_insert_ne, Hm by done.
Qed.

(** The dispositions that the constructor installs, last first, SIGPIPE apart. *)
Definition installed : list (Z * (sig_handler_t * Z)) :=
  let x := Z.lor SA_RESTART SA_ONSTACK in
  [(SIGILL, (on_failure_fn, x)); (SIGBUS, (on_failure_fn, x)); (SIGFPE, (on_failure_fn, x));
   (SIGSEGV, (on_failure_fn, x)); (SIGABRT, (on_failure_fn, x));
   (SIGQUIT, (on_signal_fn, 0)); (SIGTERM, (on_signal_fn, 0)); (SIGINT, (on_signal_fn, 0))].

Lemma FailureHandler_new_spec k0 :
  let '(k, m) := FailureHandler_new k0 in
  (forall s, disposition k s =
     if decide (s = SIGPIPE) then (SIG_IGN, 0)
     else default (disposition k0 s) (entry installed s)) /\
  (forall s, m !! s = (fun _ => fst (disposition k0 s)) <$> entry installed s).
Proof.
  unfold FailureHandler_new.
  set (st := replace_handler SIGILL _ _ _).
  assert (Hst : replaced k0 installed st).
  { unfold st, installed.
    repeat (apply replaced_step; [split; [|split]; unfold SIGILL, SIGBUS, SIGFPE, SIGSEGV, SIGABRT, SIGQUIT, SIGTERM, SIGINT; lia
                                 |reflexivity|]).
    split; intros s; cbn; [done|]. by rewrite lookup_empty. }
  destruct Hst as [Hd Hm].
  destruct (signal_spec (fst st) SIGPIPE SIG_IGN 0) as (k' & E & H1 & H2); [by compute|].
  rewrite E. cbn [fst]. split; [|exact Hm]. intros s. case_decide as Hs; [by subst|]. by rewrite H2.
Qed.

(** Raising a signal again puts the handler back that the constructor found. *)
Lemma reraise_spec k0 sig raised :
  catchable sig ->
  let '(k, m) := FailureHandler_new k0 in
  let w := reraise (mkOs k m raised) sig in
  os_raised w = raised ++ [sig] /\
  disposition (os_k w) sig =
    (match entry installed sig with Some _ => fst (disposition k0 sig) | None => SIG_DFL end, 0) /\
  (forall s, s <> sig -> disposition (os_k w) s = disposition k s) /\
  (forall s, s <> sig -> old_handlers_ w !! s = m !! s).
Proof.
  intros Hs. pose proof (FailureHandler_new_spec k0) as Hnew.
  destruct (FailureHandler_new k0) as [k m]. destruct Hnew as [_ Hm].
  destruct (signal_spec k sig (default SIG_DFL (m !! sig)) 0 Hs) as (k' & E & H1 & H2).
  unfold reraise. cbn [os_k os_raised old_handlers_]. rewrite E. cbn [fst]. split_and!; [done| |done|].
  - rewrite H1, Hm. by destruct (entry installed sig).
  - intros s Hne. by rewrite lookup_insert_ne.
Qed.
End Os.
Arguments os_world K : clear implicits.

(** ** An instance: the table itself *)

Abbreviation sig_table := (gmap Z (sig_handler_t * Z)).
Definition table_disposition (k : sig_table) (sig : Z) : sig_handler_t * Z := default (SIG_DFL, 0) (k !! sig).
Definition catchableb (sig : Z) : bool :=
  (1 <=? sig) && (sig <=? 64) && negb (sig =? 9) && negb (sig =? 19).

Lemma catchableb_spec sig : catchableb sig = true <-> catchable sig.
Proof. unfold catchableb, catchable. rewrite !andb_true_iff, !negb_true_iff, !Z.leb_le, !Z.eqb_neq. tauto. Qed.

#[export] Instance table_kernel : SigKernel sig_table.
Proof.
  refine {| sigaction := fun k sig h fl =>
              if catchableb sig then (<[sig := (h, fl)]> k, 0, table_disposition k sig)
              else (k, -1, (SIG_DFL, 0));
            disposition := table_disposition |}.
  - intros k sig h fl Hs%catchableb_spec. rewrite Hs. eexists. split; [done|].
    unfold table_disposition. split; [by rewrite lookup_insert_eq|].
    intros s Hne. by rewrite lookup_insert_ne by congruence.
  - intros k sig h fl Hs. destruct (catchableb sig) eqn:E; [by apply catchableb_spec in E|]. eauto.
Defined.

(** ** Theorems *)

(** C35: A signal gets to the handler it had before. After the handlers are installed,
    exactly the eight signals and SIGPIPE have new dispositions (ending signals
    [on_signal_], failures [on_failure_] on the alternate stack, SIGPIPE ignored) and every
    other is as before. When a handled signal arrives, its handler puts back the handler
    that the constructor had found (with no flags: those found are lost), leaves all other
    dispositions alone and raises the signal again, once. The handler of a failure logs the
    message of the signal first, and does the rest where [LOG(FATAL)] returns; where it
    does not, the process ends there. *)
Theorem signal_handlers_round_trip {K} `{SigKernel K} (k0 : K) sig raised log_returns :
  sig ∈ ending_signals ++ failure_signals ->
  let '(k, m) := FailureHandler_new k0 in
  disposition k sig =
    (if decide (sig ∈ ending_signals) then (on_signal_fn, 0)
     else (on_failure_fn, Z.lor SA_RESTART SA_ONSTACK)) /\
  disposition k SIGPIPE = (SIG_IGN, 0) /\
  (forall s, s ∉ ending_signals ++ failure_signals ++ [SIGPIPE] -> disposition k s = disposition k0 s) /\
  exists w', os_raised w' = raised ++ [sig] /\
    disposition (os_k w') sig = (fst (disposition k0 sig), 0) /\
    (forall s, s <> sig -> disposition (os_k w') s = disposition k s) /\
    if decide (sig ∈ ending_signals) then on_signal_ k (Some m) raised sig = w'
    else exists msg, In (sig, msg) failure_messages /\
           on_failure_ log_returns k (Some m) raised sig = (msg, if log_returns msg then Some w' else None).
Proof.
  intros Hin. pose proof (FailureHandler_new_spec k0) as Hnew.
  assert (Hc : catchable sig).
  { unfold ending_signals, failure_signals in Hin. cbn in Hin. set_unfold in Hin.
    apply catchableb_spec. by repeat destruct Hin as [->|Hin]. }
  pose proof (reraise_spec k0 sig raised Hc) as Hre.
  destruct (FailureHandler_new k0) as [k m]. destruct Hnew as [Hd _], Hre as (Hr1 & Hr2 & Hr3 & _).
  split_and!.
  - rewrite Hd. unfold ending_signals, failure_signals in Hin. cbn in Hin. set_unfold in Hin.
    by repeat destruct Hin as [->|Hin].
  - by rewrite Hd.
  - intros s Hs. rewrite Hd. unfold ending_signals, failure_signals in Hs. cbn in Hs. set_unfold in Hs.
    rewrite decide_False by tauto. unfold installed, entry.
    repeat match goal with |- context [?a =? s] => destruct (Z.eqb_spec a s); [subst; tauto|] end. done.
  - exists (reraise (mkOs k m raised) sig). split; [done|]. split; [|split; [done|]].
    + rewrite Hr2. unfold ending_signals, failure_signals in Hin. cbn in Hin. set_unfold in Hin.
      by repeat destruct Hin as [->|Hin].
    + case_decide as He; [done|]. exists (on_failure_message sig). split; [|done].
      unfold ending_signals in He. unfold ending_signals, failure_signals in Hin. cbn in He, Hin. set_unfold in He. set_unfold in Hin.
      destruct Hin as [->|[->|[->|Hin]]]; try tauto. repeat destruct Hin as [->|Hin]; [..|done]; cbn; tauto.
Qed.

(** The destructor forgets SIGQUIT: it resets seven of the eight signals, to the default
    action and not to the one found, and SIGQUIT keeps the handler of the object that is
    gone. *)
Theorem destructor_keeps_SIGQUIT {K} `{SigKernel K} (k0 : K) :
  let k := FailureHandler_destroy (fst (FailureHandler_new k0)) in
  disposition k SIGQUIT = (on_signal_fn, 0) /\ disposition k SIGINT = (SIG_DFL, 0).
Proof.
  pose proof (FailureHandler_new_spec k0) as Hnew. destruct (FailureHandler_new k0) as [k m].
  destruct Hnew as [Hd _]. unfold FailureHandler_destroy. cbn [fst].
  assert (E : disposition k SIGQUIT = (on_signal_fn, 0)) by (by rewrite Hd).
  assert (Hstep : forall k sig, catchableb sig = true -> disposition (fst (signal k sig SIG_DFL 0)) sig = (SIG_DFL, 0) /\
    forall s, s <> sig -> disposition (fst (signal k sig SIG_DFL 0)) s = disposition k s).
  { intros k' sig Hs%catchableb_spec. destruct (signal_spec k' sig SIG_DFL 0 Hs) as (k'' & -> & H1 & H2). done. }
  split.
  - rewrite (proj2 (Hstep _ SIGILL eq_refl)), (proj2 (Hstep _ SIGBUS eq_refl)), (proj2 (Hstep _ SIGFPE eq_refl)),
      (proj2 (Hstep _ SIGSEGV eq_refl)), (proj2 (Hstep _ SIGABRT eq_refl)), (proj2 (Hstep _ SIGTERM eq_refl)),
      (proj2 (Hstep _ SIGINT eq_refl)) by done. exact E.
  - rewrite (proj2 (Hstep _ SIGILL eq_refl)), (proj2 (Hstep _ SIGBUS eq_refl)), (proj2 (Hstep _ SIGFPE eq_refl)),
      (proj2 (Hstep _ SIGSEGV eq_refl)), (proj2 (Hstep _ SIGABRT eq_refl)), (proj2 (Hstep _ SIGTERM eq_refl)) by done.
    exact (proj1 (Hstep _ SIGINT eq_refl)).
Qed.

(** ** Witness *)

Definition found_sample : sig_table := <[SIGSEGV := (user_handler 7, SA_ONSTACK)]> ∅.

Lemma signal_handlers_round_trip_witness :
  exists w, on_failure_ (fun _ => true) (fst (FailureHandler_new found_sample)) (Some (snd (FailureHandler_new found_sample)))
      [] SIGSEGV = (MsgSegmentationFault, Some w) /\
    os_raised w = [SIGSEGV] /\ disposition (os_k w) SIGSEGV = (user_handler 7, 0) /\
    on_failure_ (fun _ => false) (fst (FailureHandler_new found_sample)) (Some (snd (FailureHandler_new found_sample)))
      [] SIGSEGV = (MsgSegmentationFault, None).
Proof.
  assert (Hin : SIGSEGV ∈ ending_signals ++ failure_signals) by (cbn; set_solver).
  destruct (proj2 (proj2 (proj2 (signal_handlers_round_trip found_sample SIGSEGV [] (fun _ => true) Hin))))
    as (w & H1 & H2 & _ & msg & [[= <-]|[[= <-]|[[= <-]|[[= <-]|[[= <-]|[]]]]]] & E).
  exists w. split; [exact E|]. split; [exact H1|]. split; [exact H2|reflexivity].
Defined.
