(* ===== verification/SockCtx.v ===== *)
(** * sock_ctx.h and sock_ctx.cc: which coroutine waits on a socket

    A [SockCtx] holds, for a file descriptor, the coroutine that waits to read and the
    one that waits to write, each as (scheduler id, coroutine id) at 32 bits; all ones
    ([-1] stored in a [uint32]) is the empty entry. *)

From stdpp Require Import base numbers list gmap.
From Stdlib Require Import Lia ZArith.
From S2P Require Import Prelude.

(** [-1] converted to [uint32]. *)
Definition kNone : Z := u32 (-1).

Record event_t : Type := mkEvent { co_id_ : Z; sched_id_ : Z }.

Record SockCtx : Type := mkSockCtx { read_ev_ : event_t; write_ev_ : event_t }.

Definition SockCtx_AddEvRead (c : SockCtx) (sched_id co_id : Z) : SockCtx :=
  mkSockCtx (mkEvent co_id sched_id) (write_ev_ c).
Definition SockCtx_AddEvWrite (c : SockCtx) (sched_id co_id : Z) : SockCtx :=
  mkSockCtx (read_ev_ c) (mkEvent co_id sched_id).
Definition SockCtx_DelEvRead (c : SockCtx) : SockCtx :=
  mkSockCtx (mkEvent (u32 (-1)) (u32 (-1))) (write_ev_ c).
Definition SockCtx_DelEvWrite (c : SockCtx) : SockCtx :=
  mkSockCtx (read_ev_ c) (mkEvent (u32 (-1)) (u32 (-1))).
Definition SockCtx_DelEvent (c : SockCtx) : SockCtx :=
  SockCtx_DelEvWrite (SockCtx_DelEvRead c).

Definition SockCtx_has_ev_read (c : SockCtx) : bool := negb (co_id_ (read_ev_ c) =? u32 (-1)).
Definition SockCtx_has_ev_read_by (c : SockCtx) (sched_id : Z) : bool :=
  (sched_id =? sched_id_ (read_ev_ c)) && negb (co_id_ (read_ev_ c) =? u32 (-1)).
Definition SockCtx_has_ev_write (c : SockCtx) : bool := negb (co_id_ (write_ev_ c) =? u32 (-1)).
Definition SockCtx_has_ev_write_by (c : SockCtx) (sched_id : Z) : bool :=
  (sched_id =? sched_id_ (write_ev_ c)) && negb (co_id_ (write_ev_ c) =? u32 (-1)).
Definition SockCtx_has_event (c : SockCtx) : bool :=
  SockCtx_has_ev_read c || SockCtx_has_ev_write c.

Definition SockCtx_get_read_co_id (c : SockCtx) (sched_id : Z) : Z :=
  if sched_id =? sched_id_ (read_ev_ c) then co_id_ (read_ev_ c) else u32 (-1).
Definition SockCtx_get_write_co_id (c : SockCtx) (sched_id : Z) : Z :=
  if sched_id =? sched_id_ (write_ev_ c) then co_id_ (write_ev_ c) else u32 (-1).

(** The constructor clears both entries (of uninitialised memory [junk]). *)
Definition SockCtx_new (junk : SockCtx) : SockCtx := SockCtx_DelEvent junk.
Definition SockCtx_empty : SockCtx := mkSockCtx (mkEvent kNone kNone) (mkEvent kNone kNone).

(** The process-wide [std::map<int, SockCtx>]; [map[fd]] default-constructs a missing
    entry. A caller that changes the entry through the reference it got writes it back
    with [put_sock_ctx]. *)
Definition get_sock_ctx (m : gmap Z SockCtx) (fd : Z) : SockCtx :=
  match m !! fd with
  | Some c => c
  | None => SockCtx_new SockCtx_empty
  end.
Definition put_sock_ctx (m : gmap Z SockCtx) (fd : Z) (c : SockCtx) : gmap Z SockCtx :=
  <[fd := c]> m.

(** ** Lemmas *)

Lemma get_put_eq m fd c : get_sock_ctx (put_sock_ctx m fd c) fd = c.
Proof. unfold get_sock_ctx, put_sock_ctx. by rewrite lookup_insert_eq. Qed.

Lemma get_put_ne m fd fd' c :
  fd <> fd' -> get_sock_ctx (put_sock_ctx m fd c) fd' = get_sock_ctx m fd'.
Proof. intros. unfold get_sock_ctx, put_sock_ctx. by rewrite lookup_insert_ne. Qed.

Lemma SockCtx_new_empty junk : SockCtx_new junk = SockCtx_empty.
Proof. done. Qed.

(** An entry is taken exactly when its coroutine id is not all ones. *)
Definition is_co_id (co_id : Z) : Prop := 0 <= co_id < kNone.

Lemma has_ev_read_add c s co : is_co_id co -> SockCtx_has_ev_read (SockCtx_AddEvRead c s co) = true.
Proof. unfold is_co_id, SockCtx_has_ev_read, kNone. cbn. intros. case_ztests; lia. Qed.

Lemma has_ev_write_add c s co : is_co_id co -> SockCtx_has_ev_write (SockCtx_AddEvWrite c s co) = true.
Proof. unfold is_co_id, SockCtx_has_ev_write, kNone. cbn. intros. case_ztests; lia. Qed.

(** ** Properties *)

(** A [SockCtx] is two independent slots: the coroutine registered for reading is the
    one its own scheduler gets back, any other scheduler gets the empty id, registering
    or removing one direction never disturbs the other, and a removed entry is gone. *)
Theorem SockCtx_slots_independent c s s' r w :
  is_co_id r -> is_co_id w -> s <> s' ->
  let c' := SockCtx_AddEvWrite (SockCtx_AddEvRead c s r) s' w in
  SockCtx_get_read_co_id c' s = r /\ SockCtx_get_write_co_id c' s' = w /\
  SockCtx_get_read_co_id c' s' = kNone /\ SockCtx_get_write_co_id c' s = kNone /\
  SockCtx_has_ev_read_by c' s = true /\ SockCtx_has_ev_write_by c' s = false /\
  SockCtx_has_ev_write (SockCtx_DelEvRead c') = true /\
  SockCtx_has_ev_read (SockCtx_DelEvRead c') = false /\
  SockCtx_has_ev_read (SockCtx_DelEvWrite c') = true /\
  SockCtx_has_event (SockCtx_DelEvent c') = false.
Proof.
  intros Hr Hw Hs c'. unfold is_co_id, kNone in *.
  unfold c', SockCtx_get_read_co_id, SockCtx_get_write_co_id, SockCtx_has_ev_read_by,
    SockCtx_has_ev_write_by, SockCtx_has_event, SockCtx_has_ev_read, SockCtx_has_ev_write,
    SockCtx_DelEvent, SockCtx_DelEvRead, SockCtx_DelEvWrite, kNone.
  cbn [SockCtx_AddEvWrite SockCtx_AddEvRead read_ev_ write_ev_ co_id_ sched_id_].
  repeat split; case_ztests; try done; try lia.
Qed.

Lemma SockCtx_slots_independent_witness :
  let c' := SockCtx_AddEvWrite (SockCtx_AddEvRead SockCtx_empty 0 7) 1 9 in
  SockCtx_get_read_co_id c' 0 = 7 /\ SockCtx_get_read_co_id c' 1 = kNone.
Proof.
  destruct (SockCtx_slots_independent SockCtx_empty 0 1 7 9) as (H1 & _ & H3 & _);
    [eval_closed | eval_closed | discriminate |].
  split; [exact H1 | exact H3].
Defined.
