(* ===== verification/Epoll.v ===== *)
(** * epoll.h and epoll.cc: the interest list of a scheduler and the socket contexts

    [epoll_ctl] belongs to the kernel: it is a parameter, given by the class
    [EpollKernel] with the documented behaviour of the call as laws. [EpollTable] is an
    instance, an interest table that follows the manual page. The operations of [Epoll]
    act on the kernel and on the process-wide table of [SockCtx]. [Wakeup.v] has the wake-up descriptor. *)

From stdpp Require Import base numbers list gmap.
From Stdlib Require Import Lia ZArith.
From S2P Require Import Prelude Errno SockCtx.

Definition EPOLLIN : Z := 1.
Definition EPOLLOUT : Z := 4.
Definition EPOLLET : Z := 2 ^ 31.

Inductive ctl_op : Type := EPOLL_CTL_ADD | EPOLL_CTL_DEL | EPOLL_CTL_MOD.

(** [struct epoll_event]: the mask, and [data.fd]. *)
Record epoll_event : Type := mkEpollEvent { events : Z; data_fd : Z }.

(** What the code relies on of the kernel: [epoll_ctl] returns the new kernel state, the
    result and [errno]; [interest] is the interest list. *)
Class EpollKernel (K : Type) := {
  epoll_ctl : K -> ctl_op -> Z -> epoll_event -> K * Z * Z;
  interest : K -> Z -> option epoll_event
}.

Class EpollLaws (K : Type) `{EpollKernel K} := {
  ctl_fail k op fd ev k' r e fd' :
    epoll_ctl k op fd ev = (k', r, e) -> r <> 0 -> interest k' fd' = interest k fd';
  ctl_add k fd ev k' e :
    epoll_ctl k EPOLL_CTL_ADD fd ev = (k', 0, e) ->
    interest k fd = None /\ interest k' fd = Some ev /\
    forall fd', fd' <> fd -> interest k' fd' = interest k fd';
  ctl_mod k fd ev k' e :
    epoll_ctl k EPOLL_CTL_MOD fd ev = (k', 0, e) ->
    is_Some (interest k fd) /\ interest k' fd = Some ev /\
    forall fd', fd' <> fd -> interest k' fd' = interest k fd';
  ctl_del k fd ev k' e :
    epoll_ctl k EPOLL_CTL_DEL fd ev = (k', 0, e) ->
    is_Some (interest k fd) /\ interest k' fd = None /\
    forall fd', fd' <> fd -> interest k' fd' = interest k fd';
  ctl_enoent k op fd ev k' r :
    epoll_ctl k op fd ev = (k', r, ENOENT) -> r <> 0 -> interest k fd = None
}.

(** ** Epoll *)

Record Epoll : Type := mkEpoll { ep_sched_id : Z; wake_up_fd_ : Z; is_wakeup_ : Z }.

Section epoll_ops.
Context {K : Type} `{EpollKernel K}.

(** The kernel and the table of socket contexts, which the operations share. *)
Record ev_state : Type := mkEvState { ev_kernel : K; ev_ctxs : gmap Z SockCtx }.

(** [AddEvRead]: the result, the state, and whether an error was logged. *)
Definition Epoll_AddEvRead (ep : Epoll) (w : ev_state) (fd co_id : Z) : bool * ev_state * bool :=
  if fd <? 0 then (false, w, false) else
  let ctx := get_sock_ctx (ev_ctxs w) fd in
  if SockCtx_has_ev_read ctx then (true, w, false) else
  let has_ev_write := SockCtx_has_ev_write_by ctx (ep_sched_id ep) in
  let ev := mkEpollEvent
              (if has_ev_write then Z.lor (Z.lor EPOLLIN EPOLLOUT) EPOLLET
               else Z.lor EPOLLIN EPOLLET) fd in
  let '(k', res, _) :=
    epoll_ctl (ev_kernel w) (if has_ev_write then EPOLL_CTL_MOD else EPOLL_CTL_ADD) fd ev in
  if res =? 0 then
    (true, mkEvState k' (put_sock_ctx (ev_ctxs w) fd
                           (SockCtx_AddEvRead ctx (ep_sched_id ep) co_id)), false)
  else (false, mkEvState k' (ev_ctxs w), true).

Definition Epoll_AddEvWrite (ep : Epoll) (w : ev_state) (fd co_id : Z) : bool * ev_state * bool :=
  if fd <? 0 then (false, w, false) else
  let ctx := get_sock_ctx (ev_ctxs w) fd in
  if SockCtx_has_ev_write ctx then (true, w, false) else
  let has_ev_read := SockCtx_has_ev_read_by ctx (ep_sched_id ep) in
  let ev := mkEpollEvent
              (if has_ev_read then Z.lor (Z.lor EPOLLOUT EPOLLIN) EPOLLET
               else Z.lor EPOLLOUT EPOLLET) fd in
  let '(k', res, _) :=
    epoll_ctl (ev_kernel w) (if has_ev_read then EPOLL_CTL_MOD else EPOLL_CTL_ADD) fd ev in
  if res =? 0 then
    (true, mkEvState k' (put_sock_ctx (ev_ctxs w) fd
                           (SockCtx_AddEvWrite ctx (ep_sched_id ep) co_id)), false)
  else (false, mkEvState k' (ev_ctxs w), true).

(** The removals: [epoll_ctl] gets a null event for [EPOLL_CTL_DEL] (the argument is
    ignored), and for [EPOLL_CTL_MOD] an [epoll_event ev{}] whose [data] stays zero. *)
Definition Epoll_DelEvRead (ep : Epoll) (w : ev_state) (fd co_id : Z) : ev_state * bool :=
  if fd <? 0 then (w, false) else
  let ctx := get_sock_ctx (ev_ctxs w) fd in
  if negb (SockCtx_has_ev_read ctx) then (w, false) else
  let ctx' := SockCtx_DelEvRead ctx in
  let '(k', res, errno) :=
    if negb (SockCtx_has_ev_write ctx')
    then epoll_ctl (ev_kernel w) EPOLL_CTL_DEL fd (mkEpollEvent 0 0)
    else epoll_ctl (ev_kernel w) EPOLL_CTL_MOD fd (mkEpollEvent (Z.lor EPOLLOUT EPOLLET) 0) in
  (mkEvState k' (put_sock_ctx (ev_ctxs w) fd ctx'),
   negb (res =? 0) && negb (errno =? ENOENT)).

Definition Epoll_DelEvWrite (ep : Epoll) (w : ev_state) (fd co_id : Z) : ev_state * bool :=
  if fd <? 0 then (w, false) else
  let ctx := get_sock_ctx (ev_ctxs w) fd in
  if negb (SockCtx_has_ev_write ctx) then (w, false) else
  let ctx' := SockCtx_DelEvWrite ctx in
  let '(k', res, errno) :=
    if negb (SockCtx_has_ev_read ctx')
    then epoll_ctl (ev_kernel w) EPOLL_CTL_DEL fd (mkEpollEvent 0 0)
    else epoll_ctl (ev_kernel w) EPOLL_CTL_MOD fd (mkEpollEvent (Z.lor EPOLLIN EPOLLET) 0) in
  (mkEvState k' (put_sock_ctx (ev_ctxs w) fd ctx'),
   negb (res =? 0) && negb (errno =? ENOENT)).

Definition Epoll_DelEvent (ep : Epoll) (w : ev_state) (fd : Z) : ev_state * bool :=
  if fd <? 0 then (w, false) else
  let ctx := get_sock_ctx (ev_ctxs w) fd in
  if SockCtx_has_event ctx then
    let '(k', res, _) := epoll_ctl (ev_kernel w) EPOLL_CTL_DEL fd (mkEpollEvent 0 0) in
    (mkEvState k' (put_sock_ctx (ev_ctxs w) fd (SockCtx_DelEvent ctx)), negb (res =? 0))
  else (w, false).

(** The constructor registers the wake-up descriptor for reading under coroutine 0. *)
Definition Epoll_new (sched_id evtfd : Z) (w : ev_state) : Epoll * ev_state :=
  let ep := mkEpoll sched_id evtfd 0 in
  let '(_, w', _) := Epoll_AddEvRead ep w evtfd 0 in (ep, w').

Definition Epoll_is_wakeup_fd (ep : Epoll) (ev : epoll_event) : bool := data_fd ev =? wake_up_fd_ ep.
Definition Epoll_user_data (ev : epoll_event) : Z := data_fd ev.

(** ** The interest list and the contexts agree *)

(** The mask that scheduler [s] is to register for a context: the directions in which a
    coroutine of its own waits. *)
Definition wanted_by (s : Z) (c : SockCtx) : option Z :=
  match SockCtx_has_ev_read_by c s, SockCtx_has_ev_write_by c s with
  | true, true => Some (Z.lor (Z.lor EPOLLIN EPOLLOUT) EPOLLET)
  | true, false => Some (Z.lor EPOLLIN EPOLLET)
  | false, true => Some (Z.lor EPOLLOUT EPOLLET)
  | false, false => None
  end.

(** The slots taken of a context belong to scheduler [s]. *)
Definition owned_by (s : Z) (c : SockCtx) : Prop :=
  (SockCtx_has_ev_read c = true -> sched_id_ (read_ev_ c) = s) /\
  (SockCtx_has_ev_write c = true -> sched_id_ (write_ev_ c) = s).

(** The interest list of scheduler [s]; contexts are shared by all schedulers. *)
Definition in_sync (s : Z) (w : ev_state) : Prop :=
  forall fd, events <$> interest (ev_kernel w) fd = wanted_by s (get_sock_ctx (ev_ctxs w) fd).

(** What adding comes to, when the context of [fd] becomes [c]: the wanted mask is
    registered with [fd] itself, by the operation that fits, and the context is stored if
    the kernel accepts it. *)
Definition add_interest (s : Z) (w : ev_state) (fd : Z) (c : SockCtx) : bool * ev_state * bool :=
  let op := match interest (ev_kernel w) fd with Some _ => EPOLL_CTL_MOD | None => EPOLL_CTL_ADD end in
  let '(k', res, _) := epoll_ctl (ev_kernel w) op fd (mkEpollEvent (default 0 (wanted_by s c)) fd) in
  if res =? 0 then (true, mkEvState k' (put_sock_ctx (ev_ctxs w) fd c), false)
  else (false, mkEvState k' (ev_ctxs w), true).

(** The operations of the component, and one run of them. *)
Inductive ev_op : Type :=
| OpAddRead (fd co : Z)
| OpAddWrite (fd co : Z)
| OpDelRead (fd co : Z)
| OpDelWrite (fd co : Z)
| OpDelEvent (fd : Z).

Definition run_ev_op (ep : Epoll) (w : ev_state) (op : ev_op) : ev_state * bool :=
  match op with
  | OpAddRead fd co => let '(_, w', logged) := Epoll_AddEvRead ep w fd co in (w', logged)
  | OpAddWrite fd co => let '(_, w', logged) := Epoll_AddEvWrite ep w fd co in (w', logged)
  | OpDelRead fd co => Epoll_DelEvRead ep w fd co
  | OpDelWrite fd co => Epoll_DelEvWrite ep w fd co
  | OpDelEvent fd => Epoll_DelEvent ep w fd
  end.

Definition op_adds (op : ev_op) : bool :=
  match op with OpAddRead _ _ | OpAddWrite _ _ => true | _ => false end.

(** Coroutine ids are ids; a scheduler removes interests where only its own coroutines
    wait. *)
Definition op_allowed (s : Z) (w : ev_state) (op : ev_op) : Prop :=
  match op with
  | OpAddRead _ co | OpAddWrite _ co => is_co_id co
  | OpDelRead fd _ | OpDelWrite fd _ | OpDelEvent fd => owned_by s (get_sock_ctx (ev_ctxs w) fd)
  end.
End epoll_ops.
Arguments ev_state K : clear implicits.

(** ** An instance of the kernel interface: a table, following epoll_ctl(2) *)

Definition epoll_table : Type := gmap Z epoll_event.

Definition table_ctl (k : epoll_table) (op : ctl_op) (fd : Z) (ev : epoll_event)
  : epoll_table * Z * Z :=
  match op, k !! fd with
  | EPOLL_CTL_ADD, None => (<[fd := ev]> k, 0, 0)
  | EPOLL_CTL_ADD, Some _ => (k, -1, EEXIST)
  | EPOLL_CTL_MOD, Some _ => (<[fd := ev]> k, 0, 0)
  | EPOLL_CTL_DEL, Some _ => (delete fd k, 0, 0)
  | _, None => (k, -1, ENOENT)
  end.

#[export] Instance EpollTable : EpollKernel epoll_table :=
  {| epoll_ctl := table_ctl; interest := fun k fd => k !! fd |}.

#[export] Instance EpollTable_laws : EpollLaws epoll_table.
Proof.
  split; unfold interest, epoll_ctl, EpollTable, table_ctl, epoll_table; intros.
  - repeat case_match; simplify_eq; try done.
  - repeat case_match; simplify_eq. split; [done|]. split; [apply lookup_insert_eq|].
    intros. by rewrite lookup_insert_ne.
  - repeat case_match; simplify_eq. split; [by eexists|]. split; [apply lookup_insert_eq|].
    intros. by rewrite lookup_insert_ne.
  - repeat case_match; simplify_eq. split; [by eexists|]. split; [apply lookup_delete_eq|].
    intros. by rewrite lookup_delete_ne.
  - repeat case_match; simplify_eq; done.
Qed.

(** ** Preservation of the agreement *)

Section epoll_sync.
Context {K : Type} `{EpollLaws K}.

Lemma has_ev_write_by_owned s c : owned_by s c -> SockCtx_has_ev_write_by c s = SockCtx_has_ev_write c.
Proof.
  intros [_ Hw]. unfold SockCtx_has_ev_write_by. fold (SockCtx_has_ev_write c).
  destruct (SockCtx_has_ev_write c) eqn:E; [|by rewrite andb_false_r].
  rewrite Hw by done. by rewrite Z.eqb_refl.
Qed.

Lemma has_ev_read_by_owned s c : owned_by s c -> SockCtx_has_ev_read_by c s = SockCtx_has_ev_read c.
Proof.
  intros [Hr _]. unfold SockCtx_has_ev_read_by. fold (SockCtx_has_ev_read c).
  destruct (SockCtx_has_ev_read c) eqn:E; [|by rewrite andb_false_r].
  rewrite Hr by done. by rewrite Z.eqb_refl.
Qed.

(** The two directions of a context, for one scheduler. *)
Lemma has_read_by_split c s : SockCtx_has_ev_read_by c s = (s =? sched_id_ (read_ev_ c)) && SockCtx_has_ev_read c.
Proof. done. Qed.

Lemma has_read_by_add c s s' co :
  is_co_id co -> SockCtx_has_ev_read_by (SockCtx_AddEvRead c s co) s' = (s' =? s).
Proof. intros Hco. rewrite has_read_by_split, has_ev_read_add by done. by rewrite andb_true_r. Qed.

Lemma has_write_by_add c s s' co :
  is_co_id co -> SockCtx_has_ev_write_by (SockCtx_AddEvWrite c s co) s' = (s' =? s).
Proof.
  intros Hco. unfold SockCtx_has_ev_write_by. fold (SockCtx_has_ev_write (SockCtx_AddEvWrite c s co)).
  rewrite has_ev_write_add by done. by rewrite andb_true_r.
Qed.

Lemma has_read_by_none c s : SockCtx_has_ev_read c = false -> SockCtx_has_ev_read_by c s = false.
Proof. intros E. by rewrite has_read_by_split, E, andb_false_r. Qed.

Lemma has_write_by_none c s : SockCtx_has_ev_write c = false -> SockCtx_has_ev_write_by c s = false.
Proof.
  intros E. unfold SockCtx_has_ev_write_by. fold (SockCtx_has_ev_write c). by rewrite E, andb_false_r.
Qed.

(** The kernel refused: nothing the agreement looks at has changed. *)
Lemma in_sync_fail s w op fd ev k' r e :
  in_sync s w -> epoll_ctl (ev_kernel w) op fd ev = (k', r, e) -> r <> 0 ->
  in_sync s (mkEvState k' (ev_ctxs w)).
Proof.
  intros Hs Hc Hr fd'. cbn. rewrite (ctl_fail _ _ _ _ _ _ _ fd' Hc Hr). apply Hs.
Qed.

(** The kernel accepted: the entry of [fd] moves to [c'] and the rest stays. *)
Lemma in_sync_update s w op fd ev k' e c' :
  in_sync s w -> epoll_ctl (ev_kernel w) op fd ev = (k', 0, e) ->
  (match op with EPOLL_CTL_DEL => None | _ => Some (events ev) end) = wanted_by s c' ->
  in_sync s (mkEvState k' (put_sock_ctx (ev_ctxs w) fd c')).
Proof.
  intros Hs Hc Hw fd'. pose proof (Hs fd') as Hi. cbn.
  destruct (decide (fd = fd')) as [<-|Hne].
  - rewrite get_put_eq. rewrite <- Hw. destruct op.
    + apply ctl_add in Hc as (_ & -> & _). done.
    + apply ctl_del in Hc as (_ & -> & _). done.
    + apply ctl_mod in Hc as (_ & -> & _). done.
  - rewrite get_put_ne by done. rewrite <- Hi. f_equal. destruct op.
    + apply ctl_add in Hc as (_ & _ & E). by apply E.
    + apply ctl_del in Hc as (_ & _ & E). by apply E.
    + apply ctl_mod in Hc as (_ & _ & E). by apply E.
Qed.

(** In an agreeing state the kernel knows every descriptor with an entry of the scheduler's
    own, so a removal that fails without being logged cannot happen. *)
Lemma unlogged_ok s w op fd ev k' r e :
  in_sync s w -> owned_by s (get_sock_ctx (ev_ctxs w) fd) -> SockCtx_has_event (get_sock_ctx (ev_ctxs w) fd) = true ->
  epoll_ctl (ev_kernel w) op fd ev = (k', r, e) ->
  negb (r =? 0) && negb (e =? ENOENT) = false -> r = 0.
Proof.
  intros Hs Ho Hev Hc Hl. destruct (Z.eqb_spec r 0) as [|Hr]; [done|]. cbn in Hl.
  destruct (Z.eqb_spec e ENOENT) as [->|]; [|done].
  pose proof (ctl_enoent _ _ _ _ _ _ Hc Hr) as Hn. pose proof (Hs fd) as Hi. rewrite Hn in Hi.
  unfold wanted_by in Hi. rewrite has_ev_write_by_owned, has_ev_read_by_owned in Hi by done.
  unfold SockCtx_has_event in Hev. cbn in Hi. by repeat case_match.
Qed.

(** *** Adding *)

Lemma AddEvRead_spec ep w fd co :
  in_sync (ep_sched_id ep) w -> is_co_id co -> 0 <= fd ->
  SockCtx_has_ev_read (get_sock_ctx (ev_ctxs w) fd) = false ->
  Epoll_AddEvRead ep w fd co =
    add_interest (ep_sched_id ep) w fd (SockCtx_AddEvRead (get_sock_ctx (ev_ctxs w) fd) (ep_sched_id ep) co).
Proof.
  intros Hs Hco Hfd Hr. unfold Epoll_AddEvRead, add_interest. rewrite (proj2 (Z.ltb_ge fd 0) Hfd), Hr.
  pose proof (Hs fd) as Hi. unfold wanted_by in *. rewrite has_read_by_add, Z.eqb_refl by done.
  change (SockCtx_has_ev_write_by (SockCtx_AddEvRead ?c ?s co) ?s') with (SockCtx_has_ev_write_by c s').
  rewrite has_read_by_none in Hi by done.
  destruct (SockCtx_has_ev_write_by _ _); destruct (interest (ev_kernel w) fd); done.
Qed.

Lemma AddEvWrite_spec ep w fd co :
  in_sync (ep_sched_id ep) w -> is_co_id co -> 0 <= fd ->
  SockCtx_has_ev_write (get_sock_ctx (ev_ctxs w) fd) = false ->
  Epoll_AddEvWrite ep w fd co =
    add_interest (ep_sched_id ep) w fd (SockCtx_AddEvWrite (get_sock_ctx (ev_ctxs w) fd) (ep_sched_id ep) co).
Proof.
  intros Hs Hco Hfd Hr. unfold Epoll_AddEvWrite, add_interest. rewrite (proj2 (Z.ltb_ge fd 0) Hfd), Hr.
  pose proof (Hs fd) as Hi. unfold wanted_by in *. rewrite has_write_by_add, Z.eqb_refl by done.
  change (SockCtx_has_ev_read_by (SockCtx_AddEvWrite ?c ?s co) ?s') with (SockCtx_has_ev_read_by c s').
  rewrite has_write_by_none in Hi by done.
  destruct (SockCtx_has_ev_read_by _ _); destruct (interest (ev_kernel w) fd); done.
Qed.

Lemma add_interest_sync s w fd c :
  in_sync s w -> is_Some (wanted_by s c) -> in_sync s (snd (fst (add_interest s w fd c))).
Proof.
  intros Hs [m Hm]. unfold add_interest. destruct (epoll_ctl _ _ _ _) as [[k' r] e] eqn:Ec.
  destruct (Z.eqb_spec r 0) as [->|Hr]; cbn; [|by eapply in_sync_fail].
  eapply in_sync_update; [done|exact Ec|]. rewrite Hm. by destruct (interest (ev_kernel w) fd).
Qed.

Lemma AddEvRead_sync ep w fd co :
  in_sync (ep_sched_id ep) w -> is_co_id co ->
  in_sync (ep_sched_id ep) (snd (fst (Epoll_AddEvRead ep w fd co))).
Proof.
  intros Hs Hco. destruct (Z.ltb_spec fd 0) as [Hfd|Hfd].
  - unfold Epoll_AddEvRead. by rewrite (proj2 (Z.ltb_lt fd 0) Hfd).
  - destruct (SockCtx_has_ev_read (get_sock_ctx (ev_ctxs w) fd)) eqn:Er.
    + unfold Epoll_AddEvRead. rewrite Er. by destruct (fd <? 0).
    + rewrite AddEvRead_spec by done. apply add_interest_sync; [done|]. unfold wanted_by.
      rewrite has_read_by_add, Z.eqb_refl by done. by destruct (SockCtx_has_ev_write_by _ _); eexists.
Qed.

Lemma AddEvWrite_sync ep w fd co :
  in_sync (ep_sched_id ep) w -> is_co_id co ->
  in_sync (ep_sched_id ep) (snd (fst (Epoll_AddEvWrite ep w fd co))).
Proof.
  intros Hs Hco. destruct (Z.ltb_spec fd 0) as [Hfd|Hfd].
  - unfold Epoll_AddEvWrite. by rewrite (proj2 (Z.ltb_lt fd 0) Hfd).
  - destruct (SockCtx_has_ev_write (get_sock_ctx (ev_ctxs w) fd)) eqn:Er.
    + unfold Epoll_AddEvWrite. rewrite Er. by destruct (fd <? 0).
    + rewrite AddEvWrite_spec by done. apply add_interest_sync; [done|]. unfold wanted_by.
      rewrite has_write_by_add, Z.eqb_refl by done. by destruct (SockCtx_has_ev_read_by _ _); eexists.
Qed.

(** *** Removing *)

Lemma DelEvRead_sync ep w fd co :
  in_sync (ep_sched_id ep) w -> owned_by (ep_sched_id ep) (get_sock_ctx (ev_ctxs w) fd) ->
  snd (Epoll_DelEvRead ep w fd co) = false -> in_sync (ep_sched_id ep) (fst (Epoll_DelEvRead ep w fd co)).
Proof.
  intros Hs Ho. unfold Epoll_DelEvRead. destruct (fd <? 0); [done|].
  set (c := get_sock_ctx (ev_ctxs w) fd) in *.
  destruct (SockCtx_has_ev_read c) eqn:Er; [cbn [negb]|done].
  change (SockCtx_has_ev_write (SockCtx_DelEvRead c)) with (SockCtx_has_ev_write c).
  assert (Hev : SockCtx_has_event c = true) by (unfold SockCtx_has_event; by rewrite Er).
  assert (Hw : wanted_by (ep_sched_id ep) (SockCtx_DelEvRead c) =
               if SockCtx_has_ev_write c then Some (Z.lor EPOLLOUT EPOLLET) else None).
  { unfold wanted_by. rewrite has_read_by_none by done.
    change (SockCtx_has_ev_write_by (SockCtx_DelEvRead c) ?s) with (SockCtx_has_ev_write_by c s).
    by rewrite has_ev_write_by_owned. }
  destruct (SockCtx_has_ev_write c) eqn:Ew; cbn [negb];
    destruct (epoll_ctl _ _ _ _) as [[k' r] e] eqn:Ec; cbn [fst snd]; intros Hl;
    pose proof (unlogged_ok _ _ _ _ _ _ _ _ Hs Ho Hev Ec Hl) as ->; by eapply in_sync_update.
Qed.

Lemma DelEvWrite_sync ep w fd co :
  in_sync (ep_sched_id ep) w -> owned_by (ep_sched_id ep) (get_sock_ctx (ev_ctxs w) fd) ->
  snd (Epoll_DelEvWrite ep w fd co) = false -> in_sync (ep_sched_id ep) (fst (Epoll_DelEvWrite ep w fd co)).
Proof.
  intros Hs Ho. unfold Epoll_DelEvWrite. destruct (fd <? 0); [done|].
  set (c := get_sock_ctx (ev_ctxs w) fd) in *.
  destruct (SockCtx_has_ev_write c) eqn:Ew; [cbn [negb]|done].
  change (SockCtx_has_ev_read (SockCtx_DelEvWrite c)) with (SockCtx_has_ev_read c).
  assert (Hev : SockCtx_has_event c = true) by (unfold SockCtx_has_event; rewrite Ew; apply orb_true_r).
  assert (Hr : wanted_by (ep_sched_id ep) (SockCtx_DelEvWrite c) =
               if SockCtx_has_ev_read c then Some (Z.lor EPOLLIN EPOLLET) else None).
  { unfold wanted_by. rewrite (has_write_by_none (SockCtx_DelEvWrite c)) by done.
    change (SockCtx_has_ev_read_by (SockCtx_DelEvWrite c) ?s) with (SockCtx_has_ev_read_by c s).
    by rewrite has_ev_read_by_owned. }
  destruct (SockCtx_has_ev_read c) eqn:Er; cbn [negb];
    destruct (epoll_ctl _ _ _ _) as [[k' r] e] eqn:Ec; cbn [fst snd]; intros Hl;
    pose proof (unlogged_ok _ _ _ _ _ _ _ _ Hs Ho Hev Ec Hl) as ->; by eapply in_sync_update.
Qed.

Lemma DelEvent_sync ep w fd :
  in_sync (ep_sched_id ep) w -> snd (Epoll_DelEvent ep w fd) = false ->
  in_sync (ep_sched_id ep) (fst (Epoll_DelEvent ep w fd)).
Proof.
  intros Hs. unfold Epoll_DelEvent. destruct (fd <? 0); [done|].
  destruct (SockCtx_has_event (get_sock_ctx (ev_ctxs w) fd)) eqn:Hev; [|done].
  destruct (epoll_ctl _ _ _ _) as [[k' r] e] eqn:Ec; cbn [fst snd].
  destruct (Z.eqb_spec r 0) as [->|]; [intros _|done].
  eapply in_sync_update; [done|exact Ec|]. unfold wanted_by. by rewrite has_read_by_none, has_write_by_none.
Qed.

(** *** What the other schedulers see *)

(** An entry of the table changed in a way that [s] does not see. *)
Lemma in_sync_put s k k' ctxs fd c :
  in_sync s (mkEvState k ctxs) -> wanted_by s c = wanted_by s (get_sock_ctx ctxs fd) ->
  (forall fd', interest k' fd' = interest k fd') -> in_sync s (mkEvState k' (put_sock_ctx ctxs fd c)).
Proof.
  intros Hs Hw Hk fd'. cbn. rewrite Hk. pose proof (Hs fd') as Hi. cbn in Hi. rewrite Hi.
  destruct (decide (fd = fd')) as [<-|Hne]; [by rewrite get_put_eq|by rewrite get_put_ne].
Qed.

Lemma wanted_by_other s s' c :
  owned_by s c -> s' <> s -> wanted_by s' c = None.
Proof.
  intros [Hr Hw] Hne. unfold wanted_by, SockCtx_has_ev_read_by, SockCtx_has_ev_write_by.
  fold (SockCtx_has_ev_read c) (SockCtx_has_ev_write c).
  destruct (SockCtx_has_ev_read c), (SockCtx_has_ev_write c); rewrite ?Hr, ?Hw by done;
    rewrite ?(proj2 (Z.eqb_neq s' s) Hne), ?andb_false_r; done.
Qed.

Lemma owned_by_del s c : owned_by s c -> owned_by s (SockCtx_DelEvRead c) /\ owned_by s (SockCtx_DelEvWrite c) /\
  owned_by s (SockCtx_DelEvent c).
Proof. by intros [Hr Hw]. Qed.

Lemma ev_op_others ep w op s' k :
  op_allowed (ep_sched_id ep) w op -> s' <> ep_sched_id ep -> in_sync s' (mkEvState k (ev_ctxs w)) ->
  in_sync s' (mkEvState k (ev_ctxs (fst (run_ev_op ep w op)))).
Proof.
  intros Hok Hne Hs. apply Z.eqb_neq in Hne as Hb.
  assert (Hput : forall fd c, wanted_by s' c = wanted_by s' (get_sock_ctx (ev_ctxs w) fd) ->
                   in_sync s' (mkEvState k (put_sock_ctx (ev_ctxs w) fd c))).
  { intros fd c Hw. by apply (in_sync_put s' k). }
  assert (Hdel : forall fd c, owned_by (ep_sched_id ep) (get_sock_ctx (ev_ctxs w) fd) -> owned_by (ep_sched_id ep) c ->
                   in_sync s' (mkEvState k (put_sock_ctx (ev_ctxs w) fd c))).
  { intros fd c H1 H2. apply Hput. by rewrite !(wanted_by_other (ep_sched_id ep)). }
  destruct op as [fd co|fd co|fd co|fd co|fd]; cbn [run_ev_op op_allowed] in *.
  - unfold Epoll_AddEvRead. destruct (fd <? 0); [done|]. destruct (SockCtx_has_ev_read _) eqn:Er; [done|].
    destruct (epoll_ctl _ _ _ _) as [[k' r] e]. destruct (r =? 0); [|done]. cbn. apply Hput. unfold wanted_by.
    by rewrite has_read_by_add, has_read_by_none, Hb.
  - unfold Epoll_AddEvWrite. destruct (fd <? 0); [done|]. destruct (SockCtx_has_ev_write _) eqn:Er; [done|].
    destruct (epoll_ctl _ _ _ _) as [[k' r] e]. destruct (r =? 0); [|done]. cbn. apply Hput. unfold wanted_by.
    by rewrite has_write_by_add, (has_write_by_none (get_sock_ctx _ _)), Hb.
  - unfold Epoll_DelEvRead. destruct (fd <? 0); [done|]. destruct (negb _); [done|].
    destruct (if negb _ then _ else _) as [[k' r] e]. cbn. by apply Hdel, owned_by_del.
  - unfold Epoll_DelEvWrite. destruct (fd <? 0); [done|]. destruct (negb _); [done|].
    destruct (if negb _ then _ else _) as [[k' r] e]. cbn. by apply Hdel, owned_by_del.
  - unfold Epoll_DelEvent. destruct (fd <? 0); [done|]. destruct (SockCtx_has_event _); [|done].
    destruct (epoll_ctl _ _ _ _) as [[k' r] e]. cbn. by apply Hdel, owned_by_del.
Qed.

End epoll_sync.
#[export] Hint Resolve AddEvRead_sync AddEvWrite_sync DelEvRead_sync DelEvWrite_sync
  DelEvent_sync : co.

(** C25: The interest list of a scheduler follows the socket contexts, which all schedulers
    share: for every descriptor it holds the directions in which a coroutine of this
    scheduler waits, and nothing when none waits. The additions keep it so, and the removals
    that log no error, on a descriptor where no coroutine of another scheduler waits. They
    keep it so for the other schedulers, too, whose own lists they do not touch. An addition
    where nobody waits in the direction registers the wanted mask with the descriptor
    itself, by the operation that fits what the kernel has, and notes the coroutine exactly
    if the kernel accepts it. *)
Theorem epoll_ops_in_sync {K} `{EpollLaws K} (ep : Epoll) (w : ev_state K) (op : ev_op) :
  in_sync (ep_sched_id ep) w -> op_allowed (ep_sched_id ep) w op ->
  (op_adds op = true \/ snd (run_ev_op ep w op) = false -> in_sync (ep_sched_id ep) (fst (run_ev_op ep w op))) /\
  (forall s' k, s' <> ep_sched_id ep -> in_sync s' (mkEvState k (ev_ctxs w)) ->
     in_sync s' (mkEvState k (ev_ctxs (fst (run_ev_op ep w op))))) /\
  (forall fd co, 0 <= fd -> is_co_id co ->
     let c := get_sock_ctx (ev_ctxs w) fd in
     (SockCtx_has_ev_read c = false ->
        Epoll_AddEvRead ep w fd co = add_interest (ep_sched_id ep) w fd (SockCtx_AddEvRead c (ep_sched_id ep) co)) /\
     (SockCtx_has_ev_write c = false ->
        Epoll_AddEvWrite ep w fd co = add_interest (ep_sched_id ep) w fd (SockCtx_AddEvWrite c (ep_sched_id ep) co))).
Proof.
  intros Hs Hop. split; [|split; [intros s' k; by apply ev_op_others|]].
  - intros Hl. destruct op as [fd co|fd co|fd co|fd co|fd]; cbn in *; try (destruct Hl as [Hl|Hl]; [done|]).
    + pose proof (AddEvRead_sync ep w fd co Hs Hop) as Hn. by destruct (Epoll_AddEvRead ep w fd co) as [[b w'] l].
    + pose proof (AddEvWrite_sync ep w fd co Hs Hop) as Hn. by destruct (Epoll_AddEvWrite ep w fd co) as [[b w'] l].
    + by apply DelEvRead_sync.
    + by apply DelEvWrite_sync.
    + by apply DelEvent_sync.
  - intros fd co Hfd Hco. split; intros E; [by apply AddEvRead_spec|by apply AddEvWrite_spec].
Qed.

(** Coroutine 2 of scheduler 1 waits to write, and one of scheduler 0 to read. *)
Definition shared_ctxs : gmap Z SockCtx := put_sock_ctx ∅ 5 (SockCtx_AddEvWrite SockCtx_empty 1 2).

Lemma empty_in_sync s : in_sync s (mkEvState (∅ : epoll_table) ∅).
Proof.
  intros fd. unfold get_sock_ctx, interest, EpollTable. cbn [ev_kernel ev_ctxs]. rewrite !lookup_empty.
  unfold wanted_by. by rewrite has_read_by_none, has_write_by_none.
Qed.

Lemma epoll_ops_in_sync_witness :
  let w := mkEvState (∅ : epoll_table) shared_ctxs in
  let w1 := fst (run_ev_op (mkEpoll 0 3 0) w (OpAddRead 5 1)) in
  in_sync 0 w1 /\ in_sync 1 (mkEvState ({[5 := mkEpollEvent (Z.lor EPOLLOUT EPOLLET) 5]} : epoll_table) (ev_ctxs w1)) /\
  interest (ev_kernel w1) 5 = Some (mkEpollEvent (Z.lor EPOLLIN EPOLLET) 5).
Proof.
  intros w w1.
  assert (H0 : in_sync 0 w).
  { apply (in_sync_put 0 (∅ : epoll_table)); [apply empty_in_sync|reflexivity|done]. }
  assert (H1 : in_sync 1 (mkEvState ({[5 := mkEpollEvent (Z.lor EPOLLOUT EPOLLET) 5]} : epoll_table) shared_ctxs)).
  { exact (AddEvWrite_sync (mkEpoll 1 4 0) (mkEvState (∅ : epoll_table) ∅) 5 2 (empty_in_sync 1) ltac:(eval_closed)). }
  destruct (epoll_ops_in_sync (mkEpoll 0 3 0) w (OpAddRead 5 1) H0 ltac:(eval_closed)) as (Hin & Hoth & _).
  split; [apply Hin; by left|]. split; [by apply Hoth|reflexivity].
Defined.

(** Where a coroutine of another scheduler waits to write, removing the reader is not in
    step: the test whether somebody waits to write does not ask for whom, so the scheduler
    goes on to listen for a direction in which none of its coroutines waits. *)
Theorem DelEvRead_foreign_writer {K} `{EpollLaws K} (ep : Epoll) (w w' : ev_state K) (fd co : Z) :
  0 <= fd -> in_sync (ep_sched_id ep) w ->
  SockCtx_has_ev_read_by (get_sock_ctx (ev_ctxs w) fd) (ep_sched_id ep) = true ->
  SockCtx_has_ev_write (get_sock_ctx (ev_ctxs w) fd) = true ->
  SockCtx_has_ev_write_by (get_sock_ctx (ev_ctxs w) fd) (ep_sched_id ep) = false ->
  Epoll_DelEvRead ep w fd co = (w', false) ->
  events <$> interest (ev_kernel w') fd = Some (Z.lor EPOLLOUT EPOLLET) /\
  wanted_by (ep_sched_id ep) (get_sock_ctx (ev_ctxs w') fd) = None.
Proof.
  intros Hfd Hs Hr Hw Hwb. unfold Epoll_DelEvRead. rewrite (proj2 (Z.ltb_ge fd 0) Hfd).
  set (c := get_sock_ctx (ev_ctxs w) fd) in *.
  assert (Hr' : SockCtx_has_ev_read c = true) by (by rewrite has_read_by_split in Hr; apply andb_true_iff in Hr as [_ ?]).
  rewrite Hr'. cbn [negb]. change (SockCtx_has_ev_write (SockCtx_DelEvRead c)) with (SockCtx_has_ev_write c).
  rewrite Hw. cbn [negb]. destruct (epoll_ctl _ _ _ _) as [[k' r] e] eqn:Ec. intros [= <- Hl]. cbn [ev_kernel ev_ctxs].
  rewrite get_put_eq. unfold wanted_by. rewrite has_read_by_none by done.
  change (SockCtx_has_ev_write_by (SockCtx_DelEvRead c) ?s) with (SockCtx_has_ev_write_by c s). rewrite Hwb.
  split; [|done]. destruct (Z.eqb_spec r 0) as [->|Hne]; [by apply ctl_mod in Ec as (_ & -> & _)|].
  cbn in Hl. destruct (Z.eqb_spec e ENOENT) as [->|]; [|done].
  pose proof (ctl_enoent _ _ _ _ _ _ Ec Hne) as Hn. pose proof (Hs fd) as Hi. unfold wanted_by in Hi.
  fold c in Hi. by rewrite Hn, Hr, Hwb in Hi.
Qed.

(** What the kernel hands back to the event loop: after a successful registration of
    a direction the event of [fd] carries [fd] itself, but after removing one direction
    while a coroutine still waits for the other, [epoll_ctl(EPOLL_CTL_MOD)] gets an event
    whose [data] was left zero, so the events of [fd] are reported for descriptor 0. *)
Theorem epoll_event_data {K} `{EpollLaws K} (ep : Epoll) (w w1 w2 : ev_state K) (fd co : Z) :
  0 <= fd ->
  SockCtx_has_ev_read (get_sock_ctx (ev_ctxs w) fd) = false ->
  Epoll_AddEvRead ep w fd co = (true, w1, false) ->
  SockCtx_has_ev_write (get_sock_ctx (ev_ctxs w1) fd) = true -> is_co_id co ->
  Epoll_DelEvRead ep w1 fd co = (w2, false) ->
  in_sync (ep_sched_id ep) w1 -> owned_by (ep_sched_id ep) (get_sock_ctx (ev_ctxs w1) fd) ->
  data_fd <$> interest (ev_kernel w1) fd = Some fd /\
  data_fd <$> interest (ev_kernel w2) fd = Some 0.
Proof.
  intros Hfd Hnr Hadd Hw Hco Hdel Hs Ho. split.
  - unfold Epoll_AddEvRead in Hadd. destruct (Z.ltb_spec fd 0); [lia|]. rewrite Hnr in Hadd.
    destruct (SockCtx_has_ev_write_by _ _), (epoll_ctl _ _ _ _) as [[k' r] e] eqn:Ec;
      destruct (Z.eqb_spec r 0) as [->|]; simplify_eq; cbn [ev_kernel].
    + by apply ctl_mod in Ec as (_ & -> & _).
    + by apply ctl_add in Ec as (_ & -> & _).
  - assert (Hr : SockCtx_has_ev_read (get_sock_ctx (ev_ctxs w1) fd) = true).
    { unfold Epoll_AddEvRead in Hadd. destruct (Z.ltb_spec fd 0); [lia|]. rewrite Hnr in Hadd.
      destruct (epoll_ctl _ _ _ _) as [[k' r] e]. destruct (Z.eqb_spec r 0); simplify_eq.
      cbn. rewrite get_put_eq. by apply has_ev_read_add. }
    unfold Epoll_DelEvRead in Hdel. destruct (Z.ltb_spec fd 0); [lia|].
    rewrite Hr in Hdel. cbn [negb] in Hdel.
    change (SockCtx_has_ev_write (SockCtx_DelEvRead ?c)) with (SockCtx_has_ev_write c) in Hdel.
    rewrite Hw in Hdel. cbn [negb] in Hdel.
    destruct (epoll_ctl _ _ _ _) as [[k' r] e] eqn:Ec. injection Hdel as <- Hl.
    assert (r = 0) as ->.
    { eapply unlogged_ok; [exact Hs|exact Ho| |exact Ec|exact Hl].
      unfold SockCtx_has_event. by rewrite Hr. }
    cbn. by apply ctl_mod in Ec as (_ & -> & _).
Qed.

Lemma epoll_event_data_witness :
  let ep := mkEpoll 0 3 0 in
  let w0 := mkEvState (∅ : epoll_table) ∅ in
  let w := fst (run_ev_op ep w0 (OpAddWrite 5 2)) in
  let w1 := fst (run_ev_op ep w (OpAddRead 5 1)) in
  data_fd <$> interest (ev_kernel (fst (Epoll_DelEvRead ep w1 5 1))) 5 = Some 0.
Proof.
  intros ep w0 w w1.
  assert (H0 : in_sync 0 w0).
  { apply empty_in_sync. }
  assert (H1 : in_sync 0 (snd (fst (Epoll_AddEvWrite ep w0 5 2))))
    by (apply (AddEvWrite_sync ep); [exact H0 | eval_closed]).
  refine (proj2 (epoll_event_data ep w w1 (fst (Epoll_DelEvRead ep w1 5 1)) 5 1 _ _ _ _ _ _ _ _)).
  - lia.
  - reflexivity.
  - reflexivity.
  - reflexivity.
  - eval_closed.
  - reflexivity.
  - assert (E : w = snd (fst (Epoll_AddEvWrite ep w0 5 2))) by (vm_compute; reflexivity).
    assert (E1 : w1 = snd (fst (Epoll_AddEvRead ep w 5 1))) by (vm_compute; reflexivity).
    rewrite E1. apply (AddEvRead_sync ep w 5 1); [rewrite E; exact H1 | eval_closed].
  - by split.
Defined.
