(* ===== verification/EpollLife.v ===== *)
(** * epoll.cc: how an [Epoll] is made and destroyed

    The constructor makes two descriptors and an array for the events, the destructor gives
    them back. The tables of descriptors and of blocks of the process are the kernel's and
    the allocator's, a class with the laws of their documentation. [abort] ends the
    process, a fault; whether [LOG(FATAL)], in a prebuilt library, returns is an argument, as
    in Os.v. What the constructor registers is Epoll.v's [Epoll_new]. *)

From stdpp Require Import base numbers list gmap.
From Stdlib Require Import Lia ZArith.
From S2P Require Import Prelude SockCtx Epoll.

(** ** What the code calls *)

Class FdKernel (W : Type) : Type := {
  eventfd : W -> Z * W;
  epoll_create1 : W -> Z * W;
  sys_close : W -> Z -> Z * W;
  sys_epoll_wait : W -> Z -> Z -> Z -> Z * list epoll_event * W;
  calloc : W -> Z -> option nat * W;
  free : W -> nat -> W;
  fd_open : W -> Z -> bool;
  block_live : W -> nat -> bool
}.

(** A call that makes a descriptor or a block makes a new one and leaves the others; without
    success it leaves all. *)
Definition makes_fd {W} `{FdKernel W} (w : W) (r : Z) (w' : W) : Prop :=
  (forall p, block_live w' p = block_live w p) /\
  (0 <= r -> fd_open w r = false /\ fd_open w' r = true) /\
  (forall fd, fd <> r -> fd_open w' fd = fd_open w fd).

Class FdLaws (W : Type) `{FdKernel W} : Prop := {
  eventfd_makes w r w' : eventfd w = (r, w') -> makes_fd w r w';
  epoll_create1_makes w r w' : epoll_create1 w = (r, w') -> makes_fd w r w';
  calloc_makes w n p w' : calloc w n = (Some p, w') ->
    (forall fd, fd_open w' fd = fd_open w fd) /\ block_live w p = false /\ block_live w' p = true /\
    (forall q, q <> p -> block_live w' q = block_live w q);
  sys_close_closes w fd r w' : sys_close w fd = (r, w') -> fd_open w fd = true ->
    (forall p, block_live w' p = block_live w p) /\ fd_open w' fd = false /\
    (forall fd', fd' <> fd -> fd_open w' fd' = fd_open w fd');
  free_frees w p : block_live w p = true ->
    (forall fd, fd_open (free w p) fd = fd_open w fd) /\ block_live (free w p) p = false /\
    (forall q, q <> p -> block_live (free w p) q = block_live w q)
}.

(** ** Operations *)

Definition kEventNum : Z := 1024.
Definition sizeof_epoll_event : Z := 12.

(** The members that the destructor looks at. *)
Record epoll_parts : Type := mkParts { pt_ep : Z; pt_wake_up_fd : Z; pt_ev : option nat }.

Section life.
Context {W : Type} `{FdKernel W}.

Definition createEventfd (w : W) : outcome (Z * W) :=
  let (evtfd, w) := eventfd w in
  if evtfd <? 0 then Fault AssertionFailed else Ok (evtfd, w).

(** The constructor, but for its last line. Where [LOG(FATAL)] returns, it returns half-way;
    [junk] is what [ev_], which is not initialised, holds until it is assigned. *)
Definition Epoll_open (log_returns : bool) (junk : option nat) (w : W) : outcome (epoll_parts * W) :=
  let* (wake, w) := createEventfd w in
  let (ep, w) := epoll_create1 w in
  if ep <? 0 then if log_returns then Ok (mkParts ep wake junk, w) else Fault AssertionFailed else
  let (ev, w) := calloc w (kEventNum * sizeof_epoll_event) in
  match ev with
  | None => if log_returns then Ok (mkParts ep wake None, w) else Fault AssertionFailed
  | Some p => Ok (mkParts ep wake (Some p), w)
  end.

(** The results of [close] are ignored. *)
Definition Epoll_Close (e : epoll_parts) (w : W) : W :=
  let (_, w) := sys_close w (pt_wake_up_fd e) in
  let (_, w) := sys_close w (pt_ep e) in w.

Definition Epoll_destroy (e : epoll_parts) (w : W) : outcome (epoll_parts * W) :=
  let* (e, w) := match pt_ev e with
                 | Some p => if block_live w p then Ok (mkParts (pt_ep e) (pt_wake_up_fd e) None, free w p) else Fault BadFree
                 | None => Ok (e, w)
                 end in
  Ok (e, Epoll_Close e w).

Definition Epoll_Wait (e : epoll_parts) (w : W) (ms : Z) : Z * list epoll_event * W := sys_epoll_wait w (pt_ep e) kEventNum ms.

(** ** Specification *)

(** The epoll owns its two descriptors and its block. *)
Definition owns (e : epoll_parts) (w : W) : Prop :=
  pt_ep e <> pt_wake_up_fd e /\ fd_open w (pt_ep e) = true /\ fd_open w (pt_wake_up_fd e) = true /\
  exists p, pt_ev e = Some p /\ block_live w p = true.

(** [w'] is [w] but for what the epoll owns, of which the tables say [b]. *)
Definition differs_by (e : epoll_parts) (b : bool) (w w' : W) : Prop :=
  (forall fd, fd_open w' fd = if decide (fd = pt_ep e \/ fd = pt_wake_up_fd e) then b else fd_open w fd) /\
  (forall p, block_live w' p = if decide (pt_ev e = Some p) then b else block_live w p).
End life.

(** ** Theorems *)

(** What an [Epoll] takes it gives back. A constructor that gets to its end makes two different descriptors and
    a block that did not exist; whatever happens meanwhile to others, the destructor closes
    exactly these two and frees exactly this block. *)
Theorem epoll_life_balanced {W} `{FdLaws W} log_returns junk (w : W) e w1 :
  Epoll_open log_returns junk w = Ok (e, w1) -> 0 <= pt_ep e -> is_Some (pt_ev e) ->
  owns e w1 /\ differs_by e true w w1 /\ differs_by e false w1 w /\
  forall w2, owns e w2 -> exists w3, Epoll_destroy e w2 = Ok (mkParts (pt_ep e) (pt_wake_up_fd e) None, w3) /\
    differs_by e false w2 w3.
Proof.
  unfold Epoll_open, createEventfd. destruct (eventfd w) as [wake wa] eqn:E1. destruct (Z.ltb_spec wake 0); [done|].
  cbn [obind]. destruct (epoll_create1 wa) as [ep wb] eqn:E2. intros E Hep Hev. destruct (Z.ltb_spec ep 0).
  { destruct log_returns; [|done]. injection E as <- <-. cbn in Hep. lia. }
  destruct (calloc wb _) as [[p|] wc] eqn:E3; [|by destruct log_returns; [injection E as <- <-; destruct Hev|]].
  injection E as <- <-. clear Hep Hev.
  apply eventfd_makes in E1 as (A1 & A2 & A3). apply epoll_create1_makes in E2 as (B1 & B2 & B3).
  apply calloc_makes in E3 as (C1 & C2 & C3 & C4). destruct A2 as [A2 A2']; [done|]. destruct B2 as [B2 B2']; [done|].
  assert (Hne : ep <> wake) by congruence.
  assert (Howns : owns (mkParts ep wake (Some p)) wc).
  { split; [done|]. cbn. rewrite !C1, B2', B3 by congruence. split; [done|]. split; [done|]. by exists p. }
  split; [exact Howns|]. split; [split|split; [split|]].
  - intros fd. cbn. rewrite C1. case_decide as Hd; [|rewrite B3, A3; naive_solver].
    destruct Hd as [-> | ->]; [done|]. by rewrite B3 by done.
  - intros q. cbn. case_decide as Hd; [by injection Hd as <-|]. rewrite C4, B1, A1 by congruence. done.
  - intros fd. cbn. case_decide as Hd; [|rewrite C1, B3, A3; naive_solver].
    destruct Hd as [-> | ->]; [|done]. by rewrite <- A3.
  - intros q. cbn. case_decide as Hd; [injection Hd as <-; by rewrite <- A1, <- B1|]. by rewrite C4, B1, A1 by congruence.
  - intros w2 (_ & O1 & O2 & p' & [= <-] & O3). cbn in O1, O2. unfold Epoll_destroy. cbn [pt_ev pt_ep pt_wake_up_fd].
    rewrite O3. cbn [obind]. unfold Epoll_Close. cbn [pt_ep pt_wake_up_fd].
    destruct (free_frees w2 p O3) as (F1 & F2 & F3).
    destruct (sys_close (free w2 p) wake) as [r1 wd] eqn:E4. destruct (sys_close wd ep) as [r2 we] eqn:E5.
    apply sys_close_closes in E4 as (G1 & G2 & G3); [|by rewrite F1].
    apply sys_close_closes in E5 as (K1 & K2 & K3); [|by rewrite G3, F1].
    exists we. split; [done|]. split.
    + intros fd. cbn. case_decide as Hd; [|rewrite K3, G3, F1; naive_solver].
      destruct Hd as [-> | ->]; [done|]. by rewrite K3.
    + intros q. cbn. rewrite K1, G1. case_decide as Hd; [by injection Hd as <-|]. by rewrite F3 by congruence.
Qed.

(** Where [LOG(FATAL)] returns, an [Epoll] whose [epoll_create1] has failed is destroyed with
    an [ev_] that was never assigned: whatever it holds is freed. *)
Theorem half_made_epoll_frees_junk {W} `{FdKernel W} (w wa wb w1 : W) wake ep p e :
  eventfd w = (wake, wa) -> 0 <= wake -> epoll_create1 wa = (ep, wb) -> ep < 0 ->
  Epoll_open true (Some p) w = Ok (e, w1) -> block_live w1 p = false -> Epoll_destroy e w1 = Fault BadFree.
Proof.
  intros E1 Hw E2 Hep. unfold Epoll_open, createEventfd. rewrite E1, (proj2 (Z.ltb_ge wake 0) Hw). cbn [obind].
  rewrite E2, (proj2 (Z.ltb_lt ep 0) Hep). intros [= <- <-] Hp. unfold Epoll_destroy. cbn [pt_ev]. by rewrite Hp.
Qed.

(** The socket context of the wake-up descriptor stays behind: a wait on a later descriptor of
    that number is reported as registered without being so. *)
Lemma stale_wakeup_context {K} `{EpollKernel K} (ep : Epoll) (w : ev_state K) fd co :
  0 <= fd -> SockCtx_has_ev_read (get_sock_ctx (ev_ctxs w) fd) = true ->
  Epoll_AddEvRead ep w fd co = (true, w, false).
Proof. intros Hfd Hc. unfold Epoll_AddEvRead. destruct (Z.ltb_spec fd 0); [lia|]. by rewrite Hc. Qed.

(** ** An instance of the classes: the sets of open descriptors and of live blocks *)

Record process : Type := mkProcess { pr_fds : gset nat; pr_blocks : gset nat }.
Definition process_open (w : process) (fd : Z) : bool := bool_decide (0 <= fd /\ Z.to_nat fd ∈ pr_fds w).
Definition process_fd (w : process) : Z * process :=
  let fd := fresh (pr_fds w) in (Z.of_nat fd, mkProcess ({[fd]} ∪ pr_fds w) (pr_blocks w)).
Definition process_close (w : process) (fd : Z) : Z * process :=
  if process_open w fd then (0, mkProcess (pr_fds w ∖ {[Z.to_nat fd]}) (pr_blocks w)) else (-1, w).

#[export] Instance ProcessFds : FdKernel process := {|
  eventfd := process_fd;
  epoll_create1 := process_fd;
  sys_close := process_close;
  sys_epoll_wait w _ _ _ := (0, [], w);
  calloc w _ := let p := fresh (pr_blocks w) in (Some p, mkProcess (pr_fds w) ({[p]} ∪ pr_blocks w));
  free w p := mkProcess (pr_fds w) (pr_blocks w ∖ {[p]});
  fd_open := process_open;
  block_live w p := bool_decide (p ∈ pr_blocks w)
|}.

Lemma process_fd_makes w r w' : process_fd w = (r, w') -> makes_fd w r w'.
Proof.
  intros [= <- <-]. assert (Hf : fresh (pr_fds w) ∉ pr_fds w) by apply is_fresh.
  split; [done|]. cbn [fd_open ProcessFds]. unfold process_open. cbn [pr_fds]. split.
  - intros _. rewrite Nat2Z.id. split; [apply bool_decide_false; tauto|apply bool_decide_true]. split; [lia|set_solver].
  - intros fd Hne. apply bool_decide_ext. rewrite elem_of_union, elem_of_singleton.
    split; [intros [? [E|?]]; [lia|done]|intros [? ?]; split; [done|by right]].
Qed.

#[export] Instance ProcessFds_laws : FdLaws process.
Proof.
  split.
  - apply process_fd_makes.
  - apply process_fd_makes.
  - intros w n p w' [= <- <-]. assert (Hf : fresh (pr_blocks w) ∉ pr_blocks w) by apply is_fresh.
    split; [done|]. cbn. split; [by apply bool_decide_false|]. split; [apply bool_decide_true; set_solver|].
    intros q Hq. apply bool_decide_ext. set_solver.
  - intros w fd r w'. cbn [sys_close fd_open ProcessFds]. unfold process_close. intros E Ho. rewrite Ho in E. injection E as _ <-.
    split; [done|]. unfold process_open in *. cbn [pr_fds]. apply bool_decide_eq_true in Ho as [Hfd Ho]. split.
    + apply bool_decide_false. set_solver.
    + intros fd' Hne. apply bool_decide_ext. rewrite elem_of_difference, elem_of_singleton.
      split; [tauto|]. intros [? ?]. split; [done|]. split; [done|lia].
  - intros w p Hp. cbn. split; [done|]. split; [apply bool_decide_false; set_solver|].
    intros q Hq. apply bool_decide_ext. set_solver.
Qed.

Lemma epoll_life_balanced_witness :
  exists e w1 w3, Epoll_open false None (mkProcess ∅ ∅) = Ok (e, w1) /\ owns e w1 /\
    Epoll_destroy e w1 = Ok (mkParts (pt_ep e) (pt_wake_up_fd e) None, w3) /\ differs_by e false w1 w3.
Proof.
  destruct (Epoll_open false None (mkProcess ∅ ∅)) as [[e w1]|] eqn:E; [|by vm_compute in E].
  destruct (epoll_life_balanced false None (mkProcess ∅ ∅) e w1 E) as (Ho & _ & _ & Hd);
    [vm_compute in E; injection E as <- _; done|vm_compute in E; injection E as <- _; by eexists|].
  destruct (Hd w1 Ho) as (w3 & E3 & Hdiff). by exists e, w1, w3.
Defined.
