(* ===== verification/Wakeup.v ===== *)
(** * epoll.cc: the wake-up descriptor and its protocol

    [Wakeup] and [HandleWakeUpEvent] as functions of the answers of the kernel, and the
    protocol they make with the task manager (push, wake / wait, clear, take) as a step
    relation over the interleavings of any number of threads with the scheduler loop. *)

From stdpp Require Import base numbers list.
From Stdlib Require Import Lia ZArith.
From S2P Require Import Prelude Atomic Errno Epoll.

(** ** The wake-up descriptor *)

(** The loop of [Wakeup] around [write(wake_up_fd_, ...)], against the answers of the
    successive calls: how many calls were made; [None] when the answers run out. *)
Fixpoint Wakeup_loop (answers : list io_result) : option nat :=
  match answers with
  | [] => None
  | IoRet res :: answers' =>
      if res <? 10 then Some 1%nat else S <$> Wakeup_loop answers'
  | IoErr errno :: answers' =>
      if (errno =? EWOULDBLOCK) || (errno =? EAGAIN) then Some 1%nat
      else if errno =? EINTR then S <$> Wakeup_loop answers'
      else Some 1%nat
  end.

(** [HandleWakeUpEvent] drains the descriptor with the same loop around [read]. *)
Definition HandleWakeUpEvent_loop (answers : list io_result) : option nat := Wakeup_loop answers.

(** [Wakeup]: only the caller that turns [is_wakeup_] from false to true writes. *)
Definition Epoll_Wakeup (ep : Epoll) (answers : list io_result) : Epoll * option nat :=
  let '(cell, old) := atomic_compare_swap uint8 (is_wakeup_ ep) 0 1 in
  (mkEpoll (ep_sched_id ep) (wake_up_fd_ ep) cell,
   if old =? 0 then Wakeup_loop answers else Some 0%nat).

Definition Epoll_HandleWakeUpEvent (ep : Epoll) (answers : list io_result) : Epoll * option nat :=
  (mkEpoll (ep_sched_id ep) (wake_up_fd_ ep) (fst (atomic_swap uint8 (is_wakeup_ ep) 0)),
   HandleWakeUpEvent_loop answers).

(** ** The protocol as a step relation

    A producer is a thread in [AddNewTask] or [AddReadyTask]: it pushes its task, runs
    the compare-and-swap of [Wakeup], and writes to the descriptor if it won. The
    consumer is the scheduler's [Loop]: it waits in [epoll_wait], and when the
    descriptor is reported it reads it, clears [is_wakeup_] and takes all tasks; it may
    also return from [epoll_wait] for another reason and just take the tasks. The
    descriptor is registered with [EPOLLET]: [edge] is a write not yet reported. *)

Inductive producer : Type := PPush | PCas | PWrite | PDone.
Inductive consumer : Type := CWait | CRead | CClear | CDrain.

Record wk_state : Type := mkWk {
  wk_flag : Z;               (* is_wakeup_ *)
  wk_count : Z;              (* counter of the eventfd *)
  wk_edge : bool;            (* an edge epoll_wait has not reported yet *)
  wk_queue : list nat;       (* tasks in the task manager: the producers' indices *)
  wk_drained : list nat;     (* tasks taken by the loop so far *)
  wk_producers : list producer;
  wk_consumer : consumer
}.

Inductive wk_step : wk_state -> wk_state -> Prop :=
| WkPush f c e q d ps pc i :
    ps !! i = Some PPush ->
    wk_step (mkWk f c e q d ps pc) (mkWk f c e (q ++ [i]) d (<[i := PCas]> ps) pc)
| WkCas f c e q d ps pc i f' old :
    ps !! i = Some PCas -> atomic_compare_swap uint8 f 0 1 = (f', old) ->
    wk_step (mkWk f c e q d ps pc)
            (mkWk f' c e q d (<[i := if old =? 0 then PWrite else PDone]> ps) pc)
| WkWrite f c e q d ps pc i :
    ps !! i = Some PWrite ->
    wk_step (mkWk f c e q d ps pc) (mkWk f (c + 1) true q d (<[i := PDone]> ps) pc)
| WkWake f c q d ps :
    wk_step (mkWk f c true q d ps CWait) (mkWk f c false q d ps CRead)
| WkOther f c e q d ps :
    wk_step (mkWk f c e q d ps CWait) (mkWk f c e q d ps CDrain)
| WkRead f c e q d ps :
    wk_step (mkWk f c e q d ps CRead) (mkWk f 0 e q d ps CClear)
| WkClear f c e q d ps :
    wk_step (mkWk f c e q d ps CClear)
            (mkWk (fst (atomic_swap uint8 f 0)) c e q d ps CDrain)
| WkDrain f c e q d ps :
    wk_step (mkWk f c e q d ps CDrain) (mkWk f c e [] (d ++ q) ps CWait).

Definition wk_init (n : nat) : wk_state := mkWk 0 0 false [] [] (replicate n PPush) CWait.

(** A pending wake-up is visible somewhere, and a queued task has one pending. *)
Definition wk_inv (s : wk_state) : Prop :=
  (wk_flag s = 0 \/ wk_flag s = 1) /\
  (wk_flag s = 1 -> wk_edge s = true \/ PWrite ∈ wk_producers s \/
                    wk_consumer s = CRead \/ wk_consumer s = CClear) /\
  (wk_queue s <> [] -> wk_flag s = 1 \/ PCas ∈ wk_producers s \/ wk_consumer s <> CWait).

Lemma insert_elem_of_eq {A} (l : list A) i x y : l !! i = Some y -> x ∈ <[i := x]> l.
Proof.
  intros H. apply list_elem_of_lookup. exists i. apply list_lookup_insert_eq.
  by eapply lookup_lt_Some.
Qed.

(** Elements other than the one replaced stay. *)
Lemma insert_elem_of_ne {A} (l : list A) i x y z :
  l !! i = Some y -> z <> y -> z ∈ l -> z ∈ <[i := x]> l.
Proof.
  intros Hi Hne [j Hj]%list_elem_of_lookup. apply list_elem_of_lookup. exists j.
  rewrite list_lookup_insert_ne; [done|]. intros ->. congruence.
Qed.
#[export] Hint Resolve insert_elem_of_eq insert_elem_of_ne : co.

Lemma cas_flag f f' old :
  f = 0 \/ f = 1 -> atomic_compare_swap uint8 f 0 1 = (f', old) -> f' = 1 /\ old = f.
Proof. intros [->| ->] E; vm_compute in E; by simplify_eq. Qed.

Lemma wk_inv_step s1 s2 : wk_inv s1 -> wk_step s1 s2 -> wk_inv s2.
Proof.
  intros (Hf & Hw & Hq) Hstep. destruct Hstep; unfold wk_inv in *; cbn in *.
  - split; [done|]. split; [|eauto with co]. intros Hf1.
    destruct (Hw Hf1) as [?|[?|?]]; eauto. right; left. by eapply insert_elem_of_ne; eauto.
  - destruct (cas_flag _ _ _ Hf H0) as [-> ->]. split; [by right|]. split; [|by left].
    intros _. destruct Hf as [->| ->]; cbn; [eauto with co|].
    destruct (Hw eq_refl) as [?|[?|?]]; [by left| |by right; right].
    right; left. by eapply insert_elem_of_ne; eauto.
  - split; [done|]. split; [by left|]. intros Hne. destruct (Hq Hne) as [?|[?|?]]; eauto.
    right; left. by eapply insert_elem_of_ne; eauto.
  - split; [done|]. split; [by right; right; left|]. intros _. by right; right.
  - split; [done|]. split; [|by right; right]. intros Hf1.
    by destruct (Hw Hf1) as [?|[?|[?|?]]]; eauto.
  - split; [done|]. split; [by right; right; right|]. intros _. by right; right.
  - split; [by left|]. split; [done|]. intros _. by right; right.
  - split; [done|]. split; [|done]. intros Hf1.
    by destruct (Hw Hf1) as [?|[?|[?|?]]]; eauto.
Qed.

Lemma wk_inv_init n : wk_inv (wk_init n).
Proof. repeat split; cbn; [by left|done|done]. Qed.

(** C11: no wake-up is lost: in every interleaving of any number of producers with the
    scheduler loop, when a task sits in the queue, the loop is blocked in [epoll_wait]
    and no producer is still between its push and its write, the wake-up descriptor has
    an unreported edge, so [epoll_wait] returns and the loop goes on to read it. *)
Theorem no_lost_wakeup n s :
  star wk_step (wk_init n) s ->
  wk_queue s <> [] -> wk_consumer s = CWait ->
  ~ PCas ∈ wk_producers s -> ~ PWrite ∈ wk_producers s ->
  wk_edge s = true /\ exists s', wk_step s s' /\ wk_consumer s' = CRead.
Proof.
  intros Hrun Hq Hc Hcas Hwr.
  assert (Hi : wk_inv s) by (eapply (star_invariant _ wk_inv wk_inv_step); eauto; apply wk_inv_init).
  destruct Hi as (_ & Hw & Hpend).
  assert (He : wk_edge s = true).
  { destruct (Hpend Hq) as [Hf|[?|?]]; [|done|congruence].
    destruct (Hw Hf) as [?|[?|[?|?]]]; [done|done|congruence|congruence]. }
  split; [done|]. destruct s; cbn in *; subst. eexists. by split; [constructor|].
Qed.

Lemma no_lost_wakeup_witness :
  let s := mkWk 1 1 true [0%nat] [] [PDone] CWait in
  star wk_step (wk_init 1) s /\ exists s', wk_step s s' /\ wk_consumer s' = CRead.
Proof.
  intros s.
  assert (Hrun : star wk_step (wk_init 1) s).
  { eapply star_step; [apply (WkPush 0 0 false [] [] [PPush] CWait 0); reflexivity|].
    eapply star_step; [apply (WkCas 0 0 false [0%nat] [] [PCas] CWait 0 1 0); reflexivity|].
    eapply star_step; [apply (WkWrite 1 0 false [0%nat] [] [PWrite] CWait 0); reflexivity|].
    apply star_refl. }
  split; [exact Hrun|].
  refine (proj2 (no_lost_wakeup 1 s Hrun _ _ _ _)).
  - discriminate.
  - reflexivity.
  - intros H. apply list_elem_of_singleton in H. discriminate.
  - intros H. apply list_elem_of_singleton in H. discriminate.
Defined.
