(* ===== verification/Coroutine.v ===== *)
(** * coroutine.h, coroutine.cc and the wait context of channel.h

    A [Coroutine*] is the index of the coroutine in its scheduler's pool, a
    [shared_ptr<WaitCtx>] the index of the wait context in the heap of wait contexts,
    and a closure an identifier of the function it holds. The anonymous union of
    [func_] and [scheduler_] records which member was written last. *)

From stdpp Require Import base numbers list gmap.
From Stdlib Require Import Lia ZArith.
From S2P Require Import Prelude Stream.

(** [enum co_state : uint8] *)
Definition kInit : Z := 0.
Definition kWait : Z := 1.
Definition kReady : Z := 2.
Definition kTimeout : Z := 4.

(** [std::function<void()>]; 0 is the empty function. *)
Definition Closure : Type := nat.

(** [WaitCtx]: [wc_co] is the waiting coroutine, [wc_buf] the address its data goes to
    or comes from. *)
Record WaitCtx : Type := mkWaitCtx { wc_co : option nat; wc_state : Z; wc_buf : Z }.

(** The constructor from a pointer steals [co_] and [buf_]: the new context, and what is
    left of the old one. *)
Definition WaitCtx_from_ptr (ctx : WaitCtx) : WaitCtx * WaitCtx :=
  (mkWaitCtx (wc_co ctx) (wc_state ctx) (wc_buf ctx), mkWaitCtx None (wc_state ctx) 0).

(** The move constructor copies all three members. *)
Definition WaitCtx_move (ctx : WaitCtx) : WaitCtx :=
  mkWaitCtx (wc_co ctx) (wc_state ctx) (wc_buf ctx).

(** The union [{ Closure func_; Scheduler* scheduler_; }]. *)
Inductive co_union : Type :=
| func_ (f : Closure)
| scheduler_ (sched : Z).

Record Coroutine : Type := mkCoroutine {
  co_id : Z;                  (* id_ *)
  co_sched_id : Z;            (* sched_id_ *)
  co_stack_id : Z;            (* stack_id_ *)
  co_state : Z;               (* state_ *)
  co_stack : Stream;          (* stack_: the saved stack *)
  co_wait_ctx : option nat;   (* wait_ctx_ *)
  co_ctx : option Z;          (* ctx_: address of the saved context, None is nullptr *)
  co_timer_id : option nat;   (* timer_id_; None is the singular iterator *)
  co_union_ : co_union
}.

Definition Coroutine_new (junk : list Z) : Coroutine :=
  mkCoroutine 0 0 0 kInit (Stream_new junk) None None None (func_ 0%nat).

(** [Init]: state, context and saved stack; the wait context and the union stay. *)
Definition Coroutine_Init (c : Coroutine) : Coroutine :=
  mkCoroutine (co_id c) (co_sched_id c) (co_stack_id c) kInit (Stream_reset (co_stack c))
    (co_wait_ctx c) None (co_timer_id c) (co_union_ c).

(** Assignments to single members, as the other components do them. *)
Definition set_co_id (c : Coroutine) (id : Z) : Coroutine :=
  mkCoroutine id (co_sched_id c) (co_stack_id c) (co_state c) (co_stack c) (co_wait_ctx c)
    (co_ctx c) (co_timer_id c) (co_union_ c).
Definition set_co_stack_id (c : Coroutine) (s : Z) : Coroutine :=
  mkCoroutine (co_id c) (co_sched_id c) s (co_state c) (co_stack c) (co_wait_ctx c)
    (co_ctx c) (co_timer_id c) (co_union_ c).
Definition set_co_state (c : Coroutine) (st : Z) : Coroutine :=
  mkCoroutine (co_id c) (co_sched_id c) (co_stack_id c) st (co_stack c) (co_wait_ctx c)
    (co_ctx c) (co_timer_id c) (co_union_ c).
Definition set_co_stack (c : Coroutine) (s : Stream) : Coroutine :=
  mkCoroutine (co_id c) (co_sched_id c) (co_stack_id c) (co_state c) s (co_wait_ctx c)
    (co_ctx c) (co_timer_id c) (co_union_ c).
Definition set_co_wait_ctx (c : Coroutine) (w : option nat) : Coroutine :=
  mkCoroutine (co_id c) (co_sched_id c) (co_stack_id c) (co_state c) (co_stack c) w
    (co_ctx c) (co_timer_id c) (co_union_ c).
Definition set_co_ctx (c : Coroutine) (x : option Z) : Coroutine :=
  mkCoroutine (co_id c) (co_sched_id c) (co_stack_id c) (co_state c) (co_stack c)
    (co_wait_ctx c) x (co_timer_id c) (co_union_ c).
Definition set_co_timer_id (c : Coroutine) (t : option nat) : Coroutine :=
  mkCoroutine (co_id c) (co_sched_id c) (co_stack_id c) (co_state c) (co_stack c)
    (co_wait_ctx c) (co_ctx c) t (co_union_ c).

(** [co->scheduler_ = s]: a pointer member can be written whatever is active. *)
Definition set_co_scheduler (c : Coroutine) (s : Z) : Coroutine :=
  mkCoroutine (co_id c) (co_sched_id c) (co_stack_id c) (co_state c) (co_stack c)
    (co_wait_ctx c) (co_ctx c) (co_timer_id c) (scheduler_ s).

(** [co->func_ = f]: the assignment operator of [std::function] first destroys the
    function it replaces, so it needs [func_] to be the active member. *)
Definition set_co_func (c : Coroutine) (f : Closure) : outcome Coroutine :=
  match co_union_ c with
  | func_ _ => Ok (mkCoroutine (co_id c) (co_sched_id c) (co_stack_id c) (co_state c)
                     (co_stack c) (co_wait_ctx c) (co_ctx c) (co_timer_id c) (func_ f))
  | scheduler_ _ => Fault InactiveMember
  end.

(** [(co->func_)()] reads [func_]. *)
Definition get_co_func (c : Coroutine) : outcome Closure :=
  match co_union_ c with
  | func_ f => Ok f
  | scheduler_ _ => Fault InactiveMember
  end.

(** [co->scheduler_] as [Mutex] and [ChannelImpl] read it to wake a waiter. *)
Definition get_co_scheduler (c : Coroutine) : outcome Z :=
  match co_union_ c with
  | scheduler_ s => Ok s
  | func_ _ => Fault InactiveMember
  end.
