(* ===== verification/Copoll.v ===== *)
(** * co_poll.h and co_poll.cc: the pool of coroutines of a scheduler *)

From stdpp Require Import base numbers list sorting.
From Stdlib Require Import Lia ZArith.
From S2P Require Import Prelude Stream Coroutine.

Definition kPoolSize : Z := 256.

Record Copoll : Type := mkCopoll {
  cp_id : Z;                    (* id_: the next id never handed out *)
  cp_idle : list Z;             (* idle_co_ids_ *)
  cp_pool : list Coroutine      (* pool_ *)
}.

(** [junk i] is the uninitialised memory of the [i]-th coroutine's stack buffer. *)
Definition Copoll_new (junk : nat -> list Z) : Copoll :=
  mkCopoll 0 [] (map (fun i => Coroutine_new (junk i)) (seq 0 (Z.to_nat kPoolSize))).

(** [&pool_[i]]: undefined outside the vector. *)
Definition Copoll_at (p : Copoll) (i : Z) : outcome Coroutine :=
  match cp_pool p !! Z.to_nat i with
  | Some c => Ok c
  | None => Fault OutOfBounds
  end.

Definition Copoll_Pop (p : Copoll) : outcome (nat * Copoll) :=
  match last (cp_idle p) with
  | None =>
      let* co := Copoll_at p (cp_id p) in
      let co := set_co_id co (cp_id p) in
      let co := set_co_stack_id co (u8 (Z.land (co_id co) 7)) in
      Ok (Z.to_nat (cp_id p),
          mkCopoll (u32 (cp_id p + 1)) (cp_idle p) (<[Z.to_nat (cp_id p) := co]> (cp_pool p)))
  | Some id =>
      let* co := Copoll_at p id in
      Ok (Z.to_nat id,
          mkCopoll (cp_id p) (removelast (cp_idle p))
            (<[Z.to_nat id := Coroutine_Init co]> (cp_pool p)))
  end.

(** [Push(co)], [co] the coroutine behind the pointer. *)
Definition Copoll_Push (p : Copoll) (co : Coroutine) : Copoll :=
  mkCopoll (cp_id p) (cp_idle p ++ [co_id co]) (cp_pool p).

(** ** Well-formedness: idle and live coroutines partition the ids handed out *)

Definition copoll_wf (p : Copoll) (live : list nat) : Prop :=
  length (cp_pool p) = Z.to_nat kPoolSize /\
  0 <= cp_id p <= kPoolSize /\
  map Z.to_nat (cp_idle p) ++ live ≡ₚ seq 0 (Z.to_nat (cp_id p)) /\
  Forall (fun i => 0 <= i) (cp_idle p) /\
  forall i c, (i < Z.to_nat (cp_id p))%nat -> cp_pool p !! i = Some c ->
    co_id c = Z.of_nat i /\ co_stack_id c = Z.of_nat i mod 8.

(** Coroutines never handed out are as they were made. *)
Definition copoll_fresh (p : Copoll) : Prop :=
  forall i c, cp_id p <= Z.of_nat i -> cp_pool p !! i = Some c -> exists junk, c = Coroutine_new junk.

(** A coroutine that has not run: no context, and nothing of a stack saved. *)
Definition co_initial (c : Coroutine) : Prop := co_state c = kInit /\ co_ctx c = None /\ fb_cur (co_stack c) = 0.

Lemma stack_id_of_id i : 0 <= i -> u8 (Z.land i 7) = i mod 8.
Proof.
  intros H. change 7 with (Z.ones 3). rewrite Z.land_ones by lia. change (2 ^ 3) with 8.
  apply uwrap_small. pose proof (Z.mod_pos_bound i 8). lia.
Qed.

Lemma last_snoc_inv {A} (l : list A) x : last l = Some x -> l = removelast l ++ [x].
Proof. intros [l' ->]%last_Some. by rewrite removelast_last. Qed.

Lemma copoll_live_bound p live i : copoll_wf p live -> i ∈ live -> (i < Z.to_nat (cp_id p))%nat.
Proof.
  intros (_ & _ & Hp & _) Hi.
  assert (i ∈ seq 0 (Z.to_nat (cp_id p))) as H by (rewrite <- Hp; apply elem_of_app; by right).
  apply elem_of_seq in H. lia.
Qed.

Lemma copoll_wf_new junk : copoll_wf (Copoll_new junk) [].
Proof.
  unfold Copoll_new. split; [cbn [cp_pool]; by rewrite length_map, length_seq|].
  split; [eval_closed|].
  split; [done|]. split; [done|]. cbn. lia.
Qed.

(** A coroutine never handed out: every id below [cp_id] is live. *)
Lemma Copoll_Pop_fresh p live :
  copoll_wf p live -> cp_idle p = [] -> cp_id p < kPoolSize ->
  exists c, cp_pool p !! Z.to_nat (cp_id p) = Some c /\
  Copoll_Pop p = Ok (Z.to_nat (cp_id p),
    mkCopoll (cp_id p + 1) []
      (<[Z.to_nat (cp_id p) :=
          set_co_stack_id (set_co_id c (cp_id p)) (cp_id p mod 8)]> (cp_pool p))).
Proof.
  intros (Hl & Hid & Hperm & Hnn & Hpool) Hidle Hlt. unfold kPoolSize in *.
  destruct (lookup_lt_is_Some_2 (cp_pool p) (Z.to_nat (cp_id p))) as [c Hc]; [lia|].
  exists c. split; [done|]. unfold Copoll_Pop, Copoll_at. rewrite Hidle, Hc. cbn.
  rewrite stack_id_of_id by lia. by rewrite uwrap_small by lia.
Qed.

(** A recycled coroutine. *)
Lemma Copoll_Pop_idle p live id :
  copoll_wf p live -> last (cp_idle p) = Some id ->
  exists c, cp_pool p !! Z.to_nat id = Some c /\ (Z.to_nat id < Z.to_nat (cp_id p))%nat /\
  Copoll_Pop p = Ok (Z.to_nat id,
    mkCopoll (cp_id p) (removelast (cp_idle p))
      (<[Z.to_nat id := Coroutine_Init c]> (cp_pool p))).
Proof.
  intros (Hl & Hid & Hperm & Hnn & Hpool) Hlast.
  assert (Z.to_nat id ∈ seq 0 (Z.to_nat (cp_id p))) as Hin.
  { rewrite <- Hperm. apply elem_of_app. left. rewrite (last_snoc_inv _ _ Hlast), map_app.
    apply elem_of_app. right. by apply list_elem_of_singleton. }
  apply elem_of_seq in Hin.
  destruct (lookup_lt_is_Some_2 (cp_pool p) (Z.to_nat id)) as [c Hc]; [unfold kPoolSize in *; lia|].
  exists c. split; [done|]. split; [lia|]. unfold Copoll_Pop, Copoll_at. by rewrite Hlast, Hc.
Qed.

Lemma Copoll_Pop_wf p live i p' :
  copoll_wf p live -> Copoll_Pop p = Ok (i, p') ->
  copoll_wf p' (i :: live) /\ ~ i ∈ live /\
  exists c, cp_pool p' !! i = Some c /\ co_id c = Z.of_nat i /\ co_stack_id c = Z.of_nat i mod 8.
Proof.
  intros Hwf Hpop. pose proof Hwf as (Hl & Hid & Hperm & Hnn & Hpool).
  destruct (last (cp_idle p)) as [id|] eqn:Hlast.
  - destruct (Copoll_Pop_idle p live id Hwf Hlast) as (c & Hc & Hlt & E).
    rewrite E in Hpop. injection Hpop as <- <-.
    destruct (Hpool _ _ Hlt Hc) as [Hcid Hcs].
    pose proof (last_snoc_inv _ _ Hlast) as Hsp.
    assert (Hperm' : map Z.to_nat (removelast (cp_idle p)) ++ Z.to_nat id :: live
                     ≡ₚ seq 0 (Z.to_nat (cp_id p))).
    { rewrite <- Hperm. rewrite Hsp at 2. rewrite map_app. cbn. by rewrite <- app_assoc. }
    split; [|split].
    + split; [cbn [cp_pool]; by rewrite length_insert|]. split; [done|]. split; [done|]. split.
      * rewrite Hsp in Hnn. by apply Forall_app in Hnn as [? _].
      * intros j cj Hj Hlk. cbn in *. destruct (decide (j = Z.to_nat id)) as [->|Hne].
        -- rewrite list_lookup_insert_eq in Hlk by lia. simplify_eq. by cbn.
        -- rewrite list_lookup_insert_ne in Hlk by done. by apply Hpool.
    + intros Hin. assert (Hnd : NoDup (map Z.to_nat (removelast (cp_idle p)) ++ Z.to_nat id :: live))
        by (rewrite Hperm'; apply NoDup_seq).
      apply NoDup_app in Hnd as (_ & _ & Hnd). by apply NoDup_cons in Hnd as [? _].
    + exists (Coroutine_Init c). cbn. rewrite list_lookup_insert_eq by lia. by split.
  - assert (Hidle : cp_idle p = []) by (by apply last_None).
    destruct (decide (cp_id p < kPoolSize)) as [Hlt|Hge].
    + destruct (Copoll_Pop_fresh p live Hwf Hidle Hlt) as (c & Hc & E).
      rewrite E in Hpop. injection Hpop as <- <-. rewrite Hidle in Hperm. cbn in Hperm.
      assert (Hlt' : (Z.to_nat (cp_id p) < length (cp_pool p))%nat) by (by eapply lookup_lt_Some).
      split; [|split].
      * split; [cbn [cp_pool]; by rewrite length_insert|]. split; [cbn; lia|]. split; [|split; [done|]].
        -- cbn. replace (Z.to_nat (cp_id p + 1)) with (S (Z.to_nat (cp_id p))) by lia.
           rewrite seq_S, Hperm. cbn. by rewrite Permutation_cons_append.
        -- intros j cj Hj Hlk. cbn in *. destruct (decide (j = Z.to_nat (cp_id p))) as [->|Hne].
           ++ rewrite list_lookup_insert_eq in Hlk by done. simplify_eq. cbn.
              rewrite Z2Nat.id by lia. by split.
           ++ rewrite list_lookup_insert_ne in Hlk by done. apply Hpool; [lia|done].
      * intros Hin. apply (copoll_live_bound p live) in Hin; [lia|done].
      * eexists. cbn. rewrite list_lookup_insert_eq by done. split; [done|]. cbn.
        rewrite Z2Nat.id by lia. by split.
    + exfalso. unfold Copoll_Pop, Copoll_at in Hpop. rewrite Hlast in Hpop.
      rewrite lookup_ge_None_2 in Hpop; [done|]. unfold kPoolSize in *. lia.
Qed.

Lemma copoll_fresh_new junk : copoll_fresh (Copoll_new junk).
Proof.
  intros i c _ Hc. unfold Copoll_new in Hc. cbn [cp_pool] in Hc.
  apply list_lookup_fmap_Some in Hc as (j & -> & _). by eexists.
Qed.

(** What is done to a coroutine in use. *)
Lemma copoll_fresh_put p live i c :
  copoll_wf p live -> copoll_fresh p -> i ∈ live -> copoll_fresh (mkCopoll (cp_id p) (cp_idle p) (<[i := c]> (cp_pool p))).
Proof.
  intros Hwf Hf Hi j cj Hj Hlk. cbn in *. pose proof (copoll_live_bound p live i Hwf Hi).
  rewrite list_lookup_insert_ne in Hlk by lia. by apply (Hf j).
Qed.

Lemma Copoll_Pop_initial p live i p' :
  copoll_wf p live -> copoll_fresh p -> Copoll_Pop p = Ok (i, p') ->
  copoll_fresh p' /\ (exists c, cp_pool p' !! i = Some c /\ co_initial c) /\
  forall j, j <> i -> cp_pool p' !! j = cp_pool p !! j.
Proof.
  intros Hwf Hf Hpop. pose proof Hwf as (Hl & Hid & Hperm & Hnn & Hpool).
  destruct (last (cp_idle p)) as [id|] eqn:Hlast.
  - destruct (Copoll_Pop_idle p live id Hwf Hlast) as (c & Hc & Hlt & E).
    rewrite E in Hpop. injection Hpop as <- <-. cbn [cp_pool]. split; [|split].
    + intros j cj Hj Hlk. cbn in *. rewrite list_lookup_insert_ne in Hlk by lia. by apply (Hf j).
    + eexists. split; [apply list_lookup_insert_eq; by eapply lookup_lt_Some|]. done.
    + intros j Hj. by rewrite list_lookup_insert_ne.
  - apply last_None in Hlast. destruct (decide (cp_id p < kPoolSize)) as [Hlt|Hge].
    + destruct (Copoll_Pop_fresh p live Hwf Hlast Hlt) as (c & Hc & E).
      rewrite E in Hpop. injection Hpop as <- <-. cbn [cp_pool]. destruct (Hf (Z.to_nat (cp_id p)) _ ltac:(lia) Hc) as [junk ->]. split; [|split].
      * intros j cj Hj Hlk. cbn in *. rewrite list_lookup_insert_ne in Hlk by lia. apply (Hf j); [lia|done].
      * eexists. split; [apply list_lookup_insert_eq; by eapply lookup_lt_Some|]. done.
      * intros j Hj. by rewrite list_lookup_insert_ne.
    + exfalso. unfold Copoll_Pop, Copoll_at in Hpop. rewrite Hlast in Hpop. cbn in Hpop.
      rewrite lookup_ge_None_2 in Hpop; [done|]. unfold kPoolSize in *. lia.
Qed.

(** ** Properties *)

(** C32: [Pop] hands out a coroutine nobody holds, in its initial state: from a well-formed
    pool, whose coroutines never handed out are as they were made, it returns an index that
    is not live; the coroutine has this index as [id_], the index modulo the eight shared
    stacks as [stack_id_], the state [kInit], no context and an empty saved stack, whatever
    its last function left there; the other coroutines are untouched. The pool stays so,
    also when the coroutines in use are changed at will. *)
Theorem Copoll_Pop_unused p live i p' :
  copoll_wf p live -> copoll_fresh p -> Copoll_Pop p = Ok (i, p') ->
  ~ i ∈ live /\ copoll_wf p' (i :: live) /\ copoll_fresh p' /\
  (exists c, cp_pool p' !! i = Some c /\ co_id c = Z.of_nat i /\ co_stack_id c = Z.of_nat i mod 8 /\ co_initial c) /\
  (forall j, j <> i -> cp_pool p' !! j = cp_pool p !! j) /\
  (forall j c, j ∈ i :: live -> copoll_fresh (mkCopoll (cp_id p') (cp_idle p') (<[j := c]> (cp_pool p')))).
Proof.
  intros Hwf Hf Hpop. destruct (Copoll_Pop_wf p live i p' Hwf Hpop) as (Hwf' & Hi & c & Hc & Hid & Hsid).
  destruct (Copoll_Pop_initial p live i p' Hwf Hf Hpop) as (Hf' & (c' & Hc' & Hin) & Hoth). simplify_eq.
  do 3 (split; [done|]). split; [eauto 10|]. split; [done|]. intros j cj Hj. by apply (copoll_fresh_put p' (i :: live)).
Qed.

(** A coroutine that has run and was given back. *)
Definition used_sample : Coroutine :=
  mkCoroutine 0 1 0 kWait (Stream_append (Stream_new []) [1; 2; 3] 3) None (Some 99) None (scheduler_ 0).
Definition used_pool : Copoll := mkCopoll 1 [0] (<[0%nat := used_sample]> (cp_pool (Copoll_new (fun _ => [])))).

Definition reused_pool : Copoll := mkCopoll 1 [] (<[0%nat := Coroutine_Init used_sample]> (cp_pool used_pool)).

Lemma Copoll_Pop_unused_witness :
  Copoll_Pop used_pool = Ok (0%nat, reused_pool) /\
  exists c, cp_pool reused_pool !! 0%nat = Some c /\ co_initial c.
Proof.
  assert (Hf : copoll_fresh used_pool).
  { intros [|i] c Hi Hc; [cbn in Hi; lia|]. unfold used_pool in Hc. cbn [cp_pool] in Hc.
    rewrite list_lookup_insert_ne in Hc by done. apply (copoll_fresh_new (fun _ => []) (S i)); [cbn; lia|done]. }
  assert (Hwf : copoll_wf used_pool []).
  { split; [reflexivity|]. split; [eval_closed|]. split; [reflexivity|]. split; [repeat constructor; done|].
    intros i c Hi Hc. assert (i = 0)%nat as -> by (cbn in Hi; lia). cbn in Hc.
    injection Hc as <-. split; reflexivity. }
  assert (E : Copoll_Pop used_pool = Ok (0%nat, reused_pool)) by (vm_compute; reflexivity).
  destruct (Copoll_Pop_unused used_pool [] 0 reused_pool Hwf Hf E) as (_ & _ & _ & (c & Hc & _ & _ & Hin) & _ & _).
  split; [exact E|]. exists c. by split.
Defined.

(** The pool does not grow: [Pop] succeeds exactly while fewer than [kPoolSize]
    coroutines are live; with 256 live it indexes the vector out of bounds (the
    expansion is left as a fixme). *)
Theorem Copoll_Pop_capacity p live :
  copoll_wf p live ->
  ((exists i p', Copoll_Pop p = Ok (i, p')) <-> Z.of_nat (length live) < kPoolSize) /\
  (Z.of_nat (length live) = kPoolSize -> Copoll_Pop p = Fault OutOfBounds).
Proof.
  intros Hwf. pose proof Hwf as (Hl & Hid & Hperm & Hnn & Hpool).
  pose proof (Permutation_length Hperm) as Hlen. rewrite length_app, length_map, length_seq in Hlen.
  destruct (last (cp_idle p)) as [id|] eqn:Hlast.
  - destruct (Copoll_Pop_idle p live id Hwf Hlast) as (c & Hc & Hlt & E).
    assert (length (cp_idle p) <> 0%nat)
      by (rewrite (last_snoc_inv _ _ Hlast), length_app; cbn; lia).
    split; [split; [intros _; unfold kPoolSize in *; lia|eauto]|]. unfold kPoolSize in *. lia.
  - apply last_None in Hlast. rewrite Hlast in Hlen. cbn in Hlen.
    assert (Hfull : cp_id p = kPoolSize -> Copoll_Pop p = Fault OutOfBounds).
    { intros E. unfold Copoll_Pop, Copoll_at. rewrite Hlast. cbn.
      rewrite lookup_ge_None_2; [done|]. rewrite Hl, E. done. }
    split; [split|].
    + intros (i & p' & E). destruct (decide (cp_id p = kPoolSize)) as [Ef|]; [|lia].
      rewrite (Hfull Ef) in E. done.
    + intros Hlt. destruct (Copoll_Pop_fresh p live Hwf Hlast) as (c & _ & E); [lia|eauto].
    + intros E. apply Hfull. lia.
Qed.

Lemma Copoll_Pop_capacity_witness :
  exists i p', Copoll_Pop (Copoll_new (fun _ => [])) = Ok (i, p').
Proof.
  apply (proj2 (proj1 (Copoll_Pop_capacity (Copoll_new (fun _ => [])) [] (copoll_wf_new _)))).
  reflexivity.
Defined.

(** Recycling: pushing a live coroutine gives its id back to the idle list and keeps
    the pool well formed, and the next [Pop] returns that coroutine with its state,
    context and saved stack reset but the wait context it last used still attached. *)
Theorem Copoll_Push_Pop p live i c :
  copoll_wf p (i :: live) -> cp_pool p !! i = Some c ->
  copoll_wf (Copoll_Push p c) live /\
  exists p', Copoll_Pop (Copoll_Push p c) = Ok (i, p') /\
    cp_pool p' !! i = Some (Coroutine_Init c) /\
    co_ctx (Coroutine_Init c) = None /\ co_state (Coroutine_Init c) = kInit /\
    fb_cur (co_stack (Coroutine_Init c)) = 0 /\
    co_wait_ctx (Coroutine_Init c) = co_wait_ctx c.
Proof.
  intros Hwf Hc. pose proof Hwf as (Hl & Hid & Hperm & Hnn & Hpool).
  assert (Hlt : (i < Z.to_nat (cp_id p))%nat)
    by (eapply copoll_live_bound; [done|]; apply list_elem_of_here).
  destruct (Hpool i c Hlt Hc) as [Hcid Hcs].
  assert (Hwf' : copoll_wf (Copoll_Push p c) live).
  { split; [done|]. split; [done|]. split; [|split; [|done]]; cbn.
    - rewrite map_app. cbn. rewrite Hcid, Nat2Z.id, <- app_assoc. exact Hperm.
    - apply Forall_app; split; [done|]. repeat constructor. lia. }
  split; [done|].
  assert (Hlast : last (cp_idle (Copoll_Push p c)) = Some (Z.of_nat i))
    by (cbn; rewrite last_snoc; by rewrite Hcid).
  destruct (Copoll_Pop_idle _ _ _ Hwf' Hlast) as (c' & Hc' & _ & E).
  rewrite Nat2Z.id in *. cbn [Copoll_Push cp_pool] in Hc'. rewrite Hc in Hc'. simplify_eq.
  eexists. split; [exact E|]. cbn. split; [|done].
  rewrite list_lookup_insert_eq; [done|]. by eapply lookup_lt_Some.
Qed.

Lemma Copoll_Push_Pop_witness :
  let p := mkCopoll 1 [] (cp_pool (Copoll_new (fun _ => []))) in
  copoll_wf p [0%nat] /\
  exists p', Copoll_Pop (Copoll_Push p (Coroutine_new [])) = Ok (0%nat, p').
Proof.
  intros p.
  assert (Hwf : copoll_wf p [0%nat]).
  { split; [reflexivity|]. split; [eval_closed|]. split; [reflexivity|]. split; [constructor|].
    intros i c Hi Hc. assert (i = 0)%nat as -> by (cbn in Hi; lia). cbn in Hc.
    injection Hc as <-. split; reflexivity. }
  split; [exact Hwf|].
  destruct (Copoll_Push_Pop p [] 0 (Coroutine_new []) Hwf eq_refl) as (_ & p' & E & _).
  exists p'. exact E.
Defined.
