(* ===== verification/TaskManager.v ===== *)
(** * task_manager.h and task_manager.cc: the two queues other threads fill

    Every method runs under [mutex_]. [run_tm] runs a sequence of whole method calls;
    [tm_body] gives the methods as bodies of guarded operations, and
    [TaskManager_concurrent_fifo] shows that threads which call them at the same time do
    what such a sequence does. *)

From stdpp Require Import base numbers list sorting.
From Stdlib Require Import Lia ZArith.
From S2P Require Import Prelude ThreadLock Coroutine.

Record TaskManager : Type := mkTaskManager {
  new_tasks_ : list Closure;
  ready_tasks_ : list nat      (* Coroutine* *)
}.

Definition TaskManager_empty : TaskManager := mkTaskManager [] [].

Definition TaskManager_AddNewTasks (tm : TaskManager) (func : Closure) : TaskManager :=
  mkTaskManager (new_tasks_ tm ++ [func]) (ready_tasks_ tm).

Definition TaskManager_AddReadyTasks (tm : TaskManager) (co : nat) : TaskManager :=
  mkTaskManager (new_tasks_ tm) (ready_tasks_ tm ++ [co]).

(** [GetAllTasks(new_tasks, ready_tasks)]: the argument vectors after the call, and the
    manager. A queue is only swapped when it is not empty. *)
Definition TaskManager_GetAllTasks (tm : TaskManager) (new_tasks : list Closure)
  (ready_tasks : list nat) : list Closure * list nat * TaskManager :=
  let '(new_tasks, new') :=
    match new_tasks_ tm with
    | [] => (new_tasks, [])
    | _ :: _ => (new_tasks_ tm, new_tasks)
    end in
  let '(ready_tasks, ready') :=
    match ready_tasks_ tm with
    | [] => (ready_tasks, [])
    | _ :: _ => (ready_tasks_ tm, ready_tasks)
    end in
  (new_tasks, ready_tasks, mkTaskManager new' ready').

(** A sequence of calls, from any threads; the scheduler passes vectors it has cleared. *)
Inductive tm_call : Type :=
| CallAddNew (f : Closure)
| CallAddReady (co : nat)
| CallGetAll.

(** The manager after the calls, with everything [GetAllTasks] delivered so far. *)
Fixpoint run_tm (calls : list tm_call) (tm : TaskManager) (got_new : list Closure)
  (got_ready : list nat) : TaskManager * list Closure * list nat :=
  match calls with
  | [] => (tm, got_new, got_ready)
  | CallAddNew f :: calls' => run_tm calls' (TaskManager_AddNewTasks tm f) got_new got_ready
  | CallAddReady co :: calls' => run_tm calls' (TaskManager_AddReadyTasks tm co) got_new got_ready
  | CallGetAll :: calls' =>
      let '(n, r, tm') := TaskManager_GetAllTasks tm [] [] in
      run_tm calls' tm' (got_new ++ n) (got_ready ++ r)
  end.

(** The methods as bodies under the guard. The local state of a thread is what
    [GetAllTasks] has delivered to it; the two swaps of [GetAllTasks] are two actions. *)
Definition tm_local : Type := list Closure * list nat.

Definition swap_new (tm : TaskManager) (new_tasks : list Closure) : TaskManager * list Closure :=
  match new_tasks_ tm with
  | [] => (tm, new_tasks)
  | _ :: _ => (mkTaskManager new_tasks (ready_tasks_ tm), new_tasks_ tm)
  end.
Definition swap_ready (tm : TaskManager) (ready_tasks : list nat) : TaskManager * list nat :=
  match ready_tasks_ tm with
  | [] => (tm, ready_tasks)
  | _ :: _ => (mkTaskManager (new_tasks_ tm) ready_tasks, ready_tasks_ tm)
  end.

Definition tm_body (c : tm_call) : operation TaskManager tm_local :=
  match c with
  | CallAddNew f => [fun tm l => (TaskManager_AddNewTasks tm f, l)]
  | CallAddReady co => [fun tm l => (TaskManager_AddReadyTasks tm co, l)]
  | CallGetAll =>
      [fun tm l => let '(tm, n) := swap_new tm [] in (tm, (fst l ++ n, snd l));
       fun tm l => let '(tm, r) := swap_ready tm [] in (tm, (fst l, snd l ++ r))]
  end.

(** Threads that share a task manager, each with the calls it makes. *)
Definition tm_threads {M : Type} `{PthreadMutex M} (progs : list (list tm_call)) : gl_state :=
  gl_init TaskManager_empty (replicate (length progs) ([], [])) (map (map tm_body) progs).

(** The calls of thread [i] in a sequence of calls by threads. *)
Definition calls_of (i : nat) (calls : list (nat * tm_call)) : list tm_call :=
  omap (fun '(j, c) => if decide (i = j) then Some c else None) calls.

Definition added_new (calls : list tm_call) : list Closure :=
  omap (fun c => match c with CallAddNew f => Some f | _ => None end) calls.
Definition added_ready (calls : list tm_call) : list nat :=
  omap (fun c => match c with CallAddReady co => Some co | _ => None end) calls.

(** ** Lemmas *)

Lemma GetAllTasks_cleared tm :
  TaskManager_GetAllTasks tm [] [] = (new_tasks_ tm, ready_tasks_ tm, TaskManager_empty).
Proof. destruct tm as [[|f fs] [|c cs]]; done. Qed.

Lemma run_tm_fifo calls tm gn gr tm' gn' gr' :
  run_tm calls tm gn gr = (tm', gn', gr') ->
  gn' ++ new_tasks_ tm' = gn ++ new_tasks_ tm ++ added_new calls /\
  gr' ++ ready_tasks_ tm' = gr ++ ready_tasks_ tm ++ added_ready calls.
Proof.
  revert tm gn gr. induction calls as [|[f|co|] calls IH]; intros tm gn gr; cbn [run_tm].
  - intros [= <- <- <-]. by rewrite !app_nil_r.
  - intros H%IH. cbn in *. by rewrite <- !app_assoc in H.
  - intros H%IH. cbn in *. by rewrite <- !app_assoc in H.
  - rewrite GetAllTasks_cleared. intros H%IH. cbn in *. by rewrite <- !app_assoc in H.
Qed.

(** The bodies of [GetAllTasks] do what the method does. *)
Lemma tm_body_GetAll tm gn gr :
  run_body (tm_body CallGetAll) tm (gn, gr) =
  let '(n, r, tm') := TaskManager_GetAllTasks tm [] [] in (tm', (gn ++ n, gr ++ r)).
Proof. destruct tm as [[|f fs] [|c cs]]; reflexivity. Qed.

(** A log of operations whose parts are prefixes of programs of calls is a log of calls. *)
Lemma log_is_calls log progs :
  Forall (fun io => (fst io < length progs)%nat) log ->
  (forall i prog, progs !! i = Some prog -> exists rest, map tm_body prog = ops_of i log ++ rest) ->
  exists calls, log = map (fun '(i, c) => (i, tm_body c)) calls /\
    forall i prog, progs !! i = Some prog -> exists rest, prog = calls_of i calls ++ rest.
Proof.
  revert progs. induction log as [|[i op] log IH]; intros progs Hf Hp.
  { exists []. split; [done|]. intros i prog _. by exists prog. }
  apply Forall_cons in Hf as [Hi Hf]. cbn in Hi.
  destruct (lookup_lt_is_Some_2 progs i Hi) as [prog Hprog].
  destruct (Hp i prog Hprog) as [rest E]. unfold ops_of in E. cbn in E. rewrite decide_True in E by done.
  destruct prog as [|c prog]; [done|]. cbn in E. injection E as <- E.
  destruct (IH (<[i := prog]> progs)) as (calls & -> & Hcalls).
  - by rewrite length_insert.
  - intros j pj Hj. apply list_lookup_insert_Some in Hj as [(<- & <- & _)|(Hne & Hj)]; [by exists rest|].
    destruct (Hp j pj Hj) as [rj Ej]. exists rj. rewrite Ej. unfold ops_of. cbn. by rewrite decide_False by done.
  - exists ((i, c) :: calls). split; [done|]. intros j pj Hj. unfold calls_of. cbn.
    destruct (decide (j = i)) as [->|Hne].
    + rewrite Hprog in Hj. injection Hj as <-. destruct (Hcalls i prog) as [r Er].
      { by apply list_lookup_insert_eq. }
      exists r. by rewrite Er at 1.
    + apply Hcalls. by rewrite list_lookup_insert_ne.
Qed.

(** Run one after the other, the calls of threads of which only [c] fetches tasks leave
    the manager and give [c] what [run_tm] says. *)
Lemma serial_run_tm c calls tm (ls : list tm_local) gn gr :
  Forall (fun '(i, call) => (i < length ls)%nat /\ (call = CallGetAll -> i = c)) calls ->
  ls !! c = Some (gn, gr) ->
  exists tm' ls' gn' gr', serial (map (fun '(i, call) => (i, tm_body call)) calls) (tm, ls) = (tm', ls') /\
    ls' !! c = Some (gn', gr') /\ run_tm (map snd calls) tm gn gr = (tm', gn', gr').
Proof.
  revert tm ls gn gr. induction calls as [|[i call] calls IH]; intros tm ls gn gr Hf Hc.
  { by exists tm, ls, gn, gr. }
  apply Forall_cons in Hf as [[Hi Hget] Hf].
  destruct (lookup_lt_is_Some_2 ls i Hi) as [l Hl].
  cbn [map serial serial_op fst snd]. rewrite Hl. destruct call as [f|co|].
  - cbn. rewrite (list_insert_id ls i l Hl). by apply IH.
  - cbn. rewrite (list_insert_id ls i l Hl). by apply IH.
  - pose proof (Hget eq_refl) as ->. assert (El : Some (gn, gr) = Some l) by (transitivity (ls !! c); [symmetry; exact Hc|exact Hl]). injection El as <-.
    rewrite tm_body_GetAll. cbn [run_tm]. destruct (TaskManager_GetAllTasks tm [] []) as [[n r] tm'] eqn:E.
    apply IH.
    + eapply Forall_impl; [exact Hf|]. intros [j cj] H. by rewrite length_insert.
    + by apply list_lookup_insert_eq.
Qed.

(** ** Properties *)

(** The task manager loses, duplicates and reorders nothing: after any sequence of
    calls by any threads, the tasks delivered by [GetAllTasks] so far followed by those
    still queued are exactly the tasks added, in the order they were added, for new
    functions and for ready coroutines alike; and a call right then delivers the rest. *)
Theorem TaskManager_fifo calls tm gn gr :
  run_tm calls TaskManager_empty [] [] = (tm, gn, gr) ->
  gn ++ new_tasks_ tm = added_new calls /\
  gr ++ ready_tasks_ tm = added_ready calls /\
  TaskManager_GetAllTasks tm [] [] = (new_tasks_ tm, ready_tasks_ tm, TaskManager_empty).
Proof.
  intros H. destruct (run_tm_fifo _ _ _ _ _ _ _ H) as [H1 H2].
  split; [exact H1|]. split; [exact H2|]. apply GetAllTasks_cleared.
Qed.

Lemma TaskManager_fifo_witness :
  let r := run_tm [CallAddNew 7%nat; CallAddReady 3%nat; CallGetAll; CallAddNew 8%nat]
             TaskManager_empty [] [] in
  snd (fst r) ++ new_tasks_ (fst (fst r)) = [7; 8]%nat.
Proof.
  intros r. refine (proj1 (TaskManager_fifo
    [CallAddNew 7%nat; CallAddReady 3%nat; CallGetAll; CallAddNew 8%nat]
    (fst (fst r)) (snd (fst r)) (snd r) _)). reflexivity.
Defined.

(** C22: The task manager under concurrency. Threads call its methods at any time, with
    the steps of the lock and of the bodies interleaved; only one of them, the one that
    runs the loop, fetches tasks. Whenever nobody is in a method, there is one order of
    the calls, keeping the order of every thread, such that the tasks delivered to the loop
    followed by those still queued are exactly the tasks that these calls added, in that
    order: nothing is lost, duplicated or reordered. *)
Theorem TaskManager_concurrent_fifo {M} `{PthreadMutex M} CurrentId (progs : list (list tm_call)) c s :
  star (gl_step CurrentId) (tm_threads progs) s ->
  (c < length progs)%nat ->
  (forall i prog, progs !! i = Some prog -> CallGetAll ∈ prog -> i = c) ->
  (forall i th, gl_threads s !! i = Some th -> gt_pc th = GOut) ->
  exists calls gn gr,
    (forall i prog, progs !! i = Some prog -> exists rest, prog = calls_of i calls ++ rest) /\
    gl_locals s !! c = Some (gn, gr) /\
    gn ++ new_tasks_ (gl_data s) = added_new (map snd calls) /\
    gr ++ ready_tasks_ (gl_data s) = added_ready (map snd calls).
Proof.
  intros Hrun Hc Hget Hout.
  destruct (guarded_serializable CurrentId TaskManager_empty (replicate (length progs) ([], []))
    (map (map tm_body) progs) s) as (_ & _ & Hord & Hlog & Hlen & Hser);
    [by rewrite length_replicate, length_map|done|].
  rewrite length_map in Hlog, Hlen.
  destruct (log_is_calls (gl_log s) progs) as (calls & Elog & Hcalls); [done| |].
  { intros i prog Hi. destruct (lookup_lt_is_Some_2 (gl_threads s) i) as [th Hth].
    { rewrite Hlen. by eapply lookup_lt_Some. }
    pose proof (Hord i th Hth) as E. rewrite (Hout i th Hth), list_lookup_fmap, Hi in E.
    injection E as E. exists (gt_todo th). exact E. }
  destruct (serial_run_tm c calls TaskManager_empty (replicate (length progs) ([], [])) [] [])
    as (tm' & ls' & gn & gr & E & Hls & Hrt).
  - apply Forall_forall. intros [i call] Hin. rewrite length_replicate.
    assert (Hi : (i < length progs)%nat).
    { rewrite Elog, Forall_map in Hlog. rewrite Forall_forall in Hlog. apply (Hlog (i, call) Hin). }
    split; [done|]. intros ->. destruct (lookup_lt_is_Some_2 progs i Hi) as [prog Hp].
    apply (Hget i prog Hp). destruct (Hcalls i prog Hp) as [rest ->]. apply elem_of_app. left.
    unfold calls_of. apply list_elem_of_omap. exists (i, CallGetAll). split; [done|]. by rewrite decide_True.
  - by apply lookup_replicate.
  - rewrite <- Elog in E. assert (E2 : (gl_data s, gl_locals s) = (tm', ls')) by exact (eq_trans (Hser Hout) E).
    injection E2 as E2 E3.
    exists calls, gn, gr. rewrite E2, E3. split; [done|]. split; [done|]. apply (run_tm_fifo _ _ _ _ _ _ _ Hrt).
Qed.

(** One thread has added a function, the loop has not fetched it yet. *)
Lemma TaskManager_concurrent_fifo_witness :
  exists calls gn gr,
    (forall i prog, [[CallAddNew 7%nat]; [CallGetAll]] !! i = Some prog ->
       exists rest, prog = calls_of i calls ++ rest) /\
    [([], []); ([], [])] !! 1%nat = Some (gn, gr) /\
    gn ++ [7%nat] = added_new (map snd calls) /\ gr ++ [] = added_ready (map snd calls).
Proof.
  apply (TaskManager_concurrent_fifo thread_id [[CallAddNew 7%nat]; [CallGetAll]] 1
    (mkGl (mkMutexLock (None : option (nat * nat)) 0) (mkTaskManager [7%nat] []) [([], []); ([], [])]
       [mkGlThread GOut []; mkGlThread GOut [tm_body CallGetAll]] [(0%nat, tm_body (CallAddNew 7%nat))])).
  - eapply star_step; [by eapply (GlAcquire _ _ _ _ _ _ _ 0)|].
    eapply star_step; [by eapply (GlAssign _ _ _ _ _ _ 0)|].
    eapply star_step; [by eapply (GlAction _ _ _ _ _ _ _ _ _ 0)|].
    eapply star_step; [by eapply (GlUnassign _ _ _ _ _ _ 0)|].
    eapply star_step; [by eapply (GlRelease _ _ _ _ _ _ _ 0)|].
    constructor.
  - cbn. lia.
  - intros [|[|i]] prog [= <-] Hin; [|reflexivity].
    apply list_elem_of_singleton in Hin. discriminate.
  - intros [|[|i]] th [= <-]; reflexivity.
Defined.
