(* ===== verification/TimerManager.v ===== *)
(** * timer_manager.h and timer_manager.cc: the timers of a scheduler

    [timer_] is a [std::multimap<int64, Coroutine*>]: the list of its nodes in order,
    each with an identity of its own so that an iterator ([it_], [timer_id_t]) can
    outlive its node. Every call of [now::ms()] is a reading of its own: [clk] gives the
    successive readings and the operations return the index of the next one. *)

From stdpp Require Import base numbers list gmap sorting.
From Stdlib Require Import Lia ZArith.
From S2P Require Import Prelude Atomic Stream Coroutine.

Record timer_node : Type := mkNode { tn_id : nat; tn_when : Z; tn_co : nat }.

(** [it_]: [None] is [timer_.end()]. *)
Record TimerManager : Type := mkTimerManager {
  timer_ : list timer_node;
  it_ : option nat;
  tm_fresh : nat               (* identity of the next node *)
}.

Definition TimerManager_new : TimerManager := mkTimerManager [] None 0.

(** ** The container *)

(** Position of an iterator: [None] when it denotes no node any more. *)
Fixpoint node_index (l : list timer_node) (id : nat) : option nat :=
  match l with
  | [] => None
  | n :: l' => if Nat.eqb (tn_id n) id then Some 0%nat else S <$> node_index l' id
  end.

Definition position (l : list timer_node) (it : option nat) : option nat :=
  match it with
  | None => Some (length l)
  | Some id => node_index l id
  end.

(** First position whose key is not less than, and greater than, [k]. *)
Fixpoint lower_bound (l : list timer_node) (k : Z) : nat :=
  match l with
  | [] => 0
  | n :: l' => if tn_when n <? k then S (lower_bound l' k) else 0
  end.
Fixpoint upper_bound (l : list timer_node) (k : Z) : nat :=
  match l with
  | [] => 0
  | n :: l' => if tn_when n <=? k then S (upper_bound l' k) else 0
  end.

(** [multimap::insert(hint, value)] puts the node as close as possible to the hint among
    the positions that keep the keys ordered. *)
Definition insert_pos (l : list timer_node) (hint : nat) (k : Z) : nat :=
  Nat.max (lower_bound l k) (Nat.min hint (upper_bound l k)).

Definition insert_at {A} (l : list A) (i : nat) (x : A) : list A := take i l ++ x :: drop i l.

(** ** Operations *)

(** [AddTimer(ms, co)]: the iterator to the new node, which also becomes the hint. *)
Definition TimerManager_AddTimer (tm : TimerManager) (now ms : Z) (co : nat)
  : outcome (nat * TimerManager) :=
  match position (timer_ tm) (it_ tm) with
  | None => Fault DanglingIterator
  | Some hint =>
      let k := i64 (now + ms) in
      let n := mkNode (tm_fresh tm) k co in
      Ok (tm_fresh tm,
          mkTimerManager (insert_at (timer_ tm) (insert_pos (timer_ tm) hint k) n)
            (Some (tm_fresh tm)) (S (tm_fresh tm)))
  end.

(** [++it]: the next node, or [end()]. *)
Definition next_iterator (l : list timer_node) (i : nat) : option nat :=
  tn_id <$> l !! S i.

Definition TimerManager_DelTimer (tm : TimerManager) (it : option nat) : outcome TimerManager :=
  match it with
  | None => Fault DanglingIterator    (* erase(end()) *)
  | Some id =>
      match node_index (timer_ tm) id with
      | None => Fault DanglingIterator
      | Some i =>
          let it' := if decide (it_ tm = it) then next_iterator (timer_ tm) i else it_ tm in
          Ok (mkTimerManager (delete i (timer_ tm)) it' (tm_fresh tm))
      end
  end.

Definition TimerManager_is_end (tm : TimerManager) (it : option nat) : bool :=
  bool_decide (it = None).

(** The heap a timer touches: the coroutines of the pool and the wait contexts. *)
Record co_world : Type := mkWorld { cw_pool : list Coroutine; cw_ctxs : gmap nat WaitCtx }.

(** The body of the loop for one expired node. *)
Definition expire (w : co_world) (co : nat) (tasks : list nat) : outcome (co_world * list nat) :=
  match cw_pool w !! co with
  | None => Fault NullDereference
  | Some c =>
      match co_wait_ctx c with
      | None => Ok (w, tasks)
      | Some wid =>
          match cw_ctxs w !! wid with
          | None => Fault NullDereference
          | Some wc =>
              let '(st, old) := atomic_compare_swap uint8 (wc_state wc) kInit kTimeout in
              let ctxs := <[wid := mkWaitCtx (wc_co wc) st (wc_buf wc)]> (cw_ctxs w) in
              if old =? kInit then Ok (mkWorld (cw_pool w) ctxs, tasks ++ [co])
              else if co_state c =? kInit then Ok (mkWorld (cw_pool w) ctxs, tasks ++ [co])
              else
                let '(st', old') := atomic_swap uint8 (co_state c) kInit in
                Ok (mkWorld (<[co := set_co_state c st']> (cw_pool w)) ctxs,
                    if old' =? kWait then tasks ++ [co] else tasks)
          end
      end
  end.

(** The loop: it stops at the first node whose time is after the reading. *)
Fixpoint collect_loop (clk : nat -> Z) (t : nat) (l : list timer_node) (w : co_world)
  (tasks : list nat) : outcome (list timer_node * nat * co_world * list nat) :=
  match l with
  | [] => Ok ([], t, w, tasks)
  | n :: l' =>
      if clk t <? tn_when n then Ok (l, S t, w, tasks)
      else let* (w', tasks') := expire w (tn_co n) tasks in
           collect_loop clk (S t) l' w' tasks'
  end.

(** [CollectTimeoutTasks(tasks)]: the returned wait in ms, the manager, the world, the
    tasks, and the index of the next clock reading. *)
Definition TimerManager_CollectTimeoutTasks (clk : nat -> Z) (t : nat) (tm : TimerManager)
  (w : co_world) (tasks : list nat)
  : outcome (Z * TimerManager * co_world * list nat * nat) :=
  let* (rest, t1, w', tasks') := collect_loop clk t (timer_ tm) w tasks in
  let '(it', t2) :=
    if Nat.eqb (length rest) (length (timer_ tm)) then (it_ tm, t1)
    else match rest with
         | [] => (it_ tm, t1)
         | n :: _ => (if tn_when n <=? clk t1 then Some (tn_id n) else it_ tm, S t1)
         end in
  let tm' := mkTimerManager rest it' (tm_fresh tm) in
  match rest with
  | [] => Ok (u32 (-1), tm', w', tasks', t2)
  | n :: _ => Ok (u32 (i32 (tn_when n - clk t2)), tm', w', tasks', S t2)
  end.

(** ** Specification *)

Definition timers_sorted (l : list timer_node) : Prop := StronglySorted Z.le (map tn_when l).

(** Nodes have distinct identities, all below the fresh one. *)
Definition ids_ok (tm : TimerManager) : Prop :=
  NoDup (map tn_id (timer_ tm)) /\ Forall (fun n => (tn_id n < tm_fresh tm)%nat) (timer_ tm).

(** The hint denotes a node or the end. *)
Definition hint_ok (tm : TimerManager) : Prop := is_Some (position (timer_ tm) (it_ tm)).

Definition timers_wf (tm : TimerManager) : Prop :=
  timers_sorted (timer_ tm) /\ ids_ok tm /\ hint_ok tm.

(** What the rest of the library guarantees of the heap: the wait context a coroutine
    points to exists, and no coroutine ever leaves state [kInit] (nothing assigns
    another state to [Coroutine::state_]). *)
Definition world_ok (w : co_world) (l : list timer_node) : Prop :=
  Forall (fun n => exists c, cw_pool w !! tn_co n = Some c /\ co_state c = kInit /\
    forall wid, co_wait_ctx c = Some wid -> is_Some (cw_ctxs w !! wid)) l.

Definition has_wait_ctx (pool : list Coroutine) (n : timer_node) : Prop :=
  is_Some (pool !! tn_co n ≫= co_wait_ctx).
#[export] Instance has_wait_ctx_dec pool n : Decision (has_wait_ctx pool n) := _.

(** The nodes the loop takes: a prefix, each due at the reading made for it. *)
Fixpoint due (clk : nat -> Z) (t : nat) (l : list timer_node) : nat :=
  match l with
  | [] => 0
  | n :: l' => if clk t <? tn_when n then 0 else S (due clk (S t) l')
  end.

(** ** Lemmas: the container stays ordered *)

Lemma lower_le_upper l k : (lower_bound l k <= upper_bound l k)%nat.
Proof. induction l as [|n l IH]; cbn; [lia|]. case_ztests; lia. Qed.

Lemma upper_le_length l k : (upper_bound l k <= length l)%nat.
Proof. induction l as [|n l IH]; cbn; [lia|]. case_ztests; lia. Qed.

Lemma lower_bound_zero l k : Forall (fun n => k <= tn_when n) l -> lower_bound l k = 0%nat.
Proof. destruct 1; cbn; [done|]. case_ztests; lia. Qed.

Lemma insert_pos_between l h k :
  (lower_bound l k <= insert_pos l h k <= upper_bound l k)%nat.
Proof. unfold insert_pos. pose proof (lower_le_upper l k). lia. Qed.

Lemma sorted_cons_Forall n l : timers_sorted (n :: l) -> Forall (fun m => tn_when n <= tn_when m) l.
Proof. intros H. apply StronglySorted_inv in H as [_ H]. exact (proj1 (List.Forall_map tn_when _ l) H). Qed.

Lemma insert_at_sorted l i n :
  timers_sorted l -> (lower_bound l (tn_when n) <= i <= upper_bound l (tn_when n))%nat ->
  timers_sorted (insert_at l i n).
Proof.
  unfold timers_sorted, insert_at. revert i. induction l as [|a l IH]; intros i Hs Hi; cbn in *.
  - assert (i = 0)%nat as -> by lia. cbn. repeat constructor.
  - pose proof (sorted_cons_Forall _ _ Hs) as Hall.
    destruct i as [|i]; cbn.
    + destruct (Z.ltb_spec (tn_when a) (tn_when n)); [lia|].
      constructor; [done|]. constructor; [lia|]. apply List.Forall_map.
      eapply Forall_impl; [exact Hall|]. cbn. lia.
    + apply StronglySorted_inv in Hs as [Hs Ha].
      destruct (Z.leb_spec (tn_when a) (tn_when n)); [|lia].
      assert (Hlow : (lower_bound l (tn_when n) <= i)%nat).
      { destruct (Z.ltb_spec (tn_when a) (tn_when n)); [lia|].
        rewrite lower_bound_zero; [lia|]. eapply Forall_impl; [exact Hall|]. cbn. lia. }
      constructor; [apply IH; [done|lia]|].
      rewrite map_app. apply Forall_app; split; [|constructor; [done|]]; apply List.Forall_map.
      * exact (Forall_take _ _ _ (proj1 (List.Forall_map tn_when _ _) Ha)).
      * exact (Forall_drop _ _ _ (proj1 (List.Forall_map tn_when _ _) Ha)).
Qed.

Lemma insert_at_perm {A} (l : list A) i x : insert_at l i x ≡ₚ x :: l.
Proof. unfold insert_at. by rewrite <- Permutation_middle, take_drop. Qed.

Lemma node_index_Some l id : (exists n, n ∈ l /\ tn_id n = id) -> is_Some (node_index l id).
Proof.
  intros (n & Hn & <-). induction Hn as [n l|n m l Hn IH]; cbn.
  - by rewrite Nat.eqb_refl.
  - destruct (Nat.eqb (tn_id m) (tn_id n)); [done|]. destruct IH as [i ->]. done.
Qed.

Lemma node_index_None l id : ~ id ∈ map tn_id l -> node_index l id = None.
Proof.
  induction l as [|n l IH]; cbn; [done|]. intros H.
  destruct (Nat.eqb_spec (tn_id n) id) as [<-|]; [exfalso; apply H; constructor|].
  rewrite IH; [done|]. intros Hin. apply H. by constructor.
Qed.

Lemma AddTimer_wf tm now ms co :
  timers_wf tm -> - 2 ^ 63 <= now + ms < 2 ^ 63 ->
  exists id tm', TimerManager_AddTimer tm now ms co = Ok (id, tm') /\ timers_wf tm' /\
    timer_ tm' ≡ₚ mkNode id (now + ms) co :: timer_ tm /\ it_ tm' = Some id.
Proof.
  intros (Hs & (Hnd & Hlt) & [h Hh]) Hk. unfold TimerManager_AddTimer. rewrite Hh.
  rewrite swrap_small by lia.
  set (n := mkNode (tm_fresh tm) (now + ms) co).
  eexists _, _. split; [reflexivity|]. cbn [timer_ it_].
  pose proof (insert_at_perm (timer_ tm) (insert_pos (timer_ tm) h (now + ms)) n) as Hp.
  split; [|done]. split; [|split; [split|]]; cbn [timer_ it_ tm_fresh].
  - apply insert_at_sorted; [done|]. apply insert_pos_between.
  - rewrite (Permutation_map tn_id Hp). cbn. constructor; [|done].
    intros Hin. apply list_elem_of_fmap in Hin as (m & Hm & Hin).
    rewrite Forall_forall in Hlt. specialize (Hlt m Hin). lia.
  - rewrite Hp. constructor; [cbn; lia|]. eapply Forall_impl; [exact Hlt|]. cbn. lia.
  - apply node_index_Some. exists n. split; [|done]. cbn [timer_]. rewrite Hp. constructor.
Qed.

(** ** Lemmas: collecting *)

Lemma due_le_length clk t l : (due clk t l <= length l)%nat.
Proof. revert t. induction l as [|n l IH]; intros t; cbn; [lia|]. case_ztests; [lia|]. specialize (IH (S t)). lia. Qed.

Lemma cas_expire st :
  0 <= st < 256 -> atomic_compare_swap uint8 st kInit kTimeout = (if st =? kInit then kTimeout else st, st).
Proof.
  intros H. unfold atomic_compare_swap, compare_exchange_n, cell_load.
  assert (E : cast uint8 st = st) by (apply uwrap_small; change (bits uint8) with 8; lia).
  rewrite E. change (cast uint8 kInit) with kInit.
  destruct (Z.eqb_spec st kInit) as [->|]; reflexivity.
Qed.

(** Wait contexts are bytes, and stay so. *)
Definition ctx_bytes (w : co_world) : Prop :=
  map_Forall (fun _ wc => 0 <= wc_state wc < 256) (cw_ctxs w).

(** How the heap moves when timers expire: a context only goes from [kInit] to
    [kTimeout], everything else stays. *)
Definition ctxs_expire (m m' : gmap nat WaitCtx) : Prop :=
  forall wid wc, m !! wid = Some wc ->
    exists wc', m' !! wid = Some wc' /\ wc_co wc' = wc_co wc /\ wc_buf wc' = wc_buf wc /\
      (wc_state wc' = wc_state wc \/ wc_state wc = kInit /\ wc_state wc' = kTimeout).

#[export] Instance ctxs_expire_refl : Reflexive ctxs_expire.
Proof. intros m wid wc H. exists wc. eauto. Qed.

#[export] Instance ctxs_expire_trans : Transitive ctxs_expire.
Proof.
  intros m1 m2 m3 H12 H23 wid wc H.
  destruct (H12 wid wc H) as (wc2 & H2 & Hc & Hb & Hs).
  destruct (H23 wid wc2 H2) as (wc3 & H3 & Hc' & Hb' & Hs').
  exists wc3. split; [done|]. split; [congruence|]. split; [congruence|].
  destruct Hs as [Hs|[Hs1 Hs2]], Hs' as [Hs'|[Hs1' Hs2']]; try (left; congruence);
    right; split; congruence.
Qed.

(** The wait context of the node's coroutine, when it has one, has left [kInit]. *)
Definition ctx_settled (w : co_world) (n : timer_node) : Prop :=
  forall wid, cw_pool w !! tn_co n ≫= co_wait_ctx = Some wid ->
    exists wc, cw_ctxs w !! wid = Some wc /\ wc_state wc <> kInit.

Lemma ctx_settled_mono w w' n :
  cw_pool w' = cw_pool w -> ctxs_expire (cw_ctxs w) (cw_ctxs w') ->
  ctx_settled w n -> ctx_settled w' n.
Proof.
  intros Hp Hx H wid Hwid. rewrite Hp in Hwid. destruct (H wid Hwid) as (wc & Hl & Hs).
  destruct (Hx wid wc Hl) as (wc' & Hl' & _ & _ & [E|[E _]]); [|done].
  exists wc'. split; [done|]. by rewrite E.
Qed.

Lemma expire_spec w n tasks :
  world_ok w [n] -> ctx_bytes w ->
  exists w', expire w (tn_co n) tasks =
      Ok (w', tasks ++ (if decide (has_wait_ctx (cw_pool w) n) then [tn_co n] else [])) /\
    cw_pool w' = cw_pool w /\ ctx_bytes w' /\ ctxs_expire (cw_ctxs w) (cw_ctxs w') /\
    ctx_settled w' n.
Proof.
  intros Hok Hb. apply Forall_singleton in Hok as (c & Hc & Hst & Hwid).
  unfold expire. rewrite Hc.
  assert (Hiff : has_wait_ctx (cw_pool w) n <-> is_Some (co_wait_ctx c)) by (unfold has_wait_ctx; by rewrite Hc).
  destruct (co_wait_ctx c) as [wid|] eqn:Ew.
  - destruct (Hwid wid eq_refl) as [wc Hwc]. rewrite Hwc.
    pose proof (Hb wid wc Hwc) as Hr. cbn beta in Hr. rewrite cas_expire by done.
    rewrite decide_True by (by apply Hiff).
    assert (E : forall A (x y : A), (if wc_state wc =? kInit then x
                 else if co_state c =? kInit then x else y) = x).
    { intros. rewrite Hst. by destruct (wc_state wc =? kInit). }
    rewrite E. eexists. split; [reflexivity|]. cbn. split; [done|]. split; [|split].
    + apply map_Forall_insert_2; [|done]. cbn. destruct (Z.eqb_spec (wc_state wc) kInit); unfold kTimeout; lia.
    + intros wid' wc' Hl. destruct (decide (wid = wid')) as [<-|Hne].
      * rewrite lookup_insert_eq. rewrite Hwc in Hl. injection Hl as <-.
        eexists. split; [done|]. cbn. split; [done|]. split; [done|].
        destruct (Z.eqb_spec (wc_state wc) kInit); [right|left]; done.
      * rewrite lookup_insert_ne by done. exists wc'. eauto.
    + intros wid'. cbn. rewrite Hc. cbn. rewrite Ew. intros [= <-]. eexists.
      split; [apply lookup_insert_eq|]. cbn. by destruct (Z.eqb_spec (wc_state wc) kInit).
  - rewrite decide_False by (rewrite Hiff; intros [x Hx]; done). rewrite app_nil_r.
    exists w. split_and!; try done. intros wid. rewrite Hc. cbn. by rewrite Ew.
Qed.

Lemma world_ok_mono w w' l :
  cw_pool w' = cw_pool w -> ctxs_expire (cw_ctxs w) (cw_ctxs w') -> world_ok w l -> world_ok w' l.
Proof.
  intros Hp Hx H. eapply Forall_impl; [exact H|]. intros n (c & Hc & Hst & Hw). exists c.
  rewrite Hp. split; [done|]. split; [done|]. intros wid Hwid.
  destruct (Hw wid Hwid) as [wc Hwc]. destruct (Hx wid wc Hwc) as (wc' & H' & _). by eexists.
Qed.

Lemma collect_loop_spec clk t l w tasks :
  world_ok w l -> ctx_bytes w ->
  let k := due clk t l in
  exists w', collect_loop clk t l w tasks =
      Ok (drop k l, (t + k + (if decide (k < length l)%nat then 1 else 0))%nat, w',
          tasks ++ map tn_co (filter (has_wait_ctx (cw_pool w)) (take k l))) /\
    cw_pool w' = cw_pool w /\ ctxs_expire (cw_ctxs w) (cw_ctxs w') /\
    Forall (ctx_settled w') (take k l).
Proof.
  revert t w tasks. induction l as [|n l IH]; intros t w tasks Hok Hb; cbn [collect_loop due].
  - exists w. cbn [length take drop]. rewrite decide_False, !Nat.add_0_r by lia.
    cbn. rewrite app_nil_r. by split_and!.
  - destruct (Z.ltb_spec (clk t) (tn_when n)) as [Hlt|Hge].
    + exists w. cbn [length take drop]. rewrite decide_True, Nat.add_0_r, Nat.add_1_r by lia.
      cbn. rewrite app_nil_r. by split_and!.
    + apply Forall_cons in Hok as [Hn Hl].
      destruct (expire_spec w n tasks) as (w1 & -> & Hp & Hb1 & Hx & Hset); [by constructor|done|].
      cbn [obind].
      destruct (IH (S t) w1 (tasks ++ if decide (has_wait_ctx (cw_pool w) n) then [tn_co n] else []))
        as (w2 & -> & Hp2 & Hx2 & Hset2); [eapply world_ok_mono; eauto|done|].
      exists w2. split; [|split_and!; [congruence|by etransitivity|
        constructor; [by apply (ctx_settled_mono w1)|done]]].
      rewrite Hp. cbn [drop take length]. f_equal. f_equal; [f_equal; f_equal|].
      * case_decide; case_decide; lia.
      * rewrite filter_cons, <- app_assoc. f_equal. by case_decide.
Qed.

(** Which nodes the loop takes, when the clock does not go back. *)
Lemma due_taken clk t l :
  (forall i j, (i <= j)%nat -> clk i <= clk j) ->
  Forall (fun n => tn_when n <= clk (t + due clk t l)%nat) (take (due clk t l) l).
Proof.
  intros Hm. revert t. induction l as [|n l IH]; intros t; cbn; [done|].
  destruct (Z.ltb_spec (clk t) (tn_when n)) as [|Hle]; [constructor|]. cbn.
  rewrite <- plus_n_Sm. constructor; [|apply (IH (S t))].
  pose proof (Hm t (S (t + due clk (S t) l)) ltac:(lia)). lia.
Qed.

Lemma due_left clk t l :
  timers_sorted l -> Forall (fun n => clk (t + due clk t l)%nat < tn_when n) (drop (due clk t l) l).
Proof.
  revert t. induction l as [|n l IH]; intros t Hs; cbn; [done|].
  destruct (Z.ltb_spec (clk t) (tn_when n)) as [Hlt|Hle]; cbn.
  - rewrite Nat.add_0_r. constructor; [done|].
    eapply Forall_impl; [exact (sorted_cons_Forall _ _ Hs)|]. cbn. lia.
  - rewrite <- plus_n_Sm. apply (IH (S t)). by apply StronglySorted_inv in Hs as [? _].
Qed.

(** The loop never runs out: collecting gives a result, with this manager and these
    tasks. *)
Lemma CollectTimeoutTasks_result clk t tm w tasks :
  world_ok w (timer_ tm) -> ctx_bytes w ->
  let k := due clk t (timer_ tm) in
  exists ms it' w' t', TimerManager_CollectTimeoutTasks clk t tm w tasks =
      Ok (ms, mkTimerManager (drop k (timer_ tm)) it' (tm_fresh tm), w',
          tasks ++ map tn_co (filter (has_wait_ctx (cw_pool w)) (take k (timer_ tm))), t') /\
    cw_pool w' = cw_pool w /\ ctxs_expire (cw_ctxs w) (cw_ctxs w') /\
    Forall (ctx_settled w') (take k (timer_ tm)).
Proof.
  intros Hok Hb k. unfold TimerManager_CollectTimeoutTasks.
  destruct (collect_loop_spec clk t (timer_ tm) w tasks Hok Hb) as (w' & -> & Hp & Hx & Hs).
  cbn [obind]. fold k in Hs |- *.
  destruct (if Nat.eqb _ _ then _ else _) as [it' t2].
  destruct (drop k (timer_ tm)); eexists _, it', w', _; (split; [reflexivity|done]).
Qed.

(** ** Lemmas: removing a node *)

Lemma node_index_lookup l id i :
  node_index l id = Some i -> exists n, l !! i = Some n /\ tn_id n = id.
Proof.
  revert i. induction l as [|m l IH]; intros i; cbn; [done|].
  destruct (Nat.eqb_spec (tn_id m) id); [intros [= <-]; eauto|].
  destruct (node_index l id) as [j|]; [|done]. intros [= <-]. by apply IH.
Qed.

Lemma StronglySorted_sublist (l k : list Z) : sublist l k -> StronglySorted Z.le k -> StronglySorted Z.le l.
Proof.
  induction 1 as [|x l k H IH|x l k H IH]; intros Hs; [done| |].
  - apply StronglySorted_inv in Hs as [Hs Hx]. constructor; [by apply IH|].
    rewrite Forall_forall in *. intros y Hy. apply Hx. by eapply elem_of_sublist.
  - apply StronglySorted_inv in Hs as [Hs _]. by apply IH.
Qed.

Lemma delete_keeps_index (l : list timer_node) i j n :
  l !! j = Some n -> j <> i -> n ∈ delete i l.
Proof.
  intros Hj Hne. apply list_elem_of_lookup. destruct (decide (j < i)%nat).
  - exists j. by rewrite list_lookup_delete_lt.
  - exists (pred j). rewrite list_lookup_delete_ge by lia. by rewrite Nat.succ_pred by lia.
Qed.

Lemma DelTimer_wf tm id :
  timers_wf tm -> is_Some (node_index (timer_ tm) id) ->
  exists tm' n, TimerManager_DelTimer tm (Some id) = Ok tm' /\ timers_wf tm' /\
    tn_id n = id /\ timer_ tm ≡ₚ n :: timer_ tm'.
Proof.
  intros (Hs & (Hnd & Hlt) & Hh) [i Hi]. unfold TimerManager_DelTimer. rewrite Hi.
  destruct (node_index_lookup _ _ _ Hi) as (n & Hn & Hid).
  eexists _, n. split; [reflexivity|]. cbn [timer_].
  split; [|split; [done|by apply delete_Permutation]].
  pose proof (sublist_delete (timer_ tm) i) as Hsub.
  split; [|split; [split|]]; cbn [timer_ it_ tm_fresh].
  - eapply StronglySorted_sublist; [|exact Hs]. by apply (fmap_sublist tn_when).
  - eapply sublist_NoDup; [exact Hnd|]. by apply (fmap_sublist tn_id).
  - apply Forall_forall. intros m Hm. rewrite Forall_forall in Hlt. apply Hlt.
    by eapply elem_of_sublist.
  - unfold hint_ok. cbn [timer_ it_]. case_decide as E.
    + unfold next_iterator. destruct (timer_ tm !! S i) as [m|] eqn:Em; cbn; [|done].
      apply node_index_Some. exists m. split; [|done].
      eapply delete_keeps_index; [exact Em|lia].
    + unfold hint_ok in Hh. destruct (it_ tm) as [id'|]; cbn in *; [|done].
      destruct Hh as [j Hj]. destruct (node_index_lookup _ _ _ Hj) as (m & Hm & <-).
      apply node_index_Some. exists m. split; [|done].
      eapply delete_keeps_index; [exact Hm|]. intros ->. congruence.
Qed.

(** ** Theorems *)

(** C26: adding a timer and removing one through a live iterator keep the container
    ordered by time, its identities distinct and the insertion hint live; adding inserts
    exactly the one node with deadline [now + ms], removing takes out exactly the node
    the iterator denotes. *)
Theorem timer_container tm now ms co id :
  timers_wf tm -> - 2 ^ 63 <= now + ms < 2 ^ 63 -> is_Some (node_index (timer_ tm) id) ->
  (exists id' tm', TimerManager_AddTimer tm now ms co = Ok (id', tm') /\ timers_wf tm' /\
     timer_ tm' ≡ₚ mkNode id' (now + ms) co :: timer_ tm /\ it_ tm' = Some id') /\
  (exists tm' n, TimerManager_DelTimer tm (Some id) = Ok tm' /\ timers_wf tm' /\
     tn_id n = id /\ timer_ tm ≡ₚ n :: timer_ tm').
Proof. intros. split; [by apply AddTimer_wf|by apply DelTimer_wf]. Qed.

(** C9: collecting always gives a result. It takes a prefix of the timers: every taken
    one was due at the last reading of the loop and every one left is not; the
    coroutines of the taken ones that wait on something are appended to the tasks in
    order of deadline, and their wait contexts have left [kInit]; contexts only go from
    [kInit] to [kTimeout], and nothing else of the heap changes. *)
Theorem CollectTimeoutTasks_spec clk t tm w tasks :
  (forall i j, (i <= j)%nat -> clk i <= clk j) -> timers_sorted (timer_ tm) ->
  world_ok w (timer_ tm) -> ctx_bytes w ->
  exists k ms it' w' t', TimerManager_CollectTimeoutTasks clk t tm w tasks =
      Ok (ms, mkTimerManager (drop k (timer_ tm)) it' (tm_fresh tm), w',
          tasks ++ map tn_co (filter (has_wait_ctx (cw_pool w)) (take k (timer_ tm))), t') /\
    Forall (fun n => tn_when n <= clk (t + k)%nat) (take k (timer_ tm)) /\
    Forall (fun n => clk (t + k)%nat < tn_when n) (drop k (timer_ tm)) /\
    cw_pool w' = cw_pool w /\ ctxs_expire (cw_ctxs w) (cw_ctxs w') /\
    Forall (ctx_settled w') (take k (timer_ tm)).
Proof.
  intros Hm Hs Hok Hb. exists (due clk t (timer_ tm)).
  destruct (CollectTimeoutTasks_result clk t tm w tasks Hok Hb)
    as (ms & it' & w' & t' & E & Hp & Hx & Hset).
  exists ms, it', w', t'. split_and!; try done; [by apply due_taken|by apply due_left].
Qed.

(** A timer whose coroutine waits on nothing (no wait context) is consumed when it
    is due, and its coroutine is not handed to the scheduler: the tasks stay as they
    were. *)
Theorem timer_without_wait_ctx_dropped clk t n it' fresh w c tasks :
  cw_pool w !! tn_co n = Some c -> co_wait_ctx c = None -> tn_when n <= clk t ->
  exists ms tm' t', TimerManager_CollectTimeoutTasks clk t (mkTimerManager [n] it' fresh) w tasks
      = Ok (ms, tm', w, tasks, t') /\ timer_ tm' = [].
Proof.
  intros Hc Hw Hd. unfold TimerManager_CollectTimeoutTasks. cbn [timer_ collect_loop].
  destruct (Z.ltb_spec (clk t) (tn_when n)); [lia|]. unfold expire. rewrite Hc, Hw. cbn. eauto.
Qed.

(** Only the coroutine is noted with a timer, and serving a wait does not remove its timer:
    when it is due, the coroutine is handed to the scheduler although the wait context it
    last used was settled before ([state_] of a coroutine is never anything but [kInit]). *)
Theorem timer_outlives_its_wait clk t n it' fresh w c wid wc tasks :
  cw_pool w !! tn_co n = Some c -> co_wait_ctx c = Some wid -> cw_ctxs w !! wid = Some wc ->
  wc_state wc = kReady -> co_state c = kInit -> tn_when n <= clk t ->
  exists ms tm' w' t', TimerManager_CollectTimeoutTasks clk t (mkTimerManager [n] it' fresh) w tasks
      = Ok (ms, tm', w', tasks ++ [tn_co n], t').
Proof.
  intros Hc Hw Hwc Hst Hco Hd. unfold TimerManager_CollectTimeoutTasks. cbn [timer_ collect_loop].
  destruct (Z.ltb_spec (clk t) (tn_when n)); [lia|]. unfold expire. rewrite Hc, Hw, Hwc, Hst, Hco. cbn. eauto.
Qed.

(** The hint is not moved when its node expires: after the only timer of a manager
    has been collected, the next [AddTimer] passes [multimap::insert] an iterator to an
    erased node. *)
Theorem AddTimer_after_expiry clk t now ms co w tasks now' ms' co' id tm1 r tm2 w' tasks' t' :
  TimerManager_AddTimer TimerManager_new now ms co = Ok (id, tm1) ->
  i64 (now + ms) <= clk t ->
  TimerManager_CollectTimeoutTasks clk t tm1 w tasks = Ok (r, tm2, w', tasks', t') ->
  TimerManager_AddTimer tm2 now' ms' co' = Fault DanglingIterator.
Proof.
  intros E Hd. cbn in E. injection E as <- <-.
  unfold TimerManager_CollectTimeoutTasks. cbn [timer_ collect_loop].
  rewrite (proj2 (Z.ltb_ge _ _)) by exact Hd.
  destruct (expire w _ tasks) as [[w1 tasks1]|f]; [|done]. cbn.
  intros [= <- <- <- <- <-]. reflexivity.
Qed.

(** ** Witnesses *)

Definition tm_sample : TimerManager :=
  mkTimerManager [mkNode 1 10 0; mkNode 0 10 1; mkNode 2 30 0] (Some 2%nat) 3.

Lemma tm_sample_wf : timers_wf tm_sample.
Proof.
  split; [|split; [split|]].
  - repeat constructor; cbn; lia.
  - apply (bool_decide_unpack _). vm_compute. exact I.
  - repeat constructor; cbn; lia.
  - exists 2%nat. reflexivity.
Defined.

Lemma timer_container_witness :
  (exists id' tm', TimerManager_AddTimer tm_sample 5 10 1 = Ok (id', tm') /\ timers_wf tm' /\
     timer_ tm' ≡ₚ mkNode id' (5 + 10) 1 :: timer_ tm_sample /\ it_ tm' = Some id') /\
  (exists tm' n, TimerManager_DelTimer tm_sample (Some 2%nat) = Ok tm' /\ timers_wf tm' /\
     tn_id n = 2%nat /\ timer_ tm_sample ≡ₚ n :: timer_ tm').
Proof.
  apply (timer_container tm_sample 5 10 1 2); [apply tm_sample_wf|lia|cbn; eauto].
Defined.

(** Coroutine 0 waits on context 7, coroutine 1 only sleeps. *)
Definition world_sample : co_world :=
  mkWorld [set_co_wait_ctx (Coroutine_new []) (Some 7%nat); Coroutine_new []]
    {[ 7%nat := mkWaitCtx (Some 0%nat) kInit 0 ]}.

Lemma world_sample_ok : world_ok world_sample (timer_ tm_sample) /\ ctx_bytes world_sample.
Proof.
  split.
  - repeat constructor; eexists; (split; [reflexivity|]); (split; [reflexivity|]);
      cbn; intros wid [= <-]; eexists; reflexivity.
  - apply map_Forall_singleton. cbn. unfold kInit. lia.
Defined.

Lemma CollectTimeoutTasks_spec_witness :
  exists k ms it' w' t', TimerManager_CollectTimeoutTasks (fun i => 20 + Z.of_nat i) 0 tm_sample
      world_sample [] =
      Ok (ms, mkTimerManager (drop k (timer_ tm_sample)) it' 3, w',
          [] ++ map tn_co (filter (has_wait_ctx (cw_pool world_sample)) (take k (timer_ tm_sample))), t') /\
    Forall (fun n => tn_when n <= 20 + Z.of_nat (0 + k)) (take k (timer_ tm_sample)) /\
    Forall (fun n => 20 + Z.of_nat (0 + k) < tn_when n) (drop k (timer_ tm_sample)) /\
    cw_pool w' = cw_pool world_sample /\ ctxs_expire (cw_ctxs world_sample) (cw_ctxs w') /\
    Forall (ctx_settled w') (take k (timer_ tm_sample)).
Proof.
  apply (CollectTimeoutTasks_spec (fun i => 20 + Z.of_nat i) 0 tm_sample world_sample []).
  - intros; lia.
  - apply tm_sample_wf.
  - apply world_sample_ok.
  - apply world_sample_ok.
Defined.

Lemma timer_without_wait_ctx_dropped_witness :
  exists ms tm' t', TimerManager_CollectTimeoutTasks (fun _ => 20) 0
      (mkTimerManager [mkNode 0 10 1] (Some 0%nat) 1) world_sample [] = Ok (ms, tm', world_sample, [], t') /\
    timer_ tm' = [].
Proof.
  apply (timer_without_wait_ctx_dropped (fun _ => 20) 0 (mkNode 0 10 1) (Some 0%nat) 1 world_sample
           (Coroutine_new []) []); [reflexivity|reflexivity|cbn; lia].
Defined.

Lemma AddTimer_after_expiry_witness :
  TimerManager_AddTimer (mkTimerManager [] (Some 0%nat) 1) 30 5 0 = Fault DanglingIterator.
Proof.
  eapply (AddTimer_after_expiry (fun _ => 20) 0 5 10 1 world_sample [] 30 5 0);
    [reflexivity|vm_compute; discriminate|reflexivity].
Defined.
