(* ===== verification/Arch.v ===== *)
(** * arch.h and context.S: which machine the context switch is assembled for

    The preprocessor sees the macros that the compiler defines ([macros]: the value of a
    macro, if it is defined); arch.h derives the machine and the size of a word from them,
    and context.S includes the code of that machine. *)

From stdpp Require Import base strings.
From Stdlib Require Import Lia ZArith.
From S2P Require Import Prelude.
Open Scope string_scope.
Open Scope Z_scope.

Definition macros : Type := string -> option Z.

Definition defined (m : macros) (s : string) : bool := match m s with Some _ => true | None => false end.
(** In an [#if], a macro that is not defined is 0. *)
Definition value (m : macros) (s : string) : Z := match m s with Some v => v | None => 0 end.

(** ** arch.h *)

Inductive Arch : Type := ARCH_X86 | ARCH_X64 | ARCH_ARM64 | ARCH_ARM | ARCH_MIPS.

#[export] Instance Arch_eq_dec : EqDecision Arch.
Proof. solve_decision. Defined.

(** No result is [#error unknown arch]. A machine with [ARCH_ARM64] has [ARCH_ARM] too. *)
Definition arch_of (m : macros) : option Arch :=
  if defined m "__i386" || defined m "__i686" || defined m "__i386__" || defined m "__i686__" ||
     defined m "_M_IX86" then Some ARCH_X86
  else if defined m "__x86_64" || defined m "__amd64__" || defined m "__amd64" || defined m "_M_IA64" ||
     defined m "_M_X64" then Some ARCH_X64
  else if defined m "__arm64" || defined m "__arm64__" ||
     (defined m "__aarch64__" && negb (value m "__aarch64__" =? 0)) then Some ARCH_ARM64
  else if defined m "__arm__" then Some ARCH_ARM
  else if defined m "mips" || defined m "_mips" || defined m "__mips__" then Some ARCH_MIPS
  else None.

Definition has_ARCH_ARM (a : Arch) : bool := match a with ARCH_ARM64 | ARCH_ARM => true | _ => false end.

Inductive ArmVersion : Type :=
| ARCH_ARM_v8 | ARCH_ARM_v7A | ARCH_ARM_v7 | ARCH_ARM_v6 | ARCH_ARM_v5te | ARCH_ARM_v5 | ARCH_ARM_v4t | ARCH_ARM_v3.

(** No result is [#error unknown arm arch version]. *)
Definition arm_version (m : macros) : option ArmVersion :=
  if defined m "__ARM64_ARCH_8__" then Some ARCH_ARM_v8
  else if defined m "__ARM_ARCH_7A__" then Some ARCH_ARM_v7A
  else if defined m "__ARM_ARCH_7__" then Some ARCH_ARM_v7
  else if defined m "__ARM_ARCH_6__" then Some ARCH_ARM_v6
  else if defined m "__ARM_ARCH_5TE__" then Some ARCH_ARM_v5te
  else if defined m "__ARM_ARCH_5__" then Some ARCH_ARM_v5
  else if defined m "__ARM_ARCH_4T__" then Some ARCH_ARM_v4t
  else if defined m "__ARM_ARCH_3__" then Some ARCH_ARM_v3
  else if defined m "__ARM_ARCH" then
    if 8 <=? value m "__ARM_ARCH" then Some ARCH_ARM_v8
    else if 7 <=? value m "__ARM_ARCH" then Some ARCH_ARM_v7
    else if 6 <=? value m "__ARM_ARCH" then Some ARCH_ARM_v6
    else Some ARCH_ARM_v5
  else if defined m "__aarch64__" && negb (value m "__aarch64__" =? 0) then Some ARCH_ARM_v8
  else None.

Definition ARCH_ARM_NEON (m : macros) (a : Arch) : bool := has_ARCH_ARM a && defined m "__ARM_NEON__".
Definition ARCH_VFP (m : macros) : bool := defined m "__VFP_FP__".

Definition CPU_BIT_SIZE (m : macros) : Z :=
  if defined m "__LP64__" || defined m "__64BIT__" || defined m "_LP64" || defined m "__x86_64" ||
     defined m "__x86_64__" || defined m "__amd64" || defined m "__amd64__" || defined m "__arm64" ||
     defined m "__arm64__" || defined m "__sparc64__" || defined m "__PPC64__" || defined m "__ppc64__" ||
     defined m "__powerpc64__" || defined m "_M_X64" || defined m "_M_AMD64" || defined m "_M_IA64" ||
     (defined m "__WORDSIZE" && (value m "__WORDSIZE" =? 64)) then 64 else 32.
Definition CPU_BYTE_SIZE (m : macros) : Z := if CPU_BIT_SIZE m =? 64 then 8 else 4.

Record arch_h : Type := mkArch {
  ah_arch : Arch; ah_arm : option ArmVersion; ah_neon : bool; ah_vfp : bool; ah_cpu_bytes : Z }.

(** The whole header; no result when it stops at an [#error]. *)
Definition include_arch (m : macros) : option arch_h :=
  match arch_of m with
  | None => None
  | Some a =>
      if has_ARCH_ARM a then
        match arm_version m with
        | None => None
        | Some v => Some (mkArch a (Some v) (ARCH_ARM_NEON m a) (ARCH_VFP m) (CPU_BYTE_SIZE m))
        end
      else Some (mkArch a None (ARCH_ARM_NEON m a) (ARCH_VFP m) (CPU_BYTE_SIZE m))
  end.

(** ** context.S *)

(** The files that context.S includes, the macros of the directives and then the code. *)
Definition context_S (a : Arch) : string * string :=
  match a with
  | ARCH_X86 => ("prefix_x86_64.S", "context_x86.S")
  | ARCH_X64 => ("prefix_x86_64.S", "context_x64.S")
  | ARCH_ARM64 => ("prefix_arm64.S", "context_arm64.S")
  | ARCH_ARM => ("prefix_arm.S", "context_arm.S")
  | ARCH_MIPS => ("prefix_mips.S", "context_mips.S")
  end%string.

(** ** What is selected *)

(** The code for 64-bit machines is never assembled with a word of 32 bits: the names that
    select it are among those that say how wide a word is, except for [__aarch64__], which
    comes with [__LP64__] where pointers have 64 bits. *)
Lemma arch_64_bits m h : include_arch m = Some h ->
  (defined m "__aarch64__" = true -> defined m "__LP64__" = true) ->
  ah_arch h = ARCH_X64 \/ ah_arch h = ARCH_ARM64 -> ah_cpu_bytes h = 8.
Proof.
  intros Hi Hlp Ha.
  assert (Hc : ah_cpu_bytes h = CPU_BYTE_SIZE m /\ arch_of m = Some (ah_arch h)).
  { unfold include_arch in Hi. destruct (arch_of m) as [a|]; [|done].
    destruct (has_ARCH_ARM a); [destruct (arm_version m); [|done]|]; injection Hi as <-; done. }
  destruct Hc as [-> Hof]. clear Hi. unfold CPU_BYTE_SIZE.
  assert (E : CPU_BIT_SIZE m = 64); [|by rewrite E].
  unfold CPU_BIT_SIZE. unfold arch_of in Hof. revert Hof.
  destruct (defined m "__x86_64"), (defined m "__amd64__"), (defined m "__amd64"), (defined m "_M_IA64"),
    (defined m "_M_X64"), (defined m "__arm64"), (defined m "__arm64__"); rewrite ?orb_true_r; cbn [orb andb];
    try done; repeat case_match; intros [= E]; try done; destruct Ha as [Ha|Ha]; rewrite Ha in E; try done.
  all: destruct (defined m "__aarch64__"); [|done]; rewrite (Hlp eq_refl) in *; done.
Qed.

(** The compilers of the systems that the library names. *)
Definition of_list (l : list (string * Z)) : macros :=
  fun s => match find (fun p => String.eqb (fst p) s) l with Some p => Some (snd p) | None => None end.

Definition gcc_x86_64 : macros := of_list [("__x86_64", 1); ("__x86_64__", 1); ("__amd64", 1); ("__amd64__", 1); ("__LP64__", 1); ("_LP64", 1)].
Definition gcc_i386 : macros := of_list [("__i386", 1); ("__i386__", 1)].
Definition gcc_aarch64 : macros := of_list [("__aarch64__", 1); ("__ARM_ARCH", 8); ("__LP64__", 1); ("_LP64", 1)].
Definition gcc_armhf : macros := of_list [("__arm__", 1); ("__ARM_ARCH", 7); ("__ARM_ARCH_7A__", 1); ("__VFP_FP__", 1); ("__ARM_NEON__", 1)].
Definition gcc_mips : macros := of_list [("mips", 1); ("_mips", 1); ("__mips__", 1)].
Definition msvc_x64 : macros := of_list [("_M_X64", 100); ("_M_AMD64", 100)].

Example compilers_select :
  (include_arch gcc_x86_64, include_arch gcc_i386, include_arch gcc_aarch64) =
    (Some (mkArch ARCH_X64 None false false 8), Some (mkArch ARCH_X86 None false false 4),
     Some (mkArch ARCH_ARM64 (Some ARCH_ARM_v8) false false 8)) /\
  (include_arch gcc_armhf, include_arch gcc_mips, include_arch msvc_x64, include_arch (of_list [])) =
    (Some (mkArch ARCH_ARM (Some ARCH_ARM_v7A) true true 4), Some (mkArch ARCH_MIPS None false false 4),
     Some (mkArch ARCH_X64 None false false 8), None).
Proof. split; reflexivity. Qed.
