(* ===== verification/Context.v ===== *)
(** * context_x64.S: the context switch, on a small x86-64 machine

    The registers hold 64-bit values, memory is byte-addressed, and the two functions of
    context_x64.S (the System V branch) are the lists of their instructions. [exec] runs
    a list; only its last instruction transfers control, to the address left in [rip].
    Accesses that straddle the end of the address space are not given a meaning. *)

From stdpp Require Import base numbers list list_numbers.
From Stdlib Require Import Lia ZArith.
From S2P Require Import Prelude.

(** ** Memory *)

Definition memory : Type := Z -> Z.

(** [memcpy(a, bytes, length bytes)] and the [n] bytes at [a]. *)
Definition write_bytes (m : memory) (a : Z) (bytes : list Z) : memory :=
  fun x => if (a <=? x) && (x <? a + Z.of_nat (length bytes))
           then nth (Z.to_nat (x - a)) bytes 0 else m x.
Definition read_bytes (m : memory) (a : Z) (n : nat) : list Z :=
  map (fun i => m (a + Z.of_nat i)) (seq 0 n).

Definition store64 (m : memory) (a v : Z) : memory := write_bytes m a (Z_to_little_endian 8 8 v).
Definition load64 (m : memory) (a : Z) : Z := little_endian_to_Z 8 (read_bytes m a 8).

(** [m] and [m'] hold the same bytes from [a] on, [n] of them. *)
Definition same_bytes (m m' : memory) (a n : Z) : Prop := forall x, a <= x < a + n -> m x = m' x.

(** ** The machine *)

Inductive reg : Type :=
| RAX | RCX | RDX | RBX | RSP | RBP | RSI | RDI | R8 | R12 | R13 | R14 | R15.

#[export] Instance reg_eq_dec : EqDecision reg.
Proof. solve_decision. Defined.

Record machine : Type := mkMachine { regs : reg -> Z; mem : memory; rip : Z }.

Definition set_reg (m : machine) (r : reg) (v : Z) : machine :=
  mkMachine (fun r' => if decide (r' = r) then u64 v else regs m r') (mem m) (rip m).
Definition set_mem (m : machine) (a v : Z) : machine :=
  mkMachine (regs m) (store64 (mem m) a v) (rip m).
Definition set_rip (m : machine) (a : Z) : machine := mkMachine (regs m) (mem m) a.

Inductive instr : Type :=
| Push (r : reg)
| Pop (r : reg)
| Movq (src dst : reg)
| Movabs (imm : Z) (dst : reg)
| Addq (src dst : reg)
| Andq (src dst : reg)
| Leaq (off : Z) (base dst : reg)
| Lea_label (addr : Z) (dst : reg)
| Store (src : reg) (off : Z) (base : reg)
| Jmp (r : reg)
| Ret.

Definition step_instr (m : machine) (i : instr) : machine :=
  match i with
  | Push r =>
      let sp := u64 (regs m RSP - 8) in
      set_mem (set_reg m RSP sp) sp (regs m r)
  | Pop r =>
      let v := load64 (mem m) (regs m RSP) in
      set_reg (set_reg m RSP (regs m RSP + 8)) r v
  | Movq src dst => set_reg m dst (regs m src)
  | Movabs imm dst => set_reg m dst imm
  | Addq src dst => set_reg m dst (regs m dst + regs m src)
  | Andq src dst => set_reg m dst (Z.land (regs m dst) (regs m src))
  | Leaq off base dst => set_reg m dst (regs m base + off)
  | Lea_label addr dst => set_reg m dst addr
  | Store src off base => set_mem m (u64 (regs m base + off)) (regs m src)
  | Jmp r => set_rip m (regs m r)
  | Ret => set_rip (set_reg m RSP (regs m RSP + 8)) (load64 (mem m) (regs m RSP))
  end.

Definition exec (code : list instr) (m : machine) : machine := foldl step_instr m code.

(** ** The code; [entry] and [end_] are the addresses of the labels *)

Section code.
Context (entry end_ : Z).

Definition tb_context_make : list instr :=
  [ Addq RSI RDI; Movq RDI RAX;
    Movabs (-16) R8; Andq R8 RAX;
    Leaq (-56) RAX RAX;
    Store RDX 32 RAX;
    Lea_label entry RCX; Store RCX 48 RAX;
    Lea_label end_ RCX; Store RCX 40 RAX;
    Ret ].
End code.

Definition tb_context_entry : list instr := [ Movq RAX RDI; Push RBP; Jmp RBX ].

Definition tb_context_jump : list instr :=
  [ Push RBP; Push RBX; Push R15; Push R14; Push R13; Push R12;
    Movq RSP RAX;
    Movq RDI RSP;
    Pop R12; Pop R13; Pop R14; Pop R15; Pop RBX; Pop RBP;
    Pop R8;
    Movq RSI RDX;
    Jmp R8 ].

(** ** Conventions *)

(** Registers hold 64-bit values. *)
Definition machine_ok (m : machine) : Prop := forall r, 0 <= regs m r < 2 ^ 64.

(** What a call must find unchanged on return. *)
Definition callee_saved : list reg := [RBX; RBP; R12; R13; R14; R15].

(** Ranges of addresses that do not meet. *)
Definition disjoint_ranges (a n b k : Z) : Prop := a + n <= b \/ b + k <= a.

(** Where [tb_context_make] puts the context of a stack, and the words it writes there. *)
Definition context_of (stackdata stacksize : Z) : Z :=
  16 * ((stackdata + stacksize) / 16) - 56.
Definition made_context (entry end_ : Z) (m : memory) (ctx func : Z) : memory :=
  store64 (store64 (store64 m (ctx + 32) func) (ctx + 48) entry) (ctx + 40) end_.

(** ** Lemmas: memory *)

Lemma write_bytes_outside m a bytes x :
  x < a \/ a + Z.of_nat (length bytes) <= x -> write_bytes m a bytes x = m x.
Proof.
  intros H. unfold write_bytes.
  destruct (Z.leb_spec a x), (Z.ltb_spec x (a + Z.of_nat (length bytes))); cbn; lia || done.
Qed.

Lemma write_bytes_inside m a bytes x :
  a <= x < a + Z.of_nat (length bytes) -> write_bytes m a bytes x = nth (Z.to_nat (x - a)) bytes 0.
Proof.
  intros H. unfold write_bytes.
  destruct (Z.leb_spec a x), (Z.ltb_spec x (a + Z.of_nat (length bytes))); cbn; lia || done.
Qed.

Lemma read_write_bytes m a bytes : read_bytes (write_bytes m a bytes) a (length bytes) = bytes.
Proof.
  apply list_eq. intros i. unfold read_bytes.
  rewrite list_lookup_fmap. destruct (decide (i < length bytes)%nat) as [Hi|Hi].
  - rewrite lookup_seq_lt by done. cbn. rewrite write_bytes_inside by lia.
    replace (Z.to_nat (a + Z.of_nat i - a)) with i by lia.
    destruct (nth_lookup_or_length bytes i 0); [done|lia].
  - rewrite lookup_seq_ge, (lookup_ge_None_2 bytes) by lia. done.
Qed.

Lemma read_bytes_same m m' a n : same_bytes m m' a (Z.of_nat n) -> read_bytes m a n = read_bytes m' a n.
Proof.
  intros H. apply list_fmap_ext. intros i x Hx. apply lookup_seq in Hx as [-> Hx]. apply H. lia.
Qed.

Lemma length_word v : length (Z_to_little_endian 8 8 v) = 8%nat.
Proof. apply Nat2Z.inj. by rewrite length_Z_to_little_endian. Qed.

Lemma load_store_same m a v : 0 <= v < 2 ^ 64 -> load64 (store64 m a v) a = v.
Proof.
  intros Hv. unfold load64, store64.
  pose proof (read_write_bytes m a (Z_to_little_endian 8 8 v)) as E.
  rewrite length_word in E. rewrite E, little_endian_to_Z_to_little_endian by lia.
  by apply Z.mod_small.
Qed.

Lemma load_same m m' a : same_bytes m m' a 8 -> load64 m a = load64 m' a.
Proof. intros H. unfold load64. f_equal. by apply read_bytes_same. Qed.

Lemma store64_outside m a v x : x < a \/ a + 8 <= x -> store64 m a v x = m x.
Proof. intros H. apply write_bytes_outside. rewrite length_word. lia. Qed.

Lemma load_store_other m a v b : disjoint_ranges a 8 b 8 -> load64 (store64 m a v) b = load64 m b.
Proof.
  intros H. apply load_same. intros x Hx. apply store64_outside. unfold disjoint_ranges in H. lia.
Qed.

(** Decides the comparisons between registers that updates leave. *)
Ltac case_regs := repeat first [rewrite decide_True by done | rewrite decide_False by done].

(** ** Lemmas: sequences of pushes and pops *)

(** Memory after the registers [rs] have been pushed from [sp] down. *)
Fixpoint push_mem (m : memory) (g : reg -> Z) (sp : Z) (rs : list reg) : memory :=
  match rs with
  | [] => m
  | r :: rs' => push_mem (store64 m (sp - 8) (g r)) g (sp - 8) rs'
  end.

Lemma push_mem_outside m g sp rs x :
  x < sp - 8 * Z.of_nat (length rs) \/ sp <= x -> push_mem m g sp rs x = m x.
Proof.
  revert m sp. induction rs as [|r rs IH]; intros m sp H; cbn [push_mem length] in *; [done|].
  rewrite IH by lia. apply store64_outside. lia.
Qed.

Lemma push_mem_load m g sp rs i r :
  rs !! i = Some r -> 0 <= g r < 2 ^ 64 ->
  load64 (push_mem m g sp rs) (sp - 8 * (Z.of_nat i + 1)) = g r.
Proof.
  intros Hi Hr. revert m sp i Hi. induction rs as [|r' rs IH]; intros m sp [|i] Hi; cbn in Hi; try done.
  - injection Hi as ->. cbn [push_mem].
    replace (sp - 8 * (Z.of_nat 0 + 1)) with (sp - 8) by lia.
    rewrite (load_same _ (store64 m (sp - 8) (g r))); [by apply load_store_same|].
    intros x Hx. apply push_mem_outside. lia.
  - cbn [push_mem]. rewrite <- (IH (store64 m (sp - 8) (g r')) (sp - 8) i Hi). f_equal. lia.
Qed.

Lemma push_mem_ext m g g' sp rs :
  (forall r, r ∈ rs -> g r = g' r) -> push_mem m g sp rs = push_mem m g' sp rs.
Proof.
  revert m sp. induction rs as [|r rs IH]; intros m sp H; cbn; [done|].
  rewrite (H r) by constructor. apply IH. intros x Hx. apply H. by constructor.
Qed.

Lemma set_reg_ok m r v : machine_ok m -> machine_ok (set_reg m r v).
Proof. intros H r'. cbn -[uwrap]. case_decide; [by apply uwrap_range|apply H]. Qed.

Lemma exec_ok code m : machine_ok m -> machine_ok (exec code m).
Proof.
  revert m. induction code as [|i code IH]; intros m H; [done|]. apply IH.
  destruct i; cbn [step_instr]; unfold set_mem, set_rip; auto using set_reg_ok;
    intros r'; cbn [regs]; repeat apply set_reg_ok; done.
Qed.

Lemma exec_app c1 c2 m : exec (c1 ++ c2) m = exec c2 (exec c1 m).
Proof. apply foldl_app. Qed.

Lemma exec_pushes rs m :
  RSP ∉ rs -> 0 <= regs m RSP < 2 ^ 64 -> 8 * Z.of_nat (length rs) <= regs m RSP ->
  let m' := exec (map Push rs) m in
  mem m' = push_mem (mem m) (regs m) (regs m RSP) rs /\ rip m' = rip m /\
  regs m' RSP = regs m RSP - 8 * Z.of_nat (length rs) /\
  forall r, r <> RSP -> regs m' r = regs m r.
Proof.
  revert m. induction rs as [|r rs IH]; intros m Hni Hsp Hlen; cbn [map exec foldl length push_mem].
  - split_and!; try done. cbn. lia.
  - apply not_elem_of_cons in Hni as [Hr Hni]. cbn [length] in Hlen.
    set (m1 := step_instr m (Push r)).
    assert (Hsp1 : regs m1 RSP = regs m RSP - 8).
    { unfold m1. cbn -[uwrap]. rewrite uwrap_idem. apply uwrap_small. lia. }
    assert (Hr1 : forall x, x <> RSP -> regs m1 x = regs m x).
    { intros x Hx. unfold m1. cbn -[uwrap]. by destruct x. }
    destruct (IH m1 Hni) as (Hmem & Hrip & Hsp' & Hregs); [lia|lia|].
    fold (exec (map Push rs) m1). split_and!.
    + rewrite Hmem, Hsp1. unfold m1 at 1. cbn [step_instr set_mem set_reg mem].
      rewrite uwrap_small by lia. apply push_mem_ext. intros x Hx. apply Hr1. by intros ->.
    + by rewrite Hrip.
    + rewrite Hsp', Hsp1. lia.
    + intros x Hx. by rewrite Hregs, Hr1.
Qed.

Lemma exec_pops rs m :
  RSP ∉ rs -> NoDup rs -> 0 <= regs m RSP -> regs m RSP + 8 * Z.of_nat (length rs) < 2 ^ 64 ->
  let m' := exec (map Pop rs) m in
  mem m' = mem m /\ rip m' = rip m /\ regs m' RSP = regs m RSP + 8 * Z.of_nat (length rs) /\
  (forall i r, rs !! i = Some r -> regs m' r = u64 (load64 (mem m) (regs m RSP + 8 * Z.of_nat i))) /\
  (forall r, r ∉ rs -> r <> RSP -> regs m' r = regs m r).
Proof.
  revert m. induction rs as [|r rs IH]; intros m Hni Hnd Hsp Hlen; cbn [map exec foldl length].
  - split_and!; try done. lia.
  - apply not_elem_of_cons in Hni as [Hr Hni]. apply NoDup_cons in Hnd as [Hr' Hnd].
    cbn [length] in Hlen. set (m1 := step_instr m (Pop r)).
    assert (Hsp1 : regs m1 RSP = regs m RSP + 8).
    { unfold m1. cbn -[uwrap load64 Z.add]. destruct (decide (RSP = r)); [done|]. rewrite decide_True, uwrap_small by (done || lia). done. }
    assert (Hr1 : regs m1 r = u64 (load64 (mem m) (regs m RSP))).
    { unfold m1. cbn -[uwrap load64 Z.add]. by rewrite decide_True. }
    assert (Hx1 : forall x, x <> r -> x <> RSP -> regs m1 x = regs m x).
    { intros x H1 H2. unfold m1. cbn -[uwrap load64 Z.add]. by rewrite !decide_False. }
    destruct (IH m1 Hni Hnd) as (Hmem & Hrip & Hsp' & Hregs & Hrest); [lia|lia|].
    fold (exec (map Pop rs) m1). split_and!.
    + by rewrite Hmem.
    + by rewrite Hrip.
    + rewrite Hsp', Hsp1. lia.
    + intros [|i] x Hi; cbn in Hi.
      * injection Hi as <-. rewrite Hrest, Hr1 by done. do 2 f_equal. lia.
      * rewrite (Hregs i x Hi). change (mem m1) with (mem m). do 2 f_equal. lia.
    + intros x Hx Hx'. apply not_elem_of_cons in Hx as [Hx1' Hx2]. rewrite Hrest, Hx1 by done. done.
Qed.

(** ** Lemmas: the two functions *)

Definition saved_regs : list reg := [RBP; RBX; R15; R14; R13; R12].
Definition restored_regs : list reg := [R12; R13; R14; R15; RBX; RBP; R8].

(** Memory after the pushes of a jump. *)
Definition pushed (m : machine) : memory := push_mem (mem m) (regs m) (regs m RSP) saved_regs.

Lemma tb_context_jump_split :
  tb_context_jump = map Push saved_regs ++ [Movq RSP RAX; Movq RDI RSP] ++ map Pop restored_regs ++
                    [Movq RSI RDX; Jmp R8].
Proof. reflexivity. Qed.

(** The two moves in the middle of a jump, and its end. *)
Lemma exec_switch m :
  machine_ok m ->
  exists m', exec [Movq RSP RAX; Movq RDI RSP] m = m' /\ mem m' = mem m /\
    regs m' RSP = regs m RDI /\ regs m' RAX = regs m RSP /\ regs m' RSI = regs m RSI.
Proof.
  intros Hm. eexists. split; [reflexivity|]. cbn -[uwrap]. case_regs.
  split_and!; try done; apply uwrap_small, Hm.
Qed.

Lemma exec_jump_end m :
  0 <= regs m RSI < 2 ^ 64 ->
  exists m', exec [Movq RSI RDX; Jmp R8] m = m' /\ mem m' = mem m /\ rip m' = regs m R8 /\
    regs m' RDX = regs m RSI /\ forall r, r <> RDX -> regs m' r = regs m r.
Proof.
  intros Hm. eexists. split; [reflexivity|]. cbn -[uwrap]. case_regs.
  split_and!; try done; [by apply uwrap_small|]. intros r Hr. by case_regs.
Qed.

(** A jump leaves the old context in [rax], takes the six registers and the address to go
    on at from the new one, and [rsp] above it. *)
Lemma jump_effect m m' :
  machine_ok m -> 48 <= regs m RSP -> regs m RDI + 56 < 2 ^ 64 -> exec tb_context_jump m = m' ->
  mem m' = pushed m /\ rip m' = u64 (load64 (pushed m) (regs m RDI + 48)) /\
  regs m' RSP = regs m RDI + 56 /\ regs m' RAX = regs m RSP - 48 /\
  regs m' RDX = regs m RSI /\ regs m' RSI = regs m RSI /\
  forall i r, restored_regs !! i = Some r -> regs m' r = u64 (load64 (pushed m) (regs m RDI + 8 * Z.of_nat i)).
Proof.
  intros Hm Hsp Hctx. rewrite tb_context_jump_split, !exec_app.
  destruct (exec_pushes saved_regs m) as (Hmem & Hrip & Hsp1 & Hregs);
    [by apply (bool_decide_unpack _)|apply Hm|exact Hsp|].
  change (8 * Z.of_nat (length saved_regs)) with 48 in Hsp1.
  set (m1 := exec (map Push saved_regs) m) in *. clearbody m1.
  assert (Hm1 : machine_ok m1).
  { intros r. destruct (decide (r = RSP)) as [-> |Hr]; [|rewrite Hregs by done; apply Hm].
    rewrite Hsp1. pose proof (Hm RSP). lia. }
  destruct (exec_switch m1 Hm1) as (m2 & -> & Hm2 & Hs2 & Ha2 & Hi2).
  rewrite Hregs in Hs2, Hi2 by done. rewrite Hsp1 in Ha2. rewrite Hmem in Hm2.
  destruct (exec_pops restored_regs m2) as (Hmem3 & _ & Hsp3 & Hpop & Hrest);
    [by apply (bool_decide_unpack _)|by apply (bool_decide_unpack _)| | |];
    rewrite ?Hs2; [apply Hm|exact Hctx|].
  change (8 * Z.of_nat (length restored_regs)) with 56 in Hsp3.
  set (m3 := exec (map Pop restored_regs) m2) in *. clearbody m3.
  assert (Hsi : regs m3 RSI = regs m RSI)
    by (rewrite Hrest; [done|by apply (bool_decide_unpack _)|done]).
  assert (Hax : regs m3 RAX = regs m RSP - 48)
    by (rewrite Hrest; [done|by apply (bool_decide_unpack _)|done]).
  destruct (exec_jump_end m3) as (m4 & -> & Hm4 & Hrip4 & Hd4 & Hr4); [rewrite Hsi; apply Hm|].
  intros <-. rewrite Hm4, Hrip4, Hd4, !Hr4, Hmem3, Hsp3, Hax, Hs2, Hsi by done.
  rewrite Hm2, Hs2 in Hpop. split_and!; try done.
  - by rewrite (Hpop 6%nat R8 eq_refl).
  - intros i r Hi. rewrite Hr4; [by apply Hpop|]. intros ->.
    apply list_elem_of_lookup_2 in Hi. revert Hi. by apply (bool_decide_unpack _).
Qed.

(** The frame a jump leaves at [rsp - 48] holds the callee-saved registers and, above
    them, the return address. *)
Lemma pushed_frame m i r :
  machine_ok m -> saved_regs !! i = Some r ->
  load64 (pushed m) (regs m RSP - 8 * (Z.of_nat i + 1)) = regs m r.
Proof. intros Hm Hi. apply push_mem_load; [done|apply Hm]. Qed.

Lemma pushed_outside m x :
  x < regs m RSP - 48 \/ regs m RSP <= x -> pushed m x = mem m x.
Proof. intros H. apply push_mem_outside. cbn. lia. Qed.

Lemma u64_load m a : (forall x, 0 <= m x < 256) -> u64 (load64 m a) = load64 m a.
Proof.
  intros H. apply uwrap_small. unfold load64.
  apply (little_endian_to_Z_bound 8); [lia|]. apply Forall_forall. intros b Hb.
  apply list_elem_of_fmap in Hb as (i & -> & _). apply H.
Qed.

Lemma align16 x : 0 <= x < 2 ^ 64 -> Z.land x (u64 (-16)) = 16 * (x / 16).
Proof.
  intros Hx. change (u64 (-16)) with (Z.land (-16) (Z.ones 64)).
  rewrite (Z.land_comm (-16)), Z.land_assoc, Z.land_ones, Z.mod_small by lia.
  change (-16) with (Z.lnot (Z.ones 4)). rewrite <- Z.ldiff_land, Z.ldiff_ones_r by lia.
  rewrite Z.shiftl_mul_pow2, Z.shiftr_div_pow2 by lia. change (2 ^ 4) with 16. lia.
Qed.

Lemma tb_context_make_split entry end_ :
  tb_context_make entry end_ =
    [Addq RSI RDI; Movq RDI RAX] ++ [Movabs (-16) R8; Andq R8 RAX] ++ [Leaq (-56) RAX RAX] ++
    [Store RDX 32 RAX] ++ [Lea_label entry RCX; Store RCX 48 RAX] ++
    [Lea_label end_ RCX; Store RCX 40 RAX] ++ [Ret].
Proof. reflexivity. Qed.

Lemma exec_top m :
  0 <= regs m RDI + regs m RSI < 2 ^ 64 ->
  exists m', exec [Addq RSI RDI; Movq RDI RAX] m = m' /\ mem m' = mem m /\
    regs m' RAX = regs m RDI + regs m RSI /\ regs m' RDX = regs m RDX /\ regs m' RSP = regs m RSP.
Proof.
  intros H. eexists. split; [reflexivity|]. cbn -[uwrap Z.add]. case_regs.
  rewrite uwrap_idem. split_and!; try done. by apply uwrap_small.
Qed.

Lemma exec_align m :
  0 <= regs m RAX < 2 ^ 64 ->
  exists m', exec [Movabs (-16) R8; Andq R8 RAX] m = m' /\ mem m' = mem m /\
    regs m' RAX = 16 * (regs m RAX / 16) /\ regs m' RDX = regs m RDX /\ regs m' RSP = regs m RSP.
Proof.
  intros H. eexists. split; [reflexivity|]. cbn -[uwrap Z.mul Z.div Z.land]. case_regs.
  rewrite align16 by done. split_and!; try done. apply uwrap_small.
  pose proof (Z_div_mod_eq_full (regs m RAX) 16). pose proof (Z.mod_pos_bound (regs m RAX) 16). lia.
Qed.

Lemma exec_reserve m :
  56 <= regs m RAX < 2 ^ 64 ->
  exists m', exec [Leaq (-56) RAX RAX] m = m' /\ mem m' = mem m /\
    regs m' RAX = regs m RAX - 56 /\ regs m' RDX = regs m RDX /\ regs m' RSP = regs m RSP.
Proof.
  intros H. eexists. split; [reflexivity|]. cbn -[uwrap Z.add Z.sub]. case_regs.
  split_and!; try done. rewrite uwrap_small; lia.
Qed.

Lemma exec_store m r off :
  0 <= regs m RAX + off < 2 ^ 64 ->
  exists m', exec [Store r off RAX] m = m' /\ mem m' = store64 (mem m) (regs m RAX + off) (regs m r) /\
    regs m' = regs m.
Proof.
  intros H. eexists. split; [reflexivity|]. cbn -[uwrap Z.add store64]. split; [|done].
  by rewrite uwrap_small.
Qed.

Lemma exec_store_label m a off :
  0 <= regs m RAX + off < 2 ^ 64 -> 0 <= a < 2 ^ 64 ->
  exists m', exec [Lea_label a RCX; Store RCX off RAX] m = m' /\
    mem m' = store64 (mem m) (regs m RAX + off) a /\
    regs m' RAX = regs m RAX /\ regs m' RSP = regs m RSP.
Proof.
  intros H Ha. eexists. split; [reflexivity|]. cbn -[uwrap Z.add store64]. case_regs.
  rewrite !uwrap_small by done. done.
Qed.

(** [tb_context_make] writes three words of the stack, returns the context in [rax], and
    goes back to its caller. *)
Lemma make_effect entry end_ m m' :
  machine_ok m -> 0 <= entry < 2 ^ 64 -> 0 <= end_ < 2 ^ 64 ->
  regs m RDI + regs m RSI < 2 ^ 64 -> 56 <= 16 * ((regs m RDI + regs m RSI) / 16) ->
  regs m RSP + 8 < 2 ^ 64 -> exec (tb_context_make entry end_) m = m' ->
  let ctx := context_of (regs m RDI) (regs m RSI) in
  regs m' RAX = ctx /\ regs m' RSP = regs m RSP + 8 /\ rip m' = load64 (mem m') (regs m RSP) /\
  mem m' = made_context entry end_ (mem m) ctx (regs m RDX).
Proof.
  intros Hm He Hen Htop H56 Hsp. rewrite tb_context_make_split, !exec_app.
  pose proof (Hm RDI). pose proof (Hm RSI). pose proof (Hm RSP).
  destruct (exec_top m) as (m1 & -> & Hm1 & Ha1 & Hd1 & Hs1); [lia|].
  destruct (exec_align m1) as (m2 & -> & Hm2 & Ha2 & Hd2 & Hs2); [rewrite Ha1; lia|].
  rewrite Ha1 in Ha2.
  pose proof (Z_div_mod_eq_full (regs m RDI + regs m RSI) 16).
  pose proof (Z.mod_pos_bound (regs m RDI + regs m RSI) 16).
  destruct (exec_reserve m2) as (m3 & -> & Hm3 & Ha3 & Hd3 & Hs3); [rewrite Ha2; lia|].
  rewrite Ha2 in Ha3. fold (context_of (regs m RDI) (regs m RSI)) in Ha3.
  set (ctx := context_of (regs m RDI) (regs m RSI)) in *.
  assert (Hctx : 0 <= ctx /\ ctx + 56 < 2 ^ 64) by (unfold ctx, context_of; lia).
  destruct (exec_store m3 RDX 32) as (m4 & -> & Hm4 & Hr4); [lia|].
  destruct (exec_store_label m4 entry 48) as (m5 & -> & Hm5 & Ha5 & Hs5); [rewrite Hr4; lia|done|].
  destruct (exec_store_label m5 end_ 40) as (m6 & -> & Hm6 & Ha6 & Hs6); [rewrite Ha5, Hr4; lia|done|].
  intros <-. unfold made_context. cbv zeta. cbn -[uwrap load64 store64 Z.add]. case_regs.
  rewrite Ha6, Hs6, Hm6, Hs5, Ha5, Hm5, Hr4, Hm4, Ha3, Hs3, Hs2, Hs1, Hd3, Hd2, Hd1, Hm3, Hm2, Hm1.
  split_and!; try done. apply uwrap_small. lia.
Qed.

Lemma exec_entry m m' :
  machine_ok m -> 8 <= regs m RSP -> exec tb_context_entry m = m' ->
  rip m' = regs m RBX /\ regs m' RDI = regs m RAX /\ regs m' RSI = regs m RSI /\
  regs m' RSP = regs m RSP - 8 /\ mem m' = store64 (mem m) (regs m RSP - 8) (regs m RBP).
Proof.
  intros Hm Hsp <-. pose proof (Hm RSP).
  assert (E : u64 (regs m RSP - 8) = regs m RSP - 8) by (apply uwrap_small; lia).
  cbn -[uwrap store64 Z.sub]. case_regs. rewrite !E, (uwrap_small _ (regs m RAX)) by apply Hm. done.
Qed.

(** A jump works on 64-bit values when memory holds bytes. *)
Definition mem_ok (m : memory) : Prop := forall x, 0 <= m x < 256.

Lemma write_bytes_ok m a bytes :
  mem_ok m -> Forall (fun b => 0 <= b < 256) bytes -> mem_ok (write_bytes m a bytes).
Proof.
  intros Hm Hb x. unfold write_bytes. destruct (_ && _) eqn:E; [|apply Hm].
  destruct (nth_in_or_default (Z.to_nat (x - a)) bytes 0) as [Hin| ->]; [|lia].
  rewrite Forall_forall in Hb. by apply Hb, list_elem_of_In.
Qed.

Lemma push_mem_ok m g sp rs : mem_ok m -> mem_ok (push_mem m g sp rs).
Proof.
  revert m sp. induction rs as [|r rs IH]; intros m sp H; cbn; [done|]. apply IH.
  apply write_bytes_ok; [done|]. by apply (Z_to_little_endian_bound 8 8).
Qed.

(** ** Theorems *)

(** A context switch is transparent to the code that makes it. Let a machine call
    [tb_context_jump]; when, later and with that frame untouched, any machine jumps to
    the context the first jump handed over, execution resumes at the first caller's
    return address with its stack pointer and all six callee-saved registers as they
    were; the call returns the second jumper's context (in [rax]) and private datum (in
    [rdx]), as [tb_context_from_t] is returned. *)
Theorem jump_back m0 m1 m2 m3 :
  machine_ok m0 -> mem_ok (mem m0) -> machine_ok m2 ->
  48 <= regs m0 RSP -> regs m0 RSP + 8 < 2 ^ 64 -> regs m0 RDI + 56 < 2 ^ 64 -> 48 <= regs m2 RSP ->
  exec tb_context_jump m0 = m1 ->
  regs m2 RDI = regs m1 RAX -> same_bytes (mem m1) (mem m2) (regs m1 RAX) 56 ->
  disjoint_ranges (regs m2 RSP - 48) 48 (regs m1 RAX) 56 ->
  exec tb_context_jump m2 = m3 ->
  rip m3 = load64 (mem m0) (regs m0 RSP) /\ regs m3 RSP = regs m0 RSP + 8 /\
  (forall r, r ∈ callee_saved -> regs m3 r = regs m0 r) /\
  regs m3 RAX = regs m2 RSP - 48 /\ regs m3 RDX = regs m2 RSI.
Proof.
  intros Hm0 Hb0 Hm2 Hsp0 Hsp0' Hdi0 Hsp2 Hj1 Hdi2 Hsame Hdisj Hj2.
  destruct (jump_effect m0 m1 Hm0 Hsp0 Hdi0 Hj1) as (Hmem1 & _ & _ & Hax1 & _).
  rewrite Hax1 in *. rewrite Hmem1 in Hsame.
  destruct (jump_effect m2 m3 Hm2 Hsp2) as (_ & Hrip & Hsp3 & Hax3 & Hdx3 & _ & Hr3); [lia|done|].
  rewrite Hdi2 in *.
  assert (Hload : forall k, 0 <= k <= 48 ->
            load64 (pushed m2) (regs m0 RSP - 48 + k) = load64 (pushed m0) (regs m0 RSP - 48 + k)).
  { intros k Hk. apply load_same. intros x Hx. rewrite pushed_outside by (unfold disjoint_ranges in Hdisj; lia).
    symmetry. apply Hsame. lia. }
  split_and!; [| lia | | done | done].
  - rewrite Hrip, Hload by lia. replace (regs m0 RSP - 48 + 48) with (regs m0 RSP) by lia.
    rewrite u64_load by (apply push_mem_ok, Hb0). apply load_same. intros x Hx. apply pushed_outside. lia.
  - assert (Hreg : forall i j r, restored_regs !! i = Some r -> saved_regs !! j = Some r ->
                     Z.of_nat i + Z.of_nat j = 5 -> regs m3 r = regs m0 r).
    { intros i j r Hi Hj Hij. rewrite (Hr3 i r Hi), Hload by lia.
      replace (regs m0 RSP - 48 + 8 * Z.of_nat i) with (regs m0 RSP - 8 * (Z.of_nat j + 1)) by lia.
      rewrite (pushed_frame m0 j r Hm0 Hj). apply uwrap_small, Hm0. }
    intros r Hr. apply list_elem_of_In in Hr. cbn in Hr. destruct_or! Hr; try done; subst r;
      [apply (Hreg 4%nat 1%nat)|apply (Hreg 5%nat 0%nat)|apply (Hreg 0%nat 5%nat)|
       apply (Hreg 1%nat 4%nat)|apply (Hreg 2%nat 3%nat)|apply (Hreg 3%nat 2%nat)]; reflexivity.
Qed.

(** The first jump to a context made by [tb_context_make] runs its function: control
    goes through [__entry] to [func], with the jumper's context and private datum as the
    two words of its argument ([rdi], [rsi]), the address of [__end] as its return
    address, and the stack aligned as the calling convention requires, inside the given
    block. *)
Theorem first_entry entry end_ m0 m1 m2 m3 m4 :
  machine_ok m0 -> machine_ok m2 -> 0 <= entry < 2 ^ 64 -> 0 <= end_ < 2 ^ 64 ->
  regs m0 RDI + regs m0 RSI < 2 ^ 64 -> 72 <= regs m0 RSI -> regs m0 RSP + 8 < 2 ^ 64 ->
  48 <= regs m2 RSP ->
  exec (tb_context_make entry end_) m0 = m1 ->
  regs m2 RDI = regs m1 RAX -> same_bytes (mem m1) (mem m2) (regs m1 RAX) 56 ->
  disjoint_ranges (regs m2 RSP - 48) 48 (regs m1 RAX) 56 ->
  exec tb_context_jump m2 = m3 -> exec tb_context_entry m3 = m4 ->
  rip m3 = entry /\ rip m4 = regs m0 RDX /\
  regs m4 RDI = regs m2 RSP - 48 /\ regs m4 RSI = regs m2 RSI /\
  load64 (mem m4) (regs m4 RSP) = end_ /\ (regs m4 RSP + 8) mod 16 = 0 /\
  regs m0 RDI <= regs m4 RSP /\ regs m4 RSP + 8 <= regs m0 RDI + regs m0 RSI.
Proof.
  intros Hm0 Hm2 He Hen Htop Hsz Hsp0 Hsp2 Hmk Hdi Hsame Hdisj Hj Hent.
  assert (Hm3 : machine_ok m3) by (rewrite <- Hj; by apply exec_ok).
  pose proof (Hm0 RDI). pose proof (Hm0 RSI).
  pose proof (Z_div_mod_eq_full (regs m0 RDI + regs m0 RSI) 16).
  pose proof (Z.mod_pos_bound (regs m0 RDI + regs m0 RSI) 16).
  destruct (make_effect entry end_ m0 m1) as (Hax & _ & _ & Hmem1); try done; [lia|].
  set (top := 16 * ((regs m0 RDI + regs m0 RSI) / 16)) in *.
  assert (Hctx : context_of (regs m0 RDI) (regs m0 RSI) = top - 56) by reflexivity.
  rewrite Hctx in *. rewrite Hax in *. unfold made_context in Hmem1.
  destruct (jump_effect m2 m3 Hm2 Hsp2) as (Hmem3 & Hrip3 & Hsp3 & Hax3 & _ & Hsi3 & Hr3); [lia|done|].
  rewrite Hdi in *.
  assert (Hload : forall k, 0 <= k <= 48 -> load64 (pushed m2) (top - 56 + k) = load64 (mem m1) (top - 56 + k)).
  { intros k Hk. apply load_same. intros x Hx. rewrite pushed_outside by (unfold disjoint_ranges in Hdisj; lia).
    symmetry. apply Hsame. lia. }
  assert (L32 : load64 (mem m1) (top - 56 + 32) = regs m0 RDX).
  { rewrite Hmem1, !load_store_other by (unfold disjoint_ranges; lia). apply load_store_same, Hm0. }
  assert (L40 : load64 (mem m1) (top - 56 + 40) = end_) by (rewrite Hmem1; by apply load_store_same).
  assert (L48 : load64 (mem m1) (top - 56 + 48) = entry).
  { rewrite Hmem1, load_store_other by (unfold disjoint_ranges; lia). by apply load_store_same. }
  destruct (exec_entry m3 m4 Hm3) as (Hrip4 & Hdi4 & Hsi4 & Hsp4 & Hmem4); [lia|done|].
  pose proof (Hr3 4%nat RBX eq_refl) as Hbx. pose proof (Hr3 5%nat RBP eq_refl) as Hbp.
  change (8 * Z.of_nat 4) with 32 in Hbx. change (8 * Z.of_nat 5) with 40 in Hbp.
  rewrite Hload, L32 in Hbx by lia. rewrite Hload, L40 in Hbp by lia.
  rewrite uwrap_small in Hbx by apply Hm0. rewrite uwrap_small in Hbp by done.
  rewrite Hload, L48, uwrap_small in Hrip3 by lia || done.
  split_and!; try lia; try congruence.
  - rewrite Hmem4, Hsp4, load_store_same, Hbp; [done|by rewrite Hbp].
  - rewrite Hsp4, Hsp3. replace (top - 56 + 56 - 8 + 8) with (((regs m0 RDI + regs m0 RSI) / 16) * 16)
      by (unfold top; lia). apply Z.mod_mul. lia.
Qed.

(** ** Witnesses *)

(** A caller with its stack at 4096 jumps to a context at 8192. *)
Definition caller_sample : machine :=
  mkMachine (fun r => match r with RSP => 4096 | RDI => 8192 | RSI => 5 | RBX => 11 | RBP => 12
                      | R12 => 13 | R13 => 14 | R14 => 15 | R15 => 16 | RDX => 77 | _ => 0 end)
    (store64 (fun _ => 0) 4096 65536) 100.

(** Another machine, with its stack at 8192, goes back. *)
Definition return_machine (mm : memory) : machine :=
  mkMachine (fun r => match r with RSP => 8192 | RDI => 4048 | RSI => 9 | _ => 0 end) mm 200.
Definition return_sample : machine := return_machine (mem (exec tb_context_jump caller_sample)).

Lemma samples_ok : machine_ok caller_sample /\ mem_ok (mem caller_sample).
Proof.
  split_and!; [intros []; cbn; lia..|].
  apply write_bytes_ok; [intros x; lia|]. apply (Z_to_little_endian_bound 8 8); lia.
Qed.

Lemma return_machine_ok mm : machine_ok (return_machine mm).
Proof. intros []; cbn; lia. Qed.

Lemma return_machine_mem mm a n : same_bytes mm (mem (return_machine mm)) a n.
Proof. by intros x _. Qed.

Lemma jump_back_witness :
  rip (exec tb_context_jump return_sample) = load64 (mem caller_sample) 4096 /\
  regs (exec tb_context_jump return_sample) RSP = 4096 + 8 /\
  (forall r, r ∈ callee_saved -> regs (exec tb_context_jump return_sample) r = regs caller_sample r) /\
  regs (exec tb_context_jump return_sample) RAX = 8192 - 48 /\
  regs (exec tb_context_jump return_sample) RDX = 9.
Proof.
  apply (jump_back caller_sample (exec tb_context_jump caller_sample) return_sample
           (exec tb_context_jump return_sample));
    [apply samples_ok|apply samples_ok|apply return_machine_ok
    |vm_compute; discriminate|vm_compute; reflexivity|vm_compute; reflexivity|
     vm_compute; discriminate|exact eq_refl|vm_compute; reflexivity|apply return_machine_mem|
     right; vm_compute; discriminate|exact eq_refl].
Defined.

(** A block of 4096 bytes at 16384 for the function at 77. *)
Definition make_sample : machine :=
  mkMachine (fun r => match r with RSP => 4096 | RDI => 16384 | RSI => 4096 | RDX => 77 | _ => 0 end)
    (fun _ => 0) 100.

Definition first_jump_machine (mm : memory) : machine :=
  mkMachine (fun r => match r with RSP => 4096 | RDI => 20424 | RSI => 5 | _ => 0 end) mm 100.
Definition first_jump_sample : machine :=
  first_jump_machine (mem (exec (tb_context_make 300 400) make_sample)).

Lemma first_jump_machine_ok mm : machine_ok (first_jump_machine mm).
Proof. intros []; cbn; lia. Qed.

Lemma first_jump_machine_mem mm a n : same_bytes mm (mem (first_jump_machine mm)) a n.
Proof. by intros x _. Qed.

Lemma first_entry_witness :
  rip (exec tb_context_jump first_jump_sample) = 300 /\
  rip (exec tb_context_entry (exec tb_context_jump first_jump_sample)) = 77.
Proof.
  destruct (first_entry 300 400 make_sample (exec (tb_context_make 300 400) make_sample)
    first_jump_sample (exec tb_context_jump first_jump_sample)
    (exec tb_context_entry (exec tb_context_jump first_jump_sample))) as (H1 & H2 & _);
    [intros []; cbn; lia|apply first_jump_machine_ok|lia|lia|vm_compute; reflexivity|vm_compute; discriminate|
     vm_compute; reflexivity|vm_compute; discriminate|exact eq_refl|vm_compute; reflexivity|
     apply first_jump_machine_mem|left; vm_compute; discriminate|exact eq_refl|exact eq_refl|].
  split; [exact H1|exact H2].
Defined.
