(* ===== verification/ContextRisc.v ===== *)
(** * context_arm64.S, context_arm.S, context_mips.S: the context switch on load-store machines

    The instruction sets use the same few instructions for a context switch: moves,
    additions, and loads and stores at an offset from a register. One machine, given the
    registers and the number of bytes of a word, runs them all (and 32-bit x86 too); an instruction that moves
    several registers ([stp], [ldp], [push], [pop]) is the sequence of its moves. The
    assembly is that of ELF systems, MIPS without position-independent code. Memory is
    little-endian. *)

From stdpp Require Import base numbers list list_numbers.
From Stdlib Require Import Lia ZArith.
From S2P Require Import Prelude Context.

(** ** The machine *)

Record rmachine (R : Type) : Type := mkR { rg : R -> Z; rm : memory; pc : Z }.
Arguments mkR {R}. Arguments rg {R}. Arguments rm {R}. Arguments pc {R}.

Inductive rinstr (R : Type) : Type :=
| Add (dst a b : R)
| Addi (dst a : R) (imm : Z)
| Subi (dst a : R) (imm : Z)
| And (dst a b : R)
| Andi (dst a : R) (imm : Z)
| Bici (dst a : R) (imm : Z)       (* and with the complement *)
| Mov (dst src : R)
| Li (dst : R) (imm : Z)           (* a constant or the address of a label *)
| AddMem (dst base : R) (off : Z)   (* with the word at [base + off] *)
| Str (r base : R) (off : Z)
| StrI (imm : Z) (base : R) (off : Z)
| Ldr (r base : R) (off : Z)
| Br (r : R)
| PopPc (sp : R).
Arguments Add {R}. Arguments Addi {R}. Arguments Subi {R}. Arguments And {R}. Arguments Andi {R}. Arguments Bici {R}.
Arguments Mov {R}. Arguments Li {R}. Arguments Str {R}. Arguments StrI {R}. Arguments AddMem {R}. Arguments Ldr {R}. Arguments Br {R}. Arguments PopPc {R}.

Section machine.
Context {R : Type} `{EqDecision R}.
Context (nb : nat).

(** The bits of a word. *)
Definition wbits : Z := 8 * Z.of_nat nb.

Definition store_w (m : memory) (a v : Z) : memory := write_bytes m a (Z_to_little_endian (Z.of_nat nb) 8 v).
Definition load_w (m : memory) (a : Z) : Z := little_endian_to_Z 8 (read_bytes m a nb).

Definition upd (g : R -> Z) (r : R) (v : Z) : R -> Z := fun r' => if decide (r' = r) then v else g r'.
Definition rset (m : rmachine R) (r : R) (v : Z) : rmachine R := mkR (upd (rg m) r (uwrap wbits v)) (rm m) (pc m).

Definition rstep (m : rmachine R) (i : rinstr R) : rmachine R :=
  match i with
  | Add d a b => rset m d (rg m a + rg m b)
  | Addi d a imm => rset m d (rg m a + imm)
  | Subi d a imm => rset m d (rg m a - imm)
  | And d a b => rset m d (Z.land (rg m a) (rg m b))
  | Andi d a imm => rset m d (Z.land (rg m a) imm)
  | Bici d a imm => rset m d (Z.ldiff (rg m a) imm)
  | Mov d s => rset m d (rg m s)
  | Li d imm => rset m d imm
  | Str r base off => mkR (rg m) (store_w (rm m) (uwrap wbits (rg m base + off)) (rg m r)) (pc m)
  | StrI imm base off => mkR (rg m) (store_w (rm m) (uwrap wbits (rg m base + off)) imm) (pc m)
  | AddMem d base off => rset m d (rg m d + load_w (rm m) (uwrap wbits (rg m base + off)))
  | Ldr r base off => rset m r (load_w (rm m) (uwrap wbits (rg m base + off)))
  | Br r => mkR (rg m) (rm m) (rg m r)
  | PopPc sp => mkR (upd (rg m) sp (uwrap wbits (rg m sp + Z.of_nat nb))) (rm m)
                    (uwrap wbits (load_w (rm m) (rg m sp)))
  end.

Definition rexec (code : list (rinstr R)) (m : rmachine R) : rmachine R := foldl rstep m code.

(** Consecutive registers at consecutive words from [base + off] on. *)
Fixpoint saves (base : R) (off : Z) (rs : list R) : list (rinstr R) :=
  match rs with
  | [] => []
  | r :: rs => Str r base off :: saves base (off + Z.of_nat nb) rs
  end.
Fixpoint loads (base : R) (off : Z) (rs : list R) : list (rinstr R) :=
  match rs with
  | [] => []
  | r :: rs => Ldr r base off :: loads base (off + Z.of_nat nb) rs
  end.

(** Registers hold words. *)
Definition rmachine_ok (m : rmachine R) : Prop := forall r, 0 <= rg m r < 2 ^ wbits.

(** ** Lemmas: words in memory *)

Lemma length_le v : length (Z_to_little_endian (Z.of_nat nb) 8 v) = nb.
Proof. apply Nat2Z.inj. rewrite length_Z_to_little_endian; lia. Qed.

Lemma store_w_outside m a v x : x < a \/ a + Z.of_nat nb <= x -> store_w m a v x = m x.
Proof. intros Hx. apply write_bytes_outside. rewrite length_le. lia. Qed.

Lemma load_w_same m m' a : same_bytes m m' a (Z.of_nat nb) -> load_w m a = load_w m' a.
Proof. intros Hs. unfold load_w. f_equal. by apply read_bytes_same. Qed.

Lemma load_store_w m a v : 0 <= v < 2 ^ wbits -> load_w (store_w m a v) a = v.
Proof.
  intros Hv. unfold load_w, store_w. pose proof (read_write_bytes m a (Z_to_little_endian (Z.of_nat nb) 8 v)) as E.
  rewrite length_le in E. rewrite E, little_endian_to_Z_to_little_endian by lia.
  apply Z.mod_small. unfold wbits in Hv. by rewrite (Z.mul_comm (Z.of_nat nb)).
Qed.

Lemma load_store_w_other m a v b :
  disjoint_ranges a (Z.of_nat nb) b (Z.of_nat nb) -> load_w (store_w m a v) b = load_w m b.
Proof. intros Hd. apply load_w_same. intros x Hx. apply store_w_outside. unfold disjoint_ranges in Hd. lia. Qed.

(** Memory after the words of [rs] have been stored from [a] on. *)
Fixpoint save_mem (m : memory) (g : R -> Z) (a : Z) (rs : list R) : memory :=
  match rs with
  | [] => m
  | r :: rs => save_mem (store_w m a (g r)) g (a + Z.of_nat nb) rs
  end.

Lemma save_mem_outside m g a rs x :
  x < a \/ a + Z.of_nat nb * Z.of_nat (length rs) <= x -> save_mem m g a rs x = m x.
Proof.
  revert m a. induction rs as [|r rs IH]; intros m a Hx; cbn [save_mem length] in *; [done|].
  rewrite IH by lia. apply store_w_outside. nia.
Qed.

Lemma save_mem_load m g a rs i r :
  rs !! i = Some r -> 0 <= g r < 2 ^ wbits ->
  load_w (save_mem m g a rs) (a + Z.of_nat nb * Z.of_nat i) = g r.
Proof.
  intros Hi Hr. revert m a i Hi. induction rs as [|r' rs IH]; intros m a [|i] Hi; cbn in Hi; try done.
  - injection Hi as ->. cbn [save_mem]. rewrite Z.mul_0_r, Z.add_0_r, (load_w_same _ (store_w m a (g r))); [by apply load_store_w|].
    intros x Hx. apply save_mem_outside. lia.
  - cbn [save_mem]. rewrite <- (IH (store_w m a (g r')) (a + Z.of_nat nb) i Hi). f_equal. lia.
Qed.

Lemma load_w_range m a : mem_ok m -> 0 <= load_w m a < 2 ^ wbits.
Proof.
  intros Hm. unfold load_w, wbits. pose proof (little_endian_to_Z_bound 8 (read_bytes m a nb)) as Hb.
  unfold read_bytes in *. rewrite length_fmap, length_seq in Hb.
  replace (8 * Z.of_nat nb) with (Z.of_nat nb * 8) by lia. apply Hb; [lia|].
  apply Forall_forall. intros b (i & -> & _)%list_elem_of_fmap. apply Hm.
Qed.

(** ** Lemmas: instructions whose results need no wrap-around *)

Lemma upd_eq g r v : upd g r v r = v.
Proof. unfold upd. by rewrite decide_True. Qed.
Lemma upd_ne g r r' v : r' <> r -> upd g r v r' = g r'.
Proof. intros. unfold upd. by rewrite decide_False. Qed.

Lemma rexec_app c1 c2 m : rexec (c1 ++ c2) m = rexec c2 (rexec c1 m).
Proof. apply foldl_app. Qed.

Lemma rexec_add d a b c m : 0 <= rg m a + rg m b < 2 ^ wbits ->
  rexec (Add d a b :: c) m = rexec c (mkR (upd (rg m) d (rg m a + rg m b)) (rm m) (pc m)).
Proof. intros Hv. cbn -[uwrap]. unfold rset. by rewrite uwrap_small. Qed.
Lemma rexec_addi d a i c m : 0 <= rg m a + i < 2 ^ wbits ->
  rexec (Addi d a i :: c) m = rexec c (mkR (upd (rg m) d (rg m a + i)) (rm m) (pc m)).
Proof. intros Hv. cbn -[uwrap]. unfold rset. by rewrite uwrap_small. Qed.
Lemma rexec_subi d a i c m : 0 <= rg m a - i < 2 ^ wbits ->
  rexec (Subi d a i :: c) m = rexec c (mkR (upd (rg m) d (rg m a - i)) (rm m) (pc m)).
Proof. intros Hv. cbn -[uwrap]. unfold rset. by rewrite uwrap_small. Qed.
Lemma rexec_mov d s c m : 0 <= rg m s < 2 ^ wbits ->
  rexec (Mov d s :: c) m = rexec c (mkR (upd (rg m) d (rg m s)) (rm m) (pc m)).
Proof. intros Hv. cbn -[uwrap]. unfold rset. by rewrite uwrap_small. Qed.
Lemma rexec_li d v c m : 0 <= v < 2 ^ wbits ->
  rexec (Li d v :: c) m = rexec c (mkR (upd (rg m) d v) (rm m) (pc m)).
Proof. intros Hv. cbn -[uwrap]. unfold rset. by rewrite uwrap_small. Qed.
Lemma rexec_str r b o c m : 0 <= rg m b + o < 2 ^ wbits ->
  rexec (Str r b o :: c) m = rexec c (mkR (rg m) (store_w (rm m) (rg m b + o) (rg m r)) (pc m)).
Proof. intros Hv. cbn -[uwrap]. by rewrite uwrap_small. Qed.
Lemma rexec_stri v b o c m : 0 <= rg m b + o < 2 ^ wbits ->
  rexec (StrI v b o :: c) m = rexec c (mkR (rg m) (store_w (rm m) (rg m b + o) v) (pc m)).
Proof. intros Hv. cbn -[uwrap]. by rewrite uwrap_small. Qed.
Lemma rexec_addmem d b o c m : 0 <= rg m b + o < 2 ^ wbits ->
  0 <= rg m d + load_w (rm m) (rg m b + o) < 2 ^ wbits ->
  rexec (AddMem d b o :: c) m = rexec c (mkR (upd (rg m) d (rg m d + load_w (rm m) (rg m b + o))) (rm m) (pc m)).
Proof. intros Hv Hs. cbn -[uwrap]. unfold rset. by rewrite (uwrap_small _ (rg m b + o)), uwrap_small. Qed.
Lemma rexec_ldr r b o c m : 0 <= rg m b + o < 2 ^ wbits ->
  rexec (Ldr r b o :: c) m =
    rexec c (mkR (upd (rg m) r (uwrap wbits (load_w (rm m) (rg m b + o)))) (rm m) (pc m)).
Proof. intros Hv. cbn -[uwrap]. unfold rset. by rewrite (uwrap_small _ (rg m b + o)). Qed.

(** Rounding down to a multiple of sixteen, in the three ways of the code. *)
Lemma ldiff_15 x : Z.ldiff x 15 = 16 * (x / 16).
Proof.
  change 15 with (Z.ones 4). rewrite Z.ldiff_ones_r, Z.shiftl_mul_pow2, Z.shiftr_div_pow2 by lia.
  change (2 ^ 4) with 16. lia.
Qed.
Lemma land_m16 x : Z.land x (-16) = 16 * (x / 16).
Proof. rewrite <- ldiff_15, Z.ldiff_land. done. Qed.

Lemma div16_range x : 0 <= x < 2 ^ wbits -> 0 <= 16 * (x / 16) <= x /\ x < 16 * (x / 16) + 16.
Proof. intros Hx. pose proof (Z_div_mod_eq_full x 16). pose proof (Z.mod_pos_bound x 16). lia. Qed.

Lemma rexec_andi_16 d a c m : 0 <= rg m a < 2 ^ wbits ->
  rexec (Andi d a (-16) :: c) m = rexec c (mkR (upd (rg m) d (16 * (rg m a / 16))) (rm m) (pc m)).
Proof.
  intros Hv. cbn -[uwrap Z.land]. unfold rset. rewrite land_m16. rewrite uwrap_small; [done|].
  pose proof (div16_range _ Hv). lia.
Qed.
Lemma rexec_bici_15 d a c m : 0 <= rg m a < 2 ^ wbits ->
  rexec (Bici d a 15 :: c) m = rexec c (mkR (upd (rg m) d (16 * (rg m a / 16))) (rm m) (pc m)).
Proof.
  intros Hv. cbn -[uwrap Z.ldiff]. unfold rset. rewrite ldiff_15. rewrite uwrap_small; [done|].
  pose proof (div16_range _ Hv). lia.
Qed.
(** [li d, -16] leaves the pattern of -16. *)
Lemma rexec_and_16 d a c m : a <> d -> 0 <= rg m a < 2 ^ wbits ->
  rexec (Li d (-16) :: And d a d :: c) m =
    rexec c (mkR (upd (upd (rg m) d (uwrap wbits (-16))) d (16 * (rg m a / 16))) (rm m) (pc m)).
Proof.
  intros Hne Hv. pose proof (div16_range _ Hv).
  assert (E : uwrap wbits (Z.land (rg m a) (uwrap wbits (-16))) = 16 * (rg m a / 16)).
  { unfold uwrap at 2. rewrite <- (Z.land_ones (-16)), Z.land_assoc, land_m16, Z.land_ones by (unfold wbits; lia).
    unfold uwrap. do 2 rewrite (Z.mod_small (16 * (rg m a / 16))) by lia. done. }
  cbn -[uwrap Z.land]. unfold rset. cbn [rg rm pc]. by rewrite upd_eq, upd_ne, E by done.
Qed.

Lemma rexec_saves base off rs c m :
  0 <= rg m base + off -> rg m base + off + Z.of_nat nb * Z.of_nat (length rs) <= 2 ^ wbits -> (0 < nb)%nat ->
  rexec (saves base off rs ++ c) m = rexec c (mkR (rg m) (save_mem (rm m) (rg m) (rg m base + off) rs) (pc m)).
Proof.
  revert off m. induction rs as [|r rs IH]; intros off m H0 H1 Hnb; cbn [saves app length save_mem] in *.
  - by destruct m.
  - rewrite rexec_str by nia. rewrite IH; cbn [rg rm pc]; [|nia|nia|done]. do 3 f_equal. lia.
Qed.

(** The values the loads leave in the registers. *)
Fixpoint load_regs (m : memory) (g : R -> Z) (a : Z) (rs : list R) : R -> Z :=
  match rs with
  | [] => g
  | r :: rs => load_regs m (upd g r (uwrap wbits (load_w m a))) (a + Z.of_nat nb) rs
  end.

Lemma rexec_loads base off rs c m :
  base ∉ rs -> 0 <= rg m base + off ->
  rg m base + off + Z.of_nat nb * Z.of_nat (length rs) <= 2 ^ wbits -> (0 < nb)%nat ->
  rexec (loads base off rs ++ c) m = rexec c (mkR (load_regs (rm m) (rg m) (rg m base + off) rs) (rm m) (pc m)).
Proof.
  revert off m. induction rs as [|r rs IH]; intros off m Hni H0 H1 Hnb; cbn [loads app length load_regs] in *.
  - by destruct m.
  - apply not_elem_of_cons in Hni as [Hb Hni]. rewrite rexec_ldr by nia.
    rewrite IH; cbn [rg rm pc]; rewrite ?upd_ne by done; [|done|nia|nia|done]. do 3 f_equal. lia.
Qed.

Lemma load_regs_other m g a rs r : r ∉ rs -> load_regs m g a rs r = g r.
Proof.
  revert g a. induction rs as [|r' rs IH]; intros g a Hni; cbn [load_regs]; [done|].
  apply not_elem_of_cons in Hni as [Hr Hni]. rewrite IH by done. by apply upd_ne.
Qed.

Lemma load_regs_lookup m g a rs i r :
  NoDup rs -> rs !! i = Some r ->
  load_regs m g a rs r = uwrap wbits (load_w m (a + Z.of_nat nb * Z.of_nat i)).
Proof.
  intros Hnd. revert g a i. induction Hnd as [|r' rs Hr Hnd IH]; intros g a [|i] Hi; cbn in Hi; try done.
  - injection Hi as ->. cbn [load_regs]. rewrite load_regs_other by done. rewrite upd_eq. do 2 f_equal. lia.
  - cbn [load_regs]. rewrite (IH _ _ i Hi). do 2 f_equal. lia.
Qed.

(** Instructions keep words in the registers. *)
Lemma rstep_ok m i : rmachine_ok m -> rmachine_ok (rstep m i).
Proof.
  intros Hm. assert (Hs : forall r v, rmachine_ok (rset m r v)).
  { intros r v r'. unfold rset. cbn [rg]. unfold upd. destruct (decide (r' = r)); [|apply Hm].
    apply uwrap_range. unfold wbits. lia. }
  destruct i; cbn [rstep]; try apply Hs; intros r'; cbn [rg]; try apply Hm.
Qed.

Lemma rexec_ok code m : rmachine_ok m -> rmachine_ok (rexec code m).
Proof. revert m. induction code as [|i code IH]; intros m Hm; [done|]. apply IH. by apply rstep_ok. Qed.
End machine.
