(* ===== verification/ContextMachines.v ===== *)
(** * The context switch on all machines

    The code of context_arm64.S, context_arm.S, context_mips.S and of the ELF branch of
    context_x86.S, one Module each, and the interface that tb_context_make and
    tb_context_jump offer the scheduler whatever the machine ([switch_machine]). ContextArm,
    ContextMips and ContextX86 prove its laws, ContextAll draws the conclusions. *)

From stdpp Require Import base numbers list list_numbers.
From Stdlib Require Import Lia ZArith.
From S2P Require Import Prelude Context ContextRisc.

(** ** AArch64 *)

Module Arm64.
Inductive reg : Type :=
| X0 | X1 | X2 | X4 | X19 | X20 | X21 | X22 | X23 | X24 | X25 | X26 | X27 | X28 | X29 | X30 | SP
| D8 | D9 | D10 | D11 | D12 | D13 | D14 | D15.

#[global] Instance reg_eq_dec : EqDecision reg.
Proof. solve_decision. Defined.

Definition stp (a b base : reg) (off : Z) : list (rinstr reg) := [Str a base off; Str b base (off + 8)].
Definition ldp (a b base : reg) (off : Z) : list (rinstr reg) := [Ldr a base off; Ldr b base (off + 8)].

Definition arm64_tb_context_make (end_ : Z) : list (rinstr reg) :=
  [ Add X0 X0 X1; Andi X0 X0 (Z.lnot 15); Subi X0 X0 112;
    Str X2 X0 96;
    Li X1 end_; Str X1 X0 88;
    Br X30 ].

Definition arm64_tb_context_jump : list (rinstr reg) :=
  [Subi SP SP 112] ++
  stp X19 X20 SP 0 ++ stp X21 X22 SP 16 ++ stp X23 X24 SP 32 ++ stp X25 X26 SP 48 ++ stp X27 X28 SP 64 ++
  stp X29 X30 SP 80 ++ [Str X30 SP 96] ++
  [Mov X4 SP; Mov SP X0] ++
  ldp X19 X20 SP 0 ++ ldp X21 X22 SP 16 ++ ldp X23 X24 SP 32 ++ ldp X25 X26 SP 48 ++ ldp X27 X28 SP 64 ++
  ldp X29 X30 SP 80 ++
  [Mov X0 X4; Ldr X4 SP 96; Addi SP SP 112; Br X4].

(** What the procedure call standard has a call preserve: [x19] to [x30] without the link
    register, and [d8] to [d15]. *)
Definition callee_saved : list reg := [X19; X20; X21; X22; X23; X24; X25; X26; X27; X28; X29].
Definition callee_saved_fp : list reg := [D8; D9; D10; D11; D12; D13; D14; D15].
End Arm64.

(** ** ARM, 32 bits *)

Module Arm.
Inductive reg : Type :=
| R0 | R1 | R2 | R3 | R4 | R5 | R6 | R7 | R8 | R9 | R10 | R11 | LR | SP.

#[global] Instance reg_eq_dec : EqDecision reg.
Proof. solve_decision. Defined.

(** [push] and [pop] of registers in increasing order. *)
Definition push (rs : list reg) : list (rinstr reg) :=
  Subi SP SP (4 * Z.of_nat (length rs)) :: saves 4 SP 0 rs.
Definition pop (rs : list reg) : list (rinstr reg) :=
  loads 4 SP 0 rs ++ [Addi SP SP (4 * Z.of_nat (length rs))].

Definition arm_tb_context_make (end_ : Z) : list (rinstr reg) :=
  [ Add R0 R0 R1; Bici R0 R0 15; Subi R0 R0 64;
    Str R2 R0 40;
    Addi R1 R0 44; Str R1 R0 0;
    Li R1 end_; Str R1 R0 36;
    Br LR ].

Definition arm_tb_context_jump : list (rinstr reg) :=
  push [LR] ++
  push [R0; R4; R5; R6; R7; R8; R9; R10; R11; LR] ++
  [Mov R0 SP; Mov SP R1] ++
  pop [R3; R4; R5; R6; R7; R8; R9; R10; R11; LR] ++
  [Str R0 R3 0; Str R2 R3 4; Mov R1 R2; PopPc SP].

Definition callee_saved : list reg := [R4; R5; R6; R7; R8; R9; R10; R11].
End Arm.

(** ** MIPS, 32 bits *)

Module Mips.
Inductive reg : Type :=
| V0 | V1 | A0 | A1 | A2 | T0 | T9 | S0 | S1 | S2 | S3 | S4 | S5 | S6 | S7 | GP | SP | FP | RA.

#[global] Instance reg_eq_dec : EqDecision reg.
Proof. solve_decision. Defined.

Definition mips_tb_context_make (end_ : Z) : list (rinstr reg) :=
  [ Add V0 A0 A1; Addi V0 V0 (-32);
    Mov V1 V0; Li V0 (-16); And V0 V1 V0;
    Addi V0 V0 (-64);
    Str A2 V0 44; Str GP V0 48;
    Addi T0 V0 52; Str T0 V0 36;
    Li T9 end_; Str T9 V0 40;
    Br RA ].

Definition mips_tb_context_jump : list (rinstr reg) :=
  [ Addi SP SP (-64);
    Str S0 SP 0; Str S1 SP 4; Str S2 SP 8; Str S3 SP 12; Str S4 SP 16; Str S5 SP 20; Str S6 SP 24; Str S7 SP 28;
    Str FP SP 32; Str A0 SP 36; Str RA SP 40; Str RA SP 44; Str GP SP 48;
    Mov A0 SP; Mov SP A1;
    Ldr S0 SP 0; Ldr S1 SP 4; Ldr S2 SP 8; Ldr S3 SP 12; Ldr S4 SP 16; Ldr S5 SP 20; Ldr S6 SP 24; Ldr S7 SP 28;
    Ldr FP SP 32; Ldr T0 SP 36; Ldr RA SP 40; Ldr T9 SP 44; Ldr GP SP 48;
    Addi SP SP 64;
    Str A0 T0 0; Str A2 T0 4;
    Mov A1 A2;
    Br T9 ].

Definition callee_saved : list reg := [S0; S1; S2; S3; S4; S5; S6; S7; FP; GP].
End Mips.

(** ** x86, 32 bits

    A call pushes the address of the instruction after it; the two calls of
    [tb_context_make] only read that address, [label1] and [label2]. *)

Module X86.
Inductive reg : Type := | EAX | ECX | EDX | EBX | ESP | EBP | ESI | EDI.

#[global] Instance reg_eq_dec : EqDecision reg.
Proof. solve_decision. Defined.

Definition push (r : reg) : list (rinstr reg) := [Subi ESP ESP 4; Str r ESP 0].
Definition pop (r : reg) : list (rinstr reg) := [Ldr r ESP 0; Addi ESP ESP 4].
Definition call_next (label : Z) : list (rinstr reg) := [Subi ESP ESP 4; StrI label ESP 0].

Definition x86_tb_context_make (entry end_ label1 label2 : Z) : list (rinstr reg) :=
  [ Ldr EAX ESP 4; AddMem EAX ESP 8;
    Subi EAX EAX 8; Andi EAX EAX (-16); Subi EAX EAX 24;
    Ldr EDX ESP 12; Str EDX EAX 8;
    Str EAX EAX 20 ] ++
  call_next label1 ++ pop ECX ++ [Addi ECX ECX (entry - label1); Str ECX EAX 16] ++
  call_next label2 ++ pop ECX ++ [Addi ECX ECX (end_ - label2); Str ECX EAX 12] ++
  [ PopPc ESP ].

Definition x86_tb_context_entry : list (rinstr reg) :=
  [Str EAX ESP 0; Str EDX ESP 4] ++ push EBP ++ [Br EBX].

Definition x86_tb_context_jump : list (rinstr reg) :=
  push EBP ++ push EBX ++ push ESI ++ push EDI ++
  [Mov EAX ESP; Ldr ECX ESP 24; Ldr EDX ESP 28; Mov ESP ECX] ++
  pop EDI ++ pop ESI ++ pop EBX ++ pop EBP ++
  [Ldr ECX ESP 4; Str EAX ECX 0; Str EDX ECX 4] ++
  [PopPc ESP; Addi ESP ESP 4].   (* ret $4 *)

Definition callee_saved : list reg := [EBX; ESI; EDI; EBP].
End X86.

(** ** The interface *)

(** A machine at a call of [tb_context_jump] or [tb_context_make], and what the caller sees. *)
Record switch_machine : Type := mkSwitch {
  sm_state : Type;
  sm_mem : sm_state -> memory;
  sm_pc : sm_state -> Z;
  sm_sp : sm_state -> Z;
  sm_frame : Z;                             (* the bytes of a context *)
  (* tb_context_jump *)
  sm_jump : sm_state -> sm_state;
  sm_jump_ok : sm_state -> Prop;            (* words in the registers, and room for a frame *)
  sm_to : sm_state -> Z;
  sm_priv : sm_state -> Z;
  sm_from : sm_state -> Z;                  (* where it leaves the context of the caller *)
  sm_kept : sm_state -> list Z;             (* the registers a call preserves *)
  sm_return : sm_state -> Z * Z;            (* the return address, and the stack pointer there *)
  sm_result : sm_state -> sm_state -> Z * Z;  (* what a call returns, once back *)
  (* tb_context_make, with the addresses of its labels *)
  sm_make : Z -> Z -> sm_state -> sm_state;
  sm_make_ok : Z -> Z -> sm_state -> Prop;
  sm_block : sm_state -> Z * Z;
  sm_func : sm_state -> Z;
  sm_made : sm_state -> Z;                  (* the context it returns *)
  sm_first : Z -> sm_state -> Z;            (* where control goes first *)
  sm_enter : sm_state -> sm_state;          (* the code at the entry label, if there is one *)
  sm_args : sm_state -> Z * Z;              (* the argument of a function *)
  sm_link : sm_state -> Z;                  (* the address a function returns to *)
  sm_entry_sp : Z }.                        (* the stack pointer of a function, modulo 16 *)

(** A jump away and back is a call that returns. *)
Definition switches_back (M : switch_machine) : Prop := forall m0 m2 : sm_state M,
  sm_jump_ok M m0 -> sm_jump_ok M m2 -> sm_to M m2 = sm_from M m0 ->
  same_bytes (sm_mem M (sm_jump M m0)) (sm_mem M m2) (sm_from M m0) (sm_frame M) ->
  disjoint_ranges (sm_from M m2) (sm_frame M) (sm_from M m0) (sm_frame M) ->
  (sm_pc M (sm_jump M m2), sm_sp M (sm_jump M m2)) = sm_return M m0 /\
  sm_kept M (sm_jump M m2) = sm_kept M m0 /\
  sm_result M m0 (sm_jump M m2) = (sm_from M m2, sm_priv M m2).

(** The first jump to a made context calls its function, which returns to the end label. *)
Definition enters (M : switch_machine) : Prop := forall entry end_ (m0 m2 : sm_state M),
  sm_make_ok M entry end_ m0 -> sm_jump_ok M m2 ->
  let m1 := sm_make M entry end_ m0 in
  sm_to M m2 = sm_made M m1 -> same_bytes (sm_mem M m1) (sm_mem M m2) (sm_made M m1) (sm_frame M) ->
  disjoint_ranges (sm_from M m2) (sm_frame M) (sm_made M m1) (sm_frame M) ->
  let m3 := sm_enter M (sm_jump M m2) in
  sm_pc M (sm_jump M m2) = sm_first M entry m0 /\
  sm_pc M m3 = sm_func M m0 /\ sm_args M m3 = (sm_from M m2, sm_priv M m2) /\ sm_link M m3 = end_ /\
  fst (sm_block M m0) <= sm_made M m1 /\ sm_sp M m3 <= fst (sm_block M m0) + snd (sm_block M m0) /\
  sm_sp M m3 mod 16 = sm_entry_sp M.

Ltac decided := by apply (bool_decide_unpack _).
(* Memories and runs are compared as they are written, before they are unfolded. *)
Strategy 1000 [rexec exec save_mem load_w store_w upd].

(** Evaluates the registers of a machine after updates. *)
Ltac regs_of := cbn [rg rm pc]; repeat first [rewrite upd_eq | rewrite upd_ne by done].
Ltac widths := change (wbits 8) with 64; change (wbits 4) with 32.
(** Runs one instruction whose result needs no wrap-around. *)
Tactic Notation "run" uconstr(lem) := rewrite lem by (regs_of; widths; cbn [length]; first [done | decided | lia]); regs_of.
Lemma mod_16 x q r : x = 16 * q + r -> 0 <= r < 16 -> x mod 16 = r.
Proof. intros -> Hr. rewrite Z.add_comm, Z.mul_comm, Z.mod_add by lia. by apply Z.mod_small. Qed.

(** What is loaded of a frame that was saved, left alone, and not overwritten by the next save. *)
Lemma load_frame {R} `{EqDecision R} nb (m0 m2 : memory) (g0 g2 : R -> Z) a0 a2 rs0 rs2 i r n k :
  rs0 !! i = Some r -> 0 <= g0 r < 2 ^ wbits nb ->
  same_bytes (save_mem nb m0 g0 a0 rs0) m2 a0 n -> disjoint_ranges a2 k a0 n ->
  Z.of_nat nb * Z.of_nat (length rs2) <= k -> Z.of_nat nb * (Z.of_nat i + 1) <= n ->
  uwrap (wbits nb) (load_w nb (save_mem nb m2 g2 a2 rs2) (a0 + Z.of_nat nb * Z.of_nat i)) = g0 r.
Proof.
  intros Hi Hr Hs Hd Hk Hn. rewrite (load_w_same nb _ (save_mem nb m0 g0 a0 rs0)).
  - rewrite (save_mem_load nb m0 g0 a0 rs0 i r) by done. by apply uwrap_small.
  - intros x Hx. rewrite save_mem_outside by (unfold disjoint_ranges in Hd; nia). symmetry. apply Hs. nia.
Qed.

(** The same for a word that was put there by itself. *)
Lemma load_word {R} `{EqDecision R} nb (m1 m2 : memory) (g2 : R -> Z) a0 a2 rs2 off v n k :
  load_w nb m1 (a0 + off) = v -> 0 <= v < 2 ^ wbits nb -> 0 <= off ->
  same_bytes m1 m2 a0 n -> disjoint_ranges a2 k a0 n ->
  Z.of_nat nb * Z.of_nat (length rs2) <= k -> off + Z.of_nat nb <= n ->
  uwrap (wbits nb) (load_w nb (save_mem nb m2 g2 a2 rs2) (a0 + off)) = v.
Proof.
  intros <- Hv Ho Hs Hd Hk Hn. rewrite (load_w_same nb _ m1); [by apply uwrap_small|].
  intros x Hx. rewrite save_mem_outside by (unfold disjoint_ranges in Hd; nia). symmetry. apply Hs. lia.
Qed.

(** What the words of a result hold after both have been stored. *)
Lemma load_result m p v1 v2 : 0 <= v1 < 2 ^ wbits 4 -> 0 <= v2 < 2 ^ wbits 4 ->
  load_w 4 (store_w 4 (store_w 4 m p v1) (p + 4) v2) p = v1 /\
  load_w 4 (store_w 4 (store_w 4 m p v1) (p + 4) v2) (p + 4) = v2.
Proof.
  intros H1 H2. split; [|by apply load_store_w].
  rewrite load_store_w_other by (unfold disjoint_ranges; lia). by apply load_store_w.
Qed.

(** A word that a result does not touch. *)
Lemma load_past_result m p v1 v2 a : disjoint_ranges p 8 a 4 ->
  load_w 4 (store_w 4 (store_w 4 m p v1) (p + 4) v2) a = load_w 4 m a.
Proof. intros Hd. unfold disjoint_ranges in Hd. rewrite !load_store_w_other by (unfold disjoint_ranges; lia). done. Qed.
