(* ===== verification/ContextArm.v ===== *)
(** * The laws of the context switch on AArch64 and ARM *)

From stdpp Require Import base numbers list list_numbers.
From Stdlib Require Import Lia ZArith.
From S2P Require Import Prelude Context ContextRisc ContextMachines.

(** ** AArch64: the laws *)

Module Arm64Laws.
Import Arm64.

Definition saved : list reg := [X19; X20; X21; X22; X23; X24; X25; X26; X27; X28; X29; X30; X30].
Definition restored : list reg := [X19; X20; X21; X22; X23; X24; X25; X26; X27; X28; X29; X30].

Definition jump_ok (m : rmachine reg) : Prop :=
  rmachine_ok 8 m /\ 112 <= rg m SP /\ rg m X0 + 112 < 2 ^ 64.
Definition make_ok (end_ : Z) (m : rmachine reg) : Prop :=
  rmachine_ok 8 m /\ 0 <= end_ < 2 ^ 64 /\ rg m X0 + rg m X1 < 2 ^ 64 /\ 128 <= rg m X1.

Definition frame (m : rmachine reg) : memory :=
  save_mem 8 (rm m) (upd (rg m) SP (rg m SP - 112)) (rg m SP - 112) saved.

Lemma arm64_jump_effect m m' : jump_ok m -> rexec 8 arm64_tb_context_jump m = m' ->
  rm m' = frame m /\ pc m' = uwrap (wbits 8) (load_w 8 (frame m) (rg m X0 + 96)) /\
  rg m' SP = rg m X0 + 112 /\ rg m' X0 = rg m SP - 112 /\ rg m' X1 = rg m X1 /\
  (forall i r, restored !! i = Some r -> rg m' r = uwrap (wbits 8) (load_w 8 (frame m) (rg m X0 + Z.of_nat 8 * Z.of_nat i))) /\
  (forall r, r ∈ callee_saved_fp -> rg m' r = rg m r).
Proof.
  intros (Hm & Hsp & Hto). pose proof (Hm SP) as HSP. pose proof (Hm X0) as HX0. change (wbits 8) with 64 in HSP, HX0.
  change arm64_tb_context_jump with (Subi SP SP 112 :: saves 8 SP 0 saved ++
    Mov X4 SP :: Mov SP X0 :: loads 8 SP 0 restored ++ [Mov X0 X4; Ldr X4 SP 96; Addi SP SP 112; Br X4]).
  run rexec_subi. unfold saved at 1. run rexec_saves. fold saved. rewrite Z.add_0_r. change (save_mem _ _ _ _ _) with (frame m).
  run rexec_mov. run rexec_mov. unfold restored at 1. run rexec_loads. fold restored.
  rewrite Z.add_0_r. set (g := load_regs _ _ _ _ _).
  assert (Hg : forall r, r ∉ restored -> g r = upd (upd (upd (rg m) SP (rg m SP - 112)) X4 (rg m SP - 112)) SP (rg m X0) r).
  { intros r Hr. by apply load_regs_other. }
  assert (Hsp' : g SP = rg m X0) by (rewrite Hg by decided; by regs_of).
  assert (Hx4 : g X4 = rg m SP - 112) by (rewrite Hg by decided; by regs_of).
  assert (Hx1 : g X1 = rg m X1) by (rewrite Hg by decided; by regs_of).
  assert (Hl : forall i r, restored !! i = Some r -> g r = uwrap (wbits 8) (load_w 8 (frame m) (rg m X0 + Z.of_nat 8 * Z.of_nat i))).
  { intros i r Hi. apply load_regs_lookup; [decided|done]. }
  assert (Hd : forall r, r ∈ callee_saved_fp -> g r = rg m r).
  { intros r Hr. apply list_elem_of_In in Hr. cbn in Hr. destruct_or! Hr; try done; subst r; (rewrite Hg by decided); by regs_of. }
  clearbody g. run rexec_mov. run rexec_ldr. run rexec_addi. cbn [rexec foldl rstep]. intros <-. regs_of.
  rewrite Hsp', Hx4, Hx1. split_and!; try done.
  - intros i r Hi. rewrite <- (Hl i r Hi). apply list_elem_of_lookup_2, list_elem_of_In in Hi. cbn in Hi.
    destruct_or! Hi; try done; subst r; by regs_of.
  - intros r Hr. rewrite <- (Hd r Hr). apply list_elem_of_In in Hr. cbn in Hr. destruct_or! Hr; try done; subst r; by regs_of.
Qed.

Definition context_at (m : rmachine reg) : Z := 16 * ((rg m X0 + rg m X1) / 16) - 112.

Lemma arm64_make_effect end_ m m' : make_ok end_ m -> rexec 8 (arm64_tb_context_make end_) m = m' ->
  rg m X0 <= context_at m /\ context_at m + 112 <= rg m X0 + rg m X1 /\
  rg m' X0 = context_at m /\ pc m' = rg m X30 /\
  load_w 8 (rm m') (context_at m + 96) = rg m X2 /\ load_w 8 (rm m') (context_at m + 88) = end_.
Proof.
  intros (Hm & Hend & Htop & Hsz). pose proof (Hm X0). pose proof (Hm X1). pose proof (Hm X2). change (wbits 8) with 64 in *.
  pose proof (div16_range 8 (rg m X0 + rg m X1)) as Hdiv. change (wbits 8) with 64 in Hdiv.
  unfold arm64_tb_context_make. change (Z.lnot 15) with (-16). run rexec_add. run rexec_andi_16. run rexec_subi.
  change (16 * ((rg m X0 + rg m X1) / 16) - 112) with (context_at m).
  assert (Hctx : rg m X0 <= context_at m /\ context_at m + 112 <= rg m X0 + rg m X1) by (unfold context_at; lia).
  run rexec_str. run rexec_li. run rexec_str. cbn [rexec foldl rstep]. intros <-. regs_of.
  split_and!; try (done || lia); [|by apply load_store_w].
  rewrite load_store_w_other by (unfold disjoint_ranges; lia). by apply load_store_w.
Qed.

Strategy 1000 [arm64_tb_context_jump arm64_tb_context_make].

Definition sw : switch_machine := {|
  sm_state := rmachine reg; sm_mem := rm; sm_pc := pc; sm_sp := fun m => rg m SP; sm_frame := 112;
  sm_jump := rexec 8 arm64_tb_context_jump; sm_jump_ok := jump_ok;
  sm_to := fun m => rg m X0; sm_priv := fun m => rg m X1; sm_from := fun m => rg m SP - 112;
  sm_kept := fun m => map (rg m) callee_saved;
  sm_return := fun m => (rg m X30, rg m SP);
  sm_result := fun _ m => (rg m X0, rg m X1);
  sm_make := fun _ end_ => rexec 8 (arm64_tb_context_make end_); sm_make_ok := fun _ => make_ok;
  sm_block := fun m => (rg m X0, rg m X1); sm_func := fun m => rg m X2;
  sm_made := fun m => rg m X0; sm_first := fun _ m => rg m X2; sm_enter := fun m => m; sm_args := fun m => (rg m X0, rg m X1);
  sm_link := fun m => rg m X30; sm_entry_sp := 0 |}.

Lemma arm64_sw_switches_back : switches_back sw.
Proof.
  intros m0 m2 Hok0 Hok2 Hto Hsame Hdisj. cbn -[rexec frame arm64_tb_context_jump] in *.
  destruct (arm64_jump_effect m0 _ Hok0 eq_refl) as (Hm1 & _). rewrite Hm1 in Hsame.
  destruct (arm64_jump_effect m2 _ Hok2 eq_refl) as (_ & Hpc & Hsp & Hx0 & Hx1 & Hr & _).
  set (m3 := rexec 8 arm64_tb_context_jump m2) in *. clearbody m3. rewrite Hto in *.
  assert (Hframe : forall i r, saved !! i = Some r -> r <> SP ->
            uwrap (wbits 8) (load_w 8 (frame m2) (rg m0 SP - 112 + Z.of_nat 8 * Z.of_nat i)) = rg m0 r).
  { intros i r Hi Hne. unfold frame. rewrite <- (upd_ne (rg m0) SP r (rg m0 SP - 112)) by done.
    apply (load_frame 8 (rm m0) (rm m2) _ (upd (rg m2) SP (rg m2 SP - 112)) (rg m0 SP - 112) (rg m2 SP - 112)
      saved saved i r 112 112); [done| |exact Hsame|exact Hdisj|by apply (bool_decide_unpack _)|].
    - rewrite upd_ne by done. apply (proj1 Hok0).
    - apply lookup_lt_Some in Hi. cbn in Hi |- *. lia. }
  assert (Hkept : forall i r, saved !! i = Some r -> restored !! i = Some r -> r <> SP -> rg m3 r = rg m0 r).
  { intros i r Hi Hi' Hne. rewrite (Hr i r Hi'). by apply Hframe. }
  split_and!.
  - rewrite Hpc, Hsp. f_equal; [|lia].
    pose proof (Hframe 12%nat X30 eq_refl) as E. change (Z.of_nat 8 * Z.of_nat 12) with 96 in E. by apply E.
  - rewrite (Hkept 0%nat X19), (Hkept 1%nat X20), (Hkept 2%nat X21), (Hkept 3%nat X22), (Hkept 4%nat X23),
      (Hkept 5%nat X24), (Hkept 6%nat X25), (Hkept 7%nat X26), (Hkept 8%nat X27), (Hkept 9%nat X28),
      (Hkept 10%nat X29) by done. done.
  - by rewrite Hx0, Hx1.
Qed.

Lemma arm64_sw_enters : enters sw.
Proof.
  intros entry end_ m0 m2 Hmk Hok2. cbn -[rexec frame arm64_tb_context_jump arm64_tb_context_make] in *. intros Hto Hsame Hdisj.
  destruct (arm64_make_effect end_ m0 _ Hmk eq_refl) as (Hlo & Hhi & Hx & _ & H96 & H88).
  destruct (arm64_jump_effect m2 _ Hok2 eq_refl) as (_ & Hpc & Hsp & Hx0 & Hx1 & Hr & _).
  set (m3 := rexec 8 arm64_tb_context_jump m2) in *. clearbody m3. rewrite Hto, Hx in *.
  destruct Hmk as (Hm0 & Hend & _).
  assert (Hw : forall off v, 0 <= off <= 104 -> 0 <= v < 2 ^ 64 ->
     load_w 8 (rm (rexec 8 (arm64_tb_context_make end_) m0)) (context_at m0 + off) = v ->
     uwrap (wbits 8) (load_w 8 (frame m2) (context_at m0 + off)) = v).
  { intros off v Hoff Hv Hl. apply (load_word 8 _ _ _ _ _ saved off v 112 112 Hl Hv); try (done || lia). }
  assert (Hf : pc m3 = rg m0 X2) by (rewrite Hpc; apply Hw; [lia|apply (Hm0 X2)|done]).
  split_and!; [done|done|by rewrite Hx0, Hx1| |done|lia|].
  2: { rewrite Hsp. unfold context_at. eapply mod_16; [|lia]. rewrite Z.add_0_r. apply Z.sub_add. }
  - rewrite (Hr 11%nat X30 eq_refl). change (Z.of_nat 8 * Z.of_nat 11) with 88. by apply Hw.
Qed.
End Arm64Laws.

(** ** ARM: the laws *)

Module ArmLaws.
Import Arm.

Definition saved : list reg := [R0; R4; R5; R6; R7; R8; R9; R10; R11; LR].
Definition restored : list reg := [R3; R4; R5; R6; R7; R8; R9; R10; R11; LR].

Definition make_ok (end_ : Z) (m : rmachine reg) : Prop :=
  rmachine_ok 4 m /\ 0 <= end_ < 2 ^ 32 /\ rg m R0 + rg m R1 < 2 ^ 32 /\ 80 <= rg m R1.

Definition pushed_lr (m : rmachine reg) : memory := store_w 4 (rm m) (rg m SP - 4) (rg m LR).
Definition frame (m : rmachine reg) : memory :=
  save_mem 4 (pushed_lr m) (upd (upd (rg m) SP (rg m SP - 4)) SP (rg m SP - 44)) (rg m SP - 44) saved.

(** Where the frame that is resumed wants its result. *)
Definition result_of (m : rmachine reg) : Z := uwrap (wbits 4) (load_w 4 (frame m) (rg m R1)).

(** That block is outside of both frames. *)
Definition jump_ok (m : rmachine reg) : Prop :=
  rmachine_ok 4 m /\ 44 <= rg m SP /\ rg m R1 + 44 < 2 ^ 32 /\
  result_of m + 8 <= 2 ^ 32 /\ disjoint_ranges (result_of m) 8 (rg m R1) 44 /\
  disjoint_ranges (result_of m) 8 (rg m SP - 44) 44.

Lemma arm_jump_effect m m' p : jump_ok m -> result_of m = p -> rexec 4 arm_tb_context_jump m = m' ->
  rm m' = store_w 4 (store_w 4 (frame m) p (rg m SP - 44)) (p + 4) (rg m R2) /\
  pc m' = uwrap (wbits 4) (load_w 4 (frame m) (rg m R1 + 40)) /\
  rg m' SP = rg m R1 + 44 /\ rg m' R0 = rg m SP - 44 /\ rg m' R1 = rg m R2 /\
  (forall i r, restored !! i = Some r -> rg m' r = uwrap (wbits 4) (load_w 4 (frame m) (rg m R1 + Z.of_nat 4 * Z.of_nat i))).
Proof.
  intros (Hm & Hsp & Hto & Hp8 & Hpd & _) Hp. unfold result_of in *. rewrite Hp in *. pose proof (Hm SP) as HSP. pose proof (Hm R1) as HR1. pose proof (Hm R2) as HR2.
  assert (Hp0 : 0 <= p) by (rewrite <- Hp; apply uwrap_range; done).
  change (wbits 4) with 32 in HSP, HR1, HR2.
  change arm_tb_context_jump with (Subi SP SP 4 :: Str LR SP 0 :: Subi SP SP 40 :: saves 4 SP 0 saved ++
    Mov R0 SP :: Mov SP R1 :: loads 4 SP 0 restored ++ [Addi SP SP 40; Str R0 R3 0; Str R2 R3 4; Mov R1 R2; PopPc SP]).
  run rexec_subi. run rexec_str. rewrite Z.add_0_r. change (store_w 4 (rm m) (rg m SP - 4) (rg m LR)) with (pushed_lr m). run rexec_subi.
  replace (rg m SP - 4 - 40) with (rg m SP - 44) by lia.
  unfold saved at 1. run rexec_saves. fold saved. rewrite Z.add_0_r. change (save_mem _ _ _ _ _) with (frame m).
  run rexec_mov. run rexec_mov. unfold restored at 1. run rexec_loads. fold restored.
  rewrite Z.add_0_r. set (g := load_regs _ _ _ _ _).
  assert (Hg : forall r, r ∉ restored -> g r =
    upd (upd (upd (upd (rg m) SP (rg m SP - 4)) SP (rg m SP - 44)) R0 (rg m SP - 44)) SP (rg m R1) r).
  { intros r Hr. by apply load_regs_other. }
  assert (Hsp' : g SP = rg m R1) by (rewrite Hg by decided; by regs_of).
  assert (Hr0 : g R0 = rg m SP - 44) by (rewrite Hg by decided; by regs_of).
  assert (Hr2 : g R2 = rg m R2) by (rewrite Hg by decided; by regs_of).
  assert (Hl : forall i r, restored !! i = Some r -> g r = uwrap (wbits 4) (load_w 4 (frame m) (rg m R1 + Z.of_nat 4 * Z.of_nat i))).
  { intros i r Hi. apply load_regs_lookup; [decided|done]. }
  assert (Hr3 : g R3 = p). { rewrite (Hl 0%nat R3 eq_refl), <- Hp. do 3 f_equal. lia. }
  clearbody g. run rexec_addi. run rexec_str. run rexec_str. run rexec_mov. cbn [rexec foldl rstep]. intros <-. regs_of.
  rewrite Hr3, Hsp', Hr0, Hr2, Z.add_0_r. split_and!; try done.
  - rewrite load_past_result; [done|]. unfold disjoint_ranges in *. lia.
  - rewrite uwrap_small; [lia|]. widths. lia.
  - intros i r Hi. rewrite <- (Hl i r Hi). apply list_elem_of_lookup_2, list_elem_of_In in Hi. cbn in Hi.
    destruct_or! Hi; try done; subst r; by regs_of.
Qed.

Definition context_at (m : rmachine reg) : Z := 16 * ((rg m R0 + rg m R1) / 16) - 64.

Lemma arm_make_effect end_ m m' : make_ok end_ m -> rexec 4 (arm_tb_context_make end_) m = m' ->
  rg m R0 <= context_at m /\ context_at m + 64 <= rg m R0 + rg m R1 /\ rg m' R0 = context_at m /\
  load_w 4 (rm m') (context_at m) = context_at m + 44 /\
  load_w 4 (rm m') (context_at m + 36) = end_ /\ load_w 4 (rm m') (context_at m + 40) = rg m R2.
Proof.
  intros (Hm & Hend & Htop & Hsz). pose proof (Hm R0) as H0. pose proof (Hm R1) as H1. pose proof (Hm R2) as H2.
  pose proof (div16_range 4 (rg m R0 + rg m R1)) as Hdiv. change (wbits 4) with 32 in Hdiv, H0, H1, H2.
  unfold arm_tb_context_make. run rexec_add. run rexec_bici_15. run rexec_subi.
  change (16 * ((rg m R0 + rg m R1) / 16) - 64) with (context_at m).
  assert (Hctx : rg m R0 <= context_at m /\ context_at m + 64 <= rg m R0 + rg m R1) by (unfold context_at; lia).
  run rexec_str. run rexec_addi. run rexec_str. run rexec_li. run rexec_str. cbn [rexec foldl rstep]. intros <-. regs_of.
  rewrite Z.add_0_r. split_and!; try (done || lia).
  - rewrite load_store_w_other by (unfold disjoint_ranges; lia). apply load_store_w. widths. lia.
  - by apply load_store_w.
  - rewrite !load_store_w_other by (unfold disjoint_ranges; lia). by apply load_store_w.
Qed.

Strategy 1000 [arm_tb_context_jump arm_tb_context_make].

Definition sw : switch_machine := {|
  sm_state := rmachine reg; sm_mem := rm; sm_pc := pc; sm_sp := fun m => rg m SP; sm_frame := 44;
  sm_jump := rexec 4 arm_tb_context_jump; sm_jump_ok := jump_ok;
  sm_to := fun m => rg m R1; sm_priv := fun m => rg m R2; sm_from := fun m => rg m SP - 44;
  sm_kept := fun m => map (rg m) callee_saved;
  sm_return := fun m => (rg m LR, rg m SP);
  sm_result := fun m0 m => (load_w 4 (rm m) (rg m0 R0), load_w 4 (rm m) (rg m0 R0 + 4));
  sm_make := fun _ end_ => rexec 4 (arm_tb_context_make end_); sm_make_ok := fun _ => make_ok;
  sm_block := fun m => (rg m R0, rg m R1); sm_func := fun m => rg m R2;
  sm_made := fun m => rg m R0; sm_first := fun _ m => rg m R2; sm_enter := fun m => m; sm_args := fun m => (rg m R0, rg m R1);
  sm_link := fun m => rg m LR; sm_entry_sp := 12 |}.

(** What the next jump still finds of a frame. *)
Lemma arm_frame_word m0 m2 i r :
  jump_ok m0 -> same_bytes (frame m0) (rm m2) (rg m0 SP - 44) 44 ->
  disjoint_ranges (rg m2 SP - 44) 44 (rg m0 SP - 44) 44 -> (saved ++ [LR]) !! i = Some r ->
  uwrap (wbits 4) (load_w 4 (frame m2) (rg m0 SP - 44 + Z.of_nat 4 * Z.of_nat i)) = rg m0 r.
Proof.
  intros (Hm0 & Hsp & _) Hsame Hdisj Hi.
  assert (Hs : same_bytes (frame m0) (pushed_lr m2) (rg m0 SP - 44) 44).
  { intros x Hx. unfold pushed_lr. rewrite store_w_outside by (unfold disjoint_ranges in Hdisj; lia). by apply Hsame. }
  unfold frame. apply (load_word 4 (frame m0) (pushed_lr m2) _ _ _ saved _ _ 44 44); [|apply Hm0|lia|exact Hs|exact Hdisj| |].
  - destruct (decide (i = 10%nat)) as [->|Hne].
    + injection Hi as <-. unfold frame. rewrite (load_w_same 4 _ (pushed_lr m0)).
      * unfold pushed_lr. change (Z.of_nat 4 * Z.of_nat 10) with 40. replace (rg m0 SP - 44 + 40) with (rg m0 SP - 4) by lia.
        apply load_store_w, Hm0.
      * intros x Hx. apply save_mem_outside. cbn [length saved]. lia.
    + assert (Hi' : saved !! i = Some r).
      { rewrite lookup_app_l in Hi; [done|]. apply lookup_lt_Some in Hi. cbn in Hi |- *. lia. }
      assert (Hr : r <> SP) by (intros ->; apply list_elem_of_lookup_2 in Hi'; revert Hi'; decided).
      assert (Hu : upd (upd (rg m0) SP (rg m0 SP - 4)) SP (rg m0 SP - 44) r = rg m0 r) by (by rewrite !upd_ne).
      rewrite <- Hu. apply save_mem_load; [done|]. rewrite Hu. apply Hm0.
  - cbn [length saved]. lia.
  - apply lookup_lt_Some in Hi. cbn in Hi. lia.
Qed.

(** The frame of a jump is as it was saved when the jump is done. *)
Lemma arm_jump_keeps_frame m : jump_ok m ->
  same_bytes (frame m) (rm (rexec 4 arm_tb_context_jump m)) (rg m SP - 44) 44.
Proof.
  intros Hok. destruct (arm_jump_effect m _ _ Hok eq_refl eq_refl) as (-> & _).
  destruct Hok as (_ & _ & _ & _ & _ & Hd). unfold disjoint_ranges in Hd.
  intros x Hx. rewrite !store_w_outside by lia. done.
Qed.

Lemma arm_sw_switches_back : switches_back sw.
Proof.
  intros m0 m2 Hok0 Hok2 Hto Hsame Hdisj. cbn -[rexec frame arm_tb_context_jump load_w Z.add] in *.
  assert (Hs : same_bytes (frame m0) (rm m2) (rg m0 SP - 44) 44).
  { intros x Hx. rewrite (arm_jump_keeps_frame m0 Hok0 x Hx). by apply Hsame. }
  pose proof (fun i r => arm_frame_word m0 m2 i r Hok0 Hs Hdisj) as Hw. clear Hs Hsame.
  assert (Hp : result_of m2 = rg m0 R0).
  { unfold result_of. rewrite Hto, <- (Hw 0%nat R0 eq_refl). do 3 f_equal. lia. }
  destruct (arm_jump_effect m2 _ _ Hok2 Hp eq_refl) as (Hmem & Hpc & Hsp & _ & _ & Hr).
  set (m3 := rexec 4 arm_tb_context_jump m2) in *. clearbody m3. rewrite Hto in *.
  destruct (load_result (frame m2) (rg m0 R0) (rg m2 SP - 44) (rg m2 R2)) as [Hl1 Hl2].
  { pose proof (proj1 Hok2 SP). destruct Hok2 as (_ & ? & _). change (wbits 4) with 32 in *. lia. }
  { apply (proj1 Hok2). }
  assert (Hkept : forall i r, saved !! i = Some r -> restored !! i = Some r -> rg m3 r = rg m0 r).
  { intros i r Hi Hi'. rewrite (Hr i r Hi'). apply Hw. by apply lookup_app_l_Some. }
  split_and!.
  - rewrite Hpc, Hsp. f_equal; [|lia]. by apply (Hw 10%nat LR).
  - rewrite (Hkept 1%nat R4), (Hkept 2%nat R5), (Hkept 3%nat R6), (Hkept 4%nat R7), (Hkept 5%nat R8),
      (Hkept 6%nat R9), (Hkept 7%nat R10), (Hkept 8%nat R11) by done. done.
  - by rewrite Hmem, Hl1, Hl2.
Qed.

(** What a jump finds of a context that was made. *)
Lemma arm_made_word end_ m0 m2 off v : make_ok end_ m0 ->
  same_bytes (rm (rexec 4 (arm_tb_context_make end_) m0)) (rm m2) (context_at m0) 44 ->
  disjoint_ranges (rg m2 SP - 44) 44 (context_at m0) 44 -> 0 <= off <= 40 -> 0 <= v < 2 ^ wbits 4 ->
  load_w 4 (rm (rexec 4 (arm_tb_context_make end_) m0)) (context_at m0 + off) = v ->
  uwrap (wbits 4) (load_w 4 (frame m2) (context_at m0 + off)) = v.
Proof.
  intros Hmk Hsame Hdisj Hoff Hv Hl. unfold frame.
  apply (load_word 4 (rm (rexec 4 (arm_tb_context_make end_) m0)) (pushed_lr m2) _ _ _ saved _ _ 44 44 Hl Hv);
    [lia| |exact Hdisj|cbn [length saved]; lia|lia].
  intros x Hx. unfold pushed_lr. rewrite store_w_outside by (unfold disjoint_ranges in Hdisj; lia). by apply Hsame.
Qed.

Lemma arm_entered end_ m0 m2 : make_ok end_ m0 -> jump_ok m2 -> rg m2 R1 = context_at m0 ->
  same_bytes (rm (rexec 4 (arm_tb_context_make end_) m0)) (rm m2) (context_at m0) 44 ->
  disjoint_ranges (rg m2 SP - 44) 44 (context_at m0) 44 ->
  let m3 := rexec 4 arm_tb_context_jump m2 in
  pc m3 = rg m0 R2 /\ rg m3 R0 = rg m2 SP - 44 /\ rg m3 R1 = rg m2 R2 /\ rg m3 LR = end_ /\
  rg m3 SP = context_at m0 + 44.
Proof.
  intros Hmk Hok2 Hto Hsame Hdisj. cbv zeta.
  destruct (arm_make_effect end_ m0 _ Hmk eq_refl) as (Hlo & Hhi & _ & H0 & H36 & H40).
  destruct (arm_jump_effect m2 _ _ Hok2 eq_refl eq_refl) as (_ & Hpc & Hsp & Hr0 & Hr1 & Hr).
  rewrite Hto in *. pose proof (fun off v => arm_made_word end_ m0 m2 off v Hmk Hsame Hdisj) as Hw.
  split_and!; try done.
  - rewrite Hpc. apply Hw; [lia|apply (proj1 Hmk)|done].
  - rewrite (Hr 9%nat LR eq_refl). change (Z.of_nat 4 * Z.of_nat 9) with 36. apply Hw; [lia|apply (proj1 (proj2 Hmk))|done].
Qed.

Lemma arm_sw_enters : enters sw.
Proof.
  intros entry end_ m0 m2 Hmk Hok2. cbn -[rexec frame arm_tb_context_jump arm_tb_context_make] in *. intros Hto Hsame Hdisj.
  destruct (arm_make_effect end_ m0 _ Hmk eq_refl) as (Hlo & Hhi & Hx & _). rewrite Hx in *.
  destruct (arm_entered end_ m0 m2 Hmk Hok2 Hto Hsame Hdisj) as (H1 & H2 & H3 & H4 & H5).
  rewrite H1, H2, H3, H4, H5. split_and!; try (done || lia).
  unfold context_at. apply (mod_16 _ ((rg m0 R0 + rg m0 R1) / 16 - 2)); lia.
Qed.
End ArmLaws.
