(* ===== verification/ContextMips.v ===== *)
(** * The laws of the context switch on MIPS *)

From stdpp Require Import base numbers list list_numbers.
From Stdlib Require Import Lia ZArith.
From S2P Require Import Prelude Context ContextRisc ContextMachines.

Module MipsLaws.
Import Mips.

Definition saved : list reg := [S0; S1; S2; S3; S4; S5; S6; S7; FP; A0; RA; RA; GP].
Definition restored : list reg := [S0; S1; S2; S3; S4; S5; S6; S7; FP; T0; RA; T9; GP].

Definition frame (m : rmachine reg) : memory :=
  save_mem 4 (rm m) (upd (rg m) SP (rg m SP + -64)) (rg m SP + -64) saved.

(** Where the frame that is resumed wants its result. *)
Definition result_of (m : rmachine reg) : Z := uwrap (wbits 4) (load_w 4 (frame m) (rg m A1 + 36)).

(** That block is outside of the frame of the caller. *)
Definition jump_ok (m : rmachine reg) : Prop :=
  rmachine_ok 4 m /\ 64 <= rg m SP /\ rg m A1 + 64 < 2 ^ 32 /\
  result_of m + 8 <= 2 ^ 32 /\ disjoint_ranges (result_of m) 8 (rg m SP + -64) 64.
Definition make_ok (end_ : Z) (m : rmachine reg) : Prop :=
  rmachine_ok 4 m /\ 0 <= end_ < 2 ^ 32 /\ rg m A0 + rg m A1 < 2 ^ 32 /\ 112 <= rg m A1.

Lemma mips_jump_effect m m' p : jump_ok m -> result_of m = p -> rexec 4 mips_tb_context_jump m = m' ->
  rm m' = store_w 4 (store_w 4 (frame m) p (rg m SP + -64)) (p + 4) (rg m A2) /\
  pc m' = uwrap (wbits 4) (load_w 4 (frame m) (rg m A1 + 44)) /\
  rg m' SP = rg m A1 + 64 /\ rg m' A0 = rg m SP + -64 /\ rg m' A1 = rg m A2 /\ rg m' V0 = rg m V0 /\
  (forall i r, restored !! i = Some r ->
     rg m' r = uwrap (wbits 4) (load_w 4 (frame m) (rg m A1 + Z.of_nat 4 * Z.of_nat i))).
Proof.
  intros (Hm & Hsp & Hto & Hp8 & _) Hp. unfold result_of in *. rewrite Hp in *.
  pose proof (Hm SP) as HSP. pose proof (Hm A1) as HA1. pose proof (Hm A2) as HA2.
  assert (Hp0 : 0 <= p) by (rewrite <- Hp; apply uwrap_range; done).
  change (wbits 4) with 32 in HSP, HA1, HA2.
  change mips_tb_context_jump with (Addi SP SP (-64) :: saves 4 SP 0 saved ++ Mov A0 SP :: Mov SP A1 ::
    loads 4 SP 0 restored ++ [Addi SP SP 64; Str A0 T0 0; Str A2 T0 4; Mov A1 A2; Br T9]).
  run rexec_addi. unfold saved at 1. run rexec_saves. fold saved. rewrite Z.add_0_r.
  change (save_mem _ _ _ _ _) with (frame m).
  run rexec_mov. run rexec_mov. unfold restored at 1. run rexec_loads. fold restored.
  rewrite Z.add_0_r. set (g := load_regs _ _ _ _ _).
  assert (Hg : forall r, r ∉ restored -> g r = upd (upd (upd (rg m) SP (rg m SP + -64)) A0 (rg m SP + -64)) SP (rg m A1) r).
  { intros r Hr. by apply load_regs_other. }
  assert (Hsp' : g SP = rg m A1) by (rewrite Hg by decided; by regs_of).
  assert (Ha0 : g A0 = rg m SP + -64) by (rewrite Hg by decided; by regs_of).
  assert (Ha2 : g A2 = rg m A2) by (rewrite Hg by decided; by regs_of).
  assert (Hv0 : g V0 = rg m V0) by (rewrite Hg by decided; by regs_of).
  assert (Hl : forall i r, restored !! i = Some r -> g r = uwrap (wbits 4) (load_w 4 (frame m) (rg m A1 + Z.of_nat 4 * Z.of_nat i))).
  { intros i r Hi. apply load_regs_lookup; [decided|done]. }
  assert (Ht0 : g T0 = p) by (rewrite (Hl 9%nat T0 eq_refl), <- Hp; done).
  clearbody g. run rexec_addi. run rexec_str. run rexec_str. run rexec_mov. cbn [rexec foldl rstep]. intros <-. regs_of.
  rewrite Ht0, Hsp', Ha0, Ha2, Hv0, Z.add_0_r. split_and!; try done.
  - by rewrite (Hl 11%nat T9 eq_refl).
  - intros i r Hi. rewrite <- (Hl i r Hi). apply list_elem_of_lookup_2, list_elem_of_In in Hi. cbn in Hi.
    destruct_or! Hi; try done; subst r; by regs_of.
Qed.

Definition context_at (m : rmachine reg) : Z := 16 * ((rg m A0 + rg m A1 + -32) / 16) + -64.

Lemma mips_make_effect end_ m m' : make_ok end_ m -> rexec 4 (mips_tb_context_make end_) m = m' ->
  rg m A0 <= context_at m /\ context_at m + 64 <= rg m A0 + rg m A1 /\ rg m' V0 = context_at m /\
  load_w 4 (rm m') (context_at m + 36) = context_at m + 52 /\
  load_w 4 (rm m') (context_at m + 40) = end_ /\ load_w 4 (rm m') (context_at m + 44) = rg m A2.
Proof.
  intros (Hm & Hend & Htop & Hsz). pose proof (Hm A0) as H0. pose proof (Hm A1) as H1. pose proof (Hm A2) as H2.
  pose proof (div16_range 4 (rg m A0 + rg m A1 + -32)) as Hdiv. change (wbits 4) with 32 in Hdiv, H0, H1, H2.
  unfold mips_tb_context_make. run rexec_add. run rexec_addi. run rexec_mov. run rexec_and_16. run rexec_addi.
  change (16 * ((rg m A0 + rg m A1 + -32) / 16) + -64) with (context_at m).
  assert (Hctx : rg m A0 <= context_at m /\ context_at m + 64 <= rg m A0 + rg m A1) by (unfold context_at; lia).
  run rexec_str. run rexec_str. run rexec_addi. run rexec_str. run rexec_li. run rexec_str.
  cbn [rexec foldl rstep]. intros <-. regs_of. split_and!; try (done || lia).
  - rewrite load_store_w_other by (unfold disjoint_ranges; lia). apply load_store_w. widths. lia.
  - by apply load_store_w.
  - rewrite !load_store_w_other by (unfold disjoint_ranges; lia). by apply load_store_w.
Qed.

Strategy 1000 [mips_tb_context_jump mips_tb_context_make].

Definition sw : switch_machine := {|
  sm_state := rmachine reg; sm_mem := rm; sm_pc := pc; sm_sp := fun m => rg m SP; sm_frame := 64;
  sm_jump := rexec 4 mips_tb_context_jump; sm_jump_ok := jump_ok;
  sm_to := fun m => rg m A1; sm_priv := fun m => rg m A2; sm_from := fun m => rg m SP + -64;
  sm_kept := fun m => map (rg m) callee_saved;
  sm_return := fun m => (rg m RA, rg m SP);
  sm_result := fun m0 m => (load_w 4 (rm m) (rg m0 A0), load_w 4 (rm m) (rg m0 A0 + 4));
  sm_make := fun _ end_ => rexec 4 (mips_tb_context_make end_); sm_make_ok := fun _ => make_ok;
  sm_block := fun m => (rg m A0, rg m A1); sm_func := fun m => rg m A2;
  sm_made := fun m => rg m V0; sm_first := fun _ m => rg m A2; sm_enter := fun m => m; sm_args := fun m => (rg m A0, rg m A1);
  sm_link := fun m => rg m RA; sm_entry_sp := 0 |}.

(** The frame of a jump is as it was saved when the jump is done. *)
Lemma mips_jump_keeps_frame m : jump_ok m ->
  same_bytes (frame m) (rm (rexec 4 mips_tb_context_jump m)) (rg m SP + -64) 64.
Proof.
  intros Hok. destruct (mips_jump_effect m _ _ Hok eq_refl eq_refl) as (-> & _).
  destruct Hok as (_ & _ & _ & _ & Hd). unfold disjoint_ranges in Hd.
  intros x Hx. rewrite !store_w_outside by lia. done.
Qed.

(** What the next jump finds of a frame. *)
Lemma mips_frame_word m0 m2 i r :
  rmachine_ok 4 m0 -> same_bytes (frame m0) (rm m2) (rg m0 SP + -64) 64 ->
  disjoint_ranges (rg m2 SP + -64) 64 (rg m0 SP + -64) 64 -> saved !! i = Some r ->
  uwrap (wbits 4) (load_w 4 (frame m2) (rg m0 SP + -64 + Z.of_nat 4 * Z.of_nat i)) = rg m0 r.
Proof.
  intros Hm0 Hsame Hdisj Hi. unfold frame.
  assert (Hr : r <> SP) by (intros ->; apply list_elem_of_lookup_2 in Hi; revert Hi; decided).
  rewrite <- (upd_ne (rg m0) SP r (rg m0 SP + -64)) by done.
  apply (load_frame 4 (rm m0) (rm m2) _ (upd (rg m2) SP (rg m2 SP + -64)) (rg m0 SP + -64) (rg m2 SP + -64)
      saved saved i r 64 64); [done| |exact Hsame|exact Hdisj|cbn [length saved]; lia|].
  - rewrite upd_ne by done. apply Hm0.
  - apply lookup_lt_Some in Hi. cbn in Hi |- *. lia.
Qed.

Lemma mips_sw_switches_back : switches_back sw.
Proof.
  intros m0 m2 Hok0 Hok2 Hto Hsame Hdisj. cbn -[rexec frame mips_tb_context_jump load_w Z.add] in *.
  assert (Hs : same_bytes (frame m0) (rm m2) (rg m0 SP + -64) 64).
  { intros x Hx. rewrite (mips_jump_keeps_frame m0 Hok0 x Hx). by apply Hsame. }
  pose proof (fun i r => mips_frame_word m0 m2 i r (proj1 Hok0) Hs Hdisj) as Hw. clear Hs Hsame.
  assert (Hp : result_of m2 = rg m0 A0).
  { unfold result_of. rewrite Hto. by apply (Hw 9%nat A0). }
  destruct (mips_jump_effect m2 _ _ Hok2 Hp eq_refl) as (Hmem & Hpc & Hsp & _ & _ & _ & Hr).
  set (m3 := rexec 4 mips_tb_context_jump m2) in *. clearbody m3. rewrite Hto in *.
  destruct (load_result (frame m2) (rg m0 A0) (rg m2 SP + -64) (rg m2 A2)) as [Hl1 Hl2].
  { pose proof (proj1 Hok2 SP). destruct Hok2 as (_ & ? & _). change (wbits 4) with 32 in *. lia. }
  { apply (proj1 Hok2). }
  assert (Hkept : forall i r, saved !! i = Some r -> restored !! i = Some r -> rg m3 r = rg m0 r).
  { intros i r Hi Hi'. rewrite (Hr i r Hi'). by apply Hw. }
  split_and!.
  - rewrite Hpc, Hsp. f_equal; [|lia]. by apply (Hw 11%nat RA).
  - rewrite (Hkept 0%nat S0), (Hkept 1%nat S1), (Hkept 2%nat S2), (Hkept 3%nat S3), (Hkept 4%nat S4), (Hkept 5%nat S5),
      (Hkept 6%nat S6), (Hkept 7%nat S7), (Hkept 8%nat FP), (Hkept 12%nat GP) by done. done.
  - by rewrite Hmem, Hl1, Hl2.
Qed.

Lemma mips_sw_enters : enters sw.
Proof.
  intros entry end_ m0 m2 Hmk Hok2. cbn -[rexec frame mips_tb_context_jump mips_tb_context_make Z.add] in *. intros Hto Hsame Hdisj.
  destruct (mips_make_effect end_ m0 _ Hmk eq_refl) as (Hlo & Hhi & Hx & _ & H40 & H44). rewrite Hx in *.
  destruct (mips_jump_effect m2 _ _ Hok2 eq_refl eq_refl) as (_ & Hpc & Hsp & Ha0 & Ha1 & _ & Hr). rewrite Hto in *.
  assert (Hw : forall off v, 0 <= off <= 60 -> 0 <= v < 2 ^ wbits 4 ->
     load_w 4 (rm (rexec 4 (mips_tb_context_make end_) m0)) (context_at m0 + off) = v ->
     uwrap (wbits 4) (load_w 4 (frame m2) (context_at m0 + off)) = v).
  { intros off v Hoff Hv Hl. unfold frame.
    apply (load_word 4 _ (rm m2) _ _ _ saved off v 64 64 Hl Hv); [lia|exact Hsame|exact Hdisj|cbn [length saved]; lia|lia]. }
  rewrite Hpc, Hsp, Ha0, Ha1, (Hr 10%nat RA eq_refl). change (Z.of_nat 4 * Z.of_nat 10) with 40.
  destruct Hmk as (Hm0 & Hend & _).
  rewrite (Hw 40 end_), (Hw 44 (rg m0 A2)) by first [exact Hend | apply Hm0 | done | lia].
  split_and!; try (done || lia).
  unfold context_at. apply (mod_16 _ ((rg m0 A0 + rg m0 A1 + -32) / 16)); lia.
Qed.
End MipsLaws.
