(* ===== verification/ContextX86.v ===== *)
(** * The laws of the context switch on 32-bit x86 *)

From stdpp Require Import base numbers list list_numbers.
From Stdlib Require Import Lia ZArith.
From S2P Require Import Prelude Context ContextRisc ContextMachines.

Module X86Laws.
Import X86.

(** The arguments of a call are above its return address: the block for the result, the
    context and the datum. *)
Definition to_of (m : rmachine reg) : Z := load_w 4 (rm m) (rg m ESP + 8).
Definition priv_of (m : rmachine reg) : Z := load_w 4 (rm m) (rg m ESP + 12).

Definition frame (m : rmachine reg) : memory :=
  store_w 4 (store_w 4 (store_w 4 (store_w 4 (rm m) (rg m ESP - 4) (rg m EBP)) (rg m ESP - 8) (rg m EBX))
    (rg m ESP - 12) (rg m ESI)) (rg m ESP - 16) (rg m EDI).

(** Where the frame that is resumed wants its result. *)
Definition result_of (m : rmachine reg) : Z := uwrap (wbits 4) (load_w 4 (frame m) (to_of m + 20)).

(** That block is outside of the frame of the caller, and does not cover the address to go
    on at. *)
Definition jump_ok (m : rmachine reg) : Prop :=
  rmachine_ok 4 m /\ mem_ok (rm m) /\ 16 <= rg m ESP /\ rg m ESP + 16 <= 2 ^ 32 /\ to_of m + 24 < 2 ^ 32 /\
  result_of m + 8 <= 2 ^ 32 /\ disjoint_ranges (result_of m) 8 (to_of m + 16) 4 /\
  disjoint_ranges (result_of m) 8 (rg m ESP - 16) 24.

Lemma x86_frame_outside m x : x < rg m ESP - 16 \/ rg m ESP <= x -> frame m x = rm m x.
Proof. intros Hx. unfold frame. rewrite !store_w_outside by lia. done. Qed.

Lemma x86_frame_above m a : rg m ESP <= a -> load_w 4 (frame m) a = load_w 4 (rm m) a.
Proof. intros Ha. apply load_w_same. intros x Hx. apply x86_frame_outside. lia. Qed.

(** The words of a frame. *)
Lemma x86_frame_words m : rmachine_ok 4 m ->
  load_w 4 (frame m) (rg m ESP - 16) = rg m EDI /\ load_w 4 (frame m) (rg m ESP - 16 + 4) = rg m ESI /\
  load_w 4 (frame m) (rg m ESP - 16 + 8) = rg m EBX /\ load_w 4 (frame m) (rg m ESP - 16 + 12) = rg m EBP.
Proof.
  intros Hm. unfold frame. replace (rg m ESP - 16 + 4) with (rg m ESP - 12) by lia.
  replace (rg m ESP - 16 + 8) with (rg m ESP - 8) by lia. replace (rg m ESP - 16 + 12) with (rg m ESP - 4) by lia.
  split_and!; rewrite ?load_store_w_other by (unfold disjoint_ranges; lia); by apply load_store_w.
Qed.

Lemma x86_jump_effect m m' p : jump_ok m -> result_of m = p -> rexec 4 x86_tb_context_jump m = m' ->
  rm m' = store_w 4 (store_w 4 (frame m) p (rg m ESP - 16)) (p + 4) (priv_of m) /\
  pc m' = uwrap (wbits 4) (load_w 4 (frame m) (to_of m + 16)) /\
  rg m' ESP = to_of m + 24 /\ rg m' EAX = rg m ESP - 16 /\ rg m' EDX = priv_of m /\
  rg m' EDI = uwrap (wbits 4) (load_w 4 (frame m) (to_of m)) /\
  rg m' ESI = uwrap (wbits 4) (load_w 4 (frame m) (to_of m + 4)) /\
  rg m' EBX = uwrap (wbits 4) (load_w 4 (frame m) (to_of m + 8)) /\
  rg m' EBP = uwrap (wbits 4) (load_w 4 (frame m) (to_of m + 12)).
Proof.
  intros (Hm & Hb & Hsp & Htop & Hto & Hp8 & Hpd & _) Hp. unfold result_of in *. rewrite Hp in *.
  pose proof (Hm ESP) as HSP. assert (Hp0 : 0 <= p) by (rewrite <- Hp; apply uwrap_range; done).
  pose proof (load_w_range 4 (rm m) (rg m ESP + 8) Hb) as Hto0. fold (to_of m) in Hto0.
  pose proof (load_w_range 4 (rm m) (rg m ESP + 12) Hb) as Hpr0. fold (priv_of m) in Hpr0.
  assert (Eto : uwrap (wbits 4) (load_w 4 (frame m) (rg m ESP - 16 + 24)) = to_of m).
  { rewrite x86_frame_above by lia. unfold to_of. replace (rg m ESP - 16 + 24) with (rg m ESP + 8) by lia. by apply uwrap_small. }
  assert (Epr : uwrap (wbits 4) (load_w 4 (frame m) (rg m ESP - 16 + 28)) = priv_of m).
  { rewrite x86_frame_above by lia. unfold priv_of. replace (rg m ESP - 16 + 28) with (rg m ESP + 12) by lia. by apply uwrap_small. }
  change (wbits 4) with 32 in HSP, Hto0, Hpr0.
  unfold x86_tb_context_jump, push, pop. cbn [app].
  run rexec_subi. run rexec_str. run rexec_subi. run rexec_str. run rexec_subi. run rexec_str. run rexec_subi. run rexec_str.
  rewrite !Z.add_0_r. replace (rg m ESP - 4 - 4 - 4 - 4) with (rg m ESP - 16) by lia.
  replace (rg m ESP - 4 - 4 - 4) with (rg m ESP - 12) by lia. replace (rg m ESP - 4 - 4) with (rg m ESP - 8) by lia.
  change (store_w 4 _ (rg m ESP - 16) _) with (frame m).
  run rexec_mov. run rexec_ldr. rewrite Eto. run rexec_ldr. rewrite Epr. run rexec_mov.
  run rexec_ldr. run rexec_addi. run rexec_ldr. run rexec_addi. run rexec_ldr. run rexec_addi. run rexec_ldr. run rexec_addi.
  run rexec_ldr. rewrite !Z.add_0_r.
  replace (to_of m + 4 + 4 + 4 + 4) with (to_of m + 16) by lia. replace (to_of m + 4 + 4 + 4) with (to_of m + 12) by lia.
  replace (to_of m + 4 + 4) with (to_of m + 8) by lia. replace (to_of m + 16 + 4) with (to_of m + 20) by lia. rewrite Hp.
  run rexec_str. run rexec_str. cbn [rexec foldl rstep]. unfold rset. cbn [rg rm pc]. intros <-. regs_of. rewrite Z.add_0_r.
  split_and!; try done.
  - by rewrite load_past_result.
  - change (wbits 4) with 32. rewrite (uwrap_small 32 (to_of m + 16 + Z.of_nat 4)), uwrap_small by lia. lia.
Qed.

(** ** Making a context *)

Definition block_of (m : rmachine reg) : Z * Z := (load_w 4 (rm m) (rg m ESP + 4), load_w 4 (rm m) (rg m ESP + 8)).
Definition func_of (m : rmachine reg) : Z := load_w 4 (rm m) (rg m ESP + 12).
Definition context_at (m : rmachine reg) : Z := 16 * ((fst (block_of m) + snd (block_of m) - 8) / 16) - 24.

(** The block is away from the stack of the caller. *)
Definition make_ok (entry end_ label1 label2 : Z) (m : rmachine reg) : Prop :=
  rmachine_ok 4 m /\ mem_ok (rm m) /\ 0 <= entry < 2 ^ 32 /\ 0 <= end_ < 2 ^ 32 /\ 0 <= label1 < 2 ^ 32 /\
  0 <= label2 < 2 ^ 32 /\ 4 <= rg m ESP /\ rg m ESP + 16 <= 2 ^ 32 /\
  fst (block_of m) + snd (block_of m) < 2 ^ 32 /\ 64 <= snd (block_of m) /\
  disjoint_ranges (fst (block_of m)) (snd (block_of m)) (rg m ESP - 4) 20.

Lemma x86_make_effect entry end_ label1 label2 m m' : make_ok entry end_ label1 label2 m ->
  rexec 4 (x86_tb_context_make entry end_ label1 label2) m = m' ->
  fst (block_of m) <= context_at m /\ context_at m + 32 <= fst (block_of m) + snd (block_of m) /\
  rg m' EAX = context_at m /\
  load_w 4 (rm m') (context_at m + 8) = func_of m /\ load_w 4 (rm m') (context_at m + 12) = end_ /\
  load_w 4 (rm m') (context_at m + 16) = entry /\ load_w 4 (rm m') (context_at m + 20) = context_at m.
Proof.
  intros (Hm & Hb & Hent & Hend & Hl1 & Hl2 & Hsp & Htop & Hbk & Hsz & Hdisj). pose proof (Hm ESP) as HSP.
  pose proof (load_w_range 4 (rm m) (rg m ESP + 4) Hb) as R1. pose proof (load_w_range 4 (rm m) (rg m ESP + 8) Hb) as R2.
  pose proof (load_w_range 4 (rm m) (rg m ESP + 12) Hb) as R3.
  pose proof (div16_range 4 (fst (block_of m) + snd (block_of m) - 8)) as Hdiv.
  unfold context_at, func_of, block_of in *. cbn [fst snd] in *.
  set (d := load_w 4 (rm m) (rg m ESP + 4)) in *. set (n := load_w 4 (rm m) (rg m ESP + 8)) in *.
  set (f := load_w 4 (rm m) (rg m ESP + 12)) in *.
  change (wbits 4) with 32 in HSP, R1, R2, R3, Hdiv.
  assert (Ed : uwrap (wbits 4) d = d) by (by apply uwrap_small).
  assert (Ef : uwrap (wbits 4) f = f) by (by apply uwrap_small).
  unfold x86_tb_context_make, call_next, pop. cbn [app].
  run rexec_ldr. fold d. rewrite Ed. rewrite rexec_addmem by (regs_of; fold n; widths; lia). regs_of. fold n.
  run rexec_subi. run rexec_andi_16. run rexec_subi.
  set (c := 16 * ((d + n - 8) / 16) - 24) in *.
  assert (Hc : d <= c /\ c + 32 <= d + n) by (unfold c; lia). clearbody c. clear Hdiv.
  run rexec_ldr. fold f. rewrite Ef. run rexec_str. run rexec_str. run rexec_subi. run rexec_stri.
  rewrite !Z.add_0_r. run rexec_ldr. rewrite Z.add_0_r, load_store_w by (widths; lia).
  rewrite (uwrap_small _ label1) by (widths; lia). run rexec_addi. run rexec_addi. run rexec_str.
  run rexec_subi. run rexec_stri. rewrite !Z.add_0_r. run rexec_ldr. rewrite Z.add_0_r, load_store_w by (widths; lia).
  rewrite (uwrap_small _ label2) by (widths; lia). run rexec_addi. run rexec_addi. run rexec_str.
  replace (label1 + (entry - label1)) with entry by lia. replace (label2 + (end_ - label2)) with end_ by lia.
  cbn [rexec foldl rstep]. unfold rset. cbn [rg rm pc]. intros <-. regs_of. unfold disjoint_ranges in Hdisj.
  split_and!; try (done || lia); rewrite ?load_store_w_other by (unfold disjoint_ranges; lia);
    apply load_store_w; widths; lia.
Qed.

Lemma x86_entry_effect m m' : rmachine_ok 4 m -> 4 <= rg m ESP -> rg m ESP + 8 <= 2 ^ 32 -> rexec 4 x86_tb_context_entry m = m' ->
  pc m' = rg m EBX /\ rg m' ESP = rg m ESP - 4 /\ load_w 4 (rm m') (rg m ESP - 4) = rg m EBP /\
  load_w 4 (rm m') (rg m ESP) = rg m EAX /\ load_w 4 (rm m') (rg m ESP + 4) = rg m EDX.
Proof.
  intros Hm Hlo Hhi. pose proof (Hm ESP) as HSP. change (wbits 4) with 32 in HSP.
  unfold x86_tb_context_entry, push. cbn [app]. run rexec_str. run rexec_str. run rexec_subi. run rexec_str.
  rewrite !Z.add_0_r. cbn [rexec foldl rstep]. intros <-. regs_of.
  split_and!; try done; rewrite ?load_store_w_other by (unfold disjoint_ranges; lia); by apply load_store_w.
Qed.

Strategy 1000 [x86_tb_context_jump x86_tb_context_make x86_tb_context_entry].

Definition sw (label1 label2 : Z) : switch_machine := {|
  sm_state := rmachine reg; sm_mem := rm; sm_pc := pc; sm_sp := fun m => rg m ESP; sm_frame := 24;
  sm_jump := rexec 4 x86_tb_context_jump; sm_jump_ok := jump_ok;
  sm_to := to_of; sm_priv := priv_of; sm_from := fun m => rg m ESP - 16;
  sm_kept := fun m => map (rg m) callee_saved;
  sm_return := fun m => (load_w 4 (rm m) (rg m ESP), rg m ESP + 8);
  sm_result := fun m0 m => (load_w 4 (rm m) (load_w 4 (rm m0) (rg m0 ESP + 4)),
                            load_w 4 (rm m) (load_w 4 (rm m0) (rg m0 ESP + 4) + 4));
  sm_make := fun entry end_ => rexec 4 (x86_tb_context_make entry end_ label1 label2);
  sm_make_ok := fun entry end_ => make_ok entry end_ label1 label2;
  sm_block := block_of; sm_func := func_of; sm_made := fun m => rg m EAX;
  sm_first := fun entry _ => entry; sm_enter := rexec 4 x86_tb_context_entry;
  sm_args := fun m => (load_w 4 (rm m) (rg m ESP + 4), load_w 4 (rm m) (rg m ESP + 8));
  sm_link := fun m => load_w 4 (rm m) (rg m ESP); sm_entry_sp := 12 |}.

(** The frame of a jump is as it was saved when the jump is done. *)
Lemma x86_jump_keeps_frame m : jump_ok m ->
  same_bytes (frame m) (rm (rexec 4 x86_tb_context_jump m)) (rg m ESP - 16) 24.
Proof.
  intros Hok. destruct (x86_jump_effect m _ _ Hok eq_refl eq_refl) as (-> & _).
  destruct Hok as (_ & _ & _ & _ & _ & _ & _ & Hd). unfold disjoint_ranges in Hd.
  intros x Hx. rewrite !store_w_outside by lia. done.
Qed.

(** What the next jump finds of a word at [a], if it saves its frame elsewhere. *)
Lemma x86_frame_past m1 m2 a : same_bytes m1 (rm m2) a 4 -> disjoint_ranges (rg m2 ESP - 16) 24 a 4 ->
  load_w 4 (frame m2) a = load_w 4 m1 a.
Proof.
  intros Hs Hd. apply load_w_same. intros x Hx. rewrite x86_frame_outside by (unfold disjoint_ranges in Hd; lia).
  symmetry. by apply Hs.
Qed.

Lemma x86_sw_switches_back label1 label2 : switches_back (sw label1 label2).
Proof.
  intros m0 m2 Hok0 Hok2 Hto Hsame Hdisj. cbn -[rexec frame x86_tb_context_jump load_w Z.add] in *.
  pose proof Hok0 as (Hm0 & Hb0 & _).
  assert (Hw : forall k, 0 <= k <= 20 ->
    load_w 4 (frame m2) (rg m0 ESP - 16 + k) = load_w 4 (frame m0) (rg m0 ESP - 16 + k)).
  { intros k Hk. apply x86_frame_past; [|unfold disjoint_ranges in *; lia].
    intros x Hx. rewrite (x86_jump_keeps_frame m0 Hok0) by lia. apply Hsame. lia. }
  assert (Hret : load_w 4 (frame m2) (rg m0 ESP - 16 + 20) = load_w 4 (rm m0) (rg m0 ESP + 4)).
  { rewrite Hw, x86_frame_above by lia. f_equal. lia. }
  assert (Hadr : load_w 4 (frame m2) (rg m0 ESP - 16 + 16) = load_w 4 (rm m0) (rg m0 ESP)).
  { rewrite Hw, x86_frame_above by lia. f_equal. lia. }
  assert (Hp : result_of m2 = load_w 4 (rm m0) (rg m0 ESP + 4)).
  { unfold result_of. rewrite Hto, Hret. apply uwrap_small. by apply load_w_range. }
  destruct (x86_jump_effect m2 _ _ Hok2 Hp eq_refl) as (Hmem & Hpc & Hsp & _ & _ & Hdi & Hsi & Hbx & Hbp).
  set (m3 := rexec 4 x86_tb_context_jump m2) in *. clearbody m3. rewrite Hto in *. rewrite Hadr in Hpc.
  rewrite <- (Z.add_0_r (rg m0 ESP - 16)) in Hdi.
  rewrite Hw in Hdi, Hsi, Hbx, Hbp by lia. rewrite Z.add_0_r in Hdi.
  destruct (x86_frame_words m0 Hm0) as (E1 & E2 & E3 & E4). rewrite E1 in Hdi. rewrite E2 in Hsi. rewrite E3 in Hbx. rewrite E4 in Hbp.
  destruct (load_result (frame m2) (load_w 4 (rm m0) (rg m0 ESP + 4)) (rg m2 ESP - 16) (priv_of m2)) as [Hl1 Hl2].
  { pose proof (proj1 Hok2 ESP). destruct Hok2 as (_ & _ & ? & _). lia. }
  { apply load_w_range, Hok2. }
  split_and!.
  - rewrite Hpc, Hsp. f_equal; [|lia]. apply uwrap_small. by apply load_w_range.
  - rewrite Hdi, Hsi, Hbx, Hbp, !uwrap_small by apply Hm0. done.
  - by rewrite Hmem, Hl1, Hl2.
Qed.

Lemma x86_sw_enters label1 label2 : enters (sw label1 label2).
Proof.
  intros entry end_ m0 m2 Hmk Hok2.
  cbn -[rexec frame x86_tb_context_jump x86_tb_context_make x86_tb_context_entry Z.add load_w] in *. intros Hto Hsame Hdisj.
  destruct (x86_make_effect entry end_ label1 label2 m0 _ Hmk eq_refl) as (Hlo & Hhi & Hx & H8 & H12 & H16 & H20). rewrite Hx in *.
  destruct Hmk as (_ & Hb0 & Hent & Hend & _ & _ & _ & _ & Hblk & Hsz & _).
  pose proof (load_w_range 4 (rm m0) (rg m0 ESP + 4) Hb0) as Hd0. change (load_w 4 (rm m0) (rg m0 ESP + 4)) with (fst (block_of m0)) in Hd0.
  assert (Hw : forall k, 0 <= k <= 20 -> load_w 4 (frame m2) (context_at m0 + k)
     = load_w 4 (rm (rexec 4 (x86_tb_context_make entry end_ label1 label2) m0)) (context_at m0 + k)).
  { intros k Hk. apply x86_frame_past; [|unfold disjoint_ranges in *; lia]. intros x Hx'. apply Hsame. lia. }
  assert (Hok3 : rmachine_ok 4 (rexec 4 x86_tb_context_jump m2)) by (apply rexec_ok, Hok2).
  destruct (x86_jump_effect m2 _ _ Hok2 eq_refl eq_refl) as (_ & Hpc & Hsp & Hax & Hdx & _ & _ & Hbx & Hbp).
  set (m3 := rexec 4 x86_tb_context_jump m2) in *. clearbody m3. rewrite Hto in *.
  rewrite Hw, H16, uwrap_small in Hpc by (lia || done).
  rewrite Hw, H8, uwrap_small in Hbx by (lia || by apply load_w_range).
  rewrite Hw, H12, uwrap_small in Hbp by (lia || done).
  destruct (x86_entry_effect m3 (rexec 4 x86_tb_context_entry m3) Hok3) as (E1 & E2 & E3 & E4 & E5); [|..|reflexivity|]; rewrite ?Hsp; [lia|lia|].
  rewrite E1, E2, Hsp in *. replace (context_at m0 + 24 - 4 + 4) with (context_at m0 + 24) by lia.
  replace (context_at m0 + 24 - 4 + 8) with (context_at m0 + 24 + 4) by lia.
  rewrite E3, E4, E5, Hax, Hdx, Hbx, Hbp. unfold block_of in *. cbn [fst snd] in *. split_and!; try (done || lia).
  unfold context_at. apply (mod_16 _ ((fst (block_of m0) + snd (block_of m0) - 8) / 16 - 1)); lia.
Qed.
End X86Laws.
