(* ===== verification/ContextAll.v ===== *)
(** * The context switch, whatever the machine

    The scheduler calls tb_context_make and tb_context_jump of the machine that arch.h
    selects. Each of the five is a [switch_machine] with the laws; two theorems say what the
    code leaves of the conventions of a machine besides. *)

From stdpp Require Import base numbers list list_numbers.
From Stdlib Require Import Lia ZArith.
From S2P Require Import Prelude Arch Context ContextRisc ContextMachines ContextArm ContextMips ContextX86.

Strategy 1000 [rexec exec save_mem load_w store_w upd].

(** ** The machine of Context *)

Module X64Laws.
Definition jump_ok (m : machine) : Prop :=
  machine_ok m /\ mem_ok (mem m) /\ 48 <= regs m RSP /\ regs m RSP + 8 < 2 ^ 64 /\ regs m RDI + 56 < 2 ^ 64.
Definition make_ok (entry end_ : Z) (m : machine) : Prop :=
  machine_ok m /\ 0 <= entry < 2 ^ 64 /\ 0 <= end_ < 2 ^ 64 /\ regs m RDI + regs m RSI < 2 ^ 64 /\
  72 <= regs m RSI /\ regs m RSP + 8 < 2 ^ 64.

Definition sw : switch_machine := {|
  sm_state := machine; sm_mem := mem; sm_pc := rip; sm_sp := fun m => regs m RSP; sm_frame := 56;
  sm_jump := exec tb_context_jump; sm_jump_ok := jump_ok;
  sm_to := fun m => regs m RDI; sm_priv := fun m => regs m RSI; sm_from := fun m => regs m RSP - 48;
  sm_kept := fun m => map (regs m) callee_saved;
  sm_return := fun m => (load64 (mem m) (regs m RSP), regs m RSP + 8);
  sm_result := fun _ m => (regs m RAX, regs m RDX);
  sm_make := fun entry end_ => exec (tb_context_make entry end_); sm_make_ok := make_ok;
  sm_block := fun m => (regs m RDI, regs m RSI); sm_func := fun m => regs m RDX;
  sm_made := fun m => regs m RAX; sm_first := fun entry _ => entry; sm_enter := exec tb_context_entry;
  sm_args := fun m => (regs m RDI, regs m RSI); sm_link := fun m => load64 (mem m) (regs m RSP);
  sm_entry_sp := 8 |}.

Strategy 1000 [tb_context_jump tb_context_make tb_context_entry].

Lemma x64_sw_switches_back : switches_back sw.
Proof.
  intros m0 m2 Hok0 Hok2 Hto Hsame Hdisj. cbn -[exec load64 Z.add callee_saved] in *.
  destruct Hok0 as (Hm0 & Hb0 & Hsp0 & Htop0 & Hto0), Hok2 as (Hm2 & _ & Hsp2 & _ & _).
  destruct (jump_effect m0 _ Hm0 Hsp0 Hto0 eq_refl) as (_ & _ & _ & Hax & _).
  rewrite <- Hax in Hto, Hsame.
  destruct (jump_back m0 (exec tb_context_jump m0) m2 (exec tb_context_jump m2)) as (H1 & H2 & H3 & H4 & H5); try done.
  { rewrite Hax. unfold disjoint_ranges in *. lia. }
  rewrite H1, H2, H4, H5. split_and!; try done. apply map_ext_in. intros r Hr. apply H3. by apply list_elem_of_In.
Qed.

Lemma x64_sw_enters : enters sw.
Proof.
  intros entry end_ m0 m2 Hmk Hok2. cbn -[exec load64 Z.add Z.modulo tb_context_make tb_context_entry] in *. intros Hto Hsame Hdisj.
  destruct Hmk as (Hm0 & He & Hen & Htop & Hsz & Hsp0), Hok2 as (Hm2 & _ & Hsp2 & _ & _).
  destruct (first_entry entry end_ m0 (exec (tb_context_make entry end_) m0) m2 (exec tb_context_jump m2)
    (exec tb_context_entry (exec tb_context_jump m2))) as (H1 & H2 & H3 & H4 & H5 & H6 & _ & H8); try done.
  { unfold disjoint_ranges in *. lia. }
  pose proof (Hm0 RDI). pose proof (Hm0 RSI).
  pose proof (Z_div_mod_eq_full (regs m0 RDI + regs m0 RSI) 16). pose proof (Z.mod_pos_bound (regs m0 RDI + regs m0 RSI) 16).
  destruct (make_effect entry end_ m0 (exec (tb_context_make entry end_) m0)) as (Hax & _); try done; [lia|].
  rewrite H1, H2, H3, H4, H5, Hax. unfold context_of. split_and!; try (done || lia).
  set (sp := regs (exec tb_context_entry (exec tb_context_jump m2)) RSP) in *. pose proof (Z_div_mod_eq_full (sp + 8) 16).
  apply (mod_16 _ ((sp + 8) / 16 - 1)); lia.
Qed.
End X64Laws.

(** ** The machine that arch.h selects *)

(** The code of the machine; [label1] and [label2] are addresses inside tb_context_make,
    which the code for x86 reads off its own calls. *)
Definition machine_of (a : Arch) (label1 label2 : Z) : switch_machine :=
  match a with
  | ARCH_X86 => X86Laws.sw label1 label2
  | ARCH_X64 => X64Laws.sw
  | ARCH_ARM64 => Arm64Laws.sw
  | ARCH_ARM => ArmLaws.sw
  | ARCH_MIPS => MipsLaws.sw
  end.

(** What the calling conventions ask of the stack pointer where a function starts: below a
    return address on the stack, which counts, a multiple of 16 on both x86; a multiple of
    16 on AArch64, of 8 on ARM and MIPS. *)
Definition entry_aligned (a : Arch) (sp : Z) : Prop :=
  match a with
  | ARCH_X86 => (sp + 4) mod 16 = 0
  | ARCH_X64 => (sp + 8) mod 16 = 0
  | ARCH_ARM64 => sp mod 16 = 0
  | ARCH_ARM | ARCH_MIPS => sp mod 8 = 0
  end.

(** From the position relative to the multiples of 16. *)
Lemma mod_of_mod16 sp r k n : sp mod 16 = r -> 0 < n -> 16 mod n = 0 -> (sp + k) mod n = (r + k) mod n.
Proof.
  intros Hr Hn H16. rewrite (Z_div_mod_eq_full sp 16), Hr. pose proof (Z_div_mod_eq_full 16 n) as E.
  rewrite H16, Z.add_0_r in E. rewrite E.
  replace (n * (16 / n) * (sp / (n * (16 / n))) + r + k) with (r + k + (16 / n * (sp / (n * (16 / n)))) * n) by ring.
  by apply Z_mod_plus_full.
Qed.

Lemma entry_sp_aligned a label1 label2 sp :
  sp mod 16 = sm_entry_sp (machine_of a label1 label2) ->
  (a <> ARCH_ARM -> entry_aligned a sp) /\ (a = ARCH_ARM -> sp mod 8 = 4).
Proof.
  intros H. destruct a; cbn in H |- *; (split; [intros Ha|intros Ha]); try done.
  - by rewrite (mod_of_mod16 sp 12 4 16).
  - by rewrite (mod_of_mod16 sp 8 8 16).
  - rewrite <- (Z.add_0_r sp). by rewrite (mod_of_mod16 sp 12 0 8).
  - rewrite <- (Z.add_0_r sp). by rewrite (mod_of_mod16 sp 0 0 8).
Qed.

(** ** Theorems *)

(** C7: on every machine a jump to a context and back is a call that returns. Let a
    coroutine call [tb_context_jump]. When later, with the frame that this left on its stack
    untouched, any code jumps to the context it handed over, the coroutine goes on at its
    return address, with its stack pointer and all the registers that the code saves as they
    were; the call returns the context of that code and the datum it passed. *)
Theorem context_switch_back (a : Arch) (label1 label2 : Z) (m0 m2 : sm_state (machine_of a label1 label2)) :
  let M := machine_of a label1 label2 in
  sm_jump_ok M m0 -> sm_jump_ok M m2 -> sm_to M m2 = sm_from M m0 ->
  same_bytes (sm_mem M (sm_jump M m0)) (sm_mem M m2) (sm_from M m0) (sm_frame M) ->
  disjoint_ranges (sm_from M m2) (sm_frame M) (sm_from M m0) (sm_frame M) ->
  (sm_pc M (sm_jump M m2), sm_sp M (sm_jump M m2)) = sm_return M m0 /\
  sm_kept M (sm_jump M m2) = sm_kept M m0 /\
  sm_result M m0 (sm_jump M m2) = (sm_from M m2, sm_priv M m2).
Proof.
  cbv zeta. destruct a; cbn [machine_of] in *;
    [apply X86Laws.x86_sw_switches_back|apply X64Laws.x64_sw_switches_back|apply Arm64Laws.arm64_sw_switches_back|
     apply ArmLaws.arm_sw_switches_back|apply MipsLaws.mips_sw_switches_back].
Qed.

(** The first jump to a made context, on each machine. *)
Lemma machine_enters (a : Arch) (label1 label2 entry end_ : Z) (m0 m2 : sm_state (machine_of a label1 label2)) :
  let M := machine_of a label1 label2 in
  sm_make_ok M entry end_ m0 -> sm_jump_ok M m2 ->
  let m1 := sm_make M entry end_ m0 in
  sm_to M m2 = sm_made M m1 -> same_bytes (sm_mem M m1) (sm_mem M m2) (sm_made M m1) (sm_frame M) ->
  disjoint_ranges (sm_from M m2) (sm_frame M) (sm_made M m1) (sm_frame M) ->
  let m3 := sm_enter M (sm_jump M m2) in
  sm_pc M (sm_jump M m2) = sm_first M entry m0 /\
  sm_pc M m3 = sm_func M m0 /\ sm_args M m3 = (sm_from M m2, sm_priv M m2) /\ sm_link M m3 = end_ /\
  fst (sm_block M m0) <= sm_made M m1 /\ sm_sp M m3 <= fst (sm_block M m0) + snd (sm_block M m0) /\
  sm_sp M m3 mod 16 = sm_entry_sp M.
Proof.
  cbv zeta. destruct a; cbn [machine_of] in *;
    [apply X86Laws.x86_sw_enters|apply X64Laws.x64_sw_enters|apply Arm64Laws.arm64_sw_enters|
     apply ArmLaws.arm_sw_enters|apply MipsLaws.mips_sw_enters].
Qed.

(** C24: on every machine the first jump to a context made by [tb_context_make] calls its
    function: control comes to it (through the code at the entry label where there is one)
    with the context of the jumper and its datum as the argument, with the address of the
    end label to return to, and the stack pointer is not above the end of the given
    block, and the context that was made not below its beginning. The stack pointer is
    aligned as the calling conventions want it on four of the machines; on ARM it is four
    off a multiple of eight, which they do not allow. *)
Theorem context_first_entry (a : Arch) (label1 label2 entry end_ : Z) (m0 m2 : sm_state (machine_of a label1 label2)) :
  let M := machine_of a label1 label2 in
  sm_make_ok M entry end_ m0 -> sm_jump_ok M m2 ->
  let m1 := sm_make M entry end_ m0 in
  sm_to M m2 = sm_made M m1 -> same_bytes (sm_mem M m1) (sm_mem M m2) (sm_made M m1) (sm_frame M) ->
  disjoint_ranges (sm_from M m2) (sm_frame M) (sm_made M m1) (sm_frame M) ->
  let m3 := sm_enter M (sm_jump M m2) in
  sm_pc M (sm_jump M m2) = sm_first M entry m0 /\
  sm_pc M m3 = sm_func M m0 /\ sm_args M m3 = (sm_from M m2, sm_priv M m2) /\ sm_link M m3 = end_ /\
  fst (sm_block M m0) <= sm_made M m1 /\ sm_sp M m3 <= fst (sm_block M m0) + snd (sm_block M m0) /\
  (a <> ARCH_ARM -> entry_aligned a (sm_sp M m3)) /\ (a = ARCH_ARM -> sm_sp M m3 mod 8 = 4).
Proof.
  cbv zeta. intros H1 H2 H3 H4 H5.
  destruct (machine_enters a label1 label2 entry end_ m0 m2 H1 H2 H3 H4 H5) as (E1 & E2 & E3 & E4 & E5 & E6 & E7).
  apply entry_sp_aligned in E7 as [? ?]. by split_and!.
Qed.

(** C40: the code for AArch64 does not save all that a call must preserve. The registers d8
    to d15 are the callee's to keep, but after the jump back the coroutine finds in them
    what the code that jumped to it had there. *)
Theorem arm64_loses_fp_registers (m0 m2 : rmachine Arm64.reg) :
  Arm64Laws.jump_ok m0 -> Arm64Laws.jump_ok m2 -> rg m2 Arm64.X0 = rg m0 Arm64.SP - 112 ->
  same_bytes (rm (rexec 8 Arm64.arm64_tb_context_jump m0)) (rm m2) (rg m0 Arm64.SP - 112) 112 ->
  disjoint_ranges (rg m2 Arm64.SP - 112) 112 (rg m0 Arm64.SP - 112) 112 ->
  let m3 := rexec 8 Arm64.arm64_tb_context_jump m2 in
  pc m3 = rg m0 Arm64.X30 /\
  forall r, r ∈ Arm64.callee_saved_fp -> rg m3 r = rg m2 r.
Proof.
  intros Hok0 Hok2 Hto Hsame Hdisj. cbv zeta.
  destruct (Arm64Laws.arm64_sw_switches_back m0 m2 Hok0 Hok2 Hto Hsame Hdisj) as (Hpc & _). apply (f_equal fst) in Hpc.
  destruct (Arm64Laws.arm64_jump_effect m2 _ Hok2 eq_refl) as (_ & _ & _ & _ & _ & _ & Hd). split; [exact Hpc|exact Hd].
Qed.

(** On ARM the function of a new coroutine starts with a stack pointer that is four
    above a multiple of eight, where the procedure call standard asks for a multiple of
    eight. *)
Theorem arm_entry_misaligned (end_ : Z) (m0 m2 : rmachine Arm.reg) :
  ArmLaws.make_ok end_ m0 -> ArmLaws.jump_ok m2 ->
  let m1 := rexec 4 (Arm.arm_tb_context_make end_) m0 in
  rg m2 Arm.R1 = rg m1 Arm.R0 -> same_bytes (rm m1) (rm m2) (rg m1 Arm.R0) 44 ->
  disjoint_ranges (rg m2 Arm.SP - 44) 44 (rg m1 Arm.R0) 44 ->
  let m3 := rexec 4 Arm.arm_tb_context_jump m2 in
  pc m3 = rg m0 Arm.R2 /\ rg m3 Arm.SP mod 8 = 4.
Proof.
  cbv zeta. intros Hmk Hok2 Hto Hsame Hdisj.
  destruct (ArmLaws.arm_sw_enters 0 end_ m0 m2 Hmk Hok2 Hto Hsame Hdisj) as (_ & Hpc & _ & _ & _ & _ & Hsp).
  split; [exact Hpc|]. change (rg (rexec 4 Arm.arm_tb_context_jump m2) Arm.SP mod 16 = 12) in Hsp.
  set (sp := rg (rexec 4 Arm.arm_tb_context_jump m2) Arm.SP) in *. clearbody sp.
  pose proof (Z_div_mod_eq_full sp 16). symmetry. apply (Z.mod_unique _ _ (2 * (sp / 16) + 1)); lia.
Qed.

(** The result register of a call that returns a structure, [v0], is not set by the code for
    MIPS: the coroutine finds in it what the code that jumped to it had there. *)
Theorem mips_result_register (m m' : rmachine Mips.reg) :
  MipsLaws.jump_ok m -> rexec 4 Mips.mips_tb_context_jump m = m' -> rg m' Mips.V0 = rg m Mips.V0.
Proof. intros Hok E. by destruct (MipsLaws.mips_jump_effect m m' _ Hok eq_refl E) as (_ & _ & _ & _ & _ & ? & _). Qed.

(** ** Witnesses *)

Strategy 1000 [Arm64.arm64_tb_context_jump Arm64.arm64_tb_context_make Arm.arm_tb_context_jump Arm.arm_tb_context_make].

(** On AArch64: the stack of the caller is at 4096, the jumper's at 8192. *)
Definition a64_caller : rmachine Arm64.reg :=
  mkR (fun r => match r with Arm64.SP => 4096 | Arm64.X0 => 8192 | Arm64.X1 => 5 | Arm64.X19 => 19 | Arm64.X30 => 30
                        | Arm64.D8 => 8 | _ => 0 end) (fun _ => 0) 100.
Definition a64_back (m : memory) : rmachine Arm64.reg :=
  mkR (fun r => match r with Arm64.SP => 8192 | Arm64.X0 => 3984 | Arm64.X1 => 9 | Arm64.D8 => 80 | _ => 0 end) m 200.

Lemma a64_caller_ok : Arm64Laws.jump_ok a64_caller.
Proof. split; [intros []; eval_closed|eval_closed]. Qed.
Lemma a64_back_ok m : Arm64Laws.jump_ok (a64_back m).
Proof. split; [intros []; eval_closed|eval_closed]. Qed.

Lemma a64_back_mem mm a n : same_bytes mm (rm (a64_back mm)) a n.
Proof. by intros x _. Qed.

Lemma context_switch_back_witness :
  let M := machine_of ARCH_ARM64 0 0 in
  let m2 := a64_back (rm (rexec 8 Arm64.arm64_tb_context_jump a64_caller)) in
  (sm_pc M (sm_jump M m2), sm_sp M (sm_jump M m2)) = (30, 4096) /\
  sm_kept M (sm_jump M m2) = sm_kept M a64_caller /\
  sm_result M a64_caller (sm_jump M m2) = (8080, 9).
Proof.
  exact (context_switch_back ARCH_ARM64 0 0 a64_caller (a64_back (rm (rexec 8 Arm64.arm64_tb_context_jump a64_caller)))
    a64_caller_ok (a64_back_ok _) eq_refl (a64_back_mem _ _ _) ltac:(right; eval_closed)).
Defined.

Lemma arm64_loses_fp_registers_witness :
  let m3 := rexec 8 Arm64.arm64_tb_context_jump (a64_back (rm (rexec 8 Arm64.arm64_tb_context_jump a64_caller))) in
  pc m3 = 30 /\ rg m3 Arm64.D8 = 80 /\ rg a64_caller Arm64.D8 = 8.
Proof.
  destruct (arm64_loses_fp_registers a64_caller (a64_back (rm (rexec 8 Arm64.arm64_tb_context_jump a64_caller)))
    a64_caller_ok (a64_back_ok _) eq_refl (a64_back_mem _ _ _) ltac:(right; eval_closed)) as [H1 H2].
  split; [exact H1|]. split; [|reflexivity]. apply (H2 Arm64.D8). by apply (bool_decide_unpack _).
Defined.

(** On ARM: a block of 4096 bytes at 16384 for the function at 77, entered by a caller whose
    stack is at 4096. *)
Definition arm_maker : rmachine Arm.reg :=
  mkR (fun r => match r with Arm.R0 => 16384 | Arm.R1 => 4096 | Arm.R2 => 77 | Arm.SP => 4096 | _ => 0 end) (fun _ => 0) 100.
Definition arm_jumper (m : memory) : rmachine Arm.reg :=
  mkR (fun r => match r with Arm.R0 => 8192 | Arm.R1 => 20416 | Arm.R2 => 5 | Arm.SP => 4096 | _ => 0 end) m 100.

Lemma arm_maker_ok : ArmLaws.make_ok 400 arm_maker.
Proof. split; [intros []; eval_closed|eval_closed]. Qed.

Lemma arm_jumper_mem mm a n : same_bytes mm (rm (arm_jumper mm)) a n.
Proof. by intros x _. Qed.

Lemma arm_jumper_ok : ArmLaws.jump_ok (arm_jumper (rm (rexec 4 (Arm.arm_tb_context_make 400) arm_maker))).
Proof.
  split; [intros []; eval_closed|]. split; [eval_closed|]. split; [eval_closed|]. split; [eval_closed|].
  split; [right|right]; eval_closed.
Qed.

Lemma context_first_entry_witness :
  let M := machine_of ARCH_ARM 0 0 in
  let m3 := rexec 4 Arm.arm_tb_context_jump (arm_jumper (rm (rexec 4 (Arm.arm_tb_context_make 400) arm_maker))) in
  pc m3 = 77 /\ sm_args M m3 = (4052, 5) /\ sm_link M m3 = 400.
Proof.
  destruct (context_first_entry ARCH_ARM 0 0 300 400 arm_maker (arm_jumper (rm (rexec 4 (Arm.arm_tb_context_make 400) arm_maker)))
    arm_maker_ok arm_jumper_ok eq_refl (arm_jumper_mem _ _ _) ltac:(left; eval_closed)) as (_ & H1 & H2 & H3 & _).
  split; [exact H1|]. split; [exact H2|exact H3].
Defined.

Lemma arm_entry_misaligned_witness :
  let m3 := rexec 4 Arm.arm_tb_context_jump (arm_jumper (rm (rexec 4 (Arm.arm_tb_context_make 400) arm_maker))) in
  pc m3 = 77 /\ rg m3 Arm.SP mod 8 = 4.
Proof.
  exact (arm_entry_misaligned 400 arm_maker (arm_jumper (rm (rexec 4 (Arm.arm_tb_context_make 400) arm_maker)))
    arm_maker_ok arm_jumper_ok eq_refl (arm_jumper_mem _ _ _) ltac:(left; eval_closed)).
Defined.

(** The hypotheses hold on the other machines too: on MIPS and on x86 a caller at 4096 with a
    block for its result at 6000 jumps away, and code at 8192 jumps back. *)
Definition mips_caller : rmachine Mips.reg :=
  mkR (fun r => match r with Mips.SP => 4096 | Mips.A0 => 6000 | Mips.A1 => 20000 | Mips.RA => 30 | _ => 0 end) (fun _ => 0) 100.
Definition mips_back (m : memory) : rmachine Mips.reg :=
  mkR (fun r => match r with Mips.SP => 8192 | Mips.A1 => 4032 | Mips.A2 => 9 | _ => 0 end) m 200.
Definition x86_caller : rmachine X86.reg :=
  mkR (fun r => match r with X86.ESP => 4096 | _ => 0 end)
    (store_w 4 (store_w 4 (store_w 4 (fun _ => 0) 4096 30) 4100 6000) 4104 20000) 100.
Definition x86_back (m : memory) : rmachine X86.reg :=
  mkR (fun r => match r with X86.ESP => 8192 | _ => 0 end) (store_w 4 (store_w 4 m 8200 4080) 8204 9) 200.

Example mips_and_x86_switch :
  let m2 := mips_back (rm (rexec 4 Mips.mips_tb_context_jump mips_caller)) in
  let m3 := rexec 4 Mips.mips_tb_context_jump m2 in
  let n2 := x86_back (rm (rexec 4 X86.x86_tb_context_jump x86_caller)) in
  let n3 := rexec 4 X86.x86_tb_context_jump n2 in
  (MipsLaws.jump_ok mips_caller /\ MipsLaws.jump_ok m2) /\ pc m3 = 30 /\ load_w 4 (rm m3) 6000 = 8128 /\
  pc n3 = 30 /\ rg n3 X86.ESP = 4104 /\ load_w 4 (rm n3) 6000 = 8176 /\ load_w 4 (rm n3) 6004 = 9 /\
  X86Laws.to_of n2 = rg x86_caller X86.ESP - 16 /\ X86Laws.result_of n2 = 6000.
Proof.
  cbv zeta. split; [|eval_closed].
  split; (split; [intros []; eval_closed|]); do 3 (split; [eval_closed|]); [left|left]; eval_closed.
Qed.
