(* ===== verification/Scheduler.v ===== *)
(** * scheduler.h and scheduler.cc: schedulers, shared stacks and the event loop

    The coroutines of a scheduler run on eight shared stacks. [Resume] prepares the stack
    of a coroutine and jumps to it; the jump comes back when the coroutine yields or when
    its function has returned. What a coroutine does in between is user code: the
    parameter [user], which starts a closure or continues a coroutine that had yielded
    and gives the world at the next switch. Memory is flat and byte-addressed: a
    [memcpy] writes where it is told to. [malloc] and the clock are parameters too. *)

From Stdlib Require Import String.
From stdpp Require Import base numbers list gmap.
From Stdlib Require Import Lia ZArith.
From S2P Require Import Prelude Atomic Stream Errno SockCtx Epoll Wakeup Coroutine Copoll TaskManager TimerManager Context.

Open Scope list_scope.

(** ** Data *)

(** [struct Stack]; [calloc] makes [p] and [co] null. *)
Record Stack : Type := mkStack { st_p : option Z; st_top : Z; st_co : option nat }.

Definition kShareStackSize : Z := 8.

Inductive io_event_t : Type := kEvRead | kEvWrite.

Record SchedulerImpl : Type := mkSched {
  sc_id : Z;                      (* id_ *)
  sc_sched_num : Z;               (* sched_num_ *)
  sc_stack_size : Z;              (* stack_size_ *)
  sc_wait_ms : Z;                 (* wait_ms_ *)
  sc_thread : bool;               (* thread_ is not null *)
  sc_epoll : Epoll;               (* epoll_ *)
  sc_main : nat;                  (* main_co_ *)
  sc_running : option nat;        (* running_co_ *)
  sc_stacks : list Stack;         (* stacks_ *)
  sc_pool : Copoll;               (* co_pool_ *)
  sc_tasks : TaskManager;         (* task_mgr_ *)
  sc_timers : TimerManager;       (* timer_mgr *)
  sc_timeout : bool;              (* timeout_ *)
  sc_stop : bool                  (* stop_ *)
}.

(** Assignments to one member. *)
Definition set_sc_wait_ms (s : SchedulerImpl) (v : Z) : SchedulerImpl :=
    mkSched (sc_id s) (sc_sched_num s) (sc_stack_size s) v (sc_thread s) (sc_epoll s) (sc_main
    s) (sc_running s) (sc_stacks s) (sc_pool s) (sc_tasks s) (sc_timers s) (sc_timeout s)
    (sc_stop s).
Definition set_sc_thread (s : SchedulerImpl) (v : bool) : SchedulerImpl :=
    mkSched (sc_id s) (sc_sched_num s) (sc_stack_size s) (sc_wait_ms s) v (sc_epoll s)
    (sc_main s) (sc_running s) (sc_stacks s) (sc_pool s) (sc_tasks s) (sc_timers s) (sc_timeout
    s) (sc_stop s).
Definition set_sc_epoll (s : SchedulerImpl) (v : Epoll) : SchedulerImpl :=
    mkSched (sc_id s) (sc_sched_num s) (sc_stack_size s) (sc_wait_ms s) (sc_thread s) v
    (sc_main s) (sc_running s) (sc_stacks s) (sc_pool s) (sc_tasks s) (sc_timers s) (sc_timeout
    s) (sc_stop s).
Definition set_sc_running (s : SchedulerImpl) (v : option nat) : SchedulerImpl :=
    mkSched (sc_id s) (sc_sched_num s) (sc_stack_size s) (sc_wait_ms s) (sc_thread s)
    (sc_epoll s) (sc_main s) v (sc_stacks s) (sc_pool s) (sc_tasks s) (sc_timers s) (sc_timeout
    s) (sc_stop s).
Definition set_sc_stacks (s : SchedulerImpl) (v : list Stack) : SchedulerImpl :=
    mkSched (sc_id s) (sc_sched_num s) (sc_stack_size s) (sc_wait_ms s) (sc_thread s)
    (sc_epoll s) (sc_main s) (sc_running s) v (sc_pool s) (sc_tasks s) (sc_timers s) (sc_timeout
    s) (sc_stop s).
Definition set_sc_pool (s : SchedulerImpl) (v : Copoll) : SchedulerImpl :=
    mkSched (sc_id s) (sc_sched_num s) (sc_stack_size s) (sc_wait_ms s) (sc_thread s)
    (sc_epoll s) (sc_main s) (sc_running s) (sc_stacks s) v (sc_tasks s) (sc_timers s)
    (sc_timeout s) (sc_stop s).
Definition set_sc_tasks (s : SchedulerImpl) (v : TaskManager) : SchedulerImpl :=
    mkSched (sc_id s) (sc_sched_num s) (sc_stack_size s) (sc_wait_ms s) (sc_thread s)
    (sc_epoll s) (sc_main s) (sc_running s) (sc_stacks s) (sc_pool s) v (sc_timers s)
    (sc_timeout s) (sc_stop s).
Definition set_sc_timers (s : SchedulerImpl) (v : TimerManager) : SchedulerImpl :=
    mkSched (sc_id s) (sc_sched_num s) (sc_stack_size s) (sc_wait_ms s) (sc_thread s)
    (sc_epoll s) (sc_main s) (sc_running s) (sc_stacks s) (sc_pool s) (sc_tasks s) v (sc_timeout
    s) (sc_stop s).
Definition set_sc_timeout (s : SchedulerImpl) (v : bool) : SchedulerImpl :=
    mkSched (sc_id s) (sc_sched_num s) (sc_stack_size s) (sc_wait_ms s) (sc_thread s)
    (sc_epoll s) (sc_main s) (sc_running s) (sc_stacks s) (sc_pool s) (sc_tasks s) (sc_timers s)
    v (sc_stop s).
Definition set_sc_stop (s : SchedulerImpl) (v : bool) : SchedulerImpl :=
    mkSched (sc_id s) (sc_sched_num s) (sc_stack_size s) (sc_wait_ms s) (sc_thread s)
    (sc_epoll s) (sc_main s) (sc_running s) (sc_stacks s) (sc_pool s) (sc_tasks s) (sc_timers s)
    (sc_timeout s) v.

(** ** SchedulerManager *)

(** A [Scheduler*] is the index of the scheduler. *)
Record SchedulerManager : Type := mkSchedManager { sm_index : Z; sm_sched_num : Z; sm_scheds : list nat }.

(** The constructor: [sched_num] schedulers, numbered from 0. *)
Definition SchedulerManager_new (sched_num stack_size : Z) : SchedulerManager :=
  mkSchedManager 0 sched_num (seq 0 (Z.to_nat sched_num)).

Definition SchedulerManager_NextScheduler (m : SchedulerManager) : outcome (nat * SchedulerManager) :=
  let '(index, _) := atomic_inc uint32 (sm_index m) in
  if sm_sched_num m =? 0 then Fault DivisionByZero else
  match sm_scheds m !! Z.to_nat (index mod sm_sched_num m) with
  | Some s => Ok (s, mkSchedManager index (sm_sched_num m) (sm_scheds m))
  | None => Fault OutOfBounds
  end.

(** [schedulerManager()]: the process-wide manager. *)
Definition schedulerManager : SchedulerManager := SchedulerManager_new 1 (1024 * 1024).

(** ** SchedulerImpl *)

Definition SchedulerImpl_new {K} `{EpollKernel K} (sched_id sched_num stack_size evtfd : Z)
  (junk : nat -> list Z) (ev : ev_state K) : outcome (SchedulerImpl * ev_state K) :=
  let '(ep, ev') := Epoll_new sched_id evtfd ev in
  let* (main_co, pool) := Copoll_Pop (Copoll_new junk) in
  Ok (mkSched sched_id sched_num stack_size (u32 (-1)) false ep main_co None
        (replicate (Z.to_nat kShareStackSize) (mkStack None 0 None)) pool
        TaskManager_empty TimerManager_new false false, ev').

(** [Create] is the constructor behind [new]. *)
Definition SchedulerImpl_Create {K} `{EpollKernel K} := @SchedulerImpl_new K _.

(** ["Scheduler-"] and, in [Start], the suffix of it that starts at character [id_]. *)
Definition scheduler_name (s : SchedulerImpl) : outcome string :=
  if sc_id s <=? 10 then Ok (substring (Z.to_nat (sc_id s)) 10 "Scheduler-"%string) else Fault OutOfBounds.

Definition SchedulerImpl_Start (s : SchedulerImpl) : outcome SchedulerImpl :=
  if sc_stop s then Fault AssertionFailed else
  let* _ := scheduler_name s in
  Ok (set_sc_thread s true).

Definition SchedulerImpl_Stop (s : SchedulerImpl) : outcome SchedulerImpl :=
  if sc_stop s then Fault AssertionFailed else Ok (set_sc_stop s true).

Definition SchedulerImpl_destroy (s : SchedulerImpl) : outcome SchedulerImpl :=
  if negb (sc_stop s) then SchedulerImpl_Stop s else Ok s.

Definition SchedulerImpl_id (s : SchedulerImpl) : Z := sc_id s.
Definition SchedulerImpl_running (s : SchedulerImpl) : option nat := sc_running s.
Definition SchedulerImpl_is_timeout (s : SchedulerImpl) : bool := sc_timeout s.

(** The coroutine behind a pointer, and an assignment through it. *)
Definition get_co (s : SchedulerImpl) (co : nat) : outcome Coroutine :=
  match cp_pool (sc_pool s) !! co with Some c => Ok c | None => Fault OutOfBounds end.
Definition put_co (s : SchedulerImpl) (co : nat) (c : Coroutine) : SchedulerImpl :=
  set_sc_pool s (mkCopoll (cp_id (sc_pool s)) (cp_idle (sc_pool s)) (<[co := c]> (cp_pool (sc_pool s)))).
Definition get_running (s : SchedulerImpl) : outcome nat :=
  match sc_running s with Some co => Ok co | None => Fault NullDereference end.
Definition get_stack (s : SchedulerImpl) (i : Z) : outcome Stack :=
  match sc_stacks s !! Z.to_nat i with Some st => Ok st | None => Fault OutOfBounds end.
Definition put_stack (s : SchedulerImpl) (i : Z) (st : Stack) : SchedulerImpl :=
  set_sc_stacks s (<[Z.to_nat i := st]> (sc_stacks s)).

Definition SchedulerImpl_NewCoroutine (s : SchedulerImpl) (func : Closure) : outcome (nat * SchedulerImpl) :=
  let* (co, pool) := Copoll_Pop (sc_pool s) in
  let s := set_sc_pool s pool in
  let* c := get_co s co in
  let* c := set_co_func c func in
  Ok (co, put_co s co c).

(** [SaveStack(co)]: what lies between the context and the top of the stack goes to the
    private buffer, when it fits. *)
Definition SchedulerImpl_SaveStack (s : SchedulerImpl) (m : memory) (co : option nat) : outcome SchedulerImpl :=
  match co with
  | None => Ok s
  | Some co =>
      let* c := get_co s co in
      let* st := get_stack s (co_stack_id c) in
      let bottom := default 0 (co_ctx c) in
      let len := u64 (st_top st - bottom) in
      let stack := Stream_append (Stream_reset (co_stack c)) (read_bytes m bottom (Z.to_nat (Z.min len kSmallBuffer))) len in
      Ok (put_co s co (set_co_stack c stack))
  end.

Definition SchedulerImpl_Recycle (s : SchedulerImpl) : outcome SchedulerImpl :=
  let* running := get_running s in
  if Nat.eqb running (sc_main s) then Ok s else
  let* c := get_co s running in
  let* st := get_stack s (co_stack_id c) in
  let s := put_stack s (co_stack_id c) (mkStack (st_p st) (st_top st) None) in
  Ok (set_sc_pool s (Copoll_Push (sc_pool s) c)).

(** [on_stack(p)]: is the address on the running coroutine's stack. *)
Definition SchedulerImpl_on_stack (s : SchedulerImpl) (p : Z) : outcome bool :=
  let* running := get_running s in
  let* c := get_co s running in
  let* st := get_stack s (co_stack_id c) in
  Ok ((default 0 (st_p st) <=? p) && (p <? st_top st)).

(** [Yield] up to its jump: the union of the running coroutine becomes [scheduler_]. *)
Definition SchedulerImpl_Yield (s : SchedulerImpl) : outcome SchedulerImpl :=
  let* running := get_running s in
  let* c := get_co s running in
  Ok (put_co s running (set_co_scheduler c (sc_id s))).

Definition SchedulerImpl_AddTimer (s : SchedulerImpl) (now ms : Z) : outcome SchedulerImpl :=
  let s := if ms <? sc_wait_ms s then set_sc_wait_ms s ms else s in
  let* running := get_running s in
  let* (id, tm) := TimerManager_AddTimer (sc_timers s) now ms running in
  let s := set_sc_timers s tm in
  let* c := get_co s running in
  Ok (put_co s running (set_co_timer_id c (Some id))).

(** [Sleep(ms)] up to the jump of its [Yield]. *)
Definition SchedulerImpl_Sleep (s : SchedulerImpl) (now ms : Z) : outcome SchedulerImpl :=
  let s := if ms <? sc_wait_ms s then set_sc_wait_ms s ms else s in
  let* running := get_running s in
  let* (_, tm) := TimerManager_AddTimer (sc_timers s) now ms running in
  SchedulerImpl_Yield (set_sc_timers s tm).

(** [AddNewTask] and [AddReadyTask]; [answers] are the kernel's to the write of
    [Wakeup]. *)
Definition SchedulerImpl_AddNewTask (s : SchedulerImpl) (func : Closure) (answers : list io_result)
  : SchedulerImpl :=
  let s := set_sc_tasks s (TaskManager_AddNewTasks (sc_tasks s) func) in
  set_sc_epoll s (fst (Epoll_Wakeup (sc_epoll s) answers)).
Definition SchedulerImpl_AddReadyTask (s : SchedulerImpl) (co : nat) (answers : list io_result)
  : SchedulerImpl :=
  let s := set_sc_tasks s (TaskManager_AddReadyTasks (sc_tasks s) co) in
  set_sc_epoll s (fst (Epoll_Wakeup (sc_epoll s) answers)).

(** [timeout()], [sleep(ms)] and [go(func)]: [tls] is the scheduler of the thread. *)
Definition timeout (tls : option SchedulerImpl) : bool :=
  match tls with Some s => SchedulerImpl_is_timeout s | None => false end.
Definition sleep (tls : option SchedulerImpl) (now ms : Z) : outcome (option SchedulerImpl) :=
  match tls with
  | Some s => let* s := SchedulerImpl_Sleep s now ms in Ok (Some s)
  | None => Ok None
  end.
Definition go (m : SchedulerManager) (scheds : list SchedulerImpl) (func : Closure) (answers : list io_result)
  : outcome (SchedulerManager * list SchedulerImpl) :=
  let* (i, m) := SchedulerManager_NextScheduler m in
  match scheds !! i with
  | Some s => Ok (m, <[i := SchedulerImpl_AddNewTask s func answers]> scheds)
  | None => Fault OutOfBounds
  end.

(** ** Io events of the running coroutine *)

Section io_events.
Context {K : Type} `{EpollKernel K}.

Definition SchedulerImpl_AddIoEvent (s : SchedulerImpl) (w : ev_state K) (fd : Z) (event : io_event_t)
  : outcome (bool * ev_state K) :=
  let* running := get_running s in
  let* c := get_co s running in
  let '(r, w', _) :=
    match event with
    | kEvRead => Epoll_AddEvRead (sc_epoll s) w fd (co_id c)
    | kEvWrite => Epoll_AddEvWrite (sc_epoll s) w fd (co_id c)
    end in
  Ok (r, w').

(** [DelIoEvent(fd, event)]: the removal of the write interest is not in an [else]. *)
Definition SchedulerImpl_DelIoEvent (s : SchedulerImpl) (w : ev_state K) (fd : Z) (event : io_event_t)
  : outcome (ev_state K) :=
  let* running := get_running s in
  let* c := get_co s running in
  let w := match event with
           | kEvRead => fst (Epoll_DelEvRead (sc_epoll s) w fd (co_id c))
           | kEvWrite => w
           end in
  Ok (fst (Epoll_DelEvWrite (sc_epoll s) w fd (co_id c))).

Definition SchedulerImpl_DelIoEvent_all (s : SchedulerImpl) (w : ev_state K) (fd : Z) : ev_state K :=
  fst (Epoll_DelEvent (sc_epoll s) w fd).
End io_events.

(** ** Switching and the loop *)

(** How control enters user code, and how it comes back: from a [Yield], whose jump hands
    over the coroutine's context, or from the end of the coroutine's function. *)
Inductive user_entry : Type := Call (f : Closure) | Continue.
Inductive user_exit : Type := Yielded (ctx : Z) | Finished.

(** What [epoll_wait] returns. *)
Inductive wait_result : Type := WaitErr (errno : Z) | WaitEvents (evs : list epoll_event).

Section loop.
Context {K U : Type} `{EpollKernel K}.

Record sworld : Type := mkSW {
  sw_sched : SchedulerImpl;       (* this scheduler *)
  sw_mem : memory;                (* memory, stacks included *)
  sw_ev : ev_state K;             (* interest list and socket contexts *)
  sw_ctxs : gmap nat WaitCtx;     (* wait contexts *)
  sw_clock : nat;                 (* clock readings made *)
  sw_mallocs : nat;               (* calls of malloc made *)
  sw_resumed : list nat;          (* ghost: coroutines jumped to, oldest first *)
  sw_user : U                     (* what user code keeps *)
}.

Definition set_sw_sched (w : sworld) (v : SchedulerImpl) : sworld :=
    mkSW v (sw_mem w) (sw_ev w) (sw_ctxs w) (sw_clock w) (sw_mallocs w) (sw_resumed w) (sw_user w).
Definition set_sw_mem (w : sworld) (v : memory) : sworld :=
    mkSW (sw_sched w) v (sw_ev w) (sw_ctxs w) (sw_clock w) (sw_mallocs w) (sw_resumed w) (sw_user w).
Definition set_sw_ev (w : sworld) (v : ev_state K) : sworld :=
    mkSW (sw_sched w) (sw_mem w) v (sw_ctxs w) (sw_clock w) (sw_mallocs w) (sw_resumed w) (sw_user w).
Definition set_sw_ctxs (w : sworld) (v : gmap nat WaitCtx) : sworld :=
    mkSW (sw_sched w) (sw_mem w) (sw_ev w) v (sw_clock w) (sw_mallocs w) (sw_resumed w) (sw_user w).
Definition set_sw_mallocs (w : sworld) (v : nat) : sworld :=
    mkSW (sw_sched w) (sw_mem w) (sw_ev w) (sw_ctxs w) (sw_clock w) v (sw_resumed w) (sw_user w).
Definition set_sw_resumed (w : sworld) (v : list nat) : sworld :=
    mkSW (sw_sched w) (sw_mem w) (sw_ev w) (sw_ctxs w) (sw_clock w) (sw_mallocs w) v (sw_user w).
Definition set_sw_user (w : sworld) (v : U) : sworld :=
    mkSW (sw_sched w) (sw_mem w) (sw_ev w) (sw_ctxs w) (sw_clock w) (sw_mallocs w) (sw_resumed w) v.

Context (malloc : nat -> Z) (clk : nat -> Z).
(** Addresses of [__entry], [__end] and [MainFunc], and of the context of the loop when
    it jumps. *)
Context (entry end_ main_func main_ctx : Z).
(** The kernel's answers to the reads of the wake-up descriptor. *)
Context (answers : list io_result).
Context (user : sworld -> nat -> user_entry -> outcome (sworld * user_exit)).

(** The part of [Resume] before the jump; true when the context is a new one. *)
Definition SchedulerImpl_Resume_prepare (w : sworld) (co : nat) : outcome (sworld * bool) :=
  let s := sw_sched w in
  let* c := get_co s co in
  let* st := get_stack s (co_stack_id c) in
  let s := set_sc_running s (Some co) in
  let '(st, w) :=
    match st_p st with
    | None => let p := malloc (sw_mallocs w) in
              (mkStack (Some p) (p + sc_stack_size s) (Some co), set_sw_mallocs w (S (sw_mallocs w)))
    | Some _ => (st, w)
    end in
  let s := put_stack s (co_stack_id c) st in
  let p := default 0 (st_p st) in
  let mine := bool_decide (st_co st = Some co) in
  let* s := if mine then Ok s else SchedulerImpl_SaveStack s (sw_mem w) (st_co st) in
  let s := if mine then s else put_stack s (co_stack_id c) (mkStack (st_p st) (st_top st) (Some co)) in
  match co_ctx c with
  | None =>
      let ctx := context_of p (sc_stack_size s) in
      let w := set_sw_mem w (made_context entry end_ (sw_mem w) ctx main_func) in
      Ok (set_sw_sched w (put_co s co (set_co_ctx c (Some ctx))), true)
  | Some ctx =>
      let w := if mine then w
               else set_sw_mem w (write_bytes (sw_mem w) ctx
                      (take (Z.to_nat (Stream_size (co_stack c))) (Stream_data (co_stack c)))) in
      Ok (set_sw_sched w s, false)
  end.

(** [MainFunc(from)] up to the jump back at its end. *)
Definition SchedulerImpl_MainFunc (w : sworld) (from_ctx : Z) (from_priv : nat)
  : outcome (sworld * user_exit) :=
  let* main := get_co (sw_sched w) from_priv in
  let s := put_co (sw_sched w) from_priv (set_co_ctx main (Some from_ctx)) in
  let* running := get_running s in
  let* c := get_co s running in
  let* f := get_co_func c in
  user (set_sw_sched w s) running (Call f).

(** The part of [Resume] after the jump: [from.priv] is the coroutine that yielded, or
    null when its function has returned. *)
Definition SchedulerImpl_Resume_finish (w : sworld) (from : user_exit) : outcome sworld :=
  match from with
  | Yielded ctx =>
      let* running := get_running (sw_sched w) in
      let* c := get_co (sw_sched w) running in
      Ok (set_sw_sched w (put_co (sw_sched w) running (set_co_ctx c (Some ctx))))
  | Finished =>
      let* s := SchedulerImpl_Recycle (sw_sched w) in
      Ok (set_sw_sched w s)
  end.

Definition SchedulerImpl_Resume (w : sworld) (co : nat) : outcome sworld :=
  let* (w, fresh) := SchedulerImpl_Resume_prepare w co in
  let w := set_sw_resumed w (sw_resumed w ++ [co]) in
  let* (w, from) := if fresh then SchedulerImpl_MainFunc w main_ctx (sc_main (sw_sched w))
                    else user w co Continue in
  SchedulerImpl_Resume_finish w from.

(** [for (co : tasks) Resume(co)] and [for (func : tasks) Resume(NewCoroutine(func))]. *)
Fixpoint resume_all (w : sworld) (cos : list nat) : outcome sworld :=
  match cos with
  | [] => Ok w
  | co :: cos' => let* w := SchedulerImpl_Resume w co in resume_all w cos'
  end.
Fixpoint resume_new (w : sworld) (funcs : list Closure) : outcome sworld :=
  match funcs with
  | [] => Ok w
  | f :: funcs' =>
      let* (co, s) := SchedulerImpl_NewCoroutine (sw_sched w) f in
      let* w := SchedulerImpl_Resume (set_sw_sched w s) co in resume_new w funcs'
  end.

(** The body of the loop over the events. *)
Definition handle_event (w : sworld) (ev : epoll_event) : outcome sworld :=
  let s := sw_sched w in
  if Epoll_is_wakeup_fd (sc_epoll s) ev then
    Ok (set_sw_sched w (set_sc_epoll s (fst (Epoll_HandleWakeUpEvent (sc_epoll s) answers))))
  else
    let fd := Epoll_user_data ev in
    let ctx := get_sock_ctx (ev_ctxs (sw_ev w)) fd in
    let read_co := if negb (Z.lor (events ev) EPOLLIN =? 0)
                   then SockCtx_get_read_co_id ctx (sc_id s) else 0 in
    let write_co := if negb (Z.lor (events ev) EPOLLOUT =? 0)
                    then SockCtx_get_write_co_id ctx (sc_id s) else 0 in
    let* w := if negb (read_co =? u32 (-1)) then SchedulerImpl_Resume w (Z.to_nat read_co) else Ok w in
    if negb (write_co =? u32 (-1)) then SchedulerImpl_Resume w (Z.to_nat write_co) else Ok w.

Fixpoint handle_events (w : sworld) (evs : list epoll_event) : outcome sworld :=
  match evs with
  | [] => Ok w
  | ev :: evs' => let* w := handle_event w ev in handle_events w evs'
  end.

(** The first [do ... while(0)]: new tasks, then ready ones. *)
Definition Loop_tasks (w : sworld) : outcome sworld :=
  let '(news, readys, tm) := TaskManager_GetAllTasks (sc_tasks (sw_sched w)) [] [] in
  let w := set_sw_sched w (set_sc_tasks (sw_sched w) tm) in
  let* w := resume_new w news in
  resume_all w readys.

(** The second one: what has timed out. *)
Definition Loop_timeouts (w : sworld) : outcome sworld :=
  let s := sw_sched w in
  let* (ms, tm, cw, tasks, t) :=
    TimerManager_CollectTimeoutTasks clk (sw_clock w) (sc_timers s)
      (mkWorld (cp_pool (sc_pool s)) (sw_ctxs w)) [] in
  let s := set_sc_wait_ms (set_sc_timers s tm) ms in
  let s := set_sc_pool s (mkCopoll (cp_id (sc_pool s)) (cp_idle (sc_pool s)) (cw_pool cw)) in
  let w := mkSW s (sw_mem w) (sw_ev w) (cw_ctxs cw) t (sw_mallocs w) (sw_resumed w) (sw_user w) in
  match tasks with
  | [] => Ok w
  | _ =>
      let w := set_sw_sched w (set_sc_timeout (sw_sched w) true) in
      let* w := resume_all w tasks in
      Ok (set_sw_sched w (set_sc_timeout (sw_sched w) false))
  end.

(** One turn of [while (!stop_)]; [stop_] is read again after [epoll_wait]. *)
Definition Loop_iteration (w : sworld) (r : wait_result) : outcome sworld :=
  if sc_stop (sw_sched w) then Ok w else
  match r with
  | WaitErr _ => Ok w
  | WaitEvents evs =>
      let* w := handle_events w evs in
      let* w := Loop_tasks w in
      let* w := Loop_timeouts w in
      Ok (set_sw_sched w (set_sc_running (sw_sched w) None))
  end.

(** [Loop] against the successive results of [epoll_wait]. *)
Fixpoint SchedulerImpl_Loop (w : sworld) (rs : list wait_result) : outcome sworld :=
  match rs with
  | [] => Ok w
  | r :: rs' => if sc_stop (sw_sched w) then Ok w
                else let* w := Loop_iteration w r in SchedulerImpl_Loop w rs'
  end.
End loop.
Arguments sworld K U : clear implicits.

(** ** Specification *)

(** Successive choices of the manager. *)
Fixpoint next_schedulers (n : nat) (m : SchedulerManager) : outcome (list nat * SchedulerManager) :=
  match n with
  | O => Ok ([], m)
  | S n' =>
      let* (s, m) := SchedulerManager_NextScheduler m in
      let* (l, m) := next_schedulers n' m in
      Ok (s :: l, m)
  end.

Definition manager_wf (m : SchedulerManager) : Prop :=
  0 < sm_sched_num m < 2 ^ 32 /\ 0 <= sm_index m < 2 ^ 32 /\
  sm_scheds m = seq 0 (Z.to_nat (sm_sched_num m)).

(** Every pointer the scheduler follows denotes something: eight stacks, stack ids below
    eight, owners in the pool; and a coroutine without a context still has its
    function. *)
Definition co_ok (c : Coroutine) : Prop :=
  0 <= co_stack_id c < kShareStackSize /\ (co_ctx c = None -> exists f, co_union_ c = func_ f).

Definition sched_ok (s : SchedulerImpl) : Prop :=
  length (sc_stacks s) = Z.to_nat kShareStackSize /\
  Forall (fun st => forall c, st_co st = Some c -> (c < length (cp_pool (sc_pool s)))%nat) (sc_stacks s) /\
  Forall co_ok (cp_pool (sc_pool s)) /\ (sc_main s < length (cp_pool (sc_pool s)))%nat.

(** ** Lemmas: the manager *)

Lemma NextScheduler_spec m :
  manager_wf m -> sm_index m + 1 < 2 ^ 32 ->
  exists m', SchedulerManager_NextScheduler m = Ok (Z.to_nat ((sm_index m + 1) mod sm_sched_num m), m') /\
    manager_wf m' /\ sm_index m' = sm_index m + 1 /\ sm_sched_num m' = sm_sched_num m.
Proof.
  intros (Hn & Hi & Hs) Hlt. unfold SchedulerManager_NextScheduler.
  assert (E : atomic_inc uint32 (sm_index m) = (sm_index m + 1, sm_index m + 1)).
  { unfold atomic_inc, add_fetch, cell_load.
    assert (C : forall z, 0 <= z < 2 ^ 32 -> cast uint32 z = z) by (intros; by apply uwrap_small).
    unfold cell_store. change (uwrap (bits uint32)) with (cast uint32).
    rewrite (C (sm_index m)), (C 1) by lia. by rewrite !(C (sm_index m + 1)) by lia. }
  rewrite E. destruct (Z.eqb_spec (sm_sched_num m) 0); [lia|].
  pose proof (Z.mod_pos_bound (sm_index m + 1) (sm_sched_num m)).
  rewrite Hs, lookup_seq_lt by lia. eexists. split; [reflexivity|].
  repeat split; cbn; lia || done.
Qed.

Lemma next_schedulers_spec n m :
  manager_wf m -> sm_index m + Z.of_nat n < 2 ^ 32 ->
  exists m', next_schedulers n m =
      Ok (map (fun j => Z.to_nat ((sm_index m + 1 + Z.of_nat j) mod sm_sched_num m)) (seq 0 n), m') /\
    manager_wf m' /\ sm_index m' = sm_index m + Z.of_nat n.
Proof.
  revert m. induction n as [|n IH]; intros m Hwf Hlt; cbn [next_schedulers].
  - exists m. split; [done|]. split; [done|]. lia.
  - destruct (NextScheduler_spec m Hwf) as (m1 & -> & Hwf1 & Hi1 & Hn1); [lia|]. cbn [obind].
    destruct (IH m1 Hwf1) as (m2 & -> & Hwf2 & Hi2); [lia|]. cbn [obind].
    exists m2. split; [|split; [done|lia]]. do 2 f_equal. cbn [seq map]. f_equal.
    + do 2 f_equal. lia.
    + rewrite <- seq_shift, map_map. apply map_ext. intros j. rewrite Hi1, Hn1. do 2 f_equal. lia.
Qed.

(** Consecutive numbers have distinct remainders. *)
Lemma mod_consecutive a n j k :
  0 < n -> 0 <= j < n -> 0 <= k < n -> (a + j) mod n = (a + k) mod n -> j = k.
Proof.
  intros Hn Hj Hk E.
  assert (H : (a + j - (a + k)) mod n = 0) by (rewrite Zminus_mod, E, Z.sub_diag; apply Zmod_0_l).
  replace (a + j - (a + k)) with (j - k) in H by lia.
  apply Z.mod_divide in H as [q Hq]; [|lia]. assert (q = 0) as -> by nia. lia.
Qed.

Lemma round_is_permutation a n :
  0 < n -> map (fun j => Z.to_nat ((a + Z.of_nat j) mod n)) (seq 0 (Z.to_nat n)) ≡ₚ seq 0 (Z.to_nat n).
Proof.
  intros Hn. apply NoDup_Permutation_bis.
  - apply NoDup_ListNoDup, NoDup_fmap_2_strong; [|apply NoDup_seq].
    intros j k Hj Hk E. apply elem_of_seq in Hj, Hk.
    pose proof (Z.mod_pos_bound (a + Z.of_nat j) n Hn). pose proof (Z.mod_pos_bound (a + Z.of_nat k) n Hn).
    apply Nat2Z.inj, (mod_consecutive a n); lia.
  - by rewrite length_map.
  - intros x Hx. apply in_map_iff in Hx as (j & <- & _). apply in_seq.
    pose proof (Z.mod_pos_bound (a + Z.of_nat j) n Hn). lia.
Qed.

(** ** Lemmas: pointers *)

Lemma get_put_co s co c : (co < length (cp_pool (sc_pool s)))%nat -> get_co (put_co s co c) co = Ok c.
Proof. intros H. unfold get_co, put_co. cbn. by rewrite list_lookup_insert_eq. Qed.

Lemma get_put_co_ne s co co' c : co <> co' -> get_co (put_co s co c) co' = get_co s co'.
Proof. intros H. unfold get_co, put_co. cbn. by rewrite list_lookup_insert_ne. Qed.

Lemma get_co_lt s co c : get_co s co = Ok c -> (co < length (cp_pool (sc_pool s)))%nat.
Proof.
  unfold get_co. destruct (_ !! co) eqn:E; [|done]. intros _. by eapply lookup_lt_Some.
Qed.

Lemma get_put_stack s i st : (Z.to_nat i < length (sc_stacks s))%nat -> get_stack (put_stack s i st) i = Ok st.
Proof. intros H. unfold get_stack, put_stack. cbn. by rewrite list_lookup_insert_eq. Qed.

Lemma get_stack_lt s i st : get_stack s i = Ok st -> (Z.to_nat i < length (sc_stacks s))%nat.
Proof.
  unfold get_stack. destruct (_ !! Z.to_nat i) eqn:E; [|done]. intros _. by eapply lookup_lt_Some.
Qed.

Lemma get_co_put_stack s i st co : get_co (put_stack s i st) co = get_co s co.
Proof. done. Qed.

Lemma obind_Ok {A B} (x : outcome A) (k : A -> outcome B) b :
  obind x k = Ok b -> exists a, x = Ok a /\ k a = Ok b.
Proof. destruct x; cbn; [eauto|done]. Qed.

(** ** Lemmas: saving a stack *)

(** A stack that fits is in the front of the private buffer. *)
Lemma SaveStack_fits s m co c st ctx :
  get_co s co = Ok c -> get_stack s (co_stack_id c) = Ok st -> co_ctx c = Some ctx ->
  fb_wf (co_stack c) -> fb_SIZE (co_stack c) = kSmallBuffer ->
  0 <= st_top st - ctx < kSmallBuffer ->
  exists stack, SchedulerImpl_SaveStack s m (Some co) = Ok (put_co s co (set_co_stack c stack)) /\
    fb_wf stack /\ fb_SIZE stack = kSmallBuffer /\
    take (Z.to_nat (st_top st - ctx)) (fb_data stack) = read_bytes m ctx (Z.to_nat (st_top st - ctx)).
Proof.
  intros Hc Hst Hctx Hwf Hsz Hlen. unfold kSmallBuffer in *. set (n := st_top st - ctx) in *.
  unfold SchedulerImpl_SaveStack. rewrite Hc. cbn [obind]. rewrite Hst, Hctx. cbn [obind from_option id].
  fold n. unfold kSmallBuffer. rewrite (uwrap_small 64 n) by lia. rewrite Z.min_l by lia.
  eexists. split; [reflexivity|]. unfold Stream_append, Stream_reset.
  assert (Hwf' : fb_wf (FixedBuffer_reset (co_stack c))) by (destruct Hwf as (? & ? & ?); repeat split; cbn; lia).
  assert (Hl : length (read_bytes m ctx (Z.to_nat n)) = Z.to_nat n)
    by (unfold read_bytes; by rewrite length_map, length_seq).
  destruct (append_spec (FixedBuffer_reset (co_stack c)) (read_bytes m ctx (Z.to_nat n)) n) as [H1 H2];
    [done|lia|lia|lia|].
  cbn [FixedBuffer_reset fb_SIZE fb_cur] in H2. rewrite Hsz, Z.sub_0_r in H2.
  destruct (Z.ltb_spec n 4000); [|lia].
  rewrite swrap_small by lia. split; [exact H1|].
  assert (E : FixedBuffer_append (FixedBuffer_reset (co_stack c)) (read_bytes m ctx (Z.to_nat n)) n =
    mkFixedBuffer 4000 (splice (fb_data (co_stack c)) 0 (take (Z.to_nat n) (read_bytes m ctx (Z.to_nat n)))) n).
  { unfold FixedBuffer_append. rewrite fb_avail_eq by done. cbn [FixedBuffer_reset fb_SIZE fb_cur fb_data].
    rewrite Hsz, Z.sub_0_r, !uwrap_small by lia. by destruct (Z.ltb_spec n 4000); [|lia]. }
  rewrite E in H2 |- *. split; [done|]. exact H2.
Qed.

(** One that does not fit leaves the buffer as it was, but for its cursor. *)
Lemma SaveStack_too_big s m co c st ctx :
  get_co s co = Ok c -> get_stack s (co_stack_id c) = Ok st -> co_ctx c = Some ctx ->
  fb_SIZE (co_stack c) = kSmallBuffer -> kSmallBuffer <= st_top st - ctx < 2 ^ 31 ->
  SchedulerImpl_SaveStack s m (Some co) = Ok (put_co s co (set_co_stack c (Stream_reset (co_stack c)))).
Proof.
  intros Hc Hst Hctx Hsz Hlen. unfold kSmallBuffer in *.
  unfold SchedulerImpl_SaveStack. rewrite Hc. cbn [obind]. rewrite Hst, Hctx. cbn [obind from_option id].
  rewrite (uwrap_small 64) by lia. do 3 f_equal.
  unfold Stream_append, FixedBuffer_append, FixedBuffer_avail. cbn [Stream_reset FixedBuffer_reset fb_SIZE fb_cur].
  rewrite Hsz. change (u64 (i32 (4000 - 0))) with 4000.
  rewrite swrap_small, (uwrap_small 64) by lia.
  destruct (Z.ltb_spec (st_top st - ctx) 4000); [lia|done].
Qed.

(** ** Lemmas: preparing a coroutine *)

Section prepare.
Context {K U : Type} `{EpollKernel K} (malloc : nat -> Z) (entry end_ main_func : Z).
Abbreviation prepare := (SchedulerImpl_Resume_prepare (K := K) (U := U) malloc entry end_ main_func).

(** Preparing [b] on a stack owned by [a] saves [a]'s part of it. *)
Lemma prepare_displaces w a b ca cb st p ctx :
  a <> b -> get_co (sw_sched w) a = Ok ca -> get_co (sw_sched w) b = Ok cb ->
  co_stack_id cb = co_stack_id ca -> get_stack (sw_sched w) (co_stack_id ca) = Ok st ->
  st_p st = Some p -> st_co st = Some a -> co_ctx ca = Some ctx ->
  fb_wf (co_stack ca) -> fb_SIZE (co_stack ca) = kSmallBuffer -> 0 <= st_top st - ctx < kSmallBuffer ->
  exists w' fresh stack, prepare w b = Ok (w', fresh) /\
    get_co (sw_sched w') a = Ok (set_co_stack ca stack) /\ fb_wf stack /\ fb_SIZE stack = kSmallBuffer /\
    take (Z.to_nat (st_top st - ctx)) (fb_data stack) = read_bytes (sw_mem w) ctx (Z.to_nat (st_top st - ctx)) /\
    get_stack (sw_sched w') (co_stack_id ca) = Ok (mkStack (Some p) (st_top st) (Some b)).
Proof.
  intros Hne Ha Hb Hsid Hst Hp Hco Hctx Hwf Hsz Hlen.
  unfold SchedulerImpl_Resume_prepare. rewrite Hb. cbn [obind]. rewrite Hsid, Hst. cbn [obind].
  rewrite Hp. cbn [from_option id]. rewrite bool_decide_eq_false_2 by congruence. rewrite Hco.
  set (s1 := put_stack (set_sc_running (sw_sched w) (Some b)) (co_stack_id ca) st).
  assert (Ha1 : get_co s1 a = Ok ca) by exact Ha.
  pose proof (get_stack_lt _ _ _ Hst) as Hlt.
  assert (Hst1 : get_stack s1 (co_stack_id ca) = Ok st) by (by apply get_put_stack).
  destruct (SaveStack_fits s1 (sw_mem w) a ca st ctx Ha1 Hst1 Hctx Hwf Hsz Hlen)
    as (stack & -> & Hwf' & Hsz' & Htake). cbn [obind].
  assert (Hget : get_co (put_stack (put_co s1 a (set_co_stack ca stack)) (co_stack_id ca)
                   (mkStack (Some p) (st_top st) (Some b))) a = Ok (set_co_stack ca stack)).
  { rewrite get_co_put_stack. apply get_put_co. by eapply get_co_lt. }
  assert (Hgs : get_stack (put_stack (put_co s1 a (set_co_stack ca stack)) (co_stack_id ca)
                   (mkStack (Some p) (st_top st) (Some b))) (co_stack_id ca)
                = Ok (mkStack (Some p) (st_top st) (Some b))).
  { apply get_put_stack. unfold s1, put_stack, put_co. cbn. by rewrite length_insert. }
  destruct (co_ctx cb); eexists _, _, stack; (split; [reflexivity|]); cbn [sw_sched set_sw_sched set_sw_mem];
    rewrite ?Hp; split_and!; first [done | exact Hgs | exact Hget | rewrite get_put_co_ne by done; exact Hget].
Qed.

(** Preparing a displaced coroutine copies its whole buffer over memory, from its
    context up. *)
Lemma prepare_restores w a ca st p ctx :
  get_co (sw_sched w) a = Ok ca -> get_stack (sw_sched w) (co_stack_id ca) = Ok st ->
  st_p st = Some p -> st_co st <> Some a -> co_ctx ca = Some ctx ->
  (forall b, st_co st = Some b -> exists cb stb,
     get_co (sw_sched w) b = Ok cb /\ get_stack (sw_sched w) (co_stack_id cb) = Ok stb) ->
  exists w', prepare w a = Ok (w', false) /\
    sw_mem w' = write_bytes (sw_mem w) ctx
      (take (Z.to_nat (Stream_size (co_stack ca))) (Stream_data (co_stack ca))).
Proof.
  intros Ha Hst Hp Hco Hctx Hown. unfold SchedulerImpl_Resume_prepare.
  rewrite Ha. cbn [obind]. rewrite Hst. cbn [obind]. rewrite Hp, Hctx. cbn [from_option id].
  rewrite bool_decide_eq_false_2 by done.
  pose proof (get_stack_lt _ _ _ Hst) as Hlt.
  set (s1 := put_stack (set_sc_running (sw_sched w) (Some a)) (co_stack_id ca) st).
  assert (Hsv : exists s2, SchedulerImpl_SaveStack s1 (sw_mem w) (st_co st) = Ok s2).
  { destruct (st_co st) as [b|] eqn:Eb; [|by eexists]. destruct (Hown b eq_refl) as (cb & stb & Hb & Hsb).
    unfold SchedulerImpl_SaveStack. replace (get_co s1 b) with (get_co (sw_sched w) b) by done.
    rewrite Hb. cbn [obind].
    assert (Hin : (Z.to_nat (co_stack_id cb) < length (sc_stacks s1))%nat)
      by (unfold s1, put_stack; cbn; rewrite length_insert; by eapply get_stack_lt).
    unfold get_stack at 1. destruct (lookup_lt_is_Some_2 _ _ Hin) as [x ->]. cbn [obind]. by eexists. }
  destruct Hsv as [s2 ->]. cbn [obind]. eexists. split; reflexivity.
Qed.
End prepare.

(** ** Lemmas: no step of the scheduler runs into a bad pointer *)

Abbreviation pool_size s := (length (cp_pool (sc_pool s))).

Definition owner_ok (s : SchedulerImpl) (st : Stack) : Prop :=
  forall c, st_co st = Some c -> (c < pool_size s)%nat.

Lemma get_co_ok s co : sched_ok s -> (co < pool_size s)%nat -> exists c, get_co s co = Ok c /\ co_ok c.
Proof.
  intros (_ & _ & Hp & _) Hlt. unfold get_co. destruct (lookup_lt_is_Some_2 _ _ Hlt) as [c Hc].
  rewrite Hc. exists c. split; [done|]. by eapply Forall_lookup_1.
Qed.

Lemma get_stack_ok s c : sched_ok s -> co_ok c -> exists st, get_stack s (co_stack_id c) = Ok st /\ owner_ok s st.
Proof.
  intros (Hl & Hs & _) [Hi _]. unfold get_stack, kShareStackSize in *.
  destruct (lookup_lt_is_Some_2 (sc_stacks s) (Z.to_nat (co_stack_id c))) as [st Hst]; [rewrite Hl; lia|].
  rewrite Hst. exists st. split; [done|]. exact (Forall_lookup_1 _ _ _ _ Hs Hst).
Qed.

Lemma put_co_ok s co c : sched_ok s -> co_ok c -> sched_ok (put_co s co c).
Proof.
  intros (Hl & Hs & Hp & Hm) Hc. unfold sched_ok, put_co. cbn. rewrite length_insert.
  split_and!; try done. by apply Forall_insert.
Qed.

Lemma put_stack_ok s i st : sched_ok s -> owner_ok s st -> sched_ok (put_stack s i st).
Proof.
  intros (Hl & Hs & Hp & Hm) Hst. unfold sched_ok, put_stack. cbn. rewrite length_insert.
  split_and!; try done. by apply Forall_insert.
Qed.

Lemma SaveStack_ok s m co :
  sched_ok s -> (forall c, co = Some c -> (c < pool_size s)%nat) ->
  exists s', SchedulerImpl_SaveStack s m co = Ok s' /\ sched_ok s' /\ pool_size s' = pool_size s /\
    sc_running s' = sc_running s /\ sc_main s' = sc_main s.
Proof.
  intros Hs Hco. destruct co as [co|]; [|by exists s]. unfold SchedulerImpl_SaveStack.
  destruct (get_co_ok s co Hs (Hco _ eq_refl)) as (c & -> & Hc). cbn [obind].
  destruct (get_stack_ok s c Hs Hc) as (st & -> & _). cbn [obind].
  eexists. split; [reflexivity|]. split; [by apply put_co_ok|]. cbn. by rewrite length_insert.
Qed.

Lemma Recycle_ok s co :
  sched_ok s -> sc_running s = Some co -> (co < pool_size s)%nat ->
  exists s', SchedulerImpl_Recycle s = Ok s' /\ sched_ok s' /\ pool_size s' = pool_size s /\
    sc_main s' = sc_main s.
Proof.
  intros Hs Hr Hlt. unfold SchedulerImpl_Recycle, get_running. rewrite Hr. cbn [obind].
  destruct (Nat.eqb co (sc_main s)); [by exists s|].
  destruct (get_co_ok s co Hs Hlt) as (c & -> & Hc). cbn [obind].
  destruct (get_stack_ok s c Hs Hc) as (st & -> & _). cbn [obind].
  eexists. split; [reflexivity|].
  destruct (put_stack_ok s (co_stack_id c) (mkStack (st_p st) (st_top st) None) Hs) as (? & ? & ? & ?); [done|].
  done.
Qed.

Section dispatch.
Context {K U : Type} `{EpollKernel K} (malloc : nat -> Z) (entry end_ main_func main_ctx : Z).
Context (user : sworld K U -> nat -> user_entry -> outcome (sworld K U * user_exit)).
Abbreviation resume := (SchedulerImpl_Resume malloc entry end_ main_func main_ctx user).
Abbreviation prepare := (SchedulerImpl_Resume_prepare (K := K) (U := U) malloc entry end_ main_func).

(** What user code leaves alone until it switches: the scheduler stays sound, the
    coroutine that runs keeps running, and it does not resume others itself. *)
Definition user_ok : Prop :=
  forall w co e, sched_ok (sw_sched w) -> (co < pool_size (sw_sched w))%nat ->
    sc_running (sw_sched w) = Some co ->
    exists w' x, user w co e = Ok (w', x) /\ sched_ok (sw_sched w') /\
      pool_size (sw_sched w') = pool_size (sw_sched w) /\ sc_running (sw_sched w') = Some co /\
      sw_resumed w' = sw_resumed w.

Lemma prepare_ok w co :
  sched_ok (sw_sched w) -> (co < pool_size (sw_sched w))%nat ->
  exists w' fresh, prepare w co = Ok (w', fresh) /\ sched_ok (sw_sched w') /\
    pool_size (sw_sched w') = pool_size (sw_sched w) /\ sc_running (sw_sched w') = Some co /\
    sw_resumed w' = sw_resumed w /\
    (fresh = true -> exists c f, get_co (sw_sched w') co = Ok c /\ co_union_ c = func_ f).
Proof.
  intros Hs Hlt. unfold SchedulerImpl_Resume_prepare.
  destruct (get_co_ok _ _ Hs Hlt) as (c & -> & Hc). cbn [obind].
  destruct (get_stack_ok _ _ Hs Hc) as (st & -> & Hown). cbn [obind].
  set (s1 := set_sc_running (sw_sched w) (Some co)).
  assert (Hs1 : sched_ok s1) by exact Hs.
  destruct (match st_p st with Some _ => (st, w) | None => _ end) as [st' w1] eqn:E.
  assert (H1 : owner_ok s1 st' /\ sw_resumed w1 = sw_resumed w).
  { destruct (st_p st); injection E as <- <-; [done|]. split; [|done]. intros c' [= <-]. exact Hlt. }
  destruct H1 as [Hown1 Htr].
  assert (Hs2 : sched_ok (put_stack s1 (co_stack_id c) st')) by (by apply put_stack_ok).
  set (mine := bool_decide (st_co st' = Some co)).
  assert (Hsv : exists s3, (if mine then Ok (put_stack s1 (co_stack_id c) st')
      else SchedulerImpl_SaveStack (put_stack s1 (co_stack_id c) st') (sw_mem w1) (st_co st')) = Ok s3 /\
      sched_ok s3 /\ pool_size s3 = pool_size (sw_sched w) /\ sc_running s3 = Some co).
  { destruct mine; [by eexists|].
    destruct (SaveStack_ok (put_stack s1 (co_stack_id c) st') (sw_mem w1) (st_co st') Hs2 Hown1)
      as (s3 & -> & H3 & Hp3 & Hr3 & _). eauto. }
  destruct Hsv as (s3 & -> & Hs3 & Hp3 & Hr3). cbn [obind].
  set (s4 := if mine then s3 else put_stack s3 (co_stack_id c) (mkStack (st_p st') (st_top st') (Some co))).
  assert (Hs4 : sched_ok s4 /\ pool_size s4 = pool_size (sw_sched w) /\ sc_running s4 = Some co).
  { unfold s4. destruct mine; [done|]. split; [|done]. apply put_stack_ok; [done|].
    intros c' [= <-]. by rewrite Hp3. }
  destruct Hs4 as (Hs4 & Hp4 & Hr4). destruct (co_ctx c) as [ctx|] eqn:Ec.
  - eexists _, _. split; [reflexivity|]. cbn. split_and!; try done. by destruct mine.
  - eexists _, _. split; [reflexivity|]. cbn [sw_sched set_sw_sched set_sw_mem sw_resumed].
    split_and!; try done.
    + apply put_co_ok; [done|]. split; [apply Hc|done].
    + cbn. by rewrite length_insert.
    + intros _. destruct Hc as [_ Hf]. destruct (Hf Ec) as [f Hf']. eexists _, f.
      split; [apply get_put_co; by rewrite Hp4|]. exact Hf'.
Qed.

Lemma resume_ok w co :
  user_ok -> sched_ok (sw_sched w) -> (co < pool_size (sw_sched w))%nat ->
  exists w', resume w co = Ok w' /\ sched_ok (sw_sched w') /\
    pool_size (sw_sched w') = pool_size (sw_sched w) /\ sw_resumed w' = sw_resumed w ++ [co].
Proof.
  intros Hu Hs Hlt. unfold SchedulerImpl_Resume.
  destruct (prepare_ok w co Hs Hlt) as (w1 & fresh & -> & Hs1 & Hp1 & Hr1 & Ht1 & Hf1). cbn [obind].
  set (w2 := set_sw_resumed w1 (sw_resumed w1 ++ [co])).
  assert (Hrun : exists w3 x, (if fresh then SchedulerImpl_MainFunc user w2 main_ctx (sc_main (sw_sched w2))
                               else user w2 co Continue) = Ok (w3, x) /\
            sched_ok (sw_sched w3) /\ pool_size (sw_sched w3) = pool_size (sw_sched w) /\
            sc_running (sw_sched w3) = Some co /\ sw_resumed w3 = sw_resumed w ++ [co]).
  { destruct fresh.
    - unfold SchedulerImpl_MainFunc.
      destruct (get_co_ok (sw_sched w2) (sc_main (sw_sched w2)) Hs1) as (cm & Hm & Hcm); [apply Hs1|].
      rewrite Hm. cbn [obind]. set (s3 := put_co _ _ _).
      assert (Hs3 : sched_ok s3) by (apply put_co_ok; [done|]; split; [apply Hcm|done]).
      assert (Hp3 : pool_size s3 = pool_size (sw_sched w)) by (unfold s3; cbn; rewrite length_insert; done).
      assert (Hr3 : sc_running s3 = Some co) by exact Hr1.
      unfold get_running. rewrite Hr3. cbn [obind].
      destruct (Hf1 eq_refl) as (c & f & Hc & Hcf).
      assert (Hc3 : exists c3, get_co s3 co = Ok c3 /\ get_co_func c3 = Ok f).
      { unfold get_co_func. destruct (decide (sc_main (sw_sched w2) = co)) as [Hmc|Hne].
        - unfold s3. rewrite Hmc in *. eexists. split; [apply get_put_co; cbn; lia|].
          assert (cm = c) as -> by (cbn in Hm; congruence). cbn. by rewrite Hcf.
        - exists c. split; [|by rewrite Hcf]. unfold s3. rewrite get_put_co_ne by done. exact Hc. }
      destruct Hc3 as (c3 & -> & Hc3). cbn [obind]. rewrite Hc3. cbn [obind].
      destruct (Hu (set_sw_sched w2 s3) co (Call f)) as (w4 & x & -> & ? & Hp4 & ? & Ht4);
        [done|cbn [w2 sw_sched set_sw_sched set_sw_resumed]; lia|done|].
      exists w4, x. split_and!; try done; [by rewrite Hp4|]. rewrite Ht4. cbn. by rewrite Ht1.
    - destruct (Hu w2 co Continue) as (w4 & x & -> & ? & Hp4 & ? & Ht4); [done|cbn [w2 sw_sched set_sw_sched set_sw_resumed]; lia|done|].
      exists w4, x. split_and!; try done; [by rewrite Hp4|]. rewrite Ht4. cbn. by rewrite Ht1. }
  destruct Hrun as (w3 & x & -> & Hs3 & Hp3 & Hr3 & Ht3). cbn [obind].
  destruct x as [ctx|]; cbn [SchedulerImpl_Resume_finish].
  - unfold get_running. rewrite Hr3. cbn [obind].
    destruct (get_co_ok _ co Hs3) as (c & -> & Hc); [lia|]. cbn [obind].
    eexists. split; [reflexivity|]. cbn [sw_sched set_sw_sched sw_resumed].
    split; [apply put_co_ok; [done|]; split; [apply Hc|done]|]. cbn. by rewrite length_insert.
  - destruct (Recycle_ok _ co Hs3 Hr3) as (s4 & -> & Hs4 & Hp4 & _); [lia|]. cbn [obind].
    eexists. split; [reflexivity|]. cbn. split_and!; try done. lia.
Qed.

Lemma resume_all_ok w cos :
  user_ok -> sched_ok (sw_sched w) -> Forall (fun co => (co < pool_size (sw_sched w))%nat) cos ->
  exists w', resume_all malloc entry end_ main_func main_ctx user w cos = Ok w' /\
    sched_ok (sw_sched w') /\ pool_size (sw_sched w') = pool_size (sw_sched w) /\
    sw_resumed w' = sw_resumed w ++ cos.
Proof.
  intros Hu. revert w. induction cos as [|co cos IH]; intros w Hs Hall; cbn [resume_all].
  - exists w. by rewrite app_nil_r.
  - apply Forall_cons in Hall as [Hco Hall].
    destruct (resume_ok w co Hu Hs Hco) as (w1 & -> & Hs1 & Hp1 & Ht1). cbn [obind].
    destruct (IH w1 Hs1) as (w2 & -> & Hs2 & Hp2 & Ht2); [by rewrite Hp1|].
    exists w2. split_and!; try done; [lia|]. by rewrite Ht2, Ht1, <- app_assoc.
Qed.
End dispatch.

Lemma get_stack_owner s i st x :
  sched_ok s -> get_stack s i = Ok st -> st_co st = Some x -> exists c, get_co s x = Ok c /\ co_ok c.
Proof.
  intros Hs Hst Hx. apply get_co_ok; [done|]. destruct Hs as (_ & Hs & _). unfold get_stack in Hst.
  destruct (sc_stacks s !! Z.to_nat i) as [st'|] eqn:E; [|done]. injection Hst as ->.
  exact (Forall_lookup_1 _ _ _ _ Hs E x Hx).
Qed.

(** ** Theorems *)

(** The manager hands out schedulers in turn: the [k]-th next call gives scheduler
    [(index + k) mod sched_num], so that as many calls as there are schedulers choose
    every one exactly once (as long as the 32-bit counter does not wrap). *)
Theorem NextScheduler_round_robin m n :
  manager_wf m -> sm_index m + Z.of_nat n < 2 ^ 32 ->
  exists l m', next_schedulers n m = Ok (l, m') /\ manager_wf m' /\
    l = map (fun j => Z.to_nat ((sm_index m + 1 + Z.of_nat j) mod sm_sched_num m)) (seq 0 n) /\
    (Z.of_nat n = sm_sched_num m -> l ≡ₚ sm_scheds m).
Proof.
  intros Hwf Hlt. destruct (next_schedulers_spec n m Hwf Hlt) as (m' & E & Hwf' & _).
  eexists _, m'. split; [exact E|]. split_and!; try done.
  intros Hn. destruct Hwf as (Hs & _ & ->). replace n with (Z.to_nat (sm_sched_num m)) by lia.
  apply round_is_permutation. lia.
Qed.

(** C8: two coroutines can share a stack. Let [a] be suspended on a stack it owns, with
    less than 4000 bytes in use; when [b] is prepared on the same stack, and later, with
    [a] untouched in the pool and the stack owned by another coroutine, [a] is prepared
    again, every byte between [a]'s context and the top of the stack is what it was when
    [a] was suspended, and [a] continues where it was. *)
Theorem shared_stack_round_trip {K U} `{EpollKernel K} malloc entry end_ main_func
  (w0 : sworld K U) a b ca cb st p ctx :
  a <> b -> get_co (sw_sched w0) a = Ok ca -> get_co (sw_sched w0) b = Ok cb ->
  co_stack_id cb = co_stack_id ca -> get_stack (sw_sched w0) (co_stack_id ca) = Ok st ->
  st_p st = Some p -> st_co st = Some a -> co_ctx ca = Some ctx ->
  fb_wf (co_stack ca) -> fb_SIZE (co_stack ca) = kSmallBuffer -> 0 <= st_top st - ctx < kSmallBuffer ->
  exists w1 fresh, SchedulerImpl_Resume_prepare malloc entry end_ main_func w0 b = Ok (w1, fresh) /\
    forall (w2 : sworld K U) st2 p2, get_co (sw_sched w2) a = get_co (sw_sched w1) a -> sched_ok (sw_sched w2) ->
      get_stack (sw_sched w2) (co_stack_id ca) = Ok st2 -> st_p st2 = Some p2 -> st_co st2 <> Some a ->
      exists w3, SchedulerImpl_Resume_prepare malloc entry end_ main_func w2 a = Ok (w3, false) /\
        same_bytes (sw_mem w0) (sw_mem w3) ctx (st_top st - ctx).
Proof.
  intros Hne Ha Hb Hsid Hst Hp Hco Hctx Hwf Hsz Hlen.
  destruct (prepare_displaces malloc entry end_ main_func w0 a b ca cb st p ctx)
    as (w1 & fresh & stack & E & Ha1 & Hwf1 & Hsz1 & Htake & _); try done.
  exists w1, fresh. split; [done|]. intros w2 st2 p2 Ha2 Hok2 Hst2 Hp2 Hco2. rewrite Ha1 in Ha2.
  destruct (prepare_restores malloc entry end_ main_func w2 a (set_co_stack ca stack) st2 p2 ctx)
    as (w3 & E3 & Hm3); try done.
  { intros x Hx. destruct (get_stack_owner (sw_sched w2) (co_stack_id ca) st2 x Hok2 Hst2 Hx) as (cx & Hcx & Hokx).
    destruct (get_stack_ok _ cx Hok2 Hokx) as (stx & Hstx & _). eauto. }
  exists w3. split; [done|]. intros x Hx. rewrite Hm3. cbn [co_stack set_co_stack].
  unfold Stream_size, Stream_data, FixedBuffer_size, kSmallBuffer in *. rewrite Hsz1.
  destruct Hwf1 as (_ & Hl1 & _). rewrite Hsz1 in Hl1.
  rewrite take_ge by lia. rewrite write_bytes_inside by lia.
  assert (Hn : nth (Z.to_nat (x - ctx)) (fb_data stack) 0
               = nth (Z.to_nat (x - ctx)) (take (Z.to_nat (st_top st - ctx)) (fb_data stack)) 0).
  { rewrite <- (take_drop (Z.to_nat (st_top st - ctx)) (fb_data stack)) at 1.
    rewrite app_nth1; [done|]. rewrite length_take. lia. }
  rewrite Hn, Htake. unfold read_bytes.
  rewrite (nth_indep _ 0 (sw_mem w0 (ctx + Z.of_nat 0))) by (rewrite length_map, length_seq; lia).
  rewrite (map_nth (fun i => sw_mem w0 (ctx + Z.of_nat i))), seq_nth by lia. f_equal. lia.
Qed.

(** Restoring a stack copies the whole private buffer, not the part that was saved:
    the 4000 bytes from the context on are overwritten, although the stack ends less
    than 4000 bytes above it. *)
Theorem restore_overruns_stack {K U} `{EpollKernel K} malloc entry end_ main_func
  (w : sworld K U) a ca st p ctx :
  sched_ok (sw_sched w) -> get_co (sw_sched w) a = Ok ca ->
  get_stack (sw_sched w) (co_stack_id ca) = Ok st -> st_p st = Some p -> st_co st <> Some a ->
  co_ctx ca = Some ctx -> fb_wf (co_stack ca) -> fb_SIZE (co_stack ca) = kSmallBuffer ->
  st_top st - ctx < kSmallBuffer ->
  exists w', SchedulerImpl_Resume_prepare malloc entry end_ main_func w a = Ok (w', false) /\
    forall x, st_top st <= x < ctx + kSmallBuffer -> ctx <= x ->
      sw_mem w' x = nth (Z.to_nat (x - ctx)) (fb_data (co_stack ca)) 0.
Proof.
  intros Hok Ha Hst Hp Hco Hctx Hwf Hsz Hlen.
  destruct (prepare_restores malloc entry end_ main_func w a ca st p ctx) as (w' & E & Hm); try done.
  { intros x Hx. destruct (get_stack_owner (sw_sched w) (co_stack_id ca) st x Hok Hst Hx) as (cx & Hcx & Hokx).
    destruct (get_stack_ok _ cx Hok Hokx) as (stx & Hstx & _). eauto. }
  exists w'. split; [done|]. intros x Hx Hx'. rewrite Hm.
  unfold Stream_size, Stream_data, FixedBuffer_size, kSmallBuffer in *. rewrite Hsz.
  destruct Hwf as (_ & Hl & _). rewrite take_ge by lia. apply write_bytes_inside. lia.
Qed.

(** A stack of 4000 bytes or more is not saved: what [SaveStack] leaves in the pool
    does not depend on memory, and the buffer keeps its previous bytes. *)
Theorem large_stack_not_saved s m co c st ctx :
  get_co s co = Ok c -> get_stack s (co_stack_id c) = Ok st -> co_ctx c = Some ctx ->
  fb_SIZE (co_stack c) = kSmallBuffer -> kSmallBuffer <= st_top st - ctx < 2 ^ 31 ->
  exists s' c', SchedulerImpl_SaveStack s m (Some co) = Ok s' /\ get_co s' co = Ok c' /\
    fb_data (co_stack c') = fb_data (co_stack c) /\
    forall m', SchedulerImpl_SaveStack s m' (Some co) = Ok s'.
Proof.
  intros Hc Hst Hctx Hsz Hlen. eexists _, _.
  split; [by eapply SaveStack_too_big|]. split; [apply get_put_co; by eapply get_co_lt|].
  split; [done|]. intros m'. by eapply SaveStack_too_big.
Qed.

(** A coroutine that has yielded once cannot be used again: after its [Yield] its
    union holds the scheduler pointer, [Recycle] returns it to the pool as it is, and the
    next [NewCoroutine] takes it and assigns to the [func_] that is not active. *)
Theorem recycled_after_yield_faults s co c s1 s2 func :
  sc_running s = Some co -> co <> sc_main s -> get_co s co = Ok c -> co_id c = Z.of_nat co ->
  SchedulerImpl_Yield s = Ok s1 -> SchedulerImpl_Recycle s1 = Ok s2 ->
  SchedulerImpl_NewCoroutine s2 func = Fault InactiveMember.
Proof.
  intros Hr Hm Hc Hid Hy Hrec. unfold SchedulerImpl_Yield, get_running in Hy. rewrite Hr in Hy.
  cbn [obind] in Hy. rewrite Hc in Hy. cbn [obind] in Hy. injection Hy as <-.
  pose proof (get_co_lt _ _ _ Hc) as Hlt.
  unfold SchedulerImpl_Recycle, get_running in Hrec. cbn [put_co set_sc_pool sc_running sc_main] in Hrec.
  rewrite Hr in Hrec. cbn [obind] in Hrec. rewrite (proj2 (Nat.eqb_neq _ _) Hm) in Hrec.
  apply obind_Ok in Hrec as (c1 & Hc1 & Hrec). rewrite get_put_co in Hc1 by done. injection Hc1 as <-.
  apply obind_Ok in Hrec as (st & _ & [= <-]). unfold SchedulerImpl_NewCoroutine, Copoll_Pop, Copoll_Push.
  cbn [sc_pool set_sc_pool put_stack set_sc_stacks put_co cp_idle cp_pool cp_id co_id set_co_scheduler].
  rewrite last_snoc. unfold Copoll_at. cbn [cp_pool]. rewrite Hid, Nat2Z.id.
  rewrite list_lookup_insert_eq by done. cbn [obind]. unfold get_co. cbn [sc_pool set_sc_pool cp_pool].
  rewrite list_lookup_insert_eq by (by rewrite length_insert). reflexivity.
Qed.

(** The loop resumes the coroutines of a socket whatever the event says: the tests
    use [|] where [&] is meant, so an event that only reports readability resumes the
    writer too. *)
Theorem handle_event_ignores_mask {K U} `{EpollKernel K} malloc entry end_ main_func main_ctx answers user
  (w : sworld K U) mask mask' fd :
  handle_event malloc entry end_ main_func main_ctx answers user w (mkEpollEvent mask fd) =
  handle_event malloc entry end_ main_func main_ctx answers user w (mkEpollEvent mask' fd).
Proof.
  assert (E : forall a b, b <> 0 -> negb (Z.lor a b =? 0) = true).
  { intros a b Hb. destruct (Z.eqb_spec (Z.lor a b) 0) as [H0|]; [|done]. by apply Z.lor_eq_0_iff in H0 as [_ ?]. }
  unfold handle_event, Epoll_is_wakeup_fd, Epoll_user_data. cbn [data_fd events]. by rewrite !E.
Qed.

(** Giving up waiting to read also gives up waiting to write: after
    [DelIoEvent(fd, kEvRead)] the context of the descriptor asks for nothing, whatever it
    asked for before. *)
Theorem DelIoEvent_read_drops_write {K} `{EpollKernel K} s (w w' : ev_state K) fd :
  0 <= fd -> SchedulerImpl_DelIoEvent s w fd kEvRead = Ok w' ->
  SockCtx_has_event (get_sock_ctx (ev_ctxs w') fd) = false.
Proof.
  intros Hfd E. apply obind_Ok in E as (r & _ & E). apply obind_Ok in E as (c & _ & E).
  injection E as <-. set (w1 := fst (Epoll_DelEvRead _ _ _ _)).
  assert (H1 : SockCtx_has_ev_read (get_sock_ctx (ev_ctxs w1) fd) = false).
  { unfold w1, Epoll_DelEvRead. destruct (Z.ltb_spec fd 0); [lia|].
    destruct (SockCtx_has_ev_read (get_sock_ctx (ev_ctxs w) fd)) eqn:Er; cbn; [|exact Er].
    destruct (if negb _ then _ else _) as [[k' res] errno]. cbn. by rewrite get_put_eq. }
  clearbody w1. unfold SockCtx_has_event, Epoll_DelEvWrite. destruct (Z.ltb_spec fd 0); [lia|].
  destruct (SockCtx_has_ev_write (get_sock_ctx (ev_ctxs w1) fd)) eqn:Ew; cbn.
  - destruct (if negb _ then _ else _) as [[k' res] errno]. cbn. rewrite get_put_eq.
    unfold SockCtx_has_ev_read in *. cbn. by rewrite H1.
  - by rewrite H1, Ew.
Qed.

(** ** Witnesses *)

Definition co_sample (id : Z) (ctx : option Z) : Coroutine :=
  mkCoroutine id 0 0 kInit (mkFixedBuffer 4000 (replicate 4000 0) 0) None ctx None (func_ 1%nat).

(** Coroutine 0 is suspended on stack 0 (10000..11024) with 124 bytes in use. *)
Definition sched_sample (top : Z) (owner running : option nat) : SchedulerImpl :=
  mkSched 0 1 (top - 10000) 1000 true (mkEpoll 0 3 0) 2 running
    (mkStack (Some 10000) top owner :: replicate 7 (mkStack None 0 None))
    (mkCopoll 3 [] [co_sample 0 (Some 10900); co_sample 1 None; co_sample 2 (Some 500)])
    (mkTaskManager [] [0%nat; 1%nat]) TimerManager_new false false.

Definition sworld_sample (top : Z) (owner running : option nat) : sworld epoll_table unit :=
  mkSW (sched_sample top owner running) (fun x => x mod 256) (mkEvState ∅ ∅) ∅ 0 0 [] tt.

Lemma sched_sample_ok top running : sched_ok (sched_sample top (Some 1%nat) running).
Proof.
  split_and!; [done| | |cbn; lia].
  - constructor; [intros c [= <-]; cbn; lia|]. apply Forall_replicate. done.
  - repeat constructor; try (cbn; lia); intros _; by eexists.
Qed.

Lemma co_sample_wf id ctx : fb_wf (co_stack (co_sample id ctx)).
Proof. repeat split; try (cbn; lia); vm_compute; done. Qed.

Lemma NextScheduler_round_robin_witness :
  exists l m', next_schedulers 3 (SchedulerManager_new 3 1024) = Ok (l, m') /\ manager_wf m' /\
    l = map (fun j => Z.to_nat ((0 + 1 + Z.of_nat j) mod 3)) (seq 0 3) /\ (3 = 3 -> l ≡ₚ [0; 1; 2]%nat).
Proof.
  apply (NextScheduler_round_robin (SchedulerManager_new 3 1024) 3); [|eval_closed].
  split; [eval_closed|]. split; [eval_closed|reflexivity].
Defined.

Lemma shared_stack_round_trip_witness :
  exists w1 fresh, SchedulerImpl_Resume_prepare (fun _ => 0) 1 2 3 (sworld_sample 11024 (Some 0%nat) None) 1
      = Ok (w1, fresh) /\
    forall (w2 : sworld epoll_table unit) st2 p2, get_co (sw_sched w2) 0 = get_co (sw_sched w1) 0 ->
      sched_ok (sw_sched w2) -> get_stack (sw_sched w2) 0 = Ok st2 -> st_p st2 = Some p2 -> st_co st2 <> Some 0%nat ->
      exists w3, SchedulerImpl_Resume_prepare (fun _ => 0) 1 2 3 w2 0 = Ok (w3, false) /\
        same_bytes (fun x => x mod 256) (sw_mem w3) 10900 (11024 - 10900).
Proof.
  apply (shared_stack_round_trip (fun _ => 0) 1 2 3 (sworld_sample 11024 (Some 0%nat) None) 0 1
           (co_sample 0 (Some 10900)) (co_sample 1 None) (mkStack (Some 10000) 11024 (Some 0%nat)) 10000 10900);
    try reflexivity; [done|apply co_sample_wf|eval_closed].
Defined.

Lemma restore_overruns_stack_witness :
  exists w', SchedulerImpl_Resume_prepare (fun _ => 0) 1 2 3 (sworld_sample 11024 (Some 1%nat) None) 0
      = Ok (w', false) /\
    forall x, 11024 <= x < 10900 + kSmallBuffer -> 10900 <= x ->
      sw_mem w' x = nth (Z.to_nat (x - 10900)) (replicate 4000 0) 0.
Proof.
  apply (restore_overruns_stack (fun _ => 0) 1 2 3 (sworld_sample 11024 (Some 1%nat) None) 0
           (co_sample 0 (Some 10900)) (mkStack (Some 10000) 11024 (Some 1%nat)) 10000 10900);
    try reflexivity; [apply sched_sample_ok|done|apply co_sample_wf].
Defined.

Lemma large_stack_not_saved_witness :
  exists s' c', SchedulerImpl_SaveStack (sched_sample 20000 (Some 0%nat) None) (fun _ => 7) (Some 0%nat) = Ok s' /\
    get_co s' 0 = Ok c' /\ fb_data (co_stack c') = replicate 4000 0 /\
    forall m', SchedulerImpl_SaveStack (sched_sample 20000 (Some 0%nat) None) m' (Some 0%nat) = Ok s'.
Proof.
  apply (large_stack_not_saved (sched_sample 20000 (Some 0%nat) None) (fun _ => 7) 0
           (co_sample 0 (Some 10900)) (mkStack (Some 10000) 20000 (Some 0%nat)) 10900);
    try reflexivity. eval_closed.
Defined.

(** The scheduler after a [Yield] of coroutine 1, and after its [Recycle]. *)
Definition yielded_sample : SchedulerImpl :=
  match SchedulerImpl_Yield (sched_sample 11024 (Some 1%nat) (Some 1%nat)) with
  | Ok s => s | Fault _ => sched_sample 11024 None None end.
Definition recycled_sample : SchedulerImpl :=
  match SchedulerImpl_Recycle yielded_sample with Ok s => s | Fault _ => yielded_sample end.

Lemma recycled_after_yield_faults_witness :
  SchedulerImpl_NewCoroutine recycled_sample 5%nat = Fault InactiveMember.
Proof.
  apply (recycled_after_yield_faults (sched_sample 11024 (Some 1%nat) (Some 1%nat)) 1 (co_sample 1 None)
           yielded_sample recycled_sample 5%nat); try reflexivity. done.
Defined.

(** Coroutine 1 waits to read descriptor 5 and coroutine 2 to write it. *)
Definition ev_both : ev_state epoll_table :=
  mkEvState {[ 5 := mkEpollEvent 5 5 ]} {[ 5 := mkSockCtx (mkEvent 1 0) (mkEvent 2 0) ]}.
Definition ev_after : ev_state epoll_table :=
  match SchedulerImpl_DelIoEvent (sched_sample 11024 (Some 1%nat) (Some 1%nat)) ev_both 5 kEvRead with
  | Ok w => w | Fault _ => ev_both end.

Lemma DelIoEvent_read_drops_write_witness :
  SockCtx_has_event (get_sock_ctx (ev_ctxs ev_after) 5) = false.
Proof.
  apply (DelIoEvent_read_drops_write (sched_sample 11024 (Some 1%nat) (Some 1%nat)) ev_both);
    [lia|reflexivity].
Defined.
