(* ===== verification/Switching.v ===== *)
(** * What switching to a coroutine leaves alone

    [Resume] of scheduler.cc prepares a stack, jumps, and notes how the jump came back.
    The lemmas here cut it in three, so that a proof about code that runs in a coroutine
    meets only that code: the part before the jump changes nothing but the saved stacks
    and contexts of coroutines and the bytes of a [scratch] region (the shared stacks and
    the 4000 bytes that restoring one may write past its context), and so does the part
    after it. *)

From stdpp Require Import base numbers list gmap.
From Stdlib Require Import Lia ZArith.
From S2P Require Import Prelude Stream Epoll Wakeup Coroutine Copoll TaskManager TimerManager Context.
From S2P Require Import Scheduler.

(** ** Specification *)

(** The members of a coroutine that a switch keeps; a context is not lost. *)
Definition co_kept (c c' : Coroutine) : Prop :=
  co_id c' = co_id c /\ co_stack_id c' = co_stack_id c /\ co_wait_ctx c' = co_wait_ctx c /\
  co_union_ c' = co_union_ c /\ fb_SIZE (co_stack c') = fb_SIZE (co_stack c) /\
  (is_Some (co_ctx c) -> is_Some (co_ctx c')).

(** The members of a scheduler that it keeps. *)
Definition sched_kept (s s' : SchedulerImpl) : Prop :=
  sc_id s' = sc_id s /\ sc_stack_size s' = sc_stack_size s /\ sc_epoll s' = sc_epoll s /\
  sc_main s' = sc_main s /\ sc_tasks s' = sc_tasks s /\ sc_timers s' = sc_timers s /\
  sc_timeout s' = sc_timeout s /\ sc_stop s' = sc_stop s /\ cp_id (sc_pool s') = cp_id (sc_pool s) /\
  Forall2 co_kept (cp_pool (sc_pool s)) (cp_pool (sc_pool s')).

(** The contexts of all coroutines but [co] and the loop's are as they were. *)
Definition ctxs_kept (co : nat) (s s' : SchedulerImpl) : Prop :=
  forall i, i <> co -> i <> sc_main s ->
    co_ctx <$> cp_pool (sc_pool s') !! i = co_ctx <$> cp_pool (sc_pool s) !! i.

(** How a jump into the coroutine enters its code. *)
Definition entry_of (c : Coroutine) : user_entry :=
  match co_ctx c, co_union_ c with None, func_ f => Call f | _, _ => Continue end.

#[global] Instance co_kept_preorder : PreOrder co_kept.
Proof.
  split; unfold co_kept.
  - intros c. by split_and!.
  - intros x y z (? & ? & ? & ? & ? & Hx) (? & ? & ? & ? & ? & Hy). split_and!; try congruence. intros ?. by apply Hy, Hx.
Qed.

#[global] Instance sched_kept_preorder : PreOrder sched_kept.
Proof.
  split; unfold sched_kept.
  - intros s. split_and!; done.
  - intros x y z H1 H2. destruct_and!. split_and!; try congruence. by etrans.
Qed.

(** ** Members of a kept scheduler *)

Lemma sched_kept_co s s' co c :
  sched_kept s s' -> get_co s co = Ok c -> exists c', get_co s' co = Ok c' /\ co_kept c c'.
Proof.
  intros H Hc. assert (Hp : Forall2 co_kept (cp_pool (sc_pool s)) (cp_pool (sc_pool s'))) by apply H.
  unfold get_co in *. destruct (cp_pool (sc_pool s) !! co) as [c0|] eqn:E; [|done]. injection Hc as ->.
  destruct (Forall2_lookup_l _ _ _ _ _ Hp E) as (c' & -> & Hk). eauto.
Qed.

Lemma sched_kept_size s s' : sched_kept s s' -> pool_size s' = pool_size s.
Proof. intros (_ & _ & _ & _ & _ & _ & _ & _ & _ & Hp). symmetry. by eapply Forall2_length. Qed.

Lemma sched_kept_put s co c c' : get_co s co = Ok c -> co_kept c c' -> sched_kept s (put_co s co c').
Proof.
  intros Hc Hk. unfold sched_kept, put_co. cbn. split_and!; try done.
  unfold get_co in Hc. destruct (_ !! co) as [c0|] eqn:E in Hc; [|done]. injection Hc as ->.
  rewrite <- (list_insert_id _ _ _ E) at 1. apply Forall2_insert; [reflexivity|done].
Qed.

Lemma ctxs_kept_put s co i c c' :
  get_co s i = Ok c -> i = co \/ i = sc_main s \/ co_ctx c' = co_ctx c -> ctxs_kept co s (put_co s i c').
Proof.
  intros Hi Hor j Hj Hm. unfold put_co. cbn. destruct (decide (i = j)) as [<-|Hne]; [|by rewrite list_lookup_insert_ne].
  rewrite list_lookup_insert_eq by (by eapply get_co_lt). unfold get_co in Hi.
  destruct (cp_pool (sc_pool s) !! i); [|done]. injection Hi as ->. cbn. destruct Hor as [?|[?|E]]; [done..|by rewrite E].
Qed.

Lemma ctxs_kept_trans co s1 s2 s3 :
  sc_main s2 = sc_main s1 -> ctxs_kept co s1 s2 -> ctxs_kept co s2 s3 -> ctxs_kept co s1 s3.
Proof. intros Hm H1 H2 i Hi Hj. rewrite H2 by congruence. by apply H1. Qed.

Lemma Stream_append_SIZE s data len : fb_SIZE (Stream_append s data len) = fb_SIZE s.
Proof. unfold Stream_append, FixedBuffer_append. by destruct (_ <? _). Qed.

Section switching.
Context {K U : Type} `{EpollKernel K} (malloc : nat -> Z) (entry end_ main_func main_ctx : Z).
Context (user : sworld K U -> nat -> user_entry -> outcome (sworld K U * user_exit)).

(** The region that switching may write to. *)
Context (stack_size : Z) (scratch : Z -> Prop).
Context (Hsize : 128 <= stack_size)
  (Hmalloc : forall i x, malloc i <= x < malloc i + stack_size + kSmallBuffer -> scratch x).

Abbreviation resume := (SchedulerImpl_Resume malloc entry end_ main_func main_ctx user).
Abbreviation prepare := (SchedulerImpl_Resume_prepare (K := K) (U := U) malloc entry end_ main_func).

(** Restoring a stack from this context writes to scratch memory only. *)
Definition ctx_placed (ctx : Z) : Prop := forall x, ctx <= x < ctx + kSmallBuffer -> scratch x.

(** A stack has no memory yet or one that [malloc] has given. *)
Definition stack_placed (st : Stack) : Prop :=
  (st_p st = None /\ st_top st = 0) \/
  exists i, st_p st = Some (malloc i) /\ st_top st = malloc i + stack_size.

(** Every coroutine but the loop's is parked in scratch memory. *)
Definition co_placed (main co : nat) (c : Coroutine) : Prop :=
  fb_SIZE (co_stack c) = kSmallBuffer /\
  (co <> main -> forall ctx, co_ctx c = Some ctx -> ctx_placed ctx).

Definition sound (s : SchedulerImpl) : Prop :=
  sched_ok s /\ sc_stack_size s = stack_size /\ Forall stack_placed (sc_stacks s) /\
  forall co c, get_co s co = Ok c -> co_placed (sc_main s) co c.

(** What the code outside of the coroutine leaves alone. *)
Definition kept (w w' : sworld K U) : Prop :=
  sched_kept (sw_sched w) (sw_sched w') /\ (forall x, ~ scratch x -> sw_mem w' x = sw_mem w x) /\
  sw_ev w' = sw_ev w /\ sw_clock w' = sw_clock w /\ sw_ctxs w' = sw_ctxs w /\ sw_user w' = sw_user w.

#[global] Instance kept_preorder : PreOrder kept.
Proof.
  split.
  - intros w. split_and!; done.
  - intros x y z (H1 & Hm1 & H2) (H3 & Hm2 & H4). destruct_and!. split_and!; try congruence; [by etrans|].
    intros a Ha. by rewrite Hm2, Hm1.
Qed.

(** ** Lemmas: soundness of changed schedulers *)

Lemma sound_put s co c c' :
  sound s -> get_co s co = Ok c -> co_ok c' -> co_placed (sc_main s) co c' -> sound (put_co s co c').
Proof.
  intros (Hs & Hz & Hst & Hp) Hc Hok Hpl. split; [by apply put_co_ok|]. split; [done|]. split; [done|].
  intros i ci Hi. destruct (decide (co = i)) as [<-|Hne].
  - rewrite get_put_co in Hi by (by eapply get_co_lt). by injection Hi as <-.
  - rewrite get_put_co_ne in Hi by done. by apply Hp.
Qed.

Lemma sound_put_stack s i st : sound s -> owner_ok s st -> stack_placed st -> sound (put_stack s i st).
Proof.
  intros (Hs & Hz & Hst & Hp) Ho Hpl. split; [by apply put_stack_ok|]. split; [done|]. split; [|done].
  by apply Forall_insert.
Qed.

Lemma sound_co s co c : sound s -> get_co s co = Ok c -> co_ok c /\ co_placed (sc_main s) co c.
Proof.
  intros (Hs & _ & _ & Hp) Hc. split; [|by apply Hp].
  destruct (get_co_ok s co Hs (get_co_lt _ _ _ Hc)) as (c0 & E & Hok). rewrite E in Hc. by injection Hc as <-.
Qed.

Lemma sound_stack s c : sound s -> co_ok c ->
  exists st, get_stack s (co_stack_id c) = Ok st /\ owner_ok s st /\ stack_placed st.
Proof.
  intros (Hs & _ & Hst & _) Hc. destruct (get_stack_ok s c Hs Hc) as (st & E & Ho). exists st. split_and!; try done.
  unfold get_stack in E. destruct (_ !! _) as [st'|] eqn:El in E; [|done]. injection E as ->. by eapply Forall_lookup_1.
Qed.

Lemma context_placed i : ctx_placed (context_of (malloc i) stack_size).
Proof.
  intros x Hx. apply (Hmalloc i). unfold context_of in Hx. pose proof (Z.mul_div_le (malloc i + stack_size) 16).
  pose proof (Z.mul_succ_div_gt (malloc i + stack_size) 16). lia.
Qed.

Lemma made_context_outside m ctx x :
  ctx_placed ctx -> ~ scratch x -> made_context entry end_ m ctx main_func x = m x.
Proof.
  intros Hp Hx. assert (Hout : x < ctx \/ ctx + 56 <= x).
  { destruct (decide (x < ctx)); [by left|]. destruct (decide (ctx + 56 <= x)); [by right|].
    exfalso. apply Hx, Hp. unfold kSmallBuffer. lia. }
  unfold made_context. rewrite !store64_outside by lia. done.
Qed.

Lemma restore_outside m ctx c main co x :
  ctx_placed ctx -> co_placed main co c -> ~ scratch x ->
  write_bytes m ctx (take (Z.to_nat (Stream_size (co_stack c))) (Stream_data (co_stack c))) x = m x.
Proof.
  intros Hp [Hsz _] Hx. apply write_bytes_outside. unfold Stream_size, FixedBuffer_size. rewrite Hsz, length_take.
  destruct (decide (x < ctx)); [by left|]. right.
  destruct (decide (ctx + kSmallBuffer <= x)); [lia|]. exfalso. apply Hx, Hp. lia.
Qed.

Lemma SaveStack_sound s m owner :
  sound s -> (forall o, owner = Some o -> (o < pool_size s)%nat) ->
  exists s', SchedulerImpl_SaveStack s m owner = Ok s' /\ sound s' /\ sched_kept s s' /\
    sc_running s' = sc_running s /\ cp_idle (sc_pool s') = cp_idle (sc_pool s) /\ (forall co, ctxs_kept co s s') /\
    forall co, owner <> Some co -> get_co s' co = get_co s co.
Proof.
  intros Hs Ho. destruct owner as [o|]; [|by exists s]. unfold SchedulerImpl_SaveStack.
  destruct (get_co_ok s o (proj1 Hs) (Ho o eq_refl)) as (c & Hc & Hok). rewrite Hc. cbn [obind].
  destruct (sound_stack s c Hs Hok) as (st & -> & _). cbn [obind]. eexists. split; [reflexivity|].
  destruct (sound_co s o c Hs Hc) as [_ [Hsz Hpl]]. split_and!; try done.
  - eapply sound_put; try done. split; [|exact Hpl]. cbn [set_co_stack co_stack]. by rewrite Stream_append_SIZE.
  - eapply sched_kept_put; [done|]. split_and!; try done. cbn [set_co_stack co_stack]. by rewrite Stream_append_SIZE.
  - intros co. eapply ctxs_kept_put; [done|]. by right; right.
  - intros co Hne. apply get_put_co_ne. congruence.
Qed.

(** ** Lemmas: the three parts of a switch *)

(** Taking memory for the stack, if it has none. *)
Lemma stack_allocated (w : sworld K U) co c st st' w1 :
  sound (sw_sched w) -> get_stack (sw_sched w) (co_stack_id c) = Ok st -> (co < pool_size (sw_sched w))%nat ->
  owner_ok (sw_sched w) st -> stack_placed st ->
  (match st_p st with
   | None => let p := malloc (sw_mallocs w) in
       (mkStack (Some p) (p + sc_stack_size (sw_sched w)) (Some co), set_sw_mallocs w (S (sw_mallocs w)))
   | Some _ => (st, w)
   end) = (st', w1) ->
  owner_ok (sw_sched w) st' /\ stack_placed st' /\ (exists i, st_p st' = Some (malloc i)) /\
  sw_mem w1 = sw_mem w /\ sw_ev w1 = sw_ev w /\ sw_clock w1 = sw_clock w /\ sw_ctxs w1 = sw_ctxs w /\
  sw_user w1 = sw_user w.
Proof.
  intros (_ & Hz & _) Hst Hlt Ho Hp E. destruct (st_p st) as [p|] eqn:Ep; injection E as <- <-.
  - split_and!; try done. destruct Hp as [[? _]|(i & Hi & _)]; [congruence|]. exists i. congruence.
  - cbn. rewrite Hz. split_and!; try done; [intros x [= <-]; done| |by eexists].
    right. exists (sw_mallocs w). done.
Qed.

(** The part before the jump. *)
Lemma prepare_switch (w : sworld K U) co c :
  sound (sw_sched w) -> co <> sc_main (sw_sched w) -> get_co (sw_sched w) co = Ok c ->
  exists w1, prepare w co = Ok (w1, negb (bool_decide (is_Some (co_ctx c)))) /\ kept w w1 /\ sound (sw_sched w1) /\
    sc_running (sw_sched w1) = Some co /\ cp_idle (sc_pool (sw_sched w1)) = cp_idle (sc_pool (sw_sched w)) /\
    ctxs_kept co (sw_sched w) (sw_sched w1) /\
    exists c1, get_co (sw_sched w1) co = Ok c1 /\ co_kept c c1 /\ is_Some (co_ctx c1).
Proof.
  intros Hs Hmain Hc. pose proof (get_co_lt _ _ _ Hc) as Hlt. destruct (sound_co _ _ _ Hs Hc) as [Hok Hpl].
  destruct (sound_stack _ c Hs Hok) as (st & Hst & Ho & Hp). unfold SchedulerImpl_Resume_prepare.
  rewrite Hc. cbn [obind]. rewrite Hst. cbn [obind].
  destruct (match st_p st with Some _ => (st, w) | None => _ end) as [st' w0] eqn:E.
  destruct (stack_allocated w co c st st' w0 Hs Hst Hlt Ho Hp E) as (Ho' & Hp' & (i & Hpi) & Hm & Hev & Hck & Hcx & Hu).
  set (s1 := set_sc_running (sw_sched w) (Some co)).
  assert (Hs1 : sound (put_stack s1 (co_stack_id c) st')) by (by apply sound_put_stack).
  assert (Hc1 : get_co (put_stack s1 (co_stack_id c) st') co = Ok c) by exact Hc.
  set (mine := bool_decide (st_co st' = Some co)). set (s2 := put_stack s1 _ _) in *.
  assert (Hsv : exists s3, (if mine then Ok s2 else SchedulerImpl_SaveStack s2 (sw_mem w0) (st_co st')) = Ok s3 /\
      sound s3 /\ sched_kept (sw_sched w) s3 /\ sc_running s3 = Some co /\
      cp_idle (sc_pool s3) = cp_idle (sc_pool (sw_sched w)) /\ ctxs_kept co (sw_sched w) s3 /\ get_co s3 co = Ok c).
  { unfold mine. case_bool_decide as Eo; [by exists s2|].
    destruct (SaveStack_sound s2 (sw_mem w0) (st_co st') Hs1) as (s3 & -> & Hs3 & Hk & Hr & Hi & Hcx3 & Hco); [exact Ho'|].
    exists s3. split_and!; try done; [by apply Hcx3|by rewrite Hco]. }
  destruct Hsv as (s3 & -> & Hs3 & Hk3 & Hr3 & Hi3 & Hx3 & Hc3). cbn [obind]. rewrite Hpi. cbn [from_option id].
  set (s4 := if mine then s3 else put_stack s3 (co_stack_id c) (mkStack (Some (malloc i)) (st_top st') (Some co))).
  assert (Hs4 : sound s4 /\ sched_kept (sw_sched w) s4 /\ sc_running s4 = Some co /\
      cp_idle (sc_pool s4) = cp_idle (sc_pool (sw_sched w)) /\ ctxs_kept co (sw_sched w) s4 /\ get_co s4 co = Ok c).
  { unfold s4. destruct mine; [done|]. split_and!; try done. apply sound_put_stack; [done| |].
    - intros x [= <-]. by eapply get_co_lt.
    - destruct Hp' as [[? _]|(j & Hj & Ht)]; [congruence|]. right. exists j. cbn. split; [congruence|done]. }
  destruct Hs4 as (Hs4 & Hk4 & Hr4 & Hi4 & Hx4 & Hc4). destruct (co_ctx c) as [ctx|] eqn:Ectx.
  - eexists. split; [reflexivity|]. cbn [sw_sched set_sw_sched]. split_and!; try done; [|by exists c; rewrite Ectx].
    destruct mine; unfold kept; cbn [set_sw_sched set_sw_mem sw_sched sw_mem sw_ev sw_clock sw_ctxs sw_user]; split_and!; try done;
      intros x Hx; rewrite ?Hm; [done|]. eapply restore_outside; [|exact Hpl|exact Hx]. by apply Hpl.
  - assert (Hz : sc_stack_size s4 = stack_size) by apply Hs4. rewrite Hz.
    assert (Hkc : co_kept c (set_co_ctx c (Some (context_of (malloc i) stack_size)))) by done.
    eexists. split; [reflexivity|]. cbn [sw_sched set_sw_sched set_sw_mem]. split_and!; try done.
    + unfold kept. cbn. split_and!; try done; [etrans; [exact Hk4|by eapply sched_kept_put]|].
      intros x Hx. rewrite made_context_outside by (done || apply context_placed). by rewrite Hm.
    + eapply sound_put; [done|exact Hc4|split; [apply Hok|done]|]. split; [apply Hpl|]. intros _ ? [= <-]. apply context_placed.
    + eapply ctxs_kept_trans; [apply Hk4|exact Hx4|]. eapply ctxs_kept_put; [exact Hc4|by left].
    + rewrite get_put_co by (by eapply get_co_lt). eexists. split; [done|]. split; [exact Hkc|by eexists].
Qed.

(** A switch as a whole: what runs before the coroutine's code, which code that is, and
    how the rest depends on it. *)
Lemma resume_switch (w : sworld K U) co c :
  sound (sw_sched w) -> co <> sc_main (sw_sched w) -> get_co (sw_sched w) co = Ok c ->
  exists w1, kept w w1 /\ sound (sw_sched w1) /\ sc_running (sw_sched w1) = Some co /\
    cp_idle (sc_pool (sw_sched w1)) = cp_idle (sc_pool (sw_sched w)) /\
    ctxs_kept co (sw_sched w) (sw_sched w1) /\
    (exists c1, get_co (sw_sched w1) co = Ok c1 /\ co_kept c c1 /\ is_Some (co_ctx c1)) /\
    resume w co = let* (w2, x) := user w1 co (entry_of c) in SchedulerImpl_Resume_finish w2 x.
Proof.
  intros Hs Hmain Hc. destruct (prepare_switch w co c Hs Hmain Hc) as (w0 & Ep & Hk & Hs0 & Hr0 & Hi0 & Hcx0 & c0 & Hc0 & Hkc & Hx).
  destruct (sound_co _ _ _ Hs Hc) as [[_ Hf] _]. set (w1 := set_sw_resumed w0 (sw_resumed w0 ++ [co])).
  unfold SchedulerImpl_Resume. rewrite Ep. cbn [obind]. fold w1. unfold entry_of.
  destruct (co_ctx c) as [ctx|] eqn:Ectx.
  - exists w1. split_and!; try done. by exists c0.
  - destruct (Hf eq_refl) as [f Ef]. rewrite Ef.
    assert (Hm0 : sc_main (sw_sched w0) = sc_main (sw_sched w)) by apply Hk.
    destruct (get_co_ok (sw_sched w0) (sc_main (sw_sched w0)) (proj1 Hs0)) as (cm & Hcm & Hokm); [apply Hs0|].
    set (s2 := put_co (sw_sched w0) (sc_main (sw_sched w0)) (set_co_ctx cm (Some main_ctx))).
    assert (Hcur : get_co s2 co = Ok c0) by (unfold s2; rewrite get_put_co_ne by congruence; exact Hc0).
    exists (set_sw_sched w1 s2). unfold SchedulerImpl_MainFunc. cbn [w1 set_sw_resumed sw_sched]. rewrite Hcm. cbn [obind].
    fold s2. unfold get_running. replace (sc_running s2) with (Some co) by done. cbn [obind]. rewrite Hcur. cbn [obind].
    assert (Eu : get_co_func c0 = Ok f).
    { unfold get_co_func. destruct Hkc as (_ & _ & _ & -> & _). by rewrite Ef. }
    rewrite Eu. cbn [obind]. split_and!; try done.
    + etrans; [exact Hk|]. split_and!; try done. by eapply sched_kept_put.
    + eapply sound_put; [done|exact Hcm|split; [apply Hokm|done]|]. destruct (sound_co _ _ _ Hs0 Hcm) as [_ [? _]].
      by split.
    + eapply ctxs_kept_trans; [apply Hk|exact Hcx0|]. eapply ctxs_kept_put; [exact Hcm|by right; left].
    + by exists c0.
Qed.

(** The part after a jump back that comes from a [Yield]. *)
Lemma finish_yielded (w : sworld K U) co c ctx :
  sound (sw_sched w) -> sc_running (sw_sched w) = Some co -> get_co (sw_sched w) co = Ok c -> ctx_placed ctx ->
  exists w', SchedulerImpl_Resume_finish w (Yielded ctx) = Ok w' /\ kept w w' /\ sound (sw_sched w') /\
    cp_idle (sc_pool (sw_sched w')) = cp_idle (sc_pool (sw_sched w)) /\ ctxs_kept co (sw_sched w) (sw_sched w').
Proof.
  intros Hs Hr Hc Hp. cbn [SchedulerImpl_Resume_finish]. unfold get_running. rewrite Hr. cbn [obind]. rewrite Hc. cbn [obind].
  destruct (sound_co _ _ _ Hs Hc) as [[? ?] [Hsz _]]. eexists. split; [reflexivity|]. unfold kept. split_and!; try done.
  - eapply sched_kept_put; [done|]. unfold co_kept. by split_and!.
  - eapply sound_put; [done|done|split; done|]. split; [done|]. intros _ ? [= <-]. exact Hp.
  - eapply ctxs_kept_put; [exact Hc|by left].
Qed.

(** The part after the end of a coroutine's function: the coroutine is idle. *)
Lemma finish_returned (w : sworld K U) co c :
  sound (sw_sched w) -> sc_running (sw_sched w) = Some co -> get_co (sw_sched w) co = Ok c ->
  co <> sc_main (sw_sched w) ->
  exists w', SchedulerImpl_Resume_finish w Finished = Ok w' /\ kept w w' /\ sound (sw_sched w') /\
    sc_pool (sw_sched w') = Copoll_Push (sc_pool (sw_sched w)) c.
Proof.
  intros Hs Hr Hc Hm. cbn [SchedulerImpl_Resume_finish]. unfold SchedulerImpl_Recycle, get_running. rewrite Hr. cbn [obind].
  rewrite (proj2 (Nat.eqb_neq _ _) Hm), Hc. cbn [obind].
  destruct (sound_co _ _ _ Hs Hc) as [Hok _]. destruct (sound_stack _ c Hs Hok) as (st & -> & Ho & Hp). cbn [obind].
  eexists. split; [reflexivity|].
  pose proof (sound_put_stack _ (co_stack_id c) (mkStack (st_p st) (st_top st) None) Hs ltac:(done) Hp) as H2.
  unfold kept. split_and!; done.
Qed.
End switching.

(** ** A pass over the ready queue *)

(** What user code notes of itself: which coroutine it ran in, how it was entered and how
    it left. *)
Abbreviation run_log := (list (nat * user_entry * user_exit)).

Definition co_face (c : Coroutine) : Z * option Z := (co_id c, co_ctx c).

(** What is left in the pool: the ids of the coroutines that have finished. *)
Definition finished_ids (s : SchedulerImpl) (runs : run_log) : list Z :=
  omap (fun '(co, _, x) => match x with
                           | Finished => co_id <$> cp_pool (sc_pool s) !! co
                           | Yielded _ => None
                           end) runs.

Section passes.
Context {K : Type} `{EpollKernel K}.
Context (malloc : nat -> Z) (entry end_ main_func main_ctx : Z).
Context (user : sworld K run_log -> nat -> user_entry -> outcome (sworld K run_log * user_exit)).
Context (stack_size : Z) (scratch : Z -> Prop).

Abbreviation sound_sched := (sound malloc stack_size scratch).

(** User code gives a result and notes how it was entered and how it leaves. Whatever else
    it does, it stays in its coroutine, leaves the scheduler sound and the ids, contexts and
    idle list alone, and jumps away from the shared stacks only. *)
Definition user_logs : Prop :=
  forall w co e, sound_sched (sw_sched w) -> sc_running (sw_sched w) = Some co -> co <> sc_main (sw_sched w) ->
  exists w2 x, user w co e = Ok (w2, x) /\ sw_user w2 = sw_user w ++ [(co, e, x)] /\
    sound_sched (sw_sched w2) /\ sc_running (sw_sched w2) = Some co /\ sc_main (sw_sched w2) = sc_main (sw_sched w) /\
    cp_idle (sc_pool (sw_sched w2)) = cp_idle (sc_pool (sw_sched w)) /\
    (forall i, co_face <$> cp_pool (sc_pool (sw_sched w2)) !! i = co_face <$> cp_pool (sc_pool (sw_sched w)) !! i) /\
    forall ctx, x = Yielded ctx -> ctx_placed scratch ctx.

(** A ready coroutine: one of the pool that has run before, not the loop's own. *)
Definition parked (s : SchedulerImpl) (co : nat) : Prop :=
  co <> sc_main s /\ exists c, get_co s co = Ok c /\ is_Some (co_ctx c).

(** What resuming [co], which leaves by [x], comes to. *)
Definition resumed (co : nat) (x : user_exit) (w w' : sworld K run_log) : Prop :=
  sound_sched (sw_sched w') /\ sc_main (sw_sched w') = sc_main (sw_sched w) /\
  sw_user w' = sw_user w ++ [(co, Continue, x)] /\
  cp_idle (sc_pool (sw_sched w')) = cp_idle (sc_pool (sw_sched w)) ++ finished_ids (sw_sched w) [(co, Continue, x)] /\
  (forall i, co_id <$> cp_pool (sc_pool (sw_sched w')) !! i = co_id <$> cp_pool (sc_pool (sw_sched w)) !! i) /\
  (forall i, i <> co -> i <> sc_main (sw_sched w) ->
     co_ctx <$> cp_pool (sc_pool (sw_sched w')) !! i = co_ctx <$> cp_pool (sc_pool (sw_sched w)) !! i) /\
  exists c', get_co (sw_sched w') co = Ok c' /\
    match x with Yielded ctx => co_ctx c' = Some ctx | Finished => is_Some (co_ctx c') end.

Lemma sched_kept_ids s s' i :
  sched_kept s s' -> co_id <$> cp_pool (sc_pool s') !! i = co_id <$> cp_pool (sc_pool s) !! i.
Proof.
  intros (_ & _ & _ & _ & _ & _ & _ & _ & _ & Hp).
  destruct (cp_pool (sc_pool s) !! i) as [c|] eqn:E.
  - destruct (Forall2_lookup_l _ _ _ _ _ Hp E) as (c' & -> & Hk). cbn. f_equal. apply Hk.
  - assert (Hl : cp_pool (sc_pool s') !! i = None); [|by rewrite Hl].
    apply lookup_ge_None. rewrite <- (Forall2_length _ _ _ Hp). by apply lookup_ge_None.
Qed.

Lemma face_id (l l' : list Coroutine) i :
  co_face <$> l' !! i = co_face <$> l !! i ->
  co_id <$> l' !! i = co_id <$> l !! i /\ co_ctx <$> l' !! i = co_ctx <$> l !! i.
Proof. destruct (l' !! i), (l !! i); cbn; try done. by intros [= -> ->]. Qed.

Lemma get_co_pool s co c : get_co s co = Ok c <-> cp_pool (sc_pool s) !! co = Some c.
Proof. unfold get_co. destruct (_ !! co); split; by intros [= <-]. Qed.

Lemma finished_ids_kept s s' runs :
  (forall i, co_id <$> cp_pool (sc_pool s') !! i = co_id <$> cp_pool (sc_pool s) !! i) ->
  finished_ids s' runs = finished_ids s runs.
Proof.
  intros Hk. unfold finished_ids. induction runs as [|[[co e] [ctx|]] runs IH]; cbn; [done|done|].
  rewrite Hk. by destruct (co_id <$> _); rewrite IH.
Qed.

Lemma finished_ids_app s r1 r2 : finished_ids s (r1 ++ r2) = finished_ids s r1 ++ finished_ids s r2.
Proof. unfold finished_ids. apply omap_app. Qed.

Context (Hsize : 128 <= stack_size)
  (Hmalloc : forall i x, malloc i <= x < malloc i + stack_size + kSmallBuffer -> scratch x).

Lemma resume_parked (w : sworld K run_log) co :
  user_logs -> sound_sched (sw_sched w) -> parked (sw_sched w) co ->
  exists w' x, SchedulerImpl_Resume malloc entry end_ main_func main_ctx user w co = Ok w' /\ resumed co x w w'.
Proof.
  intros Hu Hs (Hm & c & Hc & Hx).
  destruct (resume_switch malloc entry end_ main_func main_ctx user stack_size scratch Hsize Hmalloc w co c Hs Hm Hc)
    as (w1 & Hk & Hs1 & Hr1 & Hi1 & Hcx1 & (c1 & Hc1 & Hkc & Hx1) & ->).
  assert (Hent : entry_of c = Continue) by (unfold entry_of; by destruct Hx as [ctx ->]). rewrite Hent.
  assert (Hm1 : sc_main (sw_sched w1) = sc_main (sw_sched w)) by apply Hk.
  destruct (Hu w1 co Continue Hs1 Hr1 ltac:(congruence)) as (w2 & x & -> & Hlog & Hs2 & Hr2 & Hm2 & Hi2 & Hf2 & Hp2). cbn [obind].
  assert (Hlog2 : sw_user w2 = sw_user w ++ [(co, Continue, x)]).
  { rewrite Hlog. f_equal. apply Hk. }
  assert (Hids : forall i, co_id <$> cp_pool (sc_pool (sw_sched w2)) !! i = co_id <$> cp_pool (sc_pool (sw_sched w)) !! i).
  { intros i. rewrite (proj1 (face_id _ _ _ (Hf2 i))). apply sched_kept_ids, Hk. }
  assert (Hctx : forall i, i <> co -> i <> sc_main (sw_sched w) ->
            co_ctx <$> cp_pool (sc_pool (sw_sched w2)) !! i = co_ctx <$> cp_pool (sc_pool (sw_sched w)) !! i).
  { intros i Hi Him. rewrite (proj2 (face_id _ _ _ (Hf2 i))). by apply Hcx1. }
  apply get_co_pool in Hc1. pose proof (Hf2 co) as Hf2co. rewrite Hc1 in Hf2co.
  destruct (cp_pool (sc_pool (sw_sched w2)) !! co) as [c2|] eqn:Hc2; [|done]. injection Hf2co as Eid2 Ectx2.
  destruct x as [ctx|].
  - destruct (finish_yielded malloc stack_size scratch w2 co c2 ctx Hs2 Hr2) as (w' & E & Hk' & Hs' & Hi' & Hcx');
      [by apply get_co_pool|by apply Hp2|].
    exists w', (Yielded ctx). split; [done|]. split; [done|]. split; [rewrite <- Hm1, <- Hm2; apply Hk'|].
    split; [rewrite <- Hlog2; apply Hk'|]. split; [cbn; rewrite app_nil_r; congruence|].
    split; [intros i; rewrite <- Hids; apply sched_kept_ids, Hk'|].
    split; [intros i Hi Him; rewrite <- Hctx by done; apply Hcx'; congruence|].
    cbn [SchedulerImpl_Resume_finish] in E. unfold get_running in E. rewrite Hr2 in E. cbn [obind] in E.
    apply obind_Ok in E as (c0 & E0 & [= <-]). cbn [sw_sched set_sw_sched].
    exists (set_co_ctx c0 (Some ctx)). split; [|done]. apply get_put_co. by eapply get_co_lt.
  - destruct (finish_returned malloc stack_size scratch w2 co c2 Hs2 Hr2) as (w' & E & Hk' & Hs' & Hp');
      [by apply get_co_pool|congruence|].
    exists w', Finished. split; [done|]. split; [done|]. split; [rewrite <- Hm1, <- Hm2; apply Hk'|].
    split; [rewrite <- Hlog2; apply Hk'|]. rewrite Hp'. cbn [Copoll_Push cp_idle cp_pool].
    split; [|split; [done|split; [done|]]].
    + rewrite Hi2, Hi1. f_equal. cbn. rewrite <- Hids, Hc2. done.
    + exists c2. split; [|by rewrite Ectx2]. apply get_co_pool. rewrite Hp'. done.
Qed.

(** What one pass comes to: how the coroutines [q] left. *)
Definition passed (q : list nat) (runs : run_log) (w w' : sworld K run_log) : Prop :=
  runs.*1 = (fun co => (co, Continue)) <$> q /\
  sound_sched (sw_sched w') /\ sw_user w' = sw_user w ++ runs /\
  cp_idle (sc_pool (sw_sched w')) = cp_idle (sc_pool (sw_sched w)) ++ finished_ids (sw_sched w) runs /\
  (forall i, ~ i ∈ q -> i <> sc_main (sw_sched w) ->
     co_ctx <$> cp_pool (sc_pool (sw_sched w')) !! i = co_ctx <$> cp_pool (sc_pool (sw_sched w)) !! i) /\
  (NoDup q -> forall co ctx, (co, Continue, Yielded ctx) ∈ runs ->
     exists c, get_co (sw_sched w') co = Ok c /\ co_ctx c = Some ctx).

Lemma resumed_parked co x w w' i : resumed co x w w' -> parked (sw_sched w) i -> parked (sw_sched w') i.
Proof.
  intros (_ & Hm & _ & _ & _ & Hctx & c' & Hc' & Hx') (Him & c & Hc & Hx). split; [congruence|].
  destruct (decide (i = co)) as [->|Hne]; [exists c'; split; [done|]; by destruct x; [rewrite Hx'|]|].
  specialize (Hctx i Hne Him). apply get_co_pool in Hc. rewrite Hc in Hctx.
  destruct (cp_pool (sc_pool (sw_sched w')) !! i) as [ci|] eqn:Ei; [|done]. injection Hctx as E.
  exists ci. rewrite E. split; [by apply get_co_pool|done].
Qed.

Lemma resume_all_parked q : forall (w : sworld K run_log),
  user_logs -> sound_sched (sw_sched w) -> Forall (parked (sw_sched w)) q ->
  exists w' runs, resume_all malloc entry end_ main_func main_ctx user w q = Ok w' /\ passed q runs w w'.
Proof.
  induction q as [|co q IH]; intros w Hu Hs Hq.
  - exists w, []. split; [done|]. unfold passed, finished_ids. cbn. rewrite !app_nil_r. split_and!; try done.
    intros _ co ctx Hin. by apply elem_of_nil in Hin.
  - apply Forall_cons_1 in Hq as [Hco Hq]. cbn [resume_all].
    destruct (resume_parked w co Hu Hs Hco) as (w1 & x & -> & Hr). cbn [obind].
    destruct (IH w1 Hu) as (w' & runs & -> & Hl & Hs' & Hlog & Hidle & Hctx & Hyield); [apply Hr| |].
    { eapply Forall_impl; [exact Hq|]. intros i. by apply (resumed_parked co x). }
    pose proof Hr as (_ & Hm1 & Hlog1 & Hidle1 & Hids1 & Hctx1 & c' & Hc' & Hx').
    exists w', ((co, Continue, x) :: runs). split; [done|]. split; [cbn; by rewrite Hl|]. split; [done|].
    split; [by rewrite Hlog, Hlog1, <- app_assoc|].
    split. { rewrite Hidle, Hidle1, (finished_ids_kept _ _ runs Hids1), <- app_assoc, <- finished_ids_app. done. }
    split. { intros i Hi Him. apply not_elem_of_cons in Hi as [? ?]. rewrite Hctx by (done || congruence). by apply Hctx1. }
    intros Hnd co' ctx Hin. apply NoDup_cons in Hnd as [Hni Hnd]. apply elem_of_cons in Hin as [[= -> <-]|Hin]; [|by apply Hyield].
    specialize (Hctx co Hni). rewrite Hm1 in Hctx. specialize (Hctx (proj1 Hco)).
    apply get_co_pool in Hc'. rewrite Hc' in Hctx.
    destruct (cp_pool (sc_pool (sw_sched w')) !! co) as [ci|] eqn:Ei; [|done]. injection Hctx as E.
    exists ci. split; [by apply get_co_pool|congruence].
Qed.

(** ** Theorems *)

(** C19: The ready coroutines are all resumed, once each for every time they are queued and
    in this order, in a pass over queues with nothing new to start. User code gives a result
    each time, notes how it was entered and how it left, and leaves the contexts of
    coroutines, the idle list and the scheduler's bookkeeping alone. Then the pass gives a
    result; user code has been entered exactly so: in the queued coroutines, in order, each
    where it had yielded; the coroutines that finished are in the idle list, in order, and no
    others; a coroutine that yielded is parked where it did, if it was queued once; the
    contexts of the coroutines that were not queued are unchanged, and the scheduler is
    sound again. *)
Theorem ready_tasks_resumed_in_order (w : sworld K run_log) :
  user_logs -> sound_sched (sw_sched w) -> new_tasks_ (sc_tasks (sw_sched w)) = [] ->
  Forall (parked (sw_sched w)) (ready_tasks_ (sc_tasks (sw_sched w))) ->
  exists w' runs, Loop_tasks malloc entry end_ main_func main_ctx user w = Ok w' /\
    passed (ready_tasks_ (sc_tasks (sw_sched w))) runs w w'.
Proof.
  intros Hu Hs Hn Hall. unfold Loop_tasks, TaskManager_GetAllTasks. rewrite Hn.
  set (q := ready_tasks_ (sc_tasks (sw_sched w))) in *.
  assert (E : exists tm, (let '(ready_tasks, ready') := match q with [] => ([], []) | _ :: _ => (q, []) end in
            (@nil Closure, ready_tasks, mkTaskManager [] ready')) = ([], q, tm))
    by (destruct q; by eexists).
  destruct E as [tm ->]. cbn [resume_new obind].
  destruct (resume_all_parked q (set_sw_sched w (set_sc_tasks (sw_sched w) tm)) Hu) as (w' & runs & E & Hp);
    [exact Hs|exact Hall|]. by exists w', runs.
Qed.
End passes.

(** ** Witnesses *)

(** Coroutines 0 and 1 are ready; 0 ends and 1 yields again. *)
Definition pass_sched : SchedulerImpl :=
  mkSched 0 1 1000 1000 true (mkEpoll 0 3 0) 2 None
    (mkStack (Some 10000) 11000 (Some 1%nat) :: replicate 7 (mkStack None 0 None))
    (mkCopoll 3 [] [co_sample 0 (Some 10900); co_sample 1 (Some 10800); co_sample 2 (Some 500)])
    (mkTaskManager [] [0%nat; 1%nat]) TimerManager_new false false.
Definition pass_world : sworld epoll_table run_log :=
  mkSW pass_sched (fun x => x mod 256) (mkEvState ∅ ∅) ∅ 0 0 [] [].
Definition pass_exit (co : nat) : user_exit := match co with 0%nat => Finished | _ => Yielded 10700 end.
Definition pass_user (w : sworld epoll_table run_log) (co : nat) (e : user_entry)
  : outcome (sworld epoll_table run_log * user_exit) :=
  Ok (set_sw_user w (sw_user w ++ [(co, e, pass_exit co)]), pass_exit co).
Definition pass_scratch (x : Z) : Prop := 10000 <= x < 20000.

Lemma pass_sound : sound (fun _ => 10000) 1000 pass_scratch pass_sched.
Proof.
  split; [split_and!; [done| | |cbn; lia]|split; [done|split]].
  - constructor; [intros c [= <-]; cbn; lia|]. apply Forall_replicate. done.
  - repeat constructor; try (cbn; lia); intros _; by eexists.
  - constructor; [right; exists 0%nat; done|]. apply Forall_replicate. by left.
  - intros co c Hc. apply get_co_pool in Hc.
    destruct co as [|[|[|co]]]; cbn in Hc; try (by destruct co); injection Hc as <-;
      (split; [done|intros Hne ctx [= <-] x Hx; unfold pass_scratch, kSmallBuffer in *; try lia]).
    by destruct Hne.
Qed.

Lemma pass_user_logs : user_logs (K := epoll_table) (fun _ => 10000) pass_user 1000 pass_scratch.
Proof.
  intros w co e Hs Hr Hm. exists (set_sw_user w (sw_user w ++ [(co, e, pass_exit co)])), (pass_exit co).
  split_and!; try done. intros ctx Hx x Hb. destruct co; [done|]. injection Hx as <-. unfold pass_scratch, kSmallBuffer in *. lia.
Qed.

Lemma ready_tasks_resumed_in_order_witness :
  exists w', Loop_tasks (fun _ => 10000) 1 2 3 4 pass_user pass_world = Ok w' /\
    sw_user w' = [(0%nat, Continue, Finished); (1%nat, Continue, Yielded 10700)] /\
    cp_idle (sc_pool (sw_sched w')) = [0] /\ (exists c, get_co (sw_sched w') 1 = Ok c /\ co_ctx c = Some 10700).
Proof.
  destruct (ready_tasks_resumed_in_order (fun _ => 10000) 1 2 3 4 pass_user 1000 pass_scratch ltac:(lia)
              ltac:(intros i x Hx; unfold pass_scratch, kSmallBuffer in *; lia) pass_world pass_user_logs pass_sound eq_refl)
    as (w' & runs & E & Hl & _ & Hlog & Hidle & _ & Hy).
  { repeat constructor; cbn; try lia; eexists; (split; [reflexivity|by eexists]). }
  assert (Hruns : runs = [(0%nat, Continue, Finished); (1%nat, Continue, Yielded 10700)]).
  { vm_compute in E. injection E as <-. cbn in Hlog. by rewrite Hlog. }
  exists w'. split; [exact E|]. subst runs. split; [exact Hlog|]. split; [exact Hidle|].
  apply Hy; [repeat constructor; set_solver|]. right. by left.
Defined.
