(* ===== verification/Channel.v ===== *)
(** * channel.h and channel.cc: channels between coroutines

    The ring [buf_] is a block of its own, the list of its bytes; the buffers of the
    callers and of the wait contexts lie in the flat memory of [Context.v]. [mutex_] makes
    the locked part of [Read] and of [Write] atomic: each is one function. What a blocked
    caller does after unlocking (publishing its wait context and its scheduler, adding a
    timer, yielding) is [ChannelImpl_block], and what it does when it is resumed is
    [ChannelImpl_Read_resume]. [AddReadyTask] appends to [cw_ready]. *)

From stdpp Require Import base numbers list gmap.
From Stdlib Require Import Lia ZArith.
From S2P Require Import Prelude Atomic Coroutine Context.

(** ** Data *)

Record ChannelImpl : Type := mkChannel {
  ch_buf : list Z;          (* buf_ *)
  ch_buf_size : Z;          (* buf_size_ *)
  ch_blk_size : Z;          (* blk_size_ *)
  ch_rx : Z;                (* rx_ *)
  ch_wx : Z;                (* wx_ *)
  ch_ms : Z;                (* ms_ *)
  ch_full : bool;           (* full_ *)
  ch_queue : list nat       (* wait_queue_ *)
}.

Definition ch_move (ch : ChannelImpl) (buf : list Z) (rx wx : Z) (full : bool) (queue : list nat) : ChannelImpl :=
  mkChannel buf (ch_buf_size ch) (ch_blk_size ch) rx wx (ch_ms ch) full queue.

(** The channel and what it shares with the rest: memory, wait contexts, coroutines, and
    the coroutines made ready, each with the scheduler it was given to. *)
Record ch_world : Type := mkChWorld {
  cw_ch : ChannelImpl;
  cw_m : memory;
  cw_ctx : gmap nat WaitCtx;
  cw_cos : list Coroutine;
  cw_ready : list (Z * nat)
}.

(** The constructor; [junk] is the uninitialised ring. *)
Definition ChannelImpl_new (buf_size blk_size ms : Z) (junk : list Z) : ChannelImpl :=
  mkChannel junk buf_size blk_size 0 0 ms false [].
Definition ChannelImpl_Create := ChannelImpl_new.

(** [Channel<T>(cap, ms)], [sizeof_T] the size of [T]: the arguments of [Create] are
    converted to [uint32]. *)
Definition Channel_new (sizeof_T cap ms : Z) (junk : list Z) : ChannelImpl :=
  ChannelImpl_Create (u32 (cap * sizeof_T)) (u32 sizeof_T) ms junk.

Definition sizeof_WaitCtx : Z := 24.

(** The caller of a blocking operation: the running coroutine, whether the buffer is on
    its stack, the address and the uninitialised state byte of the memory [malloc]
    gives for the wait context, the identity of the shared context, and the scheduler. *)
Record caller : Type := mkCaller {
  cl_co : nat; cl_on_stack : bool; cl_block : Z; cl_junk : Z; cl_wid : nat; cl_sched : Z
}.

(** ** Operations *)

(** The size of the block the context and its buffer share. *)
Definition wait_block_size (ch : ChannelImpl) (cl : caller) : Z :=
  if cl_on_stack cl then sizeof_WaitCtx + ch_blk_size ch else sizeof_WaitCtx.

(** [wait_ctx + sizeof(WaitCtx)] is pointer arithmetic on [WaitCtx*]. *)
Definition wait_buffer (cl : caller) : Z := cl_block cl + sizeof_WaitCtx * sizeof_WaitCtx.

(** A wait context made of what [malloc] gave: [state_] is never assigned. *)
Definition wait_ctx_of (cl : caller) (buf : Z) : WaitCtx :=
  fst (WaitCtx_from_ptr (mkWaitCtx (Some (cl_co cl)) (cl_junk cl) buf)).

(** [CreateWaitCtxInfo(co, buf)]. A buffer on the caller's stack is replaced by one that
    has to lie in the block just allocated. Where it does not, all that is done with it
    (the copies of a writer and of the one that serves a reader) leaves the block; the
    fault is reported here, where the pointer is made. *)
Definition ChannelImpl_CreateWaitCtxInfo (ch : ChannelImpl) (cl : caller) (buf : Z) : outcome WaitCtx :=
  if cl_on_stack cl then
    if wait_buffer cl + ch_blk_size ch <=? cl_block cl + wait_block_size ch cl
    then Ok (wait_ctx_of cl (wait_buffer cl)) else Fault OutOfBounds
  else Ok (wait_ctx_of cl buf).

(** [buf_ + off], one block: reading and writing outside the ring is undefined. *)
Definition ring_read (ch : ChannelImpl) (off : Z) : outcome (list Z) :=
  if (0 <=? off) && (off + ch_blk_size ch <=? ch_buf_size ch)
  then Ok (slice (ch_buf ch) (Z.to_nat off) (Z.to_nat (ch_blk_size ch))) else Fault OutOfBounds.
Definition ring_write (ch : ChannelImpl) (off : Z) (bytes : list Z) : outcome (list Z) :=
  if (0 <=? off) && (off + ch_blk_size ch <=? ch_buf_size ch)
  then Ok (splice (ch_buf ch) (Z.to_nat off) bytes) else Fault OutOfBounds.

(** [x += blk_size_; if (x == buf_size_) x = 0;] *)
Definition ring_next (ch : ChannelImpl) (x : Z) : Z :=
  let x := u32 (x + ch_blk_size ch) in if x =? ch_buf_size ch then 0 else x.

Definition block_at (ch : ChannelImpl) (m : memory) (p : Z) : list Z :=
  read_bytes m p (Z.to_nat (ch_blk_size ch)).

(** The loop that pops waiters until one is still waiting: that one, the rest of the
    queue, and the contexts. *)
Fixpoint pop_live (ctxs : gmap nat WaitCtx) (q : list nat) : outcome (option nat * list nat * gmap nat WaitCtx) :=
  match q with
  | [] => Ok (None, [], ctxs)
  | wid :: q' =>
      match ctxs !! wid with
      | None => Fault NullDereference
      | Some wc =>
          let '(st, old) := atomic_compare_swap uint8 (wc_state wc) kInit kReady in
          let ctxs := <[wid := mkWaitCtx (wc_co wc) st (wc_buf wc)]> ctxs in
          if old =? kInit then Ok (Some wid, q', ctxs) else pop_live ctxs q'
      end
  end.

(** The context behind a shared pointer. *)
Definition get_ctx (ctxs : gmap nat WaitCtx) (wid : nat) : outcome WaitCtx :=
  match ctxs !! wid with Some wc => Ok wc | None => Fault NullDereference end.

(** [wait_co->scheduler_->AddReadyTask(wait_co)]: the coroutine and the scheduler. *)
Definition wake (cos : list Coroutine) (wc : WaitCtx) : outcome (Z * nat) :=
  match wc_co wc with
  | None => Fault NullDereference
  | Some co =>
      match cos !! co with
      | None => Fault NullDereference
      | Some c => let* s := get_co_scheduler c in Ok (s, co)
      end
  end.

(** How the locked part ends: the operation is done, or its caller has to wait. *)
Inductive ch_result : Type := Done | Blocks (wid : nat).

Definition ChannelImpl_Read (w : ch_world) (cl : caller) (p : Z) : outcome (ch_world * ch_result) :=
  let ch := cw_ch w in
  if negb (ch_rx ch =? ch_wx ch) then
    let* b := ring_read ch (ch_rx ch) in
    Ok (mkChWorld (ch_move ch (ch_buf ch) (ring_next ch (ch_rx ch)) (ch_wx ch) (ch_full ch) (ch_queue ch))
          (write_bytes (cw_m w) p b) (cw_ctx w) (cw_cos w) (cw_ready w), Done)
  else if negb (ch_full ch) then
    let* wc := ChannelImpl_CreateWaitCtxInfo ch cl p in
    Ok (mkChWorld (ch_move ch (ch_buf ch) (ch_rx ch) (ch_wx ch) (ch_full ch) (ch_queue ch ++ [cl_wid cl]))
          (cw_m w) (<[cl_wid cl := wc]> (cw_ctx w)) (cw_cos w) (cw_ready w), Blocks (cl_wid cl))
  else
    let* b := ring_read ch (ch_rx ch) in
    let m := write_bytes (cw_m w) p b in
    let rx := ring_next ch (ch_rx ch) in
    let* (found, q, ctxs) := pop_live (cw_ctx w) (ch_queue ch) in
    match found with
    | Some wid =>
        let* wc := get_ctx ctxs wid in
        let* buf := ring_write ch (ch_wx ch) (block_at ch m (wc_buf wc)) in
        let* r := wake (cw_cos w) wc in
        Ok (mkChWorld (ch_move ch buf rx (ring_next ch (ch_wx ch)) (ch_full ch) q) m ctxs (cw_cos w)
              (cw_ready w ++ [r]), Done)
    | None =>
        Ok (mkChWorld (ch_move ch (ch_buf ch) rx (ch_wx ch) false q) m ctxs (cw_cos w) (cw_ready w), Done)
    end.

Definition ChannelImpl_Write (w : ch_world) (cl : caller) (p : Z) : outcome (ch_world * ch_result) :=
  let ch := cw_ch w in
  let store (q : list nat) (ctxs : gmap nat WaitCtx) :=
    let* buf := ring_write ch (ch_wx ch) (block_at ch (cw_m w) p) in
    let wx := ring_next ch (ch_wx ch) in
    Ok (mkChWorld (ch_move ch buf (ch_rx ch) wx (if wx =? ch_rx ch then true else ch_full ch) q)
          (cw_m w) ctxs (cw_cos w) (cw_ready w), Done) in
  if negb (ch_wx ch =? ch_rx ch) then store (ch_queue ch) (cw_ctx w)
  else if negb (ch_full ch) then
    let* (found, q, ctxs) := pop_live (cw_ctx w) (ch_queue ch) in
    match found with
    | Some wid =>
        let* wc := get_ctx ctxs wid in
        let* r := wake (cw_cos w) wc in
        Ok (mkChWorld (ch_move ch (ch_buf ch) (ch_rx ch) (ch_wx ch) (ch_full ch) q)
              (write_bytes (cw_m w) (wc_buf wc) (block_at ch (cw_m w) p)) ctxs (cw_cos w)
              (cw_ready w ++ [r]), Done)
    | None => store q ctxs
    end
  else
    let* wc := ChannelImpl_CreateWaitCtxInfo ch cl p in
    let m := if negb (wc_buf wc =? p) then write_bytes (cw_m w) (wc_buf wc) (block_at ch (cw_m w) p) else cw_m w in
    Ok (mkChWorld (ch_move ch (ch_buf ch) (ch_rx ch) (ch_wx ch) (ch_full ch) (ch_queue ch ++ [cl_wid cl]))
          m (<[cl_wid cl := wc]> (cw_ctx w)) (cw_cos w) (cw_ready w), Blocks (cl_wid cl)).

(** After unlocking: the coroutine publishes its wait context and its scheduler; true
    when it also adds a timer. Then it yields. *)
Definition ChannelImpl_block (w : ch_world) (cl : caller) (wid : nat) : outcome (ch_world * bool) :=
  match cw_cos w !! cl_co cl with
  | None => Fault NullDereference
  | Some c =>
      let c := set_co_scheduler (set_co_wait_ctx c (Some wid)) (cl_sched cl) in
      Ok (mkChWorld (cw_ch w) (cw_m w) (cw_ctx w) (<[cl_co cl := c]> (cw_cos w)) (cw_ready w),
          negb (ch_ms (cw_ch w) =? u32 (-1)))
  end.

(** A reader that is resumed, and not by a timeout, takes its block. *)
Definition ChannelImpl_Read_resume (w : ch_world) (wid : nat) (p : Z) (is_timeout : bool) : outcome memory :=
  let* wc := get_ctx (cw_ctx w) wid in
  if negb is_timeout && negb (wc_buf wc =? p)
  then Ok (write_bytes (cw_m w) p (block_at (cw_ch w) (cw_m w) (wc_buf wc))) else Ok (cw_m w).

(** ** Specification: a bounded queue of blocks *)

(** Block number [i] of the ring, and the [c] blocks from number [r] on. *)
Definition ring_block (ch : ChannelImpl) (i : nat) : list Z :=
  slice (ch_buf ch) (i * Z.to_nat (ch_blk_size ch)) (Z.to_nat (ch_blk_size ch)).
Definition ring_items (ch : ChannelImpl) (n r c : nat) : list (list Z) :=
  map (fun k => ring_block ch ((r + k) mod n)) (seq 0 c).

(** The ring has [n] blocks, [c] of them in use from number [r] on. *)
Definition ring_rep (ch : ChannelImpl) (n r c : nat) : Prop :=
  (1 <= n)%nat /\ 0 < ch_blk_size ch /\ ch_buf_size ch = Z.of_nat n * ch_blk_size ch /\ ch_buf_size ch < 2 ^ 32 /\
  Z.of_nat (length (ch_buf ch)) = ch_buf_size ch /\ (r < n)%nat /\ (c <= n)%nat /\
  ch_rx ch = Z.of_nat r * ch_blk_size ch /\ ch_wx ch = Z.of_nat ((r + c) mod n) * ch_blk_size ch /\
  ch_full ch = Nat.eqb c n.

(** The channel of [n] blocks holds [items], oldest first. *)
Definition chan_rel (ch : ChannelImpl) (n : nat) (items : list (list Z)) : Prop :=
  exists r c, ring_rep ch n r c /\ items = ring_items ch n r c.

(** The first waiter of the queue that has not timed out, with the queue behind it. *)
Fixpoint first_live (ctxs : gmap nat WaitCtx) (q : list nat) : option (nat * list nat) :=
  match q with
  | [] => None
  | wid :: q' =>
      match ctxs !! wid with
      | Some wc => if wc_state wc =? kInit then Some (wid, q') else first_live ctxs q'
      | None => None
      end
  end.

(** Every queued context exists, holds a byte of state, and belongs to a coroutine that
    has published its scheduler. *)
Definition waiter_ok (cos : list Coroutine) (wc : WaitCtx) : Prop :=
  0 <= wc_state wc < 256 /\ exists co c s, wc_co wc = Some co /\ cos !! co = Some c /\ co_union_ c = scheduler_ s.
Definition waiters_ok (w : ch_world) : Prop :=
  Forall (fun wid => exists wc, cw_ctx w !! wid = Some wc /\ waiter_ok (cw_cos w) wc) (ch_queue (cw_ch w)).

(** What [Write(p)] does to a channel of [n] blocks that holds [items]. *)
Inductive write_effect (n : nat) (w : ch_world) (cl : caller) (p : Z)
  : list (list Z) -> ch_world -> ch_result -> list (list Z) -> Prop :=
| WriteStore items w' :
    items <> [] -> (length items < n)%nat ->
    cw_m w' = cw_m w -> cw_ctx w' = cw_ctx w -> cw_cos w' = cw_cos w -> cw_ready w' = cw_ready w ->
    ch_queue (cw_ch w') = ch_queue (cw_ch w) ->
    write_effect n w cl p items w' Done (items ++ [block_at (cw_ch w) (cw_m w) p])
| WriteStoreEmpty w' :
    first_live (cw_ctx w) (ch_queue (cw_ch w)) = None ->
    cw_m w' = cw_m w -> cw_ctx w' = cw_ctx w -> cw_cos w' = cw_cos w -> cw_ready w' = cw_ready w ->
    ch_queue (cw_ch w') = [] ->
    write_effect n w cl p [] w' Done [block_at (cw_ch w) (cw_m w) p]
| WriteHandOver w' wid rest wc s co :
    first_live (cw_ctx w) (ch_queue (cw_ch w)) = Some (wid, rest) ->
    cw_ctx w !! wid = Some wc -> wake (cw_cos w) wc = Ok (s, co) ->
    cw_m w' = write_bytes (cw_m w) (wc_buf wc) (block_at (cw_ch w) (cw_m w) p) ->
    cw_ctx w' = <[wid := mkWaitCtx (wc_co wc) kReady (wc_buf wc)]> (cw_ctx w) -> cw_cos w' = cw_cos w ->
    cw_ready w' = cw_ready w ++ [(s, co)] -> ch_queue (cw_ch w') = rest ->
    write_effect n w cl p [] w' Done []
| WriteBlocks items w' :
    length items = n -> cl_on_stack cl = false ->
    cw_m w' = cw_m w -> cw_ctx w' = <[cl_wid cl := wait_ctx_of cl p]> (cw_ctx w) -> cw_cos w' = cw_cos w -> cw_ready w' = cw_ready w ->
    ch_queue (cw_ch w') = ch_queue (cw_ch w) ++ [cl_wid cl] ->
    write_effect n w cl p items w' (Blocks (cl_wid cl)) items.

(** What [Read(p)] does. *)
Inductive read_effect (n : nat) (w : ch_world) (cl : caller) (p : Z)
  : list (list Z) -> ch_world -> ch_result -> list (list Z) -> Prop :=
| ReadTake b items w' :
    (S (length items) < n)%nat ->
    cw_m w' = write_bytes (cw_m w) p b -> cw_ctx w' = cw_ctx w -> cw_cos w' = cw_cos w ->
    cw_ready w' = cw_ready w -> ch_queue (cw_ch w') = ch_queue (cw_ch w) ->
    read_effect n w cl p (b :: items) w' Done items
| ReadTakeFull b items w' :
    S (length items) = n -> first_live (cw_ctx w) (ch_queue (cw_ch w)) = None ->
    cw_m w' = write_bytes (cw_m w) p b -> cw_ctx w' = cw_ctx w -> cw_cos w' = cw_cos w ->
    cw_ready w' = cw_ready w -> ch_queue (cw_ch w') = [] ->
    read_effect n w cl p (b :: items) w' Done items
| ReadTakeOver b items w' wid rest wc s co :
    S (length items) = n -> first_live (cw_ctx w) (ch_queue (cw_ch w)) = Some (wid, rest) ->
    cw_ctx w !! wid = Some wc -> wake (cw_cos w) wc = Ok (s, co) ->
    cw_m w' = write_bytes (cw_m w) p b ->
    cw_ctx w' = <[wid := mkWaitCtx (wc_co wc) kReady (wc_buf wc)]> (cw_ctx w) -> cw_cos w' = cw_cos w ->
    cw_ready w' = cw_ready w ++ [(s, co)] -> ch_queue (cw_ch w') = rest ->
    read_effect n w cl p (b :: items) w' Done (items ++ [block_at (cw_ch w) (cw_m w') (wc_buf wc)])
| ReadBlocks w' :
    cl_on_stack cl = false ->
    cw_m w' = cw_m w -> cw_ctx w' = <[cl_wid cl := wait_ctx_of cl p]> (cw_ctx w) ->
    cw_cos w' = cw_cos w -> cw_ready w' = cw_ready w ->
    ch_queue (cw_ch w') = ch_queue (cw_ch w) ++ [cl_wid cl] ->
    read_effect n w cl p [] w' (Blocks (cl_wid cl)) [].

(** ** Lemmas: the ring *)

Lemma mod_step (n r c : nat) : (r < n)%nat -> (c <= n)%nat ->
  ((r + c) mod n = if decide (r + c < n) then r + c else r + c - n)%nat.
Proof.
  intros Hr Hc. case_decide.
  - by apply Nat.mod_small.
  - replace (r + c)%nat with (r + c - n + 1 * n)%nat at 1 by lia.
    rewrite Nat.Div0.mod_add. apply Nat.mod_small. lia.
Qed.

Lemma ring_wx_rx ch n r c : ring_rep ch n r c -> (ch_wx ch = ch_rx ch <-> c = 0 \/ c = n)%nat.
Proof.
  intros (Hn & Hb & _ & _ & _ & Hr & Hc & -> & -> & _). rewrite mod_step by done. case_decide; nia.
Qed.

Lemma ring_next_index ch n r c i :
  ring_rep ch n r c -> (i < n)%nat ->
  ring_next ch (Z.of_nat i * ch_blk_size ch) = Z.of_nat (S i mod n) * ch_blk_size ch.
Proof.
  intros (Hn & Hb & Hs & Hlt & _) Hi. unfold ring_next. rewrite uwrap_small by nia. rewrite Hs.
  destruct (Z.eqb_spec (Z.of_nat i * ch_blk_size ch + ch_blk_size ch) (Z.of_nat n * ch_blk_size ch)) as [E|E].
  - assert (S i = n) as <- by nia. rewrite Nat.Div0.mod_same. done.
  - rewrite Nat.mod_small by nia. lia.
Qed.

Lemma ring_in_bounds ch n r c i : ring_rep ch n r c -> (i < n)%nat ->
  (0 <=? Z.of_nat i * ch_blk_size ch) && (Z.of_nat i * ch_blk_size ch + ch_blk_size ch <=? ch_buf_size ch) = true.
Proof. intros (Hn & Hb & -> & _) Hi. apply andb_true_intro; split; apply Z.leb_le; nia. Qed.

Lemma ring_offset ch i : 0 < ch_blk_size ch ->
  Z.to_nat (Z.of_nat i * ch_blk_size ch) = (i * Z.to_nat (ch_blk_size ch))%nat.
Proof. intros H. rewrite Z2Nat.inj_mul, Nat2Z.id by lia. done. Qed.

Lemma length_block_at ch m p : length (block_at ch m p) = Z.to_nat (ch_blk_size ch).
Proof. unfold block_at, read_bytes. by rewrite length_map, length_seq. Qed.

(** Taking the oldest block. *)
Lemma ring_take ch n r c q :
  ring_rep ch n r (S c) ->
  exists b, ring_read ch (ch_rx ch) = Ok b /\ ring_items ch n r (S c) = b :: ring_items ch n (S r mod n) c /\
    ring_rep (ch_move ch (ch_buf ch) (ring_next ch (ch_rx ch)) (ch_wx ch) false q) n (S r mod n) c.
Proof.
  intros Hrep. pose proof Hrep as (Hn & Hb & Hs & Hlt & Hl & Hr & Hc & Hrx & Hwx & Hf).
  exists (ring_block ch r). unfold ring_read. rewrite Hrx, (ring_in_bounds ch n r (S c)), ring_offset by done.
  split; [done|]. split.
  - unfold ring_items. cbn [seq map]. rewrite Nat.add_0_r, Nat.mod_small by done. f_equal.
    rewrite <- seq_shift, map_map. apply map_ext. intros k. f_equal.
    rewrite Nat.Div0.add_mod_idemp_l. f_equal. lia.
  - rewrite (ring_next_index ch n r (S c)) by done. unfold ring_rep. cbn.
    split_and!; try done; try lia.
    + apply Nat.mod_upper_bound. lia.
    + rewrite Hwx. f_equal. f_equal. rewrite Nat.Div0.add_mod_idemp_l. f_equal. lia.
    + symmetry. apply Nat.eqb_neq. lia.
Qed.

(** Storing a block behind the youngest. *)
Lemma ring_put ch n r c q b :
  ring_rep ch n r c -> (c < n)%nat -> length b = Z.to_nat (ch_blk_size ch) ->
  exists buf, ring_write ch (ch_wx ch) b = Ok buf /\
    let ch' := ch_move ch buf (ch_rx ch) (ring_next ch (ch_wx ch)) (Nat.eqb (S c) n) q in
    ring_rep ch' n r (S c) /\ ring_items ch' n r (S c) = ring_items ch n r c ++ [b].
Proof.
  intros Hrep Hcn Hlb. pose proof Hrep as (Hn & Hb & Hs & Hlt & Hl & Hr & Hc & Hrx & Hwx & Hf).
  assert (Hw : ((r + c) mod n < n)%nat) by (apply Nat.mod_upper_bound; lia).
  exists (splice (ch_buf ch) ((r + c) mod n * Z.to_nat (ch_blk_size ch)) b).
  unfold ring_write. rewrite Hwx, (ring_in_bounds ch n r c), ring_offset by done. split; [done|].
  assert (Hfit : ((r + c) mod n * Z.to_nat (ch_blk_size ch) + length b <= length (ch_buf ch))%nat)
    by (rewrite Hlb; nia).
  split.
  - rewrite (ring_next_index ch n r c) by done. unfold ring_rep. cbn [ch_move ch_buf ch_blk_size ch_buf_size ch_rx ch_wx ch_full].
    split_and!; try done; try lia.
    + by rewrite length_splice.
    + f_equal. f_equal. rewrite <- Nat.add_1_l, Nat.Div0.add_mod_idemp_r. f_equal. lia.
  - unfold ring_items. rewrite seq_S, map_app. cbn [map Nat.add]. f_equal.
    + apply map_ext_in. intros k Hk. apply in_seq in Hk. unfold ring_block. cbn [ch_move ch_buf ch_blk_size].
      apply slice_splice_disjoint; [done|]. rewrite Hlb.
      assert ((r + k) mod n <> (r + c) mod n)%nat
        by (rewrite !mod_step by lia; repeat case_decide; lia). nia.
    + unfold ring_block. cbn [ch_move ch_buf ch_blk_size]. 
      pose proof (slice_splice (ch_buf ch) _ b Hfit) as E. by rewrite Hlb in E; rewrite E.
Qed.

(** ** Lemmas: waiters *)

Lemma cas_ready st :
  0 <= st < 256 -> atomic_compare_swap uint8 st kInit kReady = (if st =? kInit then kReady else st, st).
Proof.
  intros H. unfold atomic_compare_swap, compare_exchange_n, cell_load.
  assert (E : cast uint8 st = st) by (apply uwrap_small; change (bits uint8) with 8; lia).
  rewrite E. change (cast uint8 kInit) with kInit.
  destruct (Z.eqb_spec st kInit) as [->|]; reflexivity.
Qed.

Lemma pop_live_spec ctxs q cos :
  Forall (fun wid => exists wc, ctxs !! wid = Some wc /\ waiter_ok cos wc) q ->
  match first_live ctxs q with
  | Some (wid, rest) => exists wc, ctxs !! wid = Some wc /\ wc_state wc = kInit /\ waiter_ok cos wc /\
      pop_live ctxs q = Ok (Some wid, rest, <[wid := mkWaitCtx (wc_co wc) kReady (wc_buf wc)]> ctxs)
  | None => pop_live ctxs q = Ok (None, [], ctxs)
  end.
Proof.
  induction q as [|wid q IH]; intros Hq; [done|]. apply Forall_cons in Hq as [(wc & Hwc & Hok) Hq].
  cbn [first_live pop_live]. rewrite Hwc. rewrite cas_ready by apply Hok.
  destruct (Z.eqb_spec (wc_state wc) kInit) as [E|E].
  - exists wc. done.
  - replace (mkWaitCtx (wc_co wc) (wc_state wc) (wc_buf wc)) with wc by (by destruct wc).
    rewrite insert_id by done. by apply IH.
Qed.

Lemma wake_ok cos wc : waiter_ok cos wc -> exists s co, wake cos wc = Ok (s, co).
Proof.
  intros (_ & co & c & s & Hco & Hc & Hs). unfold wake, get_co_scheduler. rewrite Hco, Hc, Hs. eauto.
Qed.

Lemma length_ring_items ch n r c : length (ring_items ch n r c) = c.
Proof. unfold ring_items. by rewrite length_map, length_seq. Qed.

(** Moving the queue alone keeps the ring. *)
Lemma ring_rep_queue ch n r c q :
  ring_rep ch n r c -> ring_rep (ch_move ch (ch_buf ch) (ch_rx ch) (ch_wx ch) (ch_full ch) q) n r c.
Proof. done. Qed.

Lemma block_at_write ch m p b : length b = Z.to_nat (ch_blk_size ch) -> block_at ch (write_bytes m p b) p = b.
Proof. intros H. unfold block_at. rewrite <- H. apply read_write_bytes. Qed.

Lemma ring_full_after ch n r c :
  ring_rep ch n r c -> (c < n)%nat ->
  (if ring_next ch (ch_wx ch) =? ch_rx ch then true else ch_full ch) = Nat.eqb (S c) n.
Proof.
  intros Hrep Hlt. pose proof Hrep as (Hn & Hb & _ & _ & _ & Hr & Hc & Hrx & Hwx & Hf).
  assert (Hw : ((r + c) mod n < n)%nat) by (apply Nat.mod_upper_bound; lia).
  rewrite Hwx, (ring_next_index ch n r c), Hrx, Hf by done.
  rewrite (proj2 (Nat.eqb_neq c n)) by lia.
  replace (S ((r + c) mod n) mod n)%nat with ((r + S c) mod n)%nat
    by (rewrite <- (Nat.add_1_l ((r + c) mod n)), Nat.Div0.add_mod_idemp_r; f_equal; lia).
  rewrite mod_step by lia.
  destruct (Nat.eqb_spec (S c) n) as [E|E], (Z.eqb_spec (Z.of_nat (if decide (r + S c < n)%nat then r + S c else r + S c - n)%nat * ch_blk_size ch) (Z.of_nat r * ch_blk_size ch)) as [E'|E'];
    try done; exfalso; revert E'; case_decide; nia.
Qed.

(** A buffer on the caller's stack: no wait context can be made. *)
Lemma CreateWaitCtxInfo_on_stack ch cl buf :
  cl_on_stack cl = true -> ChannelImpl_CreateWaitCtxInfo ch cl buf = Fault OutOfBounds.
Proof.
  intros H. unfold ChannelImpl_CreateWaitCtxInfo, wait_block_size, wait_buffer, sizeof_WaitCtx. rewrite H.
  destruct (Z.leb_spec (cl_block cl + 24 * 24 + ch_blk_size ch) (cl_block cl + (24 + ch_blk_size ch))); [lia|done].
Qed.

Lemma CreateWaitCtxInfo_off_stack ch cl buf :
  cl_on_stack cl = false -> ChannelImpl_CreateWaitCtxInfo ch cl buf = Ok (wait_ctx_of cl buf).
Proof. intros H. unfold ChannelImpl_CreateWaitCtxInfo. by rewrite H. Qed.

(** The caller would have to wait with a buffer on its stack. *)
Definition waits_on_stack (blocked : Prop) (cl : caller) {A} (r : outcome A) : Prop :=
  blocked /\ cl_on_stack cl = true /\ r = Fault OutOfBounds.

Lemma Write_cases n w cl p items :
  chan_rel (cw_ch w) n items -> waiters_ok w ->
  waits_on_stack (length items = n) cl (ChannelImpl_Write w cl p) \/
  exists w' res items', ChannelImpl_Write w cl p = Ok (w', res) /\ chan_rel (cw_ch w') n items' /\
    ch_blk_size (cw_ch w') = ch_blk_size (cw_ch w) /\ write_effect n w cl p items w' res items'.
Proof.
  intros (r & c & Hrep & ->) Hwt. pose proof Hrep as (Hn & _ & _ & _ & _ & _ & Hc & _ & _ & Hf).
  pose proof (ring_wx_rx _ _ _ _ Hrep) as Hwr. set (ch := cw_ch w) in *. set (b := block_at ch (cw_m w) p).
  assert (Hput : forall q, (c < n)%nat -> exists buf, ring_write ch (ch_wx ch) b = Ok buf /\
     let ch' := ch_move ch buf (ch_rx ch) (ring_next ch (ch_wx ch))
                  (if ring_next ch (ch_wx ch) =? ch_rx ch then true else ch_full ch) q in
     chan_rel ch' n (ring_items ch n r c ++ [b])).
  { intros q Hlt. rewrite (ring_full_after ch n r c) by done.
    destruct (ring_put ch n r c q b Hrep Hlt) as (buf & E & Hr' & Hi'); [apply length_block_at|].
    exists buf. split; [done|]. exists r, (S c). done. }
  unfold ChannelImpl_Write. fold ch. fold b.
  destruct (Z.eqb_spec (ch_wx ch) (ch_rx ch)) as [E|E]; cbn [negb].
  - assert (Ef : negb (ch_full ch) = negb (Nat.eqb c n)) by congruence. rewrite Ef.
    destruct (Nat.eqb_spec c n) as [->|Hcn]; cbn [negb].
    + destruct (cl_on_stack cl) eqn:Eon.
      { left. rewrite CreateWaitCtxInfo_on_stack by done. split; [apply length_ring_items|done]. }
      right. rewrite CreateWaitCtxInfo_off_stack by done. cbn [obind].
      eexists _, _, (ring_items ch n r n). split; [reflexivity|]. split; [exists r, n; split; [exact Hrep|reflexivity]|]. split; [done|].
      eapply WriteBlocks; try reflexivity; [apply length_ring_items|done|]. cbn. by rewrite Z.eqb_refl.
    + right. assert (c = 0)%nat as -> by (apply Hwr in E as [?|?]; [done|lia]). cbn [ring_items seq map].
      pose proof (pop_live_spec _ _ _ Hwt) as Hpop. fold ch in Hpop.
      destruct (first_live (cw_ctx w) (ch_queue ch)) as [[wid rest]|] eqn:Efl.
      * destruct Hpop as (wc & Hwc & Hst & Hok & ->). cbn [obind].
        unfold get_ctx. rewrite lookup_insert_eq. cbn [obind].
        destruct (wake_ok (cw_cos w) wc Hok) as (s & co & Hwake).
        change (wake (cw_cos w) (mkWaitCtx (wc_co wc) kReady (wc_buf wc))) with (wake (cw_cos w) wc).
        rewrite Hwake. cbn [obind]. eexists _, _, []. split; [reflexivity|]. split; [exists r, 0%nat; split; [exact Hrep|reflexivity]|]. split; [done|].
        eapply WriteHandOver; [exact Efl|exact Hwc|exact Hwake|reflexivity..].
      * rewrite Hpop. cbn [obind]. destruct (Hput [] ltac:(lia)) as (buf & -> & Hrel). cbn [obind].
        eexists _, _, _. split; [reflexivity|]. split; [exact Hrel|]. split; [done|].
        by eapply WriteStoreEmpty.
  - right. assert (Hc' : (0 < c < n)%nat).
    { assert (c <> 0 /\ c <> n)%nat by (split; intros Hx; apply E, Hwr; auto). lia. }
    destruct (Hput (ch_queue ch) ltac:(lia)) as (buf & -> & Hrel). cbn [obind].
    eexists _, _, _. split; [reflexivity|]. split; [exact Hrel|]. split; [done|].
    apply WriteStore; try reflexivity; [|rewrite length_ring_items; lia].
    intros Hx. apply (f_equal length) in Hx. rewrite length_ring_items in Hx. cbn in Hx. lia.
Qed.

Lemma Read_cases n w cl p items :
  chan_rel (cw_ch w) n items -> waiters_ok w ->
  waits_on_stack (items = []) cl (ChannelImpl_Read w cl p) \/
  exists w' res items', ChannelImpl_Read w cl p = Ok (w', res) /\ chan_rel (cw_ch w') n items' /\
    ch_blk_size (cw_ch w') = ch_blk_size (cw_ch w) /\ read_effect n w cl p items w' res items'.
Proof.
  intros (r & c & Hrep & ->) Hwt. pose proof Hrep as (Hn & _ & _ & _ & _ & _ & Hc & _ & _ & Hf).
  pose proof (ring_wx_rx _ _ _ _ Hrep) as Hwr. set (ch := cw_ch w) in *.
  unfold ChannelImpl_Read. fold ch.
  destruct (Z.eqb_spec (ch_rx ch) (ch_wx ch)) as [E|E]; cbn [negb].
  - assert (Ef : negb (ch_full ch) = negb (Nat.eqb c n)) by congruence. rewrite Ef.
    destruct (Nat.eqb_spec c n) as [->|Hcn]; cbn [negb].
    + right. destruct n as [|n']; [lia|].
      destruct (ring_take ch (S n') r n' [] Hrep) as (b & -> & Hit & Hrep'). cbn [obind]. rewrite Hit.
      set (m' := write_bytes (cw_m w) p b). pose proof (pop_live_spec _ _ _ Hwt) as Hpop. fold ch in Hpop.
      destruct (first_live (cw_ctx w) (ch_queue ch)) as [[wid rest]|] eqn:Efl.
      * destruct Hpop as (wc & Hwc & Hst & Hok & ->). cbn [obind].
        unfold get_ctx. rewrite lookup_insert_eq. cbn [obind wc_buf].
        destruct (ring_put _ _ _ _ rest (block_at ch m' (wc_buf wc)) Hrep') as (buf & Hw & Hr2 & Hi2);
          [lia|exact (length_block_at ch m' (wc_buf wc))|].
        assert (Hw' : ring_write ch (ch_wx ch) (block_at ch m' (wc_buf wc)) = Ok buf) by exact Hw. rewrite Hw'.
        cbn [obind].
        destruct (wake_ok (cw_cos w) wc Hok) as (s & co & Hwake).
        change (wake (cw_cos w) (mkWaitCtx (wc_co wc) kReady (wc_buf wc))) with (wake (cw_cos w) wc).
        rewrite Hwake. cbn [obind]. eexists _, _, _. split; [reflexivity|].
        assert (Eb : ch_full ch = Nat.eqb (S n') (S n')) by (rewrite Hf, Nat.eqb_refl; done). rewrite Eb.
        split; [eexists _, _; split; [exact Hr2|symmetry; exact Hi2]|]. split; [done|].
        eapply ReadTakeOver; [by rewrite length_ring_items|exact Efl|exact Hwc|exact Hwake|reflexivity..].
      * rewrite Hpop. cbn [obind]. eexists _, _, _. split; [reflexivity|].
        split; [eexists _, _; split; [exact Hrep'|reflexivity]|]. split; [done|].
        eapply ReadTakeFull; try reflexivity; [by rewrite length_ring_items|done].
    + assert (c = 0)%nat as -> by (symmetry in E; apply Hwr in E as [?|?]; [done|lia]).
      destruct (cl_on_stack cl) eqn:Eon.
      { left. rewrite CreateWaitCtxInfo_on_stack by done. done. }
      right. rewrite CreateWaitCtxInfo_off_stack by done. cbn [obind]. eexists _, _, []. split; [reflexivity|]. split; [exists r, 0%nat; split; [exact Hrep|reflexivity]|].
      split; [done|]. by apply ReadBlocks.
  - right. destruct c as [|c]; [exfalso; apply E; symmetry; apply Hwr; auto|].
    destruct (ring_take ch n r c (ch_queue ch) Hrep) as (b & -> & Hit & Hrep'). cbn [obind]. rewrite Hit.
    assert (Hne : S c <> n) by (intros Hx; apply E; symmetry; apply Hwr; auto).
    eexists _, _, _. split; [reflexivity|].
    assert (Eb : ch_full ch = false) by (rewrite Hf; by apply Nat.eqb_neq). rewrite Eb.
    split; [eexists _, _; split; [exact Hrep'|reflexivity]|]. split; [done|].
    eapply ReadTake; try reflexivity. rewrite length_ring_items. lia.
Qed.

(** ** Sequences of operations

    A caller that blocks publishes its wait context and scheduler before the next
    operation; waiters may time out at any time, as [TimerManager] does it. [logs] records
    the blocks that entered the channel and those handed to readers, in order, and the
    buffers with which the waiting callers made their calls. *)

Inductive ch_op : Type :=
| OpRead (cl : caller) (p : Z)
| OpWrite (cl : caller) (p : Z)
| OpTimeout (wid : nat).

Record ch_logs : Type := mkLogs { lg_in : list (list Z); lg_out : list (list Z); lg_buf : gmap nat Z }.

(** The caller with a fresh identity for its wait context. *)
Definition with_wid (cl : caller) (wid : nat) : caller :=
  mkCaller (cl_co cl) (cl_on_stack cl) (cl_block cl) (cl_junk cl) wid (cl_sched cl).

Definition finish_op (r : outcome (ch_world * ch_result)) (cl : caller) : outcome (ch_world * ch_result) :=
  let* (w, res) := r in
  match res with
  | Done => Ok (w, Done)
  | Blocks wid => let* (w, _) := ChannelImpl_block w cl wid in Ok (w, Blocks wid)
  end.

(** The block in the buffer of the first waiter of [w], as it is in [w']: the buffer of its
    wait context, and the one with which it made its call. *)
Definition handed (w w' : ch_world) : list (list Z) :=
  match first_live (cw_ctx w) (ch_queue (cw_ch w)) with
  | Some (wid, _) =>
      match cw_ctx w !! wid with
      | Some wc => [block_at (cw_ch w) (cw_m w') (wc_buf wc)]
      | None => []
      end
  | None => []
  end.
Definition asked (lg : ch_logs) (w w' : ch_world) : list (list Z) :=
  match first_live (cw_ctx w) (ch_queue (cw_ch w)) with
  | Some (wid, _) =>
      match lg_buf lg !! wid with
      | Some p => [block_at (cw_ch w) (cw_m w') p]
      | None => []
      end
  | None => []
  end.

(** One operation. When a read is done, a block has come out to the reader's buffer, and
    the block of the writer it woke, if any, has gone in; when a write is done, its block
    has gone in, and has come out to the reader it woke, if any. *)
Definition run_op (wid : nat) (w : ch_world) (lg : ch_logs) (op : ch_op) : outcome (ch_world * ch_logs) :=
  match op with
  | OpRead cl p =>
      let* (w', res) := finish_op (ChannelImpl_Read w (with_wid cl wid) p) cl in
      match res with
      | Done => Ok (w', mkLogs (lg_in lg ++ asked lg w w') (lg_out lg ++ [block_at (cw_ch w) (cw_m w') p]) (lg_buf lg))
      | Blocks _ => Ok (w', mkLogs (lg_in lg) (lg_out lg) (<[wid := p]> (lg_buf lg)))
      end
  | OpWrite cl p =>
      let* (w', res) := finish_op (ChannelImpl_Write w (with_wid cl wid) p) cl in
      match res with
      | Done => Ok (w', mkLogs (lg_in lg ++ [block_at (cw_ch w) (cw_m w) p]) (lg_out lg ++ asked lg w w') (lg_buf lg))
      | Blocks _ => Ok (w', mkLogs (lg_in lg) (lg_out lg) (<[wid := p]> (lg_buf lg)))
      end
  | OpTimeout wid =>
      match cw_ctx w !! wid with
      | None => Ok (w, lg)
      | Some wc =>
          let '(st, _) := atomic_compare_swap uint8 (wc_state wc) kInit kTimeout in
          Ok (mkChWorld (cw_ch w) (cw_m w) (<[wid := mkWaitCtx (wc_co wc) st (wc_buf wc)]> (cw_ctx w))
                (cw_cos w) (cw_ready w), lg)
      end
  end.

Fixpoint run_ops (wid : nat) (w : ch_world) (lg : ch_logs) (ops : list ch_op) : outcome (ch_world * ch_logs) :=
  match ops with
  | [] => Ok (w, lg)
  | op :: ops' => let* (w, lg) := run_op wid w lg op in run_ops (S wid) w lg ops'
  end.

Definition op_ok (cos : nat) (op : ch_op) : Prop :=
  match op with
  | OpRead cl _ | OpWrite cl _ => (cl_co cl < cos)%nat /\ 0 <= cl_junk cl < 256 /\ cl_on_stack cl = false
  | OpTimeout _ => True
  end.

(** Every queued context exists and belongs to a coroutine that has published its
    scheduler; identities from [wid] on are unused; states are bytes. *)
Definition ctxs_inv (wid : nat) (ctxs : gmap nat WaitCtx) (cos : list Coroutine) (q : list nat) : Prop :=
  Forall (fun i => exists x, ctxs !! i = Some x /\ waiter_ok cos x) q /\
  (forall i, (wid <= i)%nat -> ctxs !! i = None) /\
  map_Forall (fun _ wc => 0 <= wc_state wc < 256) ctxs.

(** Who waits is served in the buffer with which it made its call. *)
Definition bufs_inv (lg : ch_logs) (w : ch_world) : Prop :=
  Forall (fun i => exists wc, cw_ctx w !! i = Some wc /\ lg_buf lg !! i = Some (wc_buf wc)) (ch_queue (cw_ch w)).

(** The invariant: the ring holds [items], and nobody waits while the channel is neither
    empty nor full. *)
Definition chan_inv (n wid : nat) (w : ch_world) (items : list (list Z)) : Prop :=
  chan_rel (cw_ch w) n items /\ ctxs_inv wid (cw_ctx w) (cw_cos w) (ch_queue (cw_ch w)) /\
  ((0 < length items < n)%nat -> ch_queue (cw_ch w) = []).

(** ** Lemmas: one operation keeps the invariant *)

Lemma chan_items_length ch n items :
  chan_rel ch n items -> Forall (fun b => length b = Z.to_nat (ch_blk_size ch)) items.
Proof.
  intros (r & c & Hrep & ->). pose proof Hrep as (Hn & Hb & Hs & _ & Hl & Hr & Hc & _).
  apply List.Forall_map, List.Forall_forall. intros k Hk. apply length_slice.
  assert ((r + k) mod n < n)%nat by (apply Nat.mod_upper_bound; lia). nia.
Qed.

Lemma first_live_suffix ctxs q wid rest : first_live ctxs q = Some (wid, rest) -> exists pre, q = pre ++ wid :: rest.
Proof.
  induction q as [|i q IH]; cbn; [done|]. destruct (ctxs !! i) as [wc|]; [|done].
  destruct (wc_state wc =? kInit).
  - intros [= -> ->]. by exists [].
  - intros H. destruct (IH H) as [pre ->]. by exists (i :: pre).
Qed.

Lemma first_live_nil ctxs : first_live ctxs [] = None.
Proof. done. Qed.

(** Changing the state of a context to another byte keeps the waiters of a queue. *)
Lemma waiters_update (ctxs : gmap nat WaitCtx) cos q wid wc st :
  ctxs !! wid = Some wc -> 0 <= st < 256 ->
  Forall (fun i => exists x, ctxs !! i = Some x /\ waiter_ok cos x) q ->
  Forall (fun i => exists x, <[wid := mkWaitCtx (wc_co wc) st (wc_buf wc)]> ctxs !! i = Some x /\ waiter_ok cos x) q.
Proof.
  intros Hwc Hst H. eapply Forall_impl; [exact H|]. intros i (x & Hx & Hok). cbn.
  destruct (decide (wid = i)) as [<-|Hne].
  - rewrite lookup_insert_eq. eexists. split; [done|]. rewrite Hwc in Hx. injection Hx as <-.
    destruct Hok as [_ Hok]. split; [exact Hst|exact Hok].
  - rewrite lookup_insert_ne by done. eauto.
Qed.

Lemma ctxs_inv_pop wid ctxs cos q i rest wc :
  ctxs_inv wid ctxs cos q -> first_live ctxs q = Some (i, rest) -> ctxs !! i = Some wc ->
  ctxs_inv (S wid) (<[i := mkWaitCtx (wc_co wc) kReady (wc_buf wc)]> ctxs) cos rest.
Proof.
  intros (Hq & Hfresh & Hb) Hfl Hwc. destruct (first_live_suffix _ _ _ _ Hfl) as [pre ->].
  apply Forall_app in Hq as [_ Hq]. apply Forall_cons in Hq as [_ Hq]. split_and!.
  - apply waiters_update; [done|unfold kReady; lia|done].
  - intros j Hj. rewrite lookup_insert_ne; [apply Hfresh; lia|]. intros ->. rewrite Hfresh in Hwc; [done|lia].
  - apply map_Forall_insert_2; [cbn; unfold kReady; lia|done].
Qed.

Lemma ctxs_inv_mono wid ctxs cos q q' : ctxs_inv wid ctxs cos q -> sublist q' q -> ctxs_inv (S wid) ctxs cos q'.
Proof.
  intros (Hq & Hfresh & Hb) Hs. split_and!; [|intros i Hi; apply Hfresh; lia|done].
  apply Forall_forall. intros i Hi. rewrite Forall_forall in Hq. apply Hq. by eapply elem_of_sublist.
Qed.

Lemma ctxs_inv_block wid ctxs cos q cl p c :
  ctxs_inv wid ctxs cos q -> cos !! cl_co cl = Some c -> 0 <= cl_junk cl < 256 ->
  ctxs_inv (S wid) (<[wid := wait_ctx_of (with_wid cl wid) p]> ctxs)
    (<[cl_co cl := set_co_scheduler (set_co_wait_ctx c (Some wid)) (cl_sched cl)]> cos) (q ++ [wid]).
Proof.
  intros (Hq & Hfresh & Hb) Hc Hj.
  assert (Hcos : forall x, waiter_ok cos x ->
    waiter_ok (<[cl_co cl := set_co_scheduler (set_co_wait_ctx c (Some wid)) (cl_sched cl)]> cos) x).
  { intros x (Hst & co & c' & s & Hco & Hc' & Hs). split; [done|]. destruct (decide (cl_co cl = co)) as [<-|Hne].
    - eexists _, _, _. split; [done|]. rewrite list_lookup_insert_eq by (by eapply lookup_lt_Some). done.
    - exists co, c', s. rewrite list_lookup_insert_ne by done. done. }
  split_and!.
  - apply Forall_app; split.
    + eapply Forall_impl; [exact Hq|]. intros i (x & Hx & Hok). exists x. split; [|by apply Hcos].
      rewrite lookup_insert_ne; [done|]. intros <-. rewrite Hfresh in Hx; [done|lia].
    + constructor; [|done]. eexists. rewrite lookup_insert_eq. split; [done|]. split; [exact Hj|].
      eexists _, _, _. split; [reflexivity|]. rewrite list_lookup_insert_eq by (by eapply lookup_lt_Some). done.
  - intros i Hi. rewrite lookup_insert_ne by lia. apply Hfresh. lia.
  - apply map_Forall_insert_2; [exact Hj|done].
Qed.

(** Nobody joins the queue, and contexts keep their buffers. *)
Definition bufs_step (w w' : ch_world) : Prop :=
  (forall i, i ∈ ch_queue (cw_ch w') -> i ∈ ch_queue (cw_ch w)) /\
  forall i wc, cw_ctx w !! i = Some wc -> exists wc', cw_ctx w' !! i = Some wc' /\ wc_buf wc' = wc_buf wc.

(** The caller with context [wid] joins the queue with buffer [p]. *)
Definition joins (wid : nat) (p : Z) (w w' : ch_world) : Prop :=
  ch_queue (cw_ch w') = ch_queue (cw_ch w) ++ [wid] /\
  exists wc, cw_ctx w' = <[wid := wc]> (cw_ctx w) /\ wc_buf wc = p.

Lemma bufs_step_same w w' :
  cw_ctx w' = cw_ctx w -> (forall i, i ∈ ch_queue (cw_ch w') -> i ∈ ch_queue (cw_ch w)) -> bufs_step w w'.
Proof. intros Hx Hq. split; [done|]. intros i wc Hi. exists wc. by rewrite Hx. Qed.

Lemma bufs_step_state w w' i wc st :
  cw_ctx w !! i = Some wc -> cw_ctx w' = <[i := mkWaitCtx (wc_co wc) st (wc_buf wc)]> (cw_ctx w) ->
  (forall j, j ∈ ch_queue (cw_ch w') -> j ∈ ch_queue (cw_ch w)) -> bufs_step w w'.
Proof.
  intros Hi Hx Hq. split; [done|]. intros j wc' Hj. rewrite Hx. destruct (decide (i = j)) as [<-|Hne].
  - rewrite lookup_insert_eq. eexists. split; [done|]. cbn. congruence.
  - rewrite lookup_insert_ne by done. by exists wc'.
Qed.

Lemma first_live_rest ctxs q i rest : first_live ctxs q = Some (i, rest) -> forall j, j ∈ rest -> j ∈ q.
Proof.
  intros Hfl j Hj. apply first_live_suffix in Hfl as [pre ->]. apply elem_of_app. right. by right.
Qed.

Lemma bufs_inv_step lg w w' : bufs_inv lg w -> bufs_step w w' -> bufs_inv lg w'.
Proof.
  intros Hb [Hq Hx]. apply Forall_forall. intros i Hi. apply Hq in Hi. unfold bufs_inv in Hb. rewrite Forall_forall in Hb.
  destruct (Hb i Hi) as (wc & Hwc & Hp). destruct (Hx i wc Hwc) as (wc' & Hwc' & E). exists wc'. by rewrite E.
Qed.

Lemma bufs_inv_joins lg w w' wid p :
  bufs_inv lg w -> cw_ctx w !! wid = None -> joins wid p w w' ->
  bufs_inv (mkLogs (lg_in lg) (lg_out lg) (<[wid := p]> (lg_buf lg))) w'.
Proof.
  intros Hb Hw (Hq & wc & Hx & Hp). unfold bufs_inv. rewrite Hq, Hx. cbn [lg_buf]. apply Forall_app. split.
  - eapply Forall_impl; [exact Hb|]. intros i (x & Hi & Hbuf). assert (wid <> i) by congruence.
    rewrite !lookup_insert_ne by done. by exists x.
  - apply Forall_singleton. rewrite !lookup_insert_eq. exists wc. by rewrite Hp.
Qed.

Lemma asked_handed lg w w' : bufs_inv lg w -> asked lg w w' = handed w w'.
Proof.
  intros Hb. unfold asked, handed. destruct (first_live _ _) as [[i rest]|] eqn:Efl; [|done].
  apply first_live_suffix in Efl as [pre E]. unfold bufs_inv in Hb. rewrite Forall_forall in Hb.
  destruct (Hb i) as (wc & -> & ->); [rewrite E; apply elem_of_app; right; left|done].
Qed.

Lemma write_effect_ok n wid w cl p items w' res items' :
  chan_inv n wid w items -> op_ok (length (cw_cos w)) (OpWrite cl p) ->
  chan_rel (cw_ch w') n items' -> write_effect n w (with_wid cl wid) p items w' res items' ->
  exists w2, finish_op (Ok (w', res)) cl = Ok (w2, res) /\ chan_inv n (S wid) w2 items' /\
    length (cw_cos w2) = length (cw_cos w) /\
    (res = Done -> items ++ [block_at (cw_ch w) (cw_m w) p] = handed w w2 ++ items') /\
    (res = Done -> bufs_step w w2) /\
    (forall i, res = Blocks i -> items' = items /\ joins wid p w w2).
Proof.
  intros (Hrel & Hcx & Hpart) (Hco & Hj & Hon) Hrel' Heff.
  destruct (lookup_lt_is_Some_2 _ _ Hco) as [c Hc].
  destruct Heff as [items w' Hne Hlt Hm Hx Hcs Hrd Hq|w' Hfl Hm Hx Hcs Hrd Hq
    |w' i rest wc s co Hfl Hwc Hwco Hm Hx Hcs Hrd Hq|items w' Hlen _ Hm Hx Hcs Hrd Hq]; cbn [finish_op obind].
  - assert (Hnil : ch_queue (cw_ch w) = []) by (apply Hpart; destruct items; [done|cbn in *; lia]).
    exists w'. split; [done|]. split_and!; try done; [| | |intros _; apply bufs_step_same; by rewrite ?Hq].
    + split_and!; [done| |congruence]. rewrite Hx, Hcs, Hq. by eapply ctxs_inv_mono.
    + by rewrite Hcs.
    + intros _. unfold handed. by rewrite Hnil.
  - exists w'. split; [done|].
    split_and!; try done; [| | |intros _; apply bufs_step_same; [done|]; rewrite Hq; by intros ? ?%elem_of_nil].
    + split_and!; [done| |done]. rewrite Hx, Hcs, Hq. eapply ctxs_inv_mono; [done|apply sublist_nil_l].
    + by rewrite Hcs.
    + intros _. unfold handed. by rewrite Hfl.
  - exists w'. split; [done|].
    split_and!; try done; [| | |intros _; eapply bufs_step_state; [exact Hwc|exact Hx|rewrite Hq; by eapply first_live_rest]].
    + split_and!; [done| |cbn; lia]. rewrite Hx, Hcs, Hq. by eapply ctxs_inv_pop.
    + by rewrite Hcs.
    + intros _. unfold handed. rewrite Hfl, Hwc, Hm. cbn. f_equal. symmetry.
      apply block_at_write, length_block_at.
  - unfold ChannelImpl_block. rewrite Hcs, Hc. cbn [obind].
    eexists. split; [reflexivity|]. split_and!; try done.
    + split_and!; cbn [cw_ch cw_ctx cw_cos]; [done| |rewrite Hlen; lia].
      rewrite Hx, Hq. by apply ctxs_inv_block.
    + cbn. by rewrite length_insert.
    + intros i _. split; [done|]. split; [exact Hq|]. by exists (wait_ctx_of (with_wid cl wid) p).
Qed.

Lemma read_effect_ok n wid w cl p items w' res items' :
  chan_inv n wid w items -> op_ok (length (cw_cos w)) (OpRead cl p) ->
  chan_rel (cw_ch w') n items' -> read_effect n w (with_wid cl wid) p items w' res items' ->
  exists w2, finish_op (Ok (w', res)) cl = Ok (w2, res) /\ chan_inv n (S wid) w2 items' /\
    length (cw_cos w2) = length (cw_cos w) /\
    (res = Done -> items ++ handed w w2 = [block_at (cw_ch w) (cw_m w2) p] ++ items') /\
    (res = Done -> bufs_step w w2) /\
    (forall i, res = Blocks i -> items' = items /\ joins wid p w w2).
Proof.
  intros (Hrel & Hcx & Hpart) (Hco & Hj & Hon) Hrel' Heff.
  destruct (lookup_lt_is_Some_2 _ _ Hco) as [c Hc]. pose proof (chan_items_length _ _ _ Hrel) as Hlens.
  destruct Heff as [b items w' Hlt Hm Hx Hcs Hrd Hq|b items w' Hlen Hfl Hm Hx Hcs Hrd Hq
    |b items w' i rest wc s co Hlen Hfl Hwc Hwco Hm Hx Hcs Hrd Hq|w' _ Hm Hx Hcs Hrd Hq]; cbn [finish_op obind];
    try (apply Forall_cons in Hlens as [Hlb _]).
  - assert (Hnil : ch_queue (cw_ch w) = []) by (apply Hpart; cbn in *; lia).
    exists w'. split; [done|]. split_and!; try done; [| | |intros _; apply bufs_step_same; by rewrite ?Hq].
    + split_and!; [done| |congruence]. rewrite Hx, Hcs, Hq. by eapply ctxs_inv_mono.
    + by rewrite Hcs.
    + intros _. unfold handed. rewrite Hnil, Hm, block_at_write by done. by rewrite app_nil_r.
  - exists w'. split; [done|].
    split_and!; try done; [| | |intros _; apply bufs_step_same; [done|]; rewrite Hq; by intros ? ?%elem_of_nil].
    + split_and!; [done| |done]. rewrite Hx, Hcs, Hq. eapply ctxs_inv_mono; [done|apply sublist_nil_l].
    + by rewrite Hcs.
    + intros _. unfold handed. rewrite Hfl, Hm, block_at_write by done. by rewrite app_nil_r.
  - exists w'. split; [done|].
    split_and!; try done; [| | |intros _; eapply bufs_step_state; [exact Hwc|exact Hx|rewrite Hq; by eapply first_live_rest]].
    + split_and!; [done| |rewrite length_app; cbn; lia]. rewrite Hx, Hcs, Hq. by eapply ctxs_inv_pop.
    + by rewrite Hcs.
    + intros _. unfold handed. rewrite Hfl, Hwc, Hm, block_at_write by done. done.
  - unfold ChannelImpl_block. rewrite Hcs, Hc. cbn [obind].
    eexists. split; [reflexivity|]. split_and!; try done.
    + split_and!; cbn [cw_ch cw_ctx cw_cos]; [done| |cbn; lia].
      rewrite Hx, Hq. by apply ctxs_inv_block.
    + cbn. by rewrite length_insert.
    + intros i _. split; [done|]. split; [exact Hq|]. by exists (wait_ctx_of (with_wid cl wid) p).
Qed.

Lemma run_op_ok n wid w lg op items :
  chan_inv n wid w items -> bufs_inv lg w -> op_ok (length (cw_cos w)) op -> lg_in lg = lg_out lg ++ items ->
  exists w' lg' items', run_op wid w lg op = Ok (w', lg') /\ chan_inv n (S wid) w' items' /\ bufs_inv lg' w' /\
    length (cw_cos w') = length (cw_cos w) /\ lg_in lg' = lg_out lg' ++ items'.
Proof.
  intros Hinv Hbufs Hop Hlg. assert (Hwt : waiters_ok w) by apply Hinv.
  assert (Hw : cw_ctx w !! wid = None) by (apply Hinv; lia). destruct op as [cl p|cl p|i]; cbn [run_op].
  - destruct (Read_cases n w (with_wid cl wid) p items) as [(_ & Hon & _)|(w' & res & items' & -> & Hrel & _ & Heff)];
      [apply Hinv|done|by destruct Hop as (_ & _ & Hoff); cbn in Hon; congruence|].
    destruct (read_effect_ok n wid w cl p items w' res items') as (w2 & -> & Hinv2 & Hl & Hd & Hs & Hb); try done.
    cbn [obind]. destruct res as [|i]; eexists _, _, items'; (split; [reflexivity|]); split_and!; try done; cbn.
    + by apply (bufs_inv_step _ w); [|apply Hs].
    + specialize (Hd eq_refl). by rewrite asked_handed, Hlg, <- !app_assoc, Hd.
    + destruct (Hb i eq_refl) as [_ Hj]. by apply (bufs_inv_joins _ w).
    + by destruct (Hb i eq_refl) as [-> _].
  - destruct (Write_cases n w (with_wid cl wid) p items) as [(_ & Hon & _)|(w' & res & items' & -> & Hrel & _ & Heff)];
      [apply Hinv|done|by destruct Hop as (_ & _ & Hoff); cbn in Hon; congruence|].
    destruct (write_effect_ok n wid w cl p items w' res items') as (w2 & -> & Hinv2 & Hl & Hd & Hs & Hb); try done.
    cbn [obind]. destruct res as [|i]; eexists _, _, items'; (split; [reflexivity|]); split_and!; try done; cbn.
    + by apply (bufs_inv_step _ w); [|apply Hs].
    + specialize (Hd eq_refl). by rewrite asked_handed, Hlg, <- !app_assoc, Hd.
    + destruct (Hb i eq_refl) as [_ Hj]. by apply (bufs_inv_joins _ w).
    + by destruct (Hb i eq_refl) as [-> _].
  - destruct Hinv as (Hrel & (Hq & Hfresh & Hb) & Hpart).
    assert (Hsame : chan_inv n (S wid) w items) 
      by (split; [done|split; [split; [done|split; [intros j Hj; apply Hfresh; lia|done]]|done]]).
    destruct (cw_ctx w !! i) as [wc|] eqn:Ewc; [|by exists w, lg, items].
    destruct (atomic_compare_swap uint8 (wc_state wc) kInit kTimeout) as [st old] eqn:Ecas.
    assert (Hst : 0 <= st < 256).
    { pose proof (Hb i wc Ewc) as Hr. cbn beta in Hr. unfold atomic_compare_swap, compare_exchange_n in Ecas.
      destruct (_ =? _) in Ecas; injection Ecas as <- _; [|done]. vm_compute. split; [discriminate|reflexivity]. }
    eexists _, lg, items. split; [reflexivity|]. split_and!; try done;
      [|by eapply bufs_inv_step, bufs_step_state; [|exact Ewc| |]].
    split_and!; cbn [cw_ch cw_ctx cw_cos]; [done| |done]. split_and!.
    + by apply waiters_update.
    + intros j Hj. rewrite lookup_insert_ne; [apply Hfresh; lia|]. intros ->. rewrite Hfresh in Ewc; [done|lia].
    + apply map_Forall_insert_2; [exact Hst|done].
Qed.

Lemma run_ops_ok n wid w lg ops items :
  chan_inv n wid w items -> bufs_inv lg w -> Forall (op_ok (length (cw_cos w))) ops -> lg_in lg = lg_out lg ++ items ->
  exists w' lg' items', run_ops wid w lg ops = Ok (w', lg') /\ chan_inv n (wid + length ops) w' items' /\
    lg_in lg' = lg_out lg' ++ items'.
Proof.
  revert wid w lg items. induction ops as [|op ops IH]; intros wid w lg items Hinv Hbufs Hops Hlg; cbn [run_ops length].
  - exists w, lg, items. by rewrite Nat.add_0_r.
  - apply Forall_cons in Hops as [Hop Hops].
    destruct (run_op_ok n wid w lg op items) as (w1 & lg1 & items1 & -> & Hinv1 & Hb1 & Hl1 & Hlg1); try done.
    cbn [obind]. rewrite <- plus_n_Sm. apply (IH (S wid) w1 lg1 items1); [done|done|by rewrite Hl1|done].
Qed.

(** A new channel. *)
Lemma chan_inv_new n blk ms junk m cos rd :
  (1 <= n)%nat -> 0 < blk -> Z.of_nat n * blk < 2 ^ 32 -> Z.of_nat (length junk) = Z.of_nat n * blk ->
  chan_inv n 0 (mkChWorld (ChannelImpl_new (Z.of_nat n * blk) blk ms junk) m ∅ cos rd) [].
Proof.
  intros Hn Hb Hlt Hl. split; [|split; [|cbn; lia]].
  - exists 0%nat, 0%nat. split; [|done]. unfold ring_rep. cbn. rewrite Nat.mod_small by lia.
    split_and!; try done; try lia. destruct n; [lia|done].
  - split; [constructor|]. split; [intros i _; apply lookup_empty|apply map_Forall_empty].
Qed.

(** ** Theorems *)

(** C2: a channel is a first-in first-out queue. Whatever sequence of reads, writes and
    time-outs runs on a fresh channel of [n] blocks, of callers whose buffers are not on
    their own stacks, every operation gives a result, and
    the blocks that went in are exactly the blocks that came out, in the same order,
    followed by the at most [n] blocks the ring holds; nobody waits while the channel is
    neither empty nor full. The block of a writer that has to wait goes in when a reader
    makes room, as the writer's buffer is then. *)
Theorem channel_fifo n blk ms junk m cos ops :
  (1 <= n)%nat -> 0 < blk -> Z.of_nat n * blk < 2 ^ 32 -> Z.of_nat (length junk) = Z.of_nat n * blk ->
  Forall (op_ok (length cos)) ops ->
  exists w lg items,
    run_ops 0 (mkChWorld (ChannelImpl_new (Z.of_nat n * blk) blk ms junk) m ∅ cos []) (mkLogs [] [] ∅) ops = Ok (w, lg) /\
    lg_in lg = lg_out lg ++ items /\ chan_rel (cw_ch w) n items /\ (length items <= n)%nat /\
    ((0 < length items < n)%nat -> ch_queue (cw_ch w) = []).
Proof.
  intros Hn Hb Hlt Hl Hops.
  destruct (run_ops_ok n 0 (mkChWorld (ChannelImpl_new (Z.of_nat n * blk) blk ms junk) m ∅ cos [])
              (mkLogs [] [] ∅) ops []) as (w & lg & items & E & (Hrel & _ & Hpart) & Hlg); [by apply chan_inv_new|by apply Forall_nil_2|done..|].
  exists w, lg, items. split_and!; try done. destruct Hrel as (r & c & (_ & _ & _ & _ & _ & _ & Hc & _) & ->).
  by rewrite length_ring_items.
Qed.


(** The state of a wait context is whatever [malloc] returned: when that byte is not
    [kInit], the next writer skips the reader that waits, stores its block in the ring,
    and wakes nobody; the reader has left the queue. *)
Theorem channel_waiter_lost n w cl cl' p p' :
  chan_rel (cw_ch w) n [] -> ch_queue (cw_ch w) = [] -> cl_on_stack cl = false ->
  0 <= cl_junk cl < 256 -> cl_junk cl <> kInit ->
  exists w1 w2, ChannelImpl_Read w cl p = Ok (w1, Blocks (cl_wid cl)) /\
    ChannelImpl_Write w1 cl' p' = Ok (w2, Done) /\
    cw_ready w2 = cw_ready w /\ ch_queue (cw_ch w2) = [] /\
    chan_rel (cw_ch w2) n [block_at (cw_ch w) (cw_m w) p'].
Proof.
  intros (r & c & Hrep & Hnil) Hq Hon Hj Hne. apply (f_equal length) in Hnil. rewrite length_ring_items in Hnil.
  cbn in Hnil. subst c. pose proof Hrep as (Hn & _ & _ & _ & _ & _ & _ & _ & _ & Hf).
  pose proof (proj2 (ring_wx_rx _ _ _ _ Hrep) (or_introl eq_refl)) as Hwr.
  rewrite (proj2 (Nat.eqb_neq 0 n)) in Hf by lia.
  destruct (ring_put (cw_ch w) n r 0 [] (block_at (cw_ch w) (cw_m w) p') Hrep) as (buf & Hw & Hr & Hi);
    [lia|apply length_block_at|].
  unfold ChannelImpl_Read. rewrite Hwr, Z.eqb_refl, Hf. cbn [negb].
  rewrite CreateWaitCtxInfo_off_stack by done. cbn [obind]. rewrite Hq. cbn [app].
  eexists _, _. split; [reflexivity|]. unfold ChannelImpl_Write. cbn [cw_ch ch_move ch_wx ch_rx ch_full ch_queue cw_ctx].
  rewrite Z.eqb_refl. cbn [negb pop_live]. rewrite lookup_insert_eq.
  cbn [wait_ctx_of WaitCtx_from_ptr fst wc_state]. rewrite cas_ready by done.
  destruct (Z.eqb_spec (cl_junk cl) kInit); [done|]. cbn [obind pop_live].
  match goal with |- context [ring_write ?a ?b ?d] => replace (ring_write a b d) with (@Ok (list Z) buf) end.
  2:{ rewrite <- Hw, Hwr. reflexivity. }
  cbn [obind]. split; [reflexivity|]. cbn [cw_ready cw_ch]. split; [done|]. split; [done|].
  exists r, 1%nat. pose proof (ring_full_after _ _ _ _ Hrep ltac:(lia)) as Hfull.
  rewrite Hwr, Hf in Hfull. cbv zeta in Hr, Hi. rewrite <- Hfull in Hr, Hi. rewrite Hwr in Hr, Hi.
  split; [exact Hr|symmetry; exact Hi].
Qed.

(** A reader publishes its scheduler only after it has unlocked the channel: a write
    that comes in between finds the function of the coroutine where the scheduler
    pointer should be. *)
Theorem channel_wake_race n w cl cl' p p' c f w1 :
  chan_rel (cw_ch w) n [] -> ch_queue (cw_ch w) = [] -> cl_junk cl = kInit ->
  cw_cos w !! cl_co cl = Some c -> co_union_ c = func_ f ->
  ChannelImpl_Read w cl p = Ok (w1, Blocks (cl_wid cl)) ->
  ChannelImpl_Write w1 cl' p' = Fault InactiveMember.
Proof.
  intros (r & c' & Hrep & Hnil) Hq Hj Hc Hu. apply (f_equal length) in Hnil. rewrite length_ring_items in Hnil.
  cbn in Hnil. subst c'. pose proof Hrep as (Hn & _ & _ & _ & _ & _ & _ & _ & _ & Hf).
  pose proof (proj2 (ring_wx_rx _ _ _ _ Hrep) (or_introl eq_refl)) as Hwr.
  rewrite (proj2 (Nat.eqb_neq 0 n)) in Hf by lia.
  unfold ChannelImpl_Read. rewrite Hwr, Z.eqb_refl, Hf. cbn [negb].
  destruct (cl_on_stack cl) eqn:Eon; [by rewrite CreateWaitCtxInfo_on_stack by done|].
  rewrite CreateWaitCtxInfo_off_stack by done. cbn [obind]. rewrite Hq. cbn [app]. intros [= <-].
  unfold ChannelImpl_Write. cbn [cw_ch ch_move ch_wx ch_rx ch_full ch_queue cw_ctx cw_cos].
  rewrite Z.eqb_refl. cbn [negb pop_live]. rewrite lookup_insert_eq.
  cbn [wait_ctx_of WaitCtx_from_ptr fst wc_state]. rewrite Hj, cas_ready by (unfold kInit; lia).
  cbn -[wake insert]. unfold get_ctx. rewrite lookup_insert_eq. cbn -[wake insert].
  unfold wake. cbn [wc_co]. rewrite Hc. unfold get_co_scheduler. by rewrite Hu.
Qed.

(** The buffer meant for a block on a coroutine's stack is not inside the memory
    allocated for it: [wait_ctx + sizeof(WaitCtx)] is 576 bytes further, and a block there
    ends beyond the allocation whatever its size. *)
Theorem wait_buffer_outside_block ch cl buf :
  cl_on_stack cl = true ->
  cl_block cl + wait_block_size ch cl < wait_buffer cl + ch_blk_size ch /\
  ChannelImpl_CreateWaitCtxInfo ch cl buf = Fault OutOfBounds.
Proof.
  intros H. split; [|by apply CreateWaitCtxInfo_on_stack].
  unfold wait_buffer, wait_block_size, sizeof_WaitCtx. rewrite H. lia.
Qed.

(** ** Witnesses *)

Definition caller_of (co : nat) (junk : Z) : caller := mkCaller co false 5000 junk 0 9.

(** Three writers and four readers on a channel of two bytes: the third write and the
    last read have to wait. *)
Definition ops_sample : list ch_op :=
  [ OpWrite (caller_of 0 0) 100; OpWrite (caller_of 0 0) 101; OpWrite (caller_of 1 0) 102;
    OpRead (caller_of 2 0) 200; OpRead (caller_of 2 0) 201; OpRead (caller_of 2 0) 202;
    OpRead (caller_of 2 0) 203; OpTimeout 6 ].

Definition cos_sample : list Coroutine := replicate 3 (Coroutine_new []).

Definition chan_world_sample (q : list nat) : ch_world :=
  mkChWorld (mkChannel [7; 7] 2 1 0 0 0 false q) (fun x => x mod 256) ∅ cos_sample [].

Lemma chan_sample_empty q : chan_rel (cw_ch (chan_world_sample q)) 2 [].
Proof.
  exists 0%nat, 0%nat. split; [|done]. unfold ring_rep. split_and!; try done; try lia; vm_compute; done.
Qed.

Lemma channel_fifo_witness :
  exists w lg items,
    run_ops 0 (mkChWorld (ChannelImpl_new (Z.of_nat 2 * 1) 1 0 [7; 7]) (fun x => x mod 256) ∅ cos_sample [])
      (mkLogs [] [] ∅) ops_sample = Ok (w, lg) /\
    lg_in lg = lg_out lg ++ items /\ chan_rel (cw_ch w) 2 items /\ (length items <= 2)%nat /\
    ((0 < length items < 2)%nat -> ch_queue (cw_ch w) = []).
Proof.
  apply (channel_fifo 2 1 0 [7; 7] (fun x => x mod 256) cos_sample ops_sample); try (vm_compute; done); try lia.
  repeat constructor; cbn; lia.
Defined.

(** On this run the bytes at 100, 101 and 102 come out at 200, 201 and 202. *)
Example channel_sample_run :
  match run_ops 0 (chan_world_sample []) (mkLogs [] [] ∅) ops_sample with
  | Ok (w, lg) => lg_in lg = [[100]; [101]; [102]] /\ lg_out lg = [[100]; [101]; [102]] /\
                  map (cw_m w) [200; 201; 202] = [100; 101; 102] /\ cw_ready w = [(9, 1%nat)]
  | Fault _ => False
  end.
Proof. vm_compute. done. Qed.


Lemma channel_waiter_lost_witness :
  exists w1 w2, ChannelImpl_Read (chan_world_sample []) (caller_of 0 205) 200 = Ok (w1, Blocks 0) /\
    ChannelImpl_Write w1 (caller_of 1 0) 100 = Ok (w2, Done) /\
    cw_ready w2 = [] /\ ch_queue (cw_ch w2) = [] /\ chan_rel (cw_ch w2) 2 [[100]].
Proof.
  apply (channel_waiter_lost 2 (chan_world_sample []) (caller_of 0 205) (caller_of 1 0) 200 100);
    [apply chan_sample_empty|reflexivity|reflexivity|cbn; lia|discriminate].
Defined.

Definition race_sample : ch_world :=
  match ChannelImpl_Read (chan_world_sample []) (caller_of 0 0) 200 with
  | Ok (w, _) => w | Fault _ => chan_world_sample [] end.

Lemma channel_wake_race_witness : ChannelImpl_Write race_sample (caller_of 1 0) 100 = Fault InactiveMember.
Proof.
  apply (channel_wake_race 2 (chan_world_sample []) (caller_of 0 0) (caller_of 1 0) 200 100
           (Coroutine_new []) 0%nat); try reflexivity. apply chan_sample_empty.
Defined.

Lemma wait_buffer_outside_block_witness :
  5000 + 25 < wait_buffer (mkCaller 0 true 5000 0 0 9) + 1 /\
  ChannelImpl_CreateWaitCtxInfo (mkChannel [7; 7] 2 1 0 0 0 false []) (mkCaller 0 true 5000 0 0 9) 200 = Fault OutOfBounds.
Proof.
  apply (wait_buffer_outside_block (mkChannel [7; 7] 2 1 0 0 0 false []) (mkCaller 0 true 5000 0 0 9) 200).
  reflexivity.
Defined.
