(* ===== verification/ChannelRun.v ===== *)
(** * Coroutines of one scheduler that exchange blocks over a channel

    The channel of channel.cc, run by the scheduler of scheduler.cc: a call that has to
    wait publishes the coroutine and yields, a call of another coroutine makes it ready,
    the loop resumes it, and it finishes its call. The coroutines run lists of channel
    operations; the theorem follows a scheduler from its constructor until all of them
    have come to their end. *)

From stdpp Require Import base numbers functions list gmap.
From Stdlib Require Import Lia ZArith.
From S2P Require Import Prelude Atomic Stream Errno SockCtx Epoll Wakeup Coroutine Copoll TaskManager TimerManager Context.
From S2P Require Import Scheduler Switching Channel.

(** ** Data *)

(** [ch >> x] and [ch << x] with [x] at an address. *)
Inductive chan_op : Type := Recv (p : Z) | Send (p : Z).

Definition op_addr (op : chan_op) : Z := match op with Recv p | Send p => p end.

(** A coroutine that has yielded inside of an operation: the function it runs, the
    operation, its wait context, and what comes after. *)
Record waiting : Type := mkWaiting { wt_prog : Closure; wt_op : chan_op; wt_wid : nat; wt_rest : list chan_op }.

(** What the coroutines share. The logs, which no code reads, hold the blocks that went
    into the channel, those that were given to a reader, and those with which a read
    returned, each with the function of the coroutine that sent or got it. *)
Record chan_app : Type := mkApp {
  ca_chan : ChannelImpl;
  ca_fresh : nat;                        (* identity of the next wait context *)
  ca_waiting : gmap nat waiting;
  ca_remote : list (Z * nat);            (* coroutines made ready on other schedulers *)
  ca_in : list (Closure * list Z);
  ca_out : list (Closure * list Z);
  ca_got : list (Closure * list Z)
}.

Definition app_init (ch : ChannelImpl) : chan_app := mkApp ch 0 ∅ [] [] [] [].

(** The entries of a log that belong to one function. *)
Definition of_prog (f : Closure) (log : list (Closure * list Z)) : list (list Z) :=
  map snd (filter (fun e => fst e = f) log).

Section chan_run.
Context {K : Type} `{EpollKernel K}.
(** The address and the uninitialised state byte of the memory for a wait context, the
    clock, and the kernel's answers to the write of [Wakeup]. *)
Context (wait_block wait_junk : nat -> Z) (clk : nat -> Z) (answers : list io_result).
(** The operations of each function, and where the context of a coroutine lies when it
    yields. *)
Context (prog : Closure -> list chan_op) (park : nat -> Z).

Abbreviation world := (sworld K chan_app).

Definition set_user_chan (w : world) (ch : ChannelImpl) : world :=
  let a := sw_user w in
  set_sw_user w (mkApp ch (S (ca_fresh a)) (ca_waiting a) (ca_remote a) (ca_in a) (ca_out a) (ca_got a)).
Definition set_user_waiting (w : world) (m : gmap nat waiting) : world :=
  let a := sw_user w in
  set_sw_user w (mkApp (ca_chan a) (ca_fresh a) m (ca_remote a) (ca_in a) (ca_out a) (ca_got a)).
Definition add_remote (w : world) (r : Z * nat) : world :=
  let a := sw_user w in
  set_sw_user w (mkApp (ca_chan a) (ca_fresh a) (ca_waiting a) (ca_remote a ++ [r]) (ca_in a) (ca_out a) (ca_got a)).
Definition add_logs (w : world) (i o g : list (Closure * list Z)) : world :=
  let a := sw_user w in
  set_sw_user w (mkApp (ca_chan a) (ca_fresh a) (ca_waiting a) (ca_remote a) (ca_in a ++ i) (ca_out a ++ o) (ca_got a ++ g)).

(** ** An operation of the running coroutine *)

(** The channel's view of the world, and the world after an operation: memory, wait
    contexts, coroutines, the channel, and [AddReadyTask] for whom it woke. *)
Definition view (w : world) : ch_world :=
  mkChWorld (ca_chan (sw_user w)) (sw_mem w) (sw_ctxs w) (cp_pool (sc_pool (sw_sched w))) [].

Fixpoint wake_all (w : world) (l : list (Z * nat)) : world :=
  match l with
  | [] => w
  | (s, co) :: l' =>
      wake_all (if s =? sc_id (sw_sched w) then set_sw_sched w (SchedulerImpl_AddReadyTask (sw_sched w) co answers)
                else add_remote w (s, co)) l'
  end.

Definition put_view (w : world) (v : ch_world) : world :=
  let s := sw_sched w in
  let w := set_sw_sched w (set_sc_pool s (mkCopoll (cp_id (sc_pool s)) (cp_idle (sc_pool s)) (cw_cos v))) in
  wake_all (set_user_chan (set_sw_ctxs (set_sw_mem w (cw_m v)) (cw_ctx v)) (cw_ch v)) (cw_ready v).

(** [TLSScheduler::instance()], its running coroutine, and [on_stack(p)]. *)
Definition chan_caller (w : world) (p : Z) : outcome caller :=
  let s := sw_sched w in
  let wid := ca_fresh (sw_user w) in
  let* co := get_running s in
  let* on := SchedulerImpl_on_stack s p in
  Ok (mkCaller co on (wait_block wid) (wait_junk wid) wid (sc_id s)).

(** The log entry of the waiter that an operation serves: [v] and [v'] are the channel
    before and after it. *)
Definition served (w : world) (v' : ch_world) : list (Closure * list Z) :=
  match first_live (sw_ctxs w) (ch_queue (ca_chan (sw_user w))) with
  | Some (wid, _) =>
      match sw_ctxs w !! wid with
      | Some wc =>
          match wc_co wc ≫= (ca_waiting (sw_user w) !!.) with
          | Some wt => [(wt_prog wt, block_at (ca_chan (sw_user w)) (cw_m v') (wc_buf wc))]
          | None => []
          end
      | None => []
      end
  | None => []
  end.

(** [Read(p)] or [Write(p)] in function [f] until it returns ([None]) or yields: the wait
    context and the scheduler are published, the timer is added, the coroutine yields. *)
Definition chan_begin (w : world) (f : Closure) (op : chan_op) : outcome (world * option nat) :=
  let* cl := chan_caller w (op_addr op) in
  let* (v, r) := match op with
                 | Recv p => ChannelImpl_Read (view w) cl p
                 | Send p => ChannelImpl_Write (view w) cl p
                 end in
  match r with
  | Done =>
      let out := (f, block_at (ca_chan (sw_user w)) (cw_m v) (op_addr op)) in
      Ok (match op with
          | Recv p => add_logs (put_view w v) (served w v) [out] [out]
          | Send p => add_logs (put_view w v) [out] (served w v) []
          end, None)
  | Blocks wid =>
      let* (v, timer) := ChannelImpl_block v cl wid in
      let w := put_view w v in
      let* w := if timer then
                  let* s := SchedulerImpl_AddTimer (sw_sched w) (clk (sw_clock w)) (ch_ms (cw_ch v)) in
                  Ok (mkSW s (sw_mem w) (sw_ev w) (sw_ctxs w) (S (sw_clock w)) (sw_mallocs w) (sw_resumed w) (sw_user w))
                else Ok w in
      let* s := SchedulerImpl_Yield (sw_sched w) in
      Ok (set_sw_sched w s, Some wid)
  end.

(** The rest of the operation, after its [Yield]. *)
Definition chan_end (w : world) (wt : waiting) : outcome world :=
  match wt_op wt with
  | Recv p =>
      let t := SchedulerImpl_is_timeout (sw_sched w) in
      let* m := ChannelImpl_Read_resume (view w) (wt_wid wt) p t in
      Ok (add_logs (set_sw_mem w m) [] [] (if t then [] else [(wt_prog wt, block_at (ca_chan (sw_user w)) m p)]))
  | Send _ => Ok w
  end.

(** The operations of a function one after the other, and a coroutine's code as the
    scheduler meets it. *)
Fixpoint run_prog (w : world) (f : Closure) (ops : list chan_op) : outcome (world * user_exit) :=
  match ops with
  | [] => Ok (w, Finished)
  | op :: rest =>
      let* (w, r) := chan_begin w f op in
      match r with
      | None => run_prog w f rest
      | Some wid =>
          let* co := get_running (sw_sched w) in
          Ok (set_user_waiting w (<[co := mkWaiting f op wid rest]> (ca_waiting (sw_user w))), Yielded (park co))
      end
  end.

Definition chan_user (w : world) (co : nat) (e : user_entry) : outcome (world * user_exit) :=
  match e with
  | Call f => run_prog w f (prog f)
  | Continue =>
      match ca_waiting (sw_user w) !! co with
      | None => Fault AssertionFailed
      | Some wt =>
          let* w := chan_end (set_user_waiting w (delete co (ca_waiting (sw_user w)))) wt in
          run_prog w (wt_prog wt) (wt_rest wt)
      end
  end.

(** A scheduler to which [go] has given the functions [fs]. *)
Definition chan_start (s : SchedulerImpl) (ev : ev_state K) (m : memory) (ch : ChannelImpl) (fs : list Closure) : world :=
  mkSW (fold_left (fun s f => SchedulerImpl_AddNewTask s f answers) fs s) m ev ∅ 0 0 [] (app_init ch).

(** ** The invariant *)

(** Blocks of [blk] bytes, at most [n] of them in the channel; [malloc], the size of the
    stacks and the memory that switching may write to as in Switching; [m0] is the memory
    at the start. *)
Context (malloc : nat -> Z) (stack_size : Z) (scratch : Z -> Prop) (n : nat) (blk : Z) (m0 : memory).

Definition block_of (m : memory) (p : Z) : list Z := read_bytes m p (Z.to_nat blk).

(** The blocks that a list of operations sends, and how many it takes. *)
Definition sent_by (ops : list chan_op) : list (list Z) :=
  omap (fun op => match op with Send p => Some (block_of m0 p) | Recv _ => None end) ops.
Definition recvs (ops : list chan_op) : nat :=
  length (omap (fun op => match op with Recv p => Some p | Send _ => None end) ops).

(** No operation touches scratch memory, nobody receives where anybody sends from, and
    different functions receive in different places. *)
Definition layout_ok : Prop :=
  (forall f op x, op ∈ prog f -> op_addr op <= x < op_addr op + blk -> ~ scratch x) /\
  (forall f g p q, Recv p ∈ prog f -> Send q ∈ prog g -> disjoint_ranges p blk q blk) /\
  (forall f g p q, f <> g -> Recv p ∈ prog f -> Recv q ∈ prog g -> disjoint_ranges p blk q blk).

Abbreviation queue w := (ch_queue (ca_chan (sw_user w))).
Abbreviation readys w := (ready_tasks_ (sc_tasks (sw_sched w))).

(** What the operation of a waiter leaves its function with, once it has been served. *)
Definition owed (m : memory) (op : chan_op) : list (list Z) :=
  match op with Recv p => [block_of m p] | Send _ => [] end.

(** An operation that has to wait. *)
Definition stuck (items : list (list Z)) (op : chan_op) : Prop :=
  match op with Recv _ => items = [] | Send _ => length items = n end.

(** A coroutine inside of an operation. [L] gives the operations a function has still to
    carry out, [G] the block that its waiting read has been given; the coroutines [woken]
    are ready. *)
Definition waiter_inv (w : world) (L : Closure -> list chan_op) (G : Closure -> list (list Z)) (woken : list nat)
  (items : list (list Z)) (co : nat) (wt : waiting) : Prop :=
  co <> sc_main (sw_sched w) /\
  (exists c, get_co (sw_sched w) co = Ok c /\ co_union_ c = scheduler_ (sc_id (sw_sched w)) /\ is_Some (co_ctx c)) /\
  (exists pre, prog (wt_prog wt) = pre ++ wt_op wt :: wt_rest wt) /\
  (exists wc, sw_ctxs w !! wt_wid wt = Some wc /\ wc_co wc = Some co /\ wc_buf wc = op_addr (wt_op wt) /\
     (wt_wid wt ∈ queue w -> wc_state wc = kInit)) /\
  ((wt_wid wt ∈ queue w /\ ~ co ∈ woken /\ L (wt_prog wt) = wt_op wt :: wt_rest wt /\ G (wt_prog wt) = [] /\
    stuck items (wt_op wt)) \/
   (~ wt_wid wt ∈ queue w /\ co ∈ woken /\ L (wt_prog wt) = wt_rest wt /\
    G (wt_prog wt) = owed (sw_mem w) (wt_op wt))).

(** The coroutines that wait: [todo] are those the loop is about to resume, [off] the
    functions that are not in an operation. *)
Record waiters_inv (w : world) (L : Closure -> list chan_op) (G : Closure -> list (list Z)) (todo : list nat)
  (off : list Closure) (items : list (list Z)) : Prop := {
  wi_all : forall co wt, ca_waiting (sw_user w) !! co = Some wt ->
    waiter_inv w L G (todo ++ readys w) items co wt;
  wi_queue : forall wid, wid ∈ queue w -> exists co wt, ca_waiting (sw_user w) !! co = Some wt /\ wt_wid wt = wid;
  wi_nodup : NoDup (queue w);
  wi_woken : NoDup (todo ++ readys w);
  wi_todo : forall co, co ∈ todo ++ readys w -> is_Some (ca_waiting (sw_user w) !! co);
  wi_progs : forall co co' wt wt', ca_waiting (sw_user w) !! co = Some wt -> ca_waiting (sw_user w) !! co' = Some wt' ->
    wt_prog wt = wt_prog wt' -> co = co';
  wi_off : forall co wt, ca_waiting (sw_user w) !! co = Some wt -> ~ wt_prog wt ∈ off;
  wi_left : forall f, L f <> [] -> f ∈ off \/ exists co wt, ca_waiting (sw_user w) !! co = Some wt /\ wt_prog wt = f;
  wi_owed : forall f, G f <> [] -> exists co wt, ca_waiting (sw_user w) !! co = Some wt /\ wt_prog wt = f
}.

(** The blocks and the logs. *)
Record blocks_inv (w : world) (L : Closure -> list chan_op) (G : Closure -> list (list Z)) (items : list (list Z)) : Prop := {
  bi_send : forall f p, Send p ∈ prog f -> block_of (sw_mem w) p = block_of m0 p;
  bi_fifo : map snd (ca_in (sw_user w)) = map snd (ca_out (sw_user w)) ++ items;
  bi_in : forall f, of_prog f (ca_in (sw_user w)) ++ sent_by (L f) = sent_by (prog f);
  bi_out : forall f, (length (of_prog f (ca_out (sw_user w))) + recvs (L f) = recvs (prog f))%nat;
  bi_got : forall f, of_prog f (ca_out (sw_user w)) = of_prog f (ca_got (sw_user w)) ++ G f;
  bi_suffix : forall f, exists pre, prog f = pre ++ L f
}.

(** The scheduler and the channel. *)
Record run_inv (evtfd : Z) (w : world) (items : list (list Z)) : Prop := {
  ri_sound : sound malloc stack_size scratch (sw_sched w);
  ri_main : sc_main (sw_sched w) = 0%nat;
  ri_timers : timer_ (sc_timers (sw_sched w)) = [];
  ri_new : new_tasks_ (sc_tasks (sw_sched w)) = [];
  ri_stop : sc_stop (sw_sched w) = false;
  ri_timeout : sc_timeout (sw_sched w) = false;
  ri_fd : wake_up_fd_ (sc_epoll (sw_sched w)) = evtfd;
  ri_remote : ca_remote (sw_user w) = [];
  ri_chan : chan_inv n (ca_fresh (sw_user w)) (view w) items;
  ri_blk : ch_blk_size (ca_chan (sw_user w)) = blk;
  ri_ms : ch_ms (ca_chan (sw_user w)) = u32 (-1)
}.

Record inv (evtfd : Z) (w : world) (L : Closure -> list chan_op) (G : Closure -> list (list Z)) (todo : list nat)
  (off : list Closure) (items : list (list Z)) : Prop := {
  inv_run : run_inv evtfd w items;
  inv_waiters : waiters_inv w L G todo off items;
  inv_blocks : blocks_inv w L G items
}.

(** ** Lemmas: blocks and logs *)

Lemma of_prog_app f l1 l2 : of_prog f (l1 ++ l2) = of_prog f l1 ++ of_prog f l2.
Proof. unfold of_prog. by rewrite filter_app, map_app. Qed.

Lemma of_prog_one f g b : of_prog f [(g, b)] = if decide (g = f) then [b] else [].
Proof. unfold of_prog. cbn. by case_decide. Qed.

Lemma sent_by_cons op ops : sent_by (op :: ops) = sent_by [op] ++ sent_by ops.
Proof. by destruct op. Qed.

Lemma recvs_cons op ops : recvs (op :: ops) = (recvs [op] + recvs ops)%nat.
Proof. by destruct op. Qed.

Lemma block_of_write m a b p :
  disjoint_ranges a (Z.of_nat (length b)) p blk -> block_of (write_bytes m a b) p = block_of m p.
Proof.
  intros Hd. unfold block_of, read_bytes. apply map_ext_in. intros i Hi. apply in_seq in Hi.
  apply write_bytes_outside. unfold disjoint_ranges in Hd. lia.
Qed.

Lemma block_of_same m b p : length b = Z.to_nat blk -> block_of (write_bytes m p b) p = b.
Proof. intros Hl. unfold block_of. rewrite <- Hl. apply read_write_bytes. Qed.

Lemma block_of_kept m m' f op :
  layout_ok -> op ∈ prog f -> (forall x, ~ scratch x -> m' x = m x) -> block_of m' (op_addr op) = block_of m (op_addr op).
Proof.
  intros (Hl & _) Hop Hm. unfold block_of, read_bytes. apply map_ext_in. intros i Hi. apply in_seq in Hi.
  apply Hm. eapply Hl; [exact Hop|]. lia.
Qed.

Lemma disjoint_sym a k b l : disjoint_ranges a k b l -> disjoint_ranges b l a k.
Proof. unfold disjoint_ranges. lia. Qed.

(** A block received by [f] spares what others send and receive. *)
Lemma recv_spares m f p b g op :
  layout_ok -> length b = Z.to_nat blk -> 0 <= blk -> Recv p ∈ prog f -> op ∈ prog g ->
  match op with Recv _ => f <> g | Send _ => True end ->
  block_of (write_bytes m p b) (op_addr op) = block_of m (op_addr op).
Proof.
  intros (_ & Hs & Hr) Hl Hb Hp Hop Hne. apply block_of_write. rewrite Hl, Z2Nat.id by done.
  destruct op as [q|q]; cbn; [by apply (Hr f g)|by apply (Hs f g)].
Qed.

(** ** Lemmas: what a switch does to the invariant *)

Lemma put_co_same s co c : get_co s co = Ok c -> put_co s co c = s.
Proof.
  unfold get_co, put_co. destruct (_ !! co) as [c'|] eqn:E; [|done]. intros [= ->].
  rewrite list_insert_id by done. destruct s as [? ? ? ? ? ? ? ? ? [? ? ?]]. done.
Qed.

Lemma chan_inv_world k v v' items :
  chan_inv n k v items -> cw_ch v' = cw_ch v -> cw_ctx v' = cw_ctx v ->
  (forall wc, waiter_ok (cw_cos v) wc -> waiter_ok (cw_cos v') wc) -> chan_inv n k v' items.
Proof.
  intros (Hr & (Hq & Hf & Hb) & Hp) Hch Hcx Hcos. unfold chan_inv, ctxs_inv. rewrite Hch, Hcx. split_and!; try done.
  eapply Forall_impl; [exact Hq|]. intros i (x & Hx & Hok). exists x. split; [done|by apply Hcos].
Qed.

Lemma waiter_ok_kept cos cos' wc : Forall2 co_kept cos cos' -> waiter_ok cos wc -> waiter_ok cos' wc.
Proof.
  intros Hk (Hst & co & c & s & Hco & Hc & Hu). split; [done|].
  destruct (Forall2_lookup_l _ _ _ _ _ Hk Hc) as (c' & Hc' & (_ & _ & _ & Hu' & _)).
  exists co, c', s. split_and!; congruence.
Qed.

Lemma inv_kept evtfd w w' L G todo off items :
  layout_ok -> kept scratch w w' -> sound malloc stack_size scratch (sw_sched w') ->
  inv evtfd w L G todo off items -> inv evtfd w' L G todo off items.
Proof.
  intros Hlay (Hk & Hm & _ & _ & Hx & Hu) Hs [[] [] []].
  pose proof Hk as (Hid & _ & Hep & Hmain & Htk & Htm & Hto & Hstop & _ & Hpool). split.
  - split; rewrite ?Hu, ?Hmain, ?Htm, ?Htk, ?Hep, ?Hto, ?Hstop; try done.
    eapply chan_inv_world; [exact ri_chan0|cbn; by rewrite Hu|done|].
    intros wc. by apply waiter_ok_kept.
  - split; rewrite ?Hu, ?Htk; try done. intros co wt Hwt.
    destruct (wi_all0 co wt Hwt) as (Hne & (c & Hc & Huc & Hcc) & (pre & Hpre) & Hwc & Hst).
    unfold waiter_inv. rewrite Hu, Hx, Hmain, Hid. split_and!; try done; [|by exists pre|].
    + destruct (sched_kept_co _ _ _ _ Hk Hc) as (c' & Hc' & (_ & _ & _ & Hu' & _ & Hc2)). exists c'.
      split_and!; [done|congruence|auto].
    + destruct Hst as [Hst|(Hq & Hin & HL & HG)]; [by left|]. right. split_and!; try done.
      rewrite HG. unfold owed. destruct (wt_op wt) as [p|p] eqn:Eop; [|done]. f_equal. symmetry.
      apply (block_of_kept _ _ (wt_prog wt) (Recv p)); [done| |done].
      rewrite Hpre. apply elem_of_app. right. left.
  - split; rewrite ?Hu; try done. intros f p Hp. rewrite <- (bi_send0 f p Hp).
    by apply (block_of_kept _ _ f (Send p)).
Qed.

(** ** Lemmas: waiters under one operation *)

(** The waiter behind an entry of the queue. *)
Lemma queue_waiter w L G todo off items wid :
  waiters_inv w L G todo off items -> wid ∈ queue w ->
  exists co wt wc, ca_waiting (sw_user w) !! co = Some wt /\ wt_wid wt = wid /\ sw_ctxs w !! wid = Some wc /\
    wc_co wc = Some co /\ wc_buf wc = op_addr (wt_op wt) /\ wc_state wc = kInit /\
    ~ co ∈ todo ++ readys w /\ L (wt_prog wt) = wt_op wt :: wt_rest wt /\ G (wt_prog wt) = [] /\
    stuck items (wt_op wt) /\ wt_op wt ∈ prog (wt_prog wt).
Proof.
  intros [] Hq. destruct (wi_queue0 wid Hq) as (co & wt & Hwt & <-).
  destruct (wi_all0 co wt Hwt) as (_ & _ & (pre & Hpre) & (wc & Hwc & Hco & Hbuf & Hst) & [(_ & Hn & HL & HG & Hs)|(Hn & _)]);
    [|done].
  exists co, wt, wc. split_and!; auto. rewrite Hpre. apply elem_of_app. right. left.
Qed.

Lemma queue_first_live w L G todo off items :
  waiters_inv w L G todo off items ->
  first_live (sw_ctxs w) (queue w) = match queue w with [] => None | wid :: rest => Some (wid, rest) end.
Proof.
  intros Hi. destruct (queue w) as [|wid rest] eqn:Eq; [done|].
  destruct (queue_waiter w L G todo off items wid Hi) as (co & wt & wc & _ & _ & Hwc & _ & _ & Hst & _);
    [rewrite Eq; left|]. cbn. by rewrite Hwc, Hst.
Qed.

(** Nobody waits, and the running function has done an operation. *)
Lemma waiters_local w w' L G todo off items items' f rest :
  waiters_inv w L G todo off items -> f ∈ off -> queue w = [] -> queue w' = [] ->
  sw_sched w' = sw_sched w -> sw_ctxs w' = sw_ctxs w -> ca_waiting (sw_user w') = ca_waiting (sw_user w) ->
  (forall co wt, ca_waiting (sw_user w) !! co = Some wt ->
     block_of (sw_mem w') (op_addr (wt_op wt)) = block_of (sw_mem w) (op_addr (wt_op wt))) ->
  waiters_inv w' (<[f := rest]> L) G todo off items'.
Proof.
  intros [] Hf Hq Hq' Hs Hx Hw Hm. split; rewrite ?Hs, ?Hw, ?Hq'; try done; try (by rewrite ?Hq in *).
  - intros co wt Hwt. destruct (wi_all0 co wt Hwt) as (? & ? & ? & (wc & Hwc) & [(Hin & _)|(_ & Hto & HL & HG)]).
    { by rewrite Hq in Hin; apply elem_of_nil in Hin. }
    assert (f <> wt_prog wt) by (intros ->; by eapply wi_off0).
    unfold waiter_inv. rewrite Hs, Hx, Hq'. split_and!; try done.
    + exists wc. destruct_and!. split_and!; try done. by intros ?%elem_of_nil.
    + right. rewrite fn_lookup_insert_ne by done. split_and!; try done; [by intros ?%elem_of_nil|].
      rewrite HG. unfold owed. destruct (wt_op wt) as [p|p] eqn:Eop; [|done]. specialize (Hm co wt Hwt). rewrite Eop in Hm. cbn in Hm. by rewrite Hm.
  - intros g Hg. destruct (decide (f = g)) as [<-|Hne]; [by left|]. rewrite fn_lookup_insert_ne in Hg by done. auto.
Qed.

(** The first of the queue is served: its operation is done, and it is ready. *)
Lemma waiters_wake w w' L G todo off items items' f rest wid q co wt wc :
  waiters_inv w L G todo off items -> f ∈ off -> queue w = wid :: q -> queue w' = q ->
  ca_waiting (sw_user w) !! co = Some wt -> wt_wid wt = wid -> sw_ctxs w !! wid = Some wc ->
  sw_ctxs w' = <[wid := mkWaitCtx (wc_co wc) kReady (wc_buf wc)]> (sw_ctxs w) ->
  sc_id (sw_sched w') = sc_id (sw_sched w) -> sc_main (sw_sched w') = sc_main (sw_sched w) ->
  sc_pool (sw_sched w') = sc_pool (sw_sched w) -> readys w' = readys w ++ [co] ->
  ca_waiting (sw_user w') = ca_waiting (sw_user w) ->
  (forall co' wt', co' <> co -> ca_waiting (sw_user w) !! co' = Some wt' ->
     block_of (sw_mem w') (op_addr (wt_op wt')) = block_of (sw_mem w) (op_addr (wt_op wt'))) ->
  (forall op, stuck items op -> stuck items' op) ->
  let L' := <[f := rest]> (<[wt_prog wt := wt_rest wt]> L) in
  let G' := <[wt_prog wt := owed (sw_mem w') (wt_op wt)]> G in
  waiters_inv w' L' G' todo off items'.
Proof.
  intros Hi Hf Hq Hq' Hwt Hwid Hwc Hx Hid Hmain Hpool Hrd Hw Hm Hstk L' G'. pose proof Hi as [].
  assert (Hnd : NoDup (wid :: q)) by (rewrite <- Hq; done). apply NoDup_cons in Hnd as [Hnin Hnd].
  destruct (wi_all0 co wt Hwt) as (Hne & Hco & Hpre & (wc' & Hwc' & Hcw & Hbuf & _) & Hst).
  rewrite Hwid in *. assert (wc' = wc) as -> by congruence.
  destruct Hst as [(_ & Hnw & HL & HG & _)|(Hout & _)]; [|by destruct Hout; rewrite Hq; left].
  assert (Hfp : f <> wt_prog wt) by (intros ->; by eapply wi_off0).
  assert (Hgetco : forall i, get_co (sw_sched w') i = get_co (sw_sched w) i) by (intros i; unfold get_co; by rewrite Hpool).
  split; rewrite ?Hw, ?Hrd, ?Hq'; try done.
  - intros co' wt' Hwt'. destruct (wi_all0 co' wt' Hwt') as (Hne' & Hco' & Hpre' & (wc' & Hwc2 & Hcw' & Hbuf' & Hst') & Hd).
    unfold waiter_inv. rewrite Hid, Hmain, Hgetco, Hx, Hq', app_assoc. split_and!; try done.
    + destruct (decide (wt_wid wt' = wid)) as [E|Hn].
      * rewrite E in Hwc2 |- *. rewrite lookup_insert_eq. eexists. split; [done|]. cbn. assert (wc' = wc) as -> by congruence.
        by split_and!.
      * rewrite lookup_insert_ne by done. exists wc'. split_and!; try done. intros Hin. apply Hst'. rewrite Hq. by right.
    + destruct (decide (co' = co)) as [->|Hn].
      * assert (wt' = wt) as -> by congruence. right. rewrite Hwid. unfold L', G'.
        rewrite fn_lookup_insert_ne by done. rewrite !fn_lookup_insert. split_and!; try done.
        apply elem_of_app. right. left.
      * assert (Hpn : wt_prog wt <> wt_prog wt') by (intros E; apply Hn; symmetry; by eapply wi_progs0).
        assert (Hfn : f <> wt_prog wt') by (intros ->; by eapply wi_off0).
        unfold L', G'. rewrite !fn_lookup_insert_ne by done.
        destruct Hd as [(Hin & Hnt & HL' & HG' & Hs)|(Hin & Ht & HL' & HG')].
        -- left. rewrite Hq in Hin. apply elem_of_cons in Hin as [E|Hin].
           { rewrite E in Hwc2. congruence. }
           split_and!; auto. intros [?|?%list_elem_of_singleton]%elem_of_app; done.
        -- right. split_and!; try done; [intros ?; apply Hin; rewrite Hq; by right|apply elem_of_app; by left|].
           rewrite HG'. unfold owed. destruct (wt_op wt') as [p|p] eqn:Eop; [|done]. specialize (Hm co' wt' Hn Hwt').
           rewrite Eop in Hm. cbn in Hm. by rewrite Hm.
  - intros i Hin. apply wi_queue0. rewrite Hq. by right.
  - rewrite app_assoc. apply NoDup_app. split; [done|]. split; [|apply NoDup_singleton].
    intros x Hx1 ->%list_elem_of_singleton. done.
  - intros i. rewrite app_assoc. intros [Hin| ->%list_elem_of_singleton]%elem_of_app; [auto|by exists wt].
  - intros g. unfold L'. destruct (decide (f = g)) as [<-|Hn]; [by left|]. rewrite fn_lookup_insert_ne by done.
    destruct (decide (wt_prog wt = g)) as [<-|Hn2]; [right; by exists co, wt|]. rewrite fn_lookup_insert_ne by done. auto.
  - intros g. unfold G'. destruct (decide (wt_prog wt = g)) as [<-|Hn2]; [by exists co, wt|].
    rewrite fn_lookup_insert_ne by done. auto.
Qed.

(** The running coroutine joins the queue. *)
Lemma waiters_block w w' L G todo off items f op rest co c k wc :
  waiters_inv w L G todo (f :: off) items -> ~ f ∈ off -> L f = op :: rest -> G f = [] -> stuck items op ->
  (exists pre, prog f = pre ++ op :: rest) ->
  co <> sc_main (sw_sched w) -> get_co (sw_sched w') co = Ok c -> co_union_ c = scheduler_ (sc_id (sw_sched w)) ->
  is_Some (co_ctx c) -> ca_waiting (sw_user w) !! co = None ->
  (forall i, k <= i -> sw_ctxs w !! i = None)%nat -> wc_co wc = Some co -> wc_buf wc = op_addr op -> wc_state wc = kInit ->
  queue w' = queue w ++ [k] -> sw_ctxs w' = <[k := wc]> (sw_ctxs w) -> sw_mem w' = sw_mem w ->
  sc_id (sw_sched w') = sc_id (sw_sched w) -> sc_main (sw_sched w') = sc_main (sw_sched w) ->
  (forall i, i <> co -> get_co (sw_sched w') i = get_co (sw_sched w) i) -> readys w' = readys w ->
  ca_waiting (sw_user w') = <[co := mkWaiting f op k rest]> (ca_waiting (sw_user w)) ->
  waiters_inv w' L G todo off items.
Proof.
  intros Hi Hf HL HG Hstk Hpre Hmain Hco Hun Hctx Hnone Hfresh Hwco Hbuf Hst Hq Hx Hm Hid Hmn Hget Hrd Hw.
  assert (Hk : ~ k ∈ queue w).
  { intros Hin. destruct (queue_waiter _ _ _ _ _ _ _ Hi Hin) as (? & ? & ? & _ & _ & Hc & _). by rewrite Hfresh in Hc. }
  pose proof Hi as [].
  assert (Hnt : ~ co ∈ todo ++ readys w) by (intros [? ?]%wi_todo0; congruence).
  assert (Hlk : forall co' wt', ca_waiting (sw_user w') !! co' = Some wt' ->
    (co' = co /\ wt' = mkWaiting f op k rest) \/ (co' <> co /\ ca_waiting (sw_user w) !! co' = Some wt')).
  { intros co' wt'. rewrite Hw. destruct (decide (co = co')) as [<-|Hn].
    - rewrite lookup_insert_eq. intros [= <-]. by left.
    - rewrite lookup_insert_ne by done. by right. }
  assert (Hmono : forall co' wt', ca_waiting (sw_user w) !! co' = Some wt' -> ca_waiting (sw_user w') !! co' = Some wt').
  { intros co' wt' Hwt'. rewrite Hw. rewrite lookup_insert_ne; [done|congruence]. }
  assert (Hoff : forall co' wt', ca_waiting (sw_user w) !! co' = Some wt' -> wt_prog wt' <> f).
  { intros co' wt' Hwt' <-. eapply wi_off0; [exact Hwt'|left]. }
  split; rewrite ?Hrd, ?Hq; try done.
  - intros co' wt' [[-> ->]|[Hn Hwt']]%Hlk; unfold waiter_inv; rewrite Hid, Hmn, Hx, Hq, Hm; cbn [wt_prog wt_op wt_wid wt_rest].
    + split_and!; try done; [by exists c|exists wc; rewrite lookup_insert_eq; done|]. left. split_and!; try done.
      apply elem_of_app. right. left.
    + destruct (wi_all0 co' wt' Hwt') as (? & Hc & ? & (wc' & Hwc' & ? & ? & Hst') & Hd). rewrite Hget by done.
      assert (Hne : wt_wid wt' <> k) by (intros E; rewrite E, Hfresh in Hwc'; done).
      split_and!; try done.
      * exists wc'. rewrite lookup_insert_ne by done. split_and!; try done.
        intros [?|?%list_elem_of_singleton]%elem_of_app; [auto|done].
      * destruct Hd as [(? & ?)|(Hn2 & ?)]; [left; split; [apply elem_of_app; by left|done]|].
        right. split; [|done]. intros [?|?%list_elem_of_singleton]%elem_of_app; done.
  - intros i [Hin| ->%list_elem_of_singleton]%elem_of_app.
    + destruct (wi_queue0 i Hin) as (co' & wt' & Hwt' & E). exists co', wt'. auto.
    + exists co, (mkWaiting f op k rest). rewrite Hw, lookup_insert_eq. done.
  - apply NoDup_app. split; [done|]. split; [|apply NoDup_singleton]. by intros x Hx1 ->%list_elem_of_singleton.
  - intros i Hin. destruct (wi_todo0 i Hin) as [wt' Hwt']. exists wt'. auto.
  - intros c1 c2 w1 w2 [[-> ->]|[Hn1 H1]]%Hlk [[-> ->]|[Hn2 H2]]%Hlk; cbn [wt_prog]; intros E; try done.
    + by destruct (Hoff c2 w2 H2).
    + by destruct (Hoff c1 w1 H1).
    + by eapply wi_progs0.
  - intros c1 w1 [[-> ->]|[Hn1 H1]]%Hlk; [done|]. intros Hin. eapply wi_off0; [exact H1|by right].
  - intros g Hg. destruct (decide (g = f)) as [->|Hn].
    + right. exists co, (mkWaiting f op k rest). rewrite Hw, lookup_insert_eq. done.
    + destruct (wi_left0 g Hg) as [[?|?]%elem_of_cons|(c1 & w1 & H1 & E)]; [done|by left|right; exists c1, w1; auto].
  - intros g Hg. destruct (wi_owed0 g Hg) as (c1 & w1 & H1 & E). exists c1, w1. auto.
Qed.

(** ** Lemmas: logs under one operation *)

Lemma blocks_step w w' L G L' G' items items' i o g :
  blocks_inv w L G items ->
  (forall f p, Send p ∈ prog f -> block_of (sw_mem w') p = block_of (sw_mem w) p) ->
  ca_in (sw_user w') = ca_in (sw_user w) ++ i -> ca_out (sw_user w') = ca_out (sw_user w) ++ o ->
  ca_got (sw_user w') = ca_got (sw_user w) ++ g ->
  items ++ map snd i = map snd o ++ items' ->
  (forall f, of_prog f i ++ sent_by (L' f) = sent_by (L f)) ->
  (forall f, (length (of_prog f o) + recvs (L' f) = recvs (L f))%nat) ->
  (forall f, G f ++ of_prog f o = of_prog f g ++ G' f) ->
  (forall f, exists pre, L f = pre ++ L' f) ->
  blocks_inv w' L' G' items'.
Proof.
  intros [] Hm Hi Ho Hg Hfifo Hin Hout Hgot Hsuf. split; rewrite ?Hi, ?Ho, ?Hg.
  - intros f p Hp. rewrite (Hm f p Hp). by apply (bi_send0 f).
  - by rewrite !map_app, bi_fifo0, <- !app_assoc, Hfifo.
  - intros f. by rewrite of_prog_app, <- app_assoc, Hin.
  - intros f. rewrite of_prog_app, length_app. specialize (bi_out0 f). specialize (Hout f). lia.
  - intros f. by rewrite !of_prog_app, bi_got0, <- !app_assoc, Hgot.
  - intros f. destruct (bi_suffix0 f) as [p1 E1]. destruct (Hsuf f) as [p2 E2]. exists (p1 ++ p2).
    by rewrite <- app_assoc, <- E2.
Qed.

(** ** Lemmas: the world after an operation *)

Lemma set_pool_same s : set_sc_pool s (mkCopoll (cp_id (sc_pool s)) (cp_idle (sc_pool s)) (cp_pool (sc_pool s))) = s.
Proof. by destruct s as [? ? ? ? ? ? ? ? ? [? ? ?]]. Qed.

(** Nobody is woken. *)
Lemma put_view_quiet (w : world) v :
  cw_cos v = cp_pool (sc_pool (sw_sched w)) -> cw_ready v = [] ->
  put_view w v = set_user_chan (set_sw_ctxs (set_sw_mem w (cw_m v)) (cw_ctx v)) (cw_ch v).
Proof. intros Hc Hr. unfold put_view. rewrite Hc, Hr, set_pool_same. by destruct w. Qed.

(** One coroutine of this scheduler is. *)
Lemma put_view_wakes (w : world) v co :
  cw_cos v = cp_pool (sc_pool (sw_sched w)) -> cw_ready v = [(sc_id (sw_sched w), co)] ->
  put_view w v =
    set_sw_sched (set_user_chan (set_sw_ctxs (set_sw_mem w (cw_m v)) (cw_ctx v)) (cw_ch v))
      (SchedulerImpl_AddReadyTask (sw_sched w) co answers).
Proof. intros Hc Hr. unfold put_view. rewrite Hc, Hr, set_pool_same. cbn [wake_all sc_id sw_sched set_sw_sched set_user_chan set_sw_user set_sw_ctxs set_sw_mem]. by rewrite Z.eqb_refl. Qed.

Lemma sound_ready s co :
  sound malloc stack_size scratch s -> sound malloc stack_size scratch (SchedulerImpl_AddReadyTask s co answers).
Proof. done. Qed.

Lemma ready_fd s co : wake_up_fd_ (sc_epoll (SchedulerImpl_AddReadyTask s co answers)) = wake_up_fd_ (sc_epoll s).
Proof. unfold SchedulerImpl_AddReadyTask, Epoll_Wakeup. cbn -[atomic_compare_swap]. by destruct (atomic_compare_swap _ _ _ _). Qed.

Lemma on_stack_false s co c p :
  sound malloc stack_size scratch s -> sc_running s = Some co -> get_co s co = Ok c -> ~ scratch p ->
  (forall i y, malloc i <= y < malloc i + stack_size + kSmallBuffer -> scratch y) ->
  SchedulerImpl_on_stack s p = Ok false.
Proof.
  intros Hs Hr Hc Hp Hm. unfold SchedulerImpl_on_stack, get_running. rewrite Hr. cbn [obind]. rewrite Hc. cbn [obind].
  destruct (sound_co _ _ _ s co c Hs Hc) as [Hok _].
  destruct (sound_stack malloc stack_size scratch s c Hs Hok) as (st & -> & _ & Hpl). cbn [obind]. f_equal.
  destruct Hpl as [[-> ->]|(i & -> & ->)]; cbn [from_option id].
  - destruct (Z.leb_spec 0 p), (Z.ltb_spec p 0); cbn; done || lia.
  - destruct (Z.leb_spec (malloc i) p), (Z.ltb_spec p (malloc i + stack_size)); cbn; try done.
    exfalso. apply Hp, (Hm i). unfold kSmallBuffer. lia.
Qed.

(** ** Lemmas: one operation of the running coroutine *)

(** The assumptions: the region for switching, buffers outside of it, blocks of at least
    a byte, a channel of at least one block, state bytes of wait contexts that happen to
    be [kInit], and contexts of coroutines that lie in the region. *)
Context (Hsize : 128 <= stack_size)
  (Hmalloc : forall i x, malloc i <= x < malloc i + stack_size + kSmallBuffer -> scratch x)
  (Hlay : layout_ok) (Hblk : 0 < blk) (Hn : (1 <= n)%nat)
  (Hjunk : forall i, wait_junk i = kInit) (Hpark : forall co, ctx_placed scratch (park co)).
(** The functions there are. *)
Context (fs : list Closure) (Hfs : NoDup fs) (Hprog : forall f, prog f <> [] -> f ∈ fs).

(** Operations to do, twice, and coroutines to resume: what a run uses up. *)
Definition weight (L : Closure -> list chan_op) (woken : nat) : nat :=
  2 * sum_list (map (fun f => length (L f)) fs) + woken.

(** Coroutine [co] runs function [f] and has the operations [rest] before it. *)
Record running (evtfd : Z) (w : world) (L : Closure -> list chan_op) (G : Closure -> list (list Z)) (todo : list nat)
  (off : list Closure) (items : list (list Z)) (co : nat) (f : Closure) (rest : list chan_op) : Prop := {
  ru_inv : inv evtfd w L G todo (f :: off) items;
  ru_left : L f = rest;
  ru_off : ~ f ∈ off;
  ru_running : sc_running (sw_sched w) = Some co;
  ru_main : co <> sc_main (sw_sched w);
  ru_co : exists c, get_co (sw_sched w) co = Ok c /\ is_Some (co_ctx c);
  ru_waiting : ca_waiting (sw_user w) !! co = None
}.

Ltac split_outcome E :=
  repeat match type of E with
  | Ok _ = Ok _ => injection E as <- <-
  | Fault _ = Ok _ => done
  | (if ?b then _ else _) = Ok _ => destruct b
  | obind ?x _ = Ok _ => destruct x; cbn [obind] in E
  | (let '(_, _) := ?x in _) = Ok _ => destruct x
  | match ?x with Some _ => _ | None => _ end = Ok _ => destruct x
  end.

Lemma Write_ms v cl p v' r : ChannelImpl_Write v cl p = Ok (v', r) -> ch_ms (cw_ch v') = ch_ms (cw_ch v).
Proof. unfold ChannelImpl_Write. intros E. split_outcome E; reflexivity. Qed.

Lemma Read_ms v cl p v' r : ChannelImpl_Read v cl p = Ok (v', r) -> ch_ms (cw_ch v') = ch_ms (cw_ch v).
Proof. unfold ChannelImpl_Read. intros E. split_outcome E; reflexivity. Qed.

(** The functions whose operations change lose some. *)
Lemma sum_insert (L : Closure -> list chan_op) (l : list Closure) f ops : NoDup l -> f ∈ l ->
  (sum_list (map (fun g => length (<[f := ops]> L g)) l) + length (L f) =
   sum_list (map (fun g => length (L g)) l) + length ops)%nat.
Proof.
  induction l as [|g l IH]; intros Hnd Hin; [by apply elem_of_nil in Hin|]. apply NoDup_cons in Hnd as [Hg Hnd].
  cbn [map sum_list]. destruct (decide (f = g)) as [<-|Hne].
  - rewrite fn_lookup_insert.
    assert (E : map (fun g => length (<[f := ops]> L g)) l = map (fun g => length (L g)) l).
    { apply map_ext_in. intros g Hg'. rewrite fn_lookup_insert_ne; [done|]. intros <-. by apply Hg, list_elem_of_In. }
    rewrite E. cbn. lia.
  - rewrite fn_lookup_insert_ne by done. apply elem_of_cons in Hin as [?|Hin]; [done|]. specialize (IH Hnd Hin). cbn. lia.
Qed.

Lemma caller_ok evtfd w L G todo off items co f op rest :
  running evtfd w L G todo off items co f (op :: rest) -> op ∈ prog f /\
  chan_caller w (op_addr op) = Ok (mkCaller co false (wait_block (ca_fresh (sw_user w))) kInit (ca_fresh (sw_user w))
                                     (sc_id (sw_sched w))).
Proof.
  intros [[[] _ []] HL _ Hr _ (c & Hc & _) _]. destruct (bi_suffix0 f) as [pre Hpre].
  assert (Hop : op ∈ prog f) by (rewrite Hpre, HL; apply elem_of_app; right; left). split; [done|].
  unfold chan_caller, get_running. rewrite Hr. cbn [obind].
  rewrite (on_stack_false _ co c); try done; [cbn [obind]; by rewrite Hjunk|].
  eapply Hlay; [exact Hop|lia].
Qed.

Lemma block_at_blk ch m p : ch_blk_size ch = blk -> block_at ch m p = block_of m p.
Proof. intros E. unfold block_at, block_of. by rewrite E. Qed.

(** The scheduler and the channel after an operation that ended with channel [v]. *)
Lemma run_step evtfd w w' items items' v :
  run_inv evtfd w items -> sound malloc stack_size scratch (sw_sched w') ->
  sc_main (sw_sched w') = sc_main (sw_sched w) -> sc_timers (sw_sched w') = sc_timers (sw_sched w) -> new_tasks_ (sc_tasks (sw_sched w')) = new_tasks_ (sc_tasks (sw_sched w)) ->
  sc_stop (sw_sched w') = sc_stop (sw_sched w) -> sc_timeout (sw_sched w') = sc_timeout (sw_sched w) ->
  wake_up_fd_ (sc_epoll (sw_sched w')) = wake_up_fd_ (sc_epoll (sw_sched w)) ->
  ca_remote (sw_user w') = ca_remote (sw_user w) -> ca_chan (sw_user w') = cw_ch v ->
  ca_fresh (sw_user w') = S (ca_fresh (sw_user w)) -> chan_inv n (S (ca_fresh (sw_user w))) v items' ->
  sw_ctxs w' = cw_ctx v -> cp_pool (sc_pool (sw_sched w')) = cw_cos v ->
  ch_blk_size (cw_ch v) = ch_blk_size (ca_chan (sw_user w)) -> ch_ms (cw_ch v) = ch_ms (ca_chan (sw_user w)) ->
  run_inv evtfd w' items'.
Proof.
  intros [] Hs Hmain Htm Hnew Hstop Hto Hfd Hrem Hch Hfr Hinv Hx Hp Hb Hms.
  split; rewrite ?Hmain, ?Htm, ?Hnew, ?Hstop, ?Hto, ?Hfd, ?Hrem, ?Hch, ?Hfr, ?Hb, ?Hms; try done.
  eapply chan_inv_world; [exact Hinv|done|done|]. intros wc. cbn. by rewrite Hp.
Qed.

(** A function in which the running coroutine does its next operation has nothing owed. *)
Lemma running_owed evtfd w L G todo off items co f ops :
  running evtfd w L G todo off items co f ops -> G f = [].
Proof.
  intros [[_ [] _] _ _ _ _ _ _]. destruct (G f) as [|b l] eqn:E; [done|].
  destruct (wi_owed0 f) as (co' & wt & Hwt & Hf); [by rewrite E|]. destruct (wi_off0 _ _ Hwt). rewrite Hf. left.
Qed.

Lemma waiting_op w L G todo off items co wt :
  waiters_inv w L G todo off items -> ca_waiting (sw_user w) !! co = Some wt -> wt_op wt ∈ prog (wt_prog wt).
Proof.
  intros [] Hwt. destruct (wi_all0 co wt Hwt) as (_ & _ & (pre & ->) & _). apply elem_of_app. right. left.
Qed.

(** The operation is done, nobody else is concerned. *)
Lemma running_local evtfd w w' L G todo off items items' co f op rest i o g v :
  running evtfd w L G todo off items co f (op :: rest) ->
  queue w = [] -> ch_queue (cw_ch v) = [] -> cw_ctx v = sw_ctxs w -> cw_cos v = cp_pool (sc_pool (sw_sched w)) ->
  chan_inv n (S (ca_fresh (sw_user w))) v items' ->
  ch_blk_size (cw_ch v) = ch_blk_size (ca_chan (sw_user w)) -> ch_ms (cw_ch v) = ch_ms (ca_chan (sw_user w)) ->
  w' = add_logs (set_user_chan (set_sw_ctxs (set_sw_mem w (cw_m v)) (cw_ctx v)) (cw_ch v)) i o g ->
  (forall h op', op' ∈ prog h -> (match op' with Recv _ => f <> h | Send _ => True end) ->
     block_of (cw_m v) (op_addr op') = block_of (sw_mem w) (op_addr op')) ->
  items ++ map snd i = map snd o ++ items' ->
  (forall h, of_prog h i = if decide (h = f) then sent_by [op] else []) ->
  (forall h, length (of_prog h o) = if decide (h = f) then recvs [op] else 0%nat) ->
  (forall h, of_prog h o = of_prog h g) ->
  running evtfd w' (<[f := rest]> L) G todo off items' co f rest.
Proof.
  intros Hrun Hq Hq' Hx Hc Hinv Hb Hms -> Hm Hfifo Hin Hout Hgot.
  pose proof (running_owed _ _ _ _ _ _ _ _ _ _ Hrun) as HG. destruct Hrun as [[Hri Hwi Hbi] HL Hoff Hr Hmain Hco Hw].
  split; try done; [|by rewrite fn_lookup_insert]. split.
  - eapply run_step; try done. apply Hri.
  - eapply waiters_local; try done; [by left|]. intros co' wt Hwt. cbn.
    apply (Hm (wt_prog wt)); [by eapply waiting_op|]. destruct (wt_op wt); [|done].
    intros E. destruct Hwi as []. eapply wi_off0; [exact Hwt|]. rewrite <- E. left.
  - eapply blocks_step; try done.
    + intros h p Hp. by apply (Hm h (Send p)).
    + intros h. rewrite Hin. destruct (decide (h = f)) as [->|Hne]; [|by rewrite fn_lookup_insert_ne].
      rewrite fn_lookup_insert, HL. symmetry. apply sent_by_cons.
    + intros h. rewrite Hout. destruct (decide (h = f)) as [->|Hne]; [|by rewrite fn_lookup_insert_ne].
      rewrite fn_lookup_insert, HL. symmetry. apply recvs_cons.
    + intros h. rewrite Hgot. destruct (decide (h = f)) as [->|Hne]; [by rewrite HG, app_nil_r|].
      assert (E : of_prog h g = []).
      { rewrite <- Hgot. specialize (Hout h). rewrite decide_False in Hout by done. by apply length_zero_iff_nil. }
      by rewrite E, app_nil_r.
    + intros h. destruct (decide (h = f)) as [->|Hne]; [rewrite fn_lookup_insert, HL; by exists [op]|].
      rewrite fn_lookup_insert_ne by done. by exists [].
Qed.

(** The operation is done, and so is that of the first waiter, which is ready now. *)
Lemma running_wake evtfd w w' L G todo off items items' co f op rest i o g v wid q co2 wt wc :
  running evtfd w L G todo off items co f (op :: rest) ->
  queue w = wid :: q -> ca_waiting (sw_user w) !! co2 = Some wt -> wt_wid wt = wid -> sw_ctxs w !! wid = Some wc ->
  L (wt_prog wt) = wt_op wt :: wt_rest wt ->
  ch_queue (cw_ch v) = q -> cw_ctx v = <[wid := mkWaitCtx (wc_co wc) kReady (wc_buf wc)]> (sw_ctxs w) ->
  cw_cos v = cp_pool (sc_pool (sw_sched w)) -> chan_inv n (S (ca_fresh (sw_user w))) v items' ->
  ch_blk_size (cw_ch v) = ch_blk_size (ca_chan (sw_user w)) -> ch_ms (cw_ch v) = ch_ms (ca_chan (sw_user w)) ->
  w' = add_logs (set_sw_sched (set_user_chan (set_sw_ctxs (set_sw_mem w (cw_m v)) (cw_ctx v)) (cw_ch v))
         (SchedulerImpl_AddReadyTask (sw_sched w) co2 answers)) i o g ->
  (forall h op', op' ∈ prog h -> (match op' with Recv _ => f <> h /\ wt_prog wt <> h | Send _ => True end) ->
     block_of (cw_m v) (op_addr op') = block_of (sw_mem w) (op_addr op')) ->
  (forall op', stuck items op' -> stuck items' op') ->
  items ++ map snd i = map snd o ++ items' ->
  (forall h, of_prog h i = if decide (h = f) then sent_by [op] else if decide (h = wt_prog wt) then sent_by [wt_op wt] else []) ->
  (forall h, length (of_prog h o) =
     if decide (h = f) then recvs [op] else if decide (h = wt_prog wt) then recvs [wt_op wt] else 0%nat) ->
  (forall h, of_prog h o = of_prog h g ++ if decide (h = wt_prog wt) then owed (cw_m v) (wt_op wt) else []) ->
  running evtfd w' (<[f := rest]> (<[wt_prog wt := wt_rest wt]> L)) (<[wt_prog wt := owed (cw_m v) (wt_op wt)]> G)
    todo off items' co f rest.
Proof.
  intros Hrun Hq Hwt Hwid Hwc HLg Hq' Hx Hc Hinv Hb Hms -> Hm Hstk Hfifo Hin Hout Hgot.
  pose proof (running_owed _ _ _ _ _ _ _ _ _ _ Hrun) as HG. destruct Hrun as [[Hri Hwi Hbi] HL Hoff Hr Hmain Hco Hw].
  destruct (queue_waiter w L G todo (f :: off) items wid Hwi) as (co3 & wt3 & wc3 & Hwt3 & Hwid3 & Hwc3 & Hco3 & _ & _ & _ & _ & HG3 & _);
    [rewrite Hq; left|].
  assert (E3 : co3 = co2).
  { destruct Hwi as []. destruct (wi_all0 co2 wt Hwt) as (_ & _ & _ & (wc' & Hwc' & Hcw' & _) & _). rewrite Hwid in Hwc'. congruence. }
  rewrite E3 in Hwt3. assert (wt3 = wt) as -> by congruence.
  assert (Hfg : wt_prog wt <> f).
  { intros E. destruct Hwi as []. destruct (wi_off0 co2 wt Hwt). rewrite E. left. }
  split; try done; [|by rewrite fn_lookup_insert]. split.
  - eapply run_step; try done; [apply sound_ready, Hri|apply ready_fd].
  - match goal with |- waiters_inv ?u _ _ _ _ _ => pose proof (waiters_wake w u L G todo (f :: off) items items' f rest wid q co2 wt wc Hwi)
      as Hwk end.
    apply Hwk; try done; [by left|]. intros co' wt' Hne Hwt'. cbn.
    apply (Hm (wt_prog wt')); [by eapply waiting_op|]. destruct (wt_op wt'); [|done]. destruct Hwi as []. split.
    + intros E. eapply wi_off0; [exact Hwt'|]. rewrite <- E. left.
    + intros E. apply Hne. by eapply wi_progs0.
  - eapply blocks_step; try done.
    + intros h p Hp. by apply (Hm h (Send p)).
    + intros h. rewrite Hin. destruct (decide (h = f)) as [->|Hne].
      { rewrite fn_lookup_insert, HL. symmetry. apply sent_by_cons. }
      rewrite fn_lookup_insert_ne by done. destruct (decide (h = wt_prog wt)) as [->|Hne2]; [|by rewrite fn_lookup_insert_ne].
      rewrite fn_lookup_insert, HLg. symmetry. apply sent_by_cons.
    + intros h. rewrite Hout. destruct (decide (h = f)) as [->|Hne].
      { rewrite fn_lookup_insert, HL. symmetry. apply recvs_cons. }
      rewrite fn_lookup_insert_ne by done. destruct (decide (h = wt_prog wt)) as [->|Hne2]; [|by rewrite fn_lookup_insert_ne].
      rewrite fn_lookup_insert, HLg. symmetry. apply recvs_cons.
    + intros h. destruct (decide (h = wt_prog wt)) as [->|Hne2].
      { rewrite HG3, fn_lookup_insert, Hgot. by rewrite decide_True. }
      rewrite fn_lookup_insert_ne by done. specialize (Hgot h). rewrite decide_False, app_nil_r in Hgot by done. rewrite Hgot.
      destruct (decide (h = f)) as [->|Hne]; [by rewrite HG, app_nil_r|].
      assert (E : of_prog h g = []).
      { rewrite <- Hgot. specialize (Hout h). rewrite !decide_False in Hout by done. by apply length_zero_iff_nil. }
      by rewrite E, app_nil_r.
    + intros h. destruct (decide (h = f)) as [->|Hne]; [rewrite fn_lookup_insert, HL; by exists [op]|].
      rewrite fn_lookup_insert_ne by done.
      destruct (decide (h = wt_prog wt)) as [->|Hne2]; [rewrite fn_lookup_insert, HLg; by exists [wt_op wt]|].
      rewrite fn_lookup_insert_ne by done. by exists [].
Qed.

(** The coroutine that has published its wait context and its scheduler. *)
Definition parked (c : Coroutine) (k : nat) (id : Z) : Coroutine := set_co_scheduler (set_co_wait_ctx c (Some k)) id.

Definition parked_world (w : world) (v : ch_world) (co : nat) (c : Coroutine) : world :=
  set_user_chan (set_sw_ctxs (set_sw_mem (set_sw_sched w (put_co (sw_sched w) co c)) (cw_m v)) (cw_ctx v)) (cw_ch v).

Lemma parked_sched w v co c : sw_sched (parked_world w v co c) = put_co (sw_sched w) co c.
Proof. done. Qed.

(** How an operation ends: it is done, or the coroutine is in the queue. *)
Definition begun evtfd (w : world) L G todo off items co f op rest : Prop :=
  (exists w' L' G' items', chan_begin w f op = Ok (w', None) /\ running evtfd w' L' G' todo off items' co f rest /\
     sc_pool (sw_sched w') = sc_pool (sw_sched w) /\ (forall h, h ∈ off -> L' h = L h) /\
     (weight L' (length (todo ++ readys w')) < weight L (length (todo ++ readys w)))%nat) \/
  (exists w' k c, chan_begin w f op = Ok (w', Some k) /\
     inv evtfd (set_user_waiting w' (<[co := mkWaiting f op k rest]> (ca_waiting (sw_user w')))) L G todo off items /\
     get_co (sw_sched w) co = Ok c /\ sw_sched w' = put_co (sw_sched w) co (parked c k (sc_id (sw_sched w)))).

Lemma begin_block evtfd w L G todo off items co f op rest v :
  running evtfd w L G todo off items co f (op :: rest) -> stuck items op ->
  let cl := mkCaller co false (wait_block (ca_fresh (sw_user w))) kInit (ca_fresh (sw_user w)) (sc_id (sw_sched w)) in
  match op with Recv p => ChannelImpl_Read (view w) cl p | Send p => ChannelImpl_Write (view w) cl p end
    = Ok (v, Blocks (ca_fresh (sw_user w))) ->
  cw_m v = sw_mem w -> cw_cos v = cp_pool (sc_pool (sw_sched w)) -> cw_ready v = [] ->
  cw_ctx v = <[ca_fresh (sw_user w) := wait_ctx_of cl (op_addr op)]> (sw_ctxs w) ->
  ch_queue (cw_ch v) = queue w ++ [ca_fresh (sw_user w)] ->
  (exists v2, finish_op (Ok (v, Blocks (ca_fresh (sw_user w)))) cl = Ok (v2, Blocks (ca_fresh (sw_user w))) /\
     chan_inv n (S (ca_fresh (sw_user w))) v2 items) ->
  ch_blk_size (cw_ch v) = ch_blk_size (ca_chan (sw_user w)) -> ch_ms (cw_ch v) = ch_ms (ca_chan (sw_user w)) ->
  begun evtfd w L G todo off items co f op rest.
Proof.
  intros Hrun Hstk cl E Hm Hcs Hrd Hx Hq (v2 & E2 & Hinv2) Hb Hms. set (k := ca_fresh (sw_user w)) in *.
  pose proof (running_owed _ _ _ _ _ _ _ _ _ _ Hrun) as HG. destruct (caller_ok _ _ _ _ _ _ _ _ _ _ _ Hrun) as [Hop Hcl].
  destruct Hrun as [[Hri Hwi Hbi] HL Hoff Hr Hmain (c & Hc & Hcx) Hw].
  assert (Hc' : cw_cos v !! co = Some c).
  { rewrite Hcs. unfold get_co in Hc. by destruct (_ !! co); [injection Hc as ->|]. }
  pose proof (get_co_lt _ _ _ Hc) as Hlt. right. exists (parked_world w v co (parked c k (sc_id (sw_sched w)))), k, c.
  assert (Eb : ChannelImpl_block v cl k = Ok (mkChWorld (cw_ch v) (cw_m v) (cw_ctx v)
      (<[co := parked c k (sc_id (sw_sched w))]> (cw_cos v)) (cw_ready v), false)).
  { unfold ChannelImpl_block. cbn [cl cl_co cl_sched]. rewrite Hc', Hms. replace (ch_ms _) with (u32 (-1)) by (symmetry; apply Hri).
    by rewrite Z.eqb_refl. }
  cbn [finish_op obind] in E2. rewrite Eb in E2. injection E2 as <-. split_and!; try done.
  - unfold chan_begin. rewrite Hcl. cbn [obind]. fold k. fold cl.
    destruct op as [p|p]; rewrite E; cbn [obind]; rewrite Eb; cbn [obind];
      (assert (Ep : put_view w (mkChWorld (cw_ch v) (cw_m v) (cw_ctx v) (<[co := parked c k (sc_id (sw_sched w))]> (cw_cos v)) (cw_ready v))
         = parked_world w v co (parked c k (sc_id (sw_sched w)))) by (unfold put_view; cbn [cw_ready cw_cos]; rewrite Hrd, Hcs; reflexivity));
      rewrite Ep; unfold SchedulerImpl_Yield, get_running; rewrite parked_sched;
      (replace (sc_running (put_co _ _ _)) with (Some co) by done); cbn [obind];
      rewrite get_put_co by done; cbn [obind]; rewrite put_co_same by (by rewrite get_put_co); reflexivity.
  - destruct (sound_co malloc stack_size scratch _ _ _ (ri_sound _ _ _ Hri) Hc) as [[Hsid _] [Hsz Hpl]]. split.
    + eapply (run_step evtfd w _ items items (mkChWorld (cw_ch v) (cw_m v) (cw_ctx v)
        (<[co := parked c k (sc_id (sw_sched w))]> (cw_cos v)) (cw_ready v))); try done.
      * cbn. apply (sound_put malloc stack_size scratch _ co c); [apply Hri|done|split; [done|]|by split].
        intros Hnone. cbn in Hnone. rewrite Hnone in Hcx. by destruct Hcx.
      * cbn. by rewrite Hcs.
    + eapply (waiters_block w _ L G todo off items f op rest co (parked c k (sc_id (sw_sched w))) k
        (wait_ctx_of cl (op_addr op))); try done.
      * destruct Hbi as [_ _ _ _ _ Hs]. destruct (Hs f) as [pre Hpre]. exists pre. by rewrite <- HL.
      * cbn. by apply get_put_co.
      * destruct (ri_chan _ _ _ Hri) as (_ & (_ & Hf & _) & _). exact Hf.
      * intros i Hne. cbn. by apply get_put_co_ne.
    + destruct Hbi as []. split; cbn; rewrite ?Hm; try done.
Qed.

Lemma served_nobody w v L G todo off items : waiters_inv w L G todo off items -> queue w = [] -> served w v = [].
Proof. intros Hi Hq. unfold served. by rewrite Hq. Qed.

(** The first waiter, when there is one. *)
Lemma served_first evtfd w v L G todo off items wid q :
  inv evtfd w L G todo off items -> queue w = wid :: q ->
  exists co wt wc, ca_waiting (sw_user w) !! co = Some wt /\ wt_wid wt = wid /\ sw_ctxs w !! wid = Some wc /\
    wc_buf wc = op_addr (wt_op wt) /\ stuck items (wt_op wt) /\ L (wt_prog wt) = wt_op wt :: wt_rest wt /\
    wt_op wt ∈ prog (wt_prog wt) /\ wake (cp_pool (sc_pool (sw_sched w))) wc = Ok (sc_id (sw_sched w), co) /\
    served w v = [(wt_prog wt, block_of (cw_m v) (op_addr (wt_op wt)))].
Proof.
  intros [Hri Hwi _] Hq.
  destruct (queue_waiter w L G todo off items wid Hwi) as (co & wt & wc & Hwt & Hwid & Hwc & Hco & Hbuf & _ & _ & HL & _ & Hst & Hop);
    [rewrite Hq; left|].
  exists co, wt, wc. split_and!; try done.
  - unfold wake. rewrite Hco. destruct Hwi as []. destruct (wi_all0 co wt Hwt) as (_ & (c & Hc & Hu & _) & _).
    unfold get_co in Hc. destruct (cp_pool (sc_pool (sw_sched w)) !! co) as [c'|] eqn:Ec; [|done]. injection Hc as ->. unfold get_co_scheduler. by rewrite Hu.
  - unfold served. rewrite (queue_first_live _ _ _ _ _ _ Hwi), Hq, Hwc, Hco. cbn. rewrite Hwt, Hbuf.
    by rewrite (block_at_blk _ _ _ (ri_blk _ _ _ Hri)).
Qed.

(** Functions that have not begun are not concerned. *)
Lemma left_local evtfd w L G todo off items co f ops rest (L' : Closure -> list chan_op) :
  running evtfd w L G todo off items co f ops -> forall h, h ∈ off -> <[f := rest]> L' h = L' h.
Proof. intros Hrun h Hh. apply fn_lookup_insert_ne. intros <-. by destruct (ru_off _ _ _ _ _ _ _ _ _ _ Hrun). Qed.

Lemma left_wake evtfd w L G todo off items co f ops rest co2 wt :
  running evtfd w L G todo off items co f ops -> ca_waiting (sw_user w) !! co2 = Some wt ->
  forall h, h ∈ off -> <[f := rest]> (<[wt_prog wt := wt_rest wt]> L) h = L h.
Proof.
  intros Hrun Hwt h Hh. rewrite (left_local _ _ _ _ _ _ _ _ _ _ _ _ Hrun h Hh), fn_lookup_insert_ne; [done|].
  intros <-. destruct Hrun as [[_ [] _] _ _ _ _ _ _]. eapply wi_off0; [exact Hwt|by right].
Qed.

(** Operations and coroutines to resume get fewer. *)
Lemma weight_local L f op rest k : L f = op :: rest -> f ∈ fs -> (weight (<[f := rest]> L) k < weight L k)%nat.
Proof. intros HL Hf. unfold weight. pose proof (sum_insert L fs f rest Hfs Hf) as H1. rewrite HL in H1. cbn in H1. lia. Qed.

Lemma weight_wake L f g op rest op' rest' k :
  L f = op :: rest -> L g = op' :: rest' -> f <> g -> f ∈ fs -> g ∈ fs ->
  (weight (<[f := rest]> (<[g := rest']> L)) (S k) < weight L k)%nat.
Proof.
  intros HL HLg Hne Hf Hg. unfold weight. pose proof (sum_insert L fs g rest' Hfs Hg) as H1.
  pose proof (sum_insert (<[g := rest']> L) fs f rest Hfs Hf) as H2.
  rewrite fn_lookup_insert_ne, HL in H2 by done. rewrite HLg in H1. cbn in H1, H2. lia.
Qed.

Lemma op_in_fs f op : op ∈ prog f -> f ∈ fs.
Proof. intros Hop. apply Hprog. intros E. rewrite E in Hop. by apply elem_of_nil in Hop. Qed.

Lemma begin_send evtfd w L G todo off items co f p rest :
  running evtfd w L G todo off items co f (Send p :: rest) -> begun evtfd w L G todo off items co f (Send p) rest.
Proof.
  intros Hrun. pose proof Hrun as [Hinv HL _ Hr Hmain (c & Hc & _) Hw]. pose proof Hinv as [Hri Hwi Hbi].
  destruct (caller_ok _ _ _ _ _ _ _ _ _ _ _ Hrun) as [Hop Hcl]. set (k := ca_fresh (sw_user w)) in *.
  set (cl := mkCaller co false (wait_block k) kInit k (sc_id (sw_sched w))) in *.
  pose proof (ri_chan _ _ _ Hri) as Hch. pose proof (ri_blk _ _ _ Hri) as Hbk. pose proof (get_co_lt _ _ _ Hc) as Hlt.
  assert (Hwok : waiters_ok (view w)) by apply Hch.
  destruct (Write_cases n (view w) cl p items) as [(_ & Hon & _)|(v & res & items' & E & Hrel & Hb & Heff)]; [apply Hch|done|done|].
  pose proof (Write_ms _ _ _ _ _ E) as Hms.
  destruct (write_effect_ok n k (view w) cl p items v res items' Hch) as (v2 & E2 & Hinv2 & _); [by split|done|exact Heff|].
  set (b := block_of (sw_mem w) p). assert (Hb0 : b = block_of m0 p) by apply (bi_send _ _ _ _ Hbi f p Hop).
  assert (Hbegin : res = Done -> chan_begin w f (Send p) = Ok (add_logs (put_view w v) [(f, block_of (cw_m v) p)] (served w v) [], None)).
  { intros ->. unfold chan_begin. rewrite Hcl. cbn [obind op_addr]. rewrite E. cbn [obind].
    by rewrite (block_at_blk _ _ _ Hbk). }
  assert (Hsent : forall h, of_prog h [(f, b)] = if decide (h = f) then sent_by [Send p] else []).
  { intros h. rewrite of_prog_one. cbn. rewrite <- Hb0. destruct (decide (f = h)), (decide (h = f)); congruence. }
  inversion Heff as [it v' Hne Hl Hm Hx Hcs Hrd Hq|v' Hfl Hm Hx Hcs Hrd Hq
    |v' wid q wc s co2 Hfl Hwc Hwk Hm Hx Hcs Hrd Hq|it v' Hl Hns Hm Hx Hcs Hrd Hq]; subst; cbn [finish_op obind] in E2;
    try (injection E2 as <-).
  1: assert (Hq0 : queue w = []) by (apply Hch; destruct items; [done|cbn in *; lia]).
  2: assert (Hq0 : queue w = []) by (cbn in Hfl; rewrite (queue_first_live _ _ _ _ _ _ Hwi) in Hfl; by destruct (queue w)).
  1,2: left; eexists _, _, G, _; split; [by apply Hbegin|];
    rewrite (served_nobody w v L G todo (f :: off) _ Hwi Hq0), put_view_quiet, Hm by done;
    split_and!; [|done|by eapply left_local|eapply weight_local; [exact HL|by eapply op_in_fs]];
    eapply (running_local evtfd w _ L G todo off _ _ co f (Send p) rest); try done; try (by rewrite Hq); rewrite ?Hm; try done;
    [cbn; by rewrite (block_at_blk _ _ _ Hbk)|intros h; cbn; by case_decide].
  - cbn in Hfl, Hwc, Hm, Hx, Hwk, Hcs, Hrd. rewrite (queue_first_live _ _ _ _ _ _ Hwi) in Hfl.
    destruct (queue w) as [|wid' q'] eqn:Eq; [done|]. injection Hfl as -> ->.
    destruct (served_first evtfd w v L G todo (f :: off) [] wid _ Hinv Eq)
      as (co3 & wt & wc3 & Hwt & Hwid & Hwc3 & Hbuf & Hstk & HLg & Hopg & Hwk3 & Hsv).
    assert (wc3 = wc) as -> by congruence. rewrite Hwk3 in Hwk. injection Hwk as <- <-.
    destruct (wt_op wt) as [p2|p2] eqn:Eop; [|cbn in Hstk; lia]. cbn [op_addr] in *. rewrite Hbuf, (block_at_blk _ _ _ Hbk) in Hm.
    assert (Hlb : length (block_of (sw_mem w) p) = Z.to_nat blk) by (unfold block_of, read_bytes; by rewrite length_map, length_seq).
    assert (Hgf : wt_prog wt <> f) by (intros E3; eapply (wi_off _ _ _ _ _ _ Hwi); [exact Hwt|rewrite E3; left]).
    assert (Hspare : forall h op', op' ∈ prog h -> match op' with Recv _ => f <> h /\ wt_prog wt <> h | Send _ => True end ->
        block_of (cw_m v) (op_addr op') = block_of (sw_mem w) (op_addr op')).
    { intros h op' Hop' Hcond. rewrite Hm. eapply (recv_spares _ (wt_prog wt)); try done; [lia|].
      destruct op'; [apply Hcond|done]. }
    assert (Hbp : block_of (cw_m v) p = b) by (apply (Hspare f (Send p)); done).
    left. eexists _, _, _, _. split; [by apply Hbegin|]. rewrite Hsv, put_view_wakes with (co := co3) by done. split_and!.
    + eapply (running_wake evtfd w _ L G todo off _ _ co f (Send p) rest _ _ _ v wid _ co3 wt wc); try done; rewrite ?Eop; try done.
      * cbn. by rewrite Hbp, Hm, block_of_same.
      * intros h. rewrite Hbp, Hsent. cbn. by repeat case_decide.
      * intros h. rewrite of_prog_one. repeat case_decide; cbn; subst; done || congruence.
      * intros h. rewrite of_prog_one. repeat case_decide; cbn; subst; done || congruence.
    + done.
    + by eapply left_wake.
    + cbn. rewrite !length_app. cbn. rewrite Nat.add_1_r, <- plus_n_Sm. rewrite <- length_app.
      eapply weight_wake; try done; by eapply op_in_fs.
  - cbn in Hm, Hx, Hcs, Hrd, Hq. eapply begin_block; try done. by exists v2.
Qed.

(** A read that takes the oldest block while nobody waits. *)
Lemma recv_local evtfd w L G todo off it co f p rest v b :
  running evtfd w L G todo off (b :: it) co f (Recv p :: rest) -> Recv p ∈ prog f -> length b = Z.to_nat blk ->
  chan_begin w f (Recv p) =
    Ok (add_logs (put_view w v) (served w v) [(f, block_of (cw_m v) p)] [(f, block_of (cw_m v) p)], None) ->
  queue w = [] -> cw_m v = write_bytes (sw_mem w) p b -> cw_ctx v = sw_ctxs w ->
  cw_cos v = cp_pool (sc_pool (sw_sched w)) -> cw_ready v = [] -> ch_queue (cw_ch v) = [] ->
  chan_inv n (S (ca_fresh (sw_user w))) v it -> ch_blk_size (cw_ch v) = ch_blk_size (ca_chan (sw_user w)) ->
  ch_ms (cw_ch v) = ch_ms (ca_chan (sw_user w)) -> begun evtfd w L G todo off (b :: it) co f (Recv p) rest.
Proof.
  intros Hrun Hop Hlb Hbegin Hq0 Hm Hx Hcs Hrd Hq Hinv2 Hb Hms. pose proof Hrun as [[_ Hwi _] HL _ _ _ _ _].
  left. eexists _, _, G, _. split; [exact Hbegin|].
  rewrite (served_nobody w v L G todo (f :: off) _ Hwi Hq0), put_view_quiet by done.
  assert (Hbp : block_of (cw_m v) p = b) by (rewrite Hm; by apply block_of_same). rewrite Hbp. split_and!.
  - eapply (running_local evtfd w _ L G todo off _ _ co f (Recv p) rest _ [(f, b)] _ v); try done.
    + intros h op' Hop' Hcond. rewrite Hm. eapply (recv_spares _ f); try done. lia.
    + cbn. by rewrite app_nil_r.
    + intros h. cbn. by case_decide.
    + intros h. rewrite of_prog_one. repeat case_decide; cbn; subst; done || congruence.
  - done.
  - by eapply left_local.
  - eapply weight_local; [exact HL|by eapply op_in_fs].
Qed.

Lemma begin_recv evtfd w L G todo off items co f p rest :
  running evtfd w L G todo off items co f (Recv p :: rest) -> begun evtfd w L G todo off items co f (Recv p) rest.
Proof.
  intros Hrun. pose proof Hrun as [Hinv HL _ Hr Hmain (c & Hc & _) Hw]. pose proof Hinv as [Hri Hwi Hbi].
  destruct (caller_ok _ _ _ _ _ _ _ _ _ _ _ Hrun) as [Hop Hcl]. set (k := ca_fresh (sw_user w)) in *.
  set (cl := mkCaller co false (wait_block k) kInit k (sc_id (sw_sched w))) in *.
  pose proof (ri_chan _ _ _ Hri) as Hch. pose proof (ri_blk _ _ _ Hri) as Hbk. pose proof (get_co_lt _ _ _ Hc) as Hlt.
  assert (Hwok : waiters_ok (view w)) by apply Hch.
  destruct (Read_cases n (view w) cl p items) as [(_ & Hon & _)|(v & res & items' & E & Hrel & Hb & Heff)]; [apply Hch|done|done|].
  pose proof (Read_ms _ _ _ _ _ E) as Hms.
  destruct (read_effect_ok n k (view w) cl p items v res items' Hch) as (v2 & E2 & Hinv2 & _); [by split|done|exact Heff|].
  assert (Hlens : Forall (fun b => length b = Z.to_nat blk) items).
  { rewrite <- Hbk. eapply chan_items_length. apply Hch. }
  assert (Hbegin : res = Done -> chan_begin w f (Recv p) =
    Ok (add_logs (put_view w v) (served w v) [(f, block_of (cw_m v) p)] [(f, block_of (cw_m v) p)], None)).
  { intros ->. unfold chan_begin. rewrite Hcl. cbn [obind op_addr]. rewrite E. cbn [obind].
    by rewrite (block_at_blk _ _ _ Hbk). }
  assert (Hspare : forall b h op', cw_m v = write_bytes (sw_mem w) p b -> length b = Z.to_nat blk -> op' ∈ prog h ->
      match op' with Recv _ => f <> h | Send _ => True end ->
      block_of (cw_m v) (op_addr op') = block_of (sw_mem w) (op_addr op')).
  { intros b h op' -> Hl Hop' Hcond. eapply (recv_spares _ f); try done. lia. }
  assert (Hlocal : forall b it, items = b :: it -> res = Done -> items' = it -> queue w = [] ->
      cw_m v = write_bytes (sw_mem w) p b -> cw_ctx v = sw_ctxs w -> cw_cos v = cp_pool (sc_pool (sw_sched w)) ->
      cw_ready v = [] -> ch_queue (cw_ch v) = [] -> begun evtfd w L G todo off items co f (Recv p) rest).
  { intros b it -> Hres -> Hq0 Hm Hx Hcs Hrd Hq. subst res. injection E2 as <-. apply Forall_cons in Hlens as [Hlb _].
    eapply (recv_local evtfd w L G todo off it co f p rest v b); try done. by apply Hbegin. }
  inversion Heff as [b it v' Hl Hm Hx Hcs Hrd Hq|b it v' Hl Hfl Hm Hx Hcs Hrd Hq
    |b it v' wid q wc s co2 Hl Hfl Hwc Hwk Hm Hx Hcs Hrd Hq|v' Hns Hm Hx Hcs Hrd Hq]; subst.
  - assert (Hq0 : queue w = []) by (apply Hch; cbn in *; lia). eapply Hlocal; try done. by rewrite Hq.
  - assert (Hq0 : queue w = []).
    { cbn in Hfl. rewrite (queue_first_live _ _ _ _ _ _ Hwi) in Hfl. by destruct (queue w). }
    by eapply Hlocal.
  - clear Hlocal. cbn [finish_op obind] in E2. injection E2 as <-.
    cbn in Hfl, Hwc, Hm, Hx, Hwk, Hcs, Hrd. rewrite (queue_first_live _ _ _ _ _ _ Hwi) in Hfl.
    destruct (queue w) as [|wid' q'] eqn:Eq; [done|]. injection Hfl as -> ->.
    destruct (served_first evtfd w v L G todo (f :: off) (b :: it) wid _ Hinv Eq)
      as (co3 & wt & wc3 & Hwt & Hwid & Hwc3 & Hbuf & Hstk & HLg & Hopg & Hwk3 & Hsv).
    assert (wc3 = wc) as -> by congruence. rewrite Hwk3 in Hwk. injection Hwk as <- <-.
    destruct (wt_op wt) as [p2|p2] eqn:Eop; [done|]. cbn [op_addr] in *. apply Forall_cons in Hlens as [Hlb _].
    assert (Hgf : wt_prog wt <> f) by (intros E3; eapply (wi_off _ _ _ _ _ _ Hwi); [exact Hwt|rewrite E3; left]).
    assert (Hbp : block_of (cw_m v) p = b) by (rewrite Hm; by apply block_of_same).
    assert (Hb2 : block_of (cw_m v) p2 = block_of m0 p2).
    { etrans; [by apply (Hspare b (wt_prog wt) (Send p2))|]. by apply (bi_send _ _ _ _ Hbi (wt_prog wt)). }
    left. eexists _, _, _, _. split; [by apply Hbegin|]. rewrite Hsv, put_view_wakes with (co := co3) by done.
    rewrite Hbp. split_and!.
    + eapply (running_wake evtfd w _ L G todo off _ _ co f (Recv p) rest _ [(f, b)] _ v wid _ co3 wt wc); try done; rewrite ?Eop; try done.
      * intros h op' Hop' Hcond. apply (Hspare b h); try done. destruct op'; [apply Hcond|done].
      * intros [q|q]; cbn; [done|]. rewrite length_app. cbn. lia.
      * cbn. by rewrite Hbuf, (block_at_blk _ _ _ Hbk).
      * intros h. rewrite of_prog_one, Hb2. repeat case_decide; cbn; subst; done || congruence.
      * intros h. rewrite of_prog_one. repeat case_decide; cbn; subst; done || congruence.
      * intros h. case_decide; cbn; by rewrite ?app_nil_r.
    + done.
    + by eapply left_wake.
    + cbn. rewrite !length_app. cbn. rewrite Nat.add_1_r, <- plus_n_Sm. rewrite <- length_app.
      eapply weight_wake; try done; by eapply op_in_fs.
  - cbn in Hm, Hx, Hcs, Hrd, Hq. eapply begin_block; try done. by exists v2.
Qed.

Lemma begin_ok evtfd w L G todo off items co f op rest :
  running evtfd w L G todo off items co f (op :: rest) -> begun evtfd w L G todo off items co f op rest.
Proof. destruct op; [apply begin_recv|apply begin_send]. Qed.
End chan_run.
