(* ===== verification/ChannelTraffic.v ===== *)
(** * Producers and consumers on one scheduler come to their end

    From one operation (ChannelRun) to the whole: a coroutine runs until it waits or ends,
    the loop resumes whoever is ready, the first turn of the loop starts all functions,
    and every later turn uses up operations. *)

From stdpp Require Import base numbers functions list gmap.
From Stdlib Require Import Lia ZArith.
From S2P Require Import Prelude Atomic Stream Errno SockCtx Epoll Wakeup Coroutine Copoll TaskManager TimerManager Context.
From S2P Require Import Scheduler Switching Channel ChannelRun.

Section traffic.
Context {K : Type} `{EpollKernel K}.
Context (wait_block wait_junk : nat -> Z) (clk : nat -> Z) (answers : list io_result).
Context (prog : Closure -> list chan_op) (park : nat -> Z).
Context (malloc : nat -> Z) (entry end_ main_func main_ctx : Z) (stack_size : Z) (scratch : Z -> Prop).
Context (n : nat) (blk : Z) (m0 : memory) (evtfd : Z).
Context (Hsize : 128 <= stack_size)
  (Hmalloc : forall i x, malloc i <= x < malloc i + stack_size + kSmallBuffer -> scratch x)
  (Hlay : layout_ok prog scratch blk) (Hblk : 0 < blk) (Hn : (1 <= n)%nat)
  (Hjunk : forall i, wait_junk i = kInit) (Hpark : forall co, ctx_placed scratch (park co)).
Context (fs : list Closure) (Hfs : NoDup fs) (Hprog : forall f, prog f <> [] -> f ∈ fs).

Abbreviation world := (sworld K chan_app).
Abbreviation good := (inv (K := K) prog malloc stack_size scratch n blk m0 evtfd).
Abbreviation runs := (running (K := K) prog malloc stack_size scratch n blk m0 evtfd).
Abbreviation user := (chan_user (K := K) wait_block wait_junk clk answers prog park).
Abbreviation run := (run_prog (K := K) wait_block wait_junk clk answers park).
Abbreviation resume := (SchedulerImpl_Resume malloc entry end_ main_func main_ctx user).
Abbreviation left := (weight fs).
Abbreviation queue w := (ch_queue (ca_chan (sw_user w))).
Abbreviation readys w := (ready_tasks_ (sc_tasks (sw_sched w))).

(** ** Lemmas: a coroutine runs *)

(** How a run ends: in a wait, or at the end of the function. *)
Definition stopped (r : outcome (world * user_exit)) (w : world) L todo off co : Prop :=
  exists (w' : world) x L' G' items', r = Ok (w', x) /\
    (forall h, h ∈ off -> L' h = L h) /\
    (left L' (length (todo ++ readys w')) <= left L (length (todo ++ readys w)))%nat /\
    good w' L' G' todo off items' /\ sc_running (sw_sched w') = Some co /\ co <> sc_main (sw_sched w') /\
    ((x = Finished /\ sc_pool (sw_sched w') = sc_pool (sw_sched w)) \/
     (exists c c', x = Yielded (park co) /\ get_co (sw_sched w) co = Ok c /\ co_id c' = co_id c /\
        co_stack_id c' = co_stack_id c /\ sc_pool (sw_sched w') = sc_pool (put_co (sw_sched w) co c'))).

Lemma good_ended w L G todo off items f :
  good w L G todo (f :: off) items -> L f = [] -> good w L G todo off items.
Proof.
  intros [Hri [] Hbi] HL. split; [done| |done]. split; try done.
  - intros co wt Hwt Hin. eapply wi_off; [exact Hwt|]. by right.
  - intros g Hg. destruct (wi_left g Hg) as [[->|?]%elem_of_cons|?]; [done|by left|by right].
Qed.

Lemma run_ok w L G todo off items co f rest :
  runs w L G todo off items co f rest -> stopped (run w f rest) w L todo off co.
Proof.
  revert w L G items. induction rest as [|op rest IH]; intros w L G items Hrun; cbn [run_prog].
  - destruct Hrun as [Hinv HL _ Hr Hm _ _]. exists w, Finished, L, G, items. split_and!; try done.
    + by eapply good_ended.
    + by left.
  - assert (Hb : begun wait_block wait_junk clk answers prog malloc stack_size scratch n blk m0 fs evtfd w L G todo off items co f op rest)
      by (by apply begin_ok).
    destruct Hb as [(w1 & L1 & G1 & items1 & -> & Hrun1 & Hp1 & Hoff1 & Hwt1)|(w1 & k & c & -> & Hinv & Hc & Hs)]; cbn [obind].
    + destruct (IH w1 L1 G1 items1 Hrun1) as (w' & x & L' & G' & items' & E & Hoff & Hwt & Hinv & Hr & Hm & Hx).
      exists w', x, L', G', items'. split_and!; try done.
      * intros h Hh. by rewrite Hoff, Hoff1.
      * lia.
      * destruct Hx as [[-> Hx]|(c & c' & -> & Hc & Hi & Hsi & Hx)]; [left; by rewrite Hx|right]. exists c, c'.
        split_and!; try done.
        -- unfold get_co in *. by rewrite <- Hp1.
        -- rewrite Hx. unfold put_co. cbn. by rewrite Hp1.
    + rewrite Hs. unfold get_running. replace (sc_running _) with (Some co) by (symmetry; apply Hrun). cbn [obind].
      eexists _, _, L, G, items. split_and!; try done.
      * cbn. rewrite Hs. cbn. lia.
      * cbn. rewrite Hs. cbn. apply Hrun.
      * cbn. rewrite Hs. cbn. apply Hrun.
      * right. exists c, (parked c k (sc_id (sw_sched w))). cbn. by rewrite Hs.
Qed.

(** ** Lemmas: the pool while functions are started *)

(** The coroutines that are not [live] can be handed out: they hold a function, and those
    that were never handed out have no context. *)
Definition pool_ready (p : Copoll) (alive : list nat) : Prop :=
  copoll_wf p alive /\
  forall i c, cp_pool p !! i = Some c -> ~ i ∈ alive ->
    (exists f, co_union_ c = func_ f) /\ ((Z.to_nat (cp_id p) <= i)%nat -> co_ctx c = None).

Lemma pool_ready_kept s s' co alive :
  sched_kept s s' -> cp_idle (sc_pool s') = cp_idle (sc_pool s) -> ctxs_kept co s s' -> co ∈ alive -> sc_main s ∈ alive ->
  pool_ready (sc_pool s) alive -> pool_ready (sc_pool s') alive.
Proof.
  intros Hk Hid Hcx Hco Hm ((Hl & Hr & Hp & Hnn & Hids) & Hun).
  destruct Hk as (_ & _ & _ & _ & _ & _ & _ & _ & Hcp & Hpool). pose proof (Forall2_length _ _ _ Hpool) as Hlen.
  split.
  - unfold copoll_wf. rewrite Hcp, Hid, <- Hlen. split_and!; try done; try apply Hr. intros i c Hi Hc.
    destruct (Forall2_lookup_r _ _ _ _ _ Hpool Hc) as (c0 & Hc0 & (Hi1 & Hi2 & _)).
    destruct (Hids i c0 Hi Hc0) as [E1 E2]. split; congruence.
  - intros i c Hc Hni. destruct (Forall2_lookup_r _ _ _ _ _ Hpool Hc) as (c0 & Hc0 & (_ & _ & _ & Hu & _)).
    destruct (Hun i c0 Hc0 Hni) as [[f Hf] Hnone]. split; [exists f; congruence|]. rewrite Hcp. intros Hge.
    assert (Hi1 : i <> co) by (intros ->; done). assert (Hi2 : i <> sc_main s) by (intros ->; done).
    specialize (Hcx i Hi1 Hi2). rewrite Hc, Hc0 in Hcx. cbn in Hcx. injection Hcx as ->. by apply Hnone.
Qed.

(** ** Lemmas: back in the loop *)

(** The end of a switch, after what the coroutine has done. *)
Lemma after_run w1 L todo off co c1 e :
  stopped (user w1 co e) w1 L todo off co -> get_co (sw_sched w1) co = Ok c1 ->
  exists w' L' G' items', (let* (w2, x) := user w1 co e in SchedulerImpl_Resume_finish w2 x) = Ok w' /\
    (forall h, h ∈ off -> L' h = L h) /\
    (left L' (length (todo ++ readys w')) <= left L (length (todo ++ readys w1)))%nat /\
    good w' L' G' todo off items' /\
    (forall alive, pool_ready (sc_pool (sw_sched w1)) (co :: alive) -> ~ co ∈ alive -> sc_main (sw_sched w') ∈ alive ->
       (exists f, co_union_ c1 = func_ f) ->
       pool_ready (sc_pool (sw_sched w')) alive \/ pool_ready (sc_pool (sw_sched w')) (co :: alive)).
Proof.
  intros (w2 & x & L' & G' & items' & -> & Hoff & Hwt & Hinv & Hr & Hm & Hx) Hc1. cbn [obind].
  pose proof (ri_sound _ _ _ _ _ _ _ _ (inv_run _ _ _ _ _ _ _ _ _ _ _ _ _ _ Hinv)) as Hs2.
  destruct Hx as [[-> Hp]|(c & c' & -> & Hc & Hid & Hsid & Hp)].
  - assert (Hc2 : get_co (sw_sched w2) co = Ok c1) by (unfold get_co; by rewrite Hp).
    destruct (finish_returned malloc stack_size scratch w2 co c1 Hs2 Hr Hc2 Hm) as (w' & -> & Hk & Hs' & Hp').
    exists w', L', G', items'. split_and!; try done.
    + assert (Htk : sc_tasks (sw_sched w') = sc_tasks (sw_sched w2)) by apply Hk. by rewrite Htk.
    + by eapply inv_kept.
    + intros alive [Hwf Hun] Hnin Hmain [f Hf]. left. rewrite Hp', Hp. unfold get_co in Hc1.
      destruct (cp_pool (sc_pool (sw_sched w1)) !! co) as [c0|] eqn:Ec; [|done]. injection Hc1 as ->. split.
      * by eapply Copoll_Push_Pop.
      * cbn. intros i ci Hci Hni. destruct (decide (i = co)) as [->|Hne].
        -- assert (ci = c1) as -> by congruence. split; [by exists f|]. intros Hge. exfalso.
           assert (Hlt : (co < Z.to_nat (cp_id (sc_pool (sw_sched w1))))%nat)
             by (eapply copoll_live_bound; [exact Hwf|left]). lia.
        -- apply Hun; [done|]. by intros [?|?]%elem_of_cons.
  - pose proof (get_co_lt _ _ _ Hc) as Hlt.
    assert (Hc2 : get_co (sw_sched w2) co = Ok c').
    { unfold get_co. rewrite Hp. change (get_co (put_co (sw_sched w1) co c') co = Ok c'). by apply get_put_co. }
    destruct (finish_yielded malloc stack_size scratch w2 co c' (park co) Hs2 Hr Hc2 (Hpark co)) as (w' & -> & Hk & Hs' & Hi & Hcx).
    exists w', L', G', items'. split_and!; try done.
    + assert (Htk : sc_tasks (sw_sched w') = sc_tasks (sw_sched w2)) by apply Hk. by rewrite Htk.
    + by eapply inv_kept.
    + intros alive Hrdy Hnin Hmain _. right.
      assert (Hmn : sc_main (sw_sched w') = sc_main (sw_sched w2)) by apply Hk.
      eapply pool_ready_kept; [apply Hk|exact Hi|exact Hcx|left|right; by rewrite <- Hmn|]. rewrite Hp.
      destruct Hrdy as [(Hl & Hrg & Hpm & Hnn & Hids) Hun]. assert (Hcc : c = c1) by congruence. split.
      * unfold copoll_wf, put_co. cbn. rewrite length_insert. split_and!; try done; try apply Hrg. intros i ci Hlti Hci.
        destruct (decide (co = i)) as [<-|Hne].
        -- rewrite list_lookup_insert_eq in Hci by done. injection Hci as <-.
           unfold get_co in Hc. destruct (cp_pool (sc_pool (sw_sched w1)) !! co) as [c0|] eqn:Ec; [|done]. injection Hc as ->.
           destruct (Hids co c Hlti Ec). split; congruence.
        -- rewrite list_lookup_insert_ne in Hci by done. by apply Hids.
      * unfold put_co. cbn. intros i ci Hci Hni. assert (co <> i) by (intros <-; apply Hni; left).
        rewrite list_lookup_insert_ne in Hci by done. by apply Hun.
Qed.

(** ** Lemmas: resuming who is ready *)

(** A coroutine that is resumed leaves its operation and runs on. *)
Lemma end_ok w L G todo items co wt :
  good w L G (co :: todo) [] items -> sc_running (sw_sched w) = Some co -> ca_waiting (sw_user w) !! co = Some wt ->
  exists w', chan_end (set_user_waiting w (delete co (ca_waiting (sw_user w)))) wt = Ok w' /\
    runs w' L (<[wt_prog wt := []]> G) todo [] items co (wt_prog wt) (wt_rest wt) /\ sw_sched w' = sw_sched w.
Proof.
  intros [Hri Hwi Hbi] Hr Hwt. pose proof Hwi as [].
  destruct (wi_all co wt Hwt) as (Hmain & (c & Hc & Hu & Hcx) & _ & (wc & Hwc & Hwco & Hbuf & _) & Hst).
  destruct Hst as [(_ & Hni & _)|(Hq & _ & HL & HG)]; [by destruct Hni; left|].
  cbn [app] in wi_woken. apply NoDup_cons in wi_woken as [Hnco Hnd].
  set (w0 := set_user_waiting w (delete co (ca_waiting (sw_user w)))).
  assert (He : exists g, chan_end w0 wt = Ok (add_logs (set_sw_mem w0 (sw_mem w)) [] [] g) /\
     forall h, of_prog h g ++ <[wt_prog wt := []]> G h = G h).
  { unfold chan_end. destruct (wt_op wt) as [p|p] eqn:Eop.
    - unfold SchedulerImpl_is_timeout. change (sw_sched w0) with (sw_sched w). rewrite (ri_timeout _ _ _ _ _ _ _ _ Hri).
      unfold ChannelImpl_Read_resume, get_ctx, view. cbn [cw_ctx]. change (sw_ctxs w0) with (sw_ctxs w). rewrite Hwc.
      cbn [obind op_addr negb andb] in *. rewrite Hbuf, Z.eqb_refl. cbn [negb]. cbn [obind cw_m].
      eexists. split; [reflexivity|]. intros h. rewrite of_prog_one. change (ca_chan (sw_user w0)) with (ca_chan (sw_user w)).
      rewrite (block_at_blk blk _ _ _ (ri_blk _ _ _ _ _ _ _ _ Hri)). change (sw_mem w0) with (sw_mem w).
      destruct (decide (wt_prog wt = h)) as [<-|Hne]; [by rewrite fn_lookup_insert, HG, app_nil_r|by rewrite fn_lookup_insert_ne].
    - exists []. split; [unfold add_logs; rewrite !app_nil_r; reflexivity|]. intros h. cbn.
      destruct (decide (wt_prog wt = h)) as [<-|Hne]; [by rewrite fn_lookup_insert, HG|by rewrite fn_lookup_insert_ne]. }
  destruct He as (g & -> & Hg). eexists. split; [reflexivity|]. split; [|done].
  assert (Hlk : forall co' wt', delete co (ca_waiting (sw_user w)) !! co' = Some wt' ->
    co' <> co /\ ca_waiting (sw_user w) !! co' = Some wt').
  { intros co' wt' Hd. apply lookup_delete_Some in Hd as [? ?]. done. }
  assert (Hdel : forall co' wt', co' <> co -> ca_waiting (sw_user w) !! co' = Some wt' ->
    delete co (ca_waiting (sw_user w)) !! co' = Some wt') by (intros co' wt' Hne Hw'; by rewrite lookup_delete_ne).
  split; cbn; try done; [|by intros ?%elem_of_nil|by exists c|by rewrite lookup_delete_eq].
  split.
  - destruct Hri. by split.
  - split; cbn; try done.
    + intros co' wt' [Hne Hwt']%Hlk. destruct (wi_all co' wt' Hwt') as (? & ? & ? & ? & Hd). unfold waiter_inv. cbn.
      assert (Hpn : wt_prog wt <> wt_prog wt') by (intros E; apply Hne; symmetry; by eapply wi_progs).
      split_and!; try done. rewrite fn_lookup_insert_ne by done.
      destruct Hd as [(? & Hn' & ? & ? & ?)|(? & Hin & ? & ?)]; [left|right]; split_and!; try done.
      * intros ?. apply Hn'. by right.
      * by apply elem_of_cons in Hin as [?|?].
    + intros wid Hin. destruct (wi_queue wid Hin) as (co' & wt' & Hw' & Hwid). exists co', wt'. split; [|done]. apply Hdel; [|done].
      intros ->. assert (wt' = wt) as -> by congruence. by rewrite Hwid in Hq.
    + intros co' Hin. destruct (wi_todo co') as [wt' Hw']; [by right|]. exists wt'. apply Hdel; [|done]. by intros ->.
    + intros c1 c2 w1 w2 [_ ?]%Hlk [_ ?]%Hlk. by apply wi_progs.
    + intros c1 w1 [Hne ?]%Hlk E%list_elem_of_singleton. by eapply Hne, wi_progs.
    + intros f Hf. destruct (wi_left f Hf) as [?%elem_of_nil|(c1 & w1 & Hw1 & <-)]; [done|].
      destruct (decide (c1 = co)) as [->|Hne]; [left; assert (w1 = wt) as -> by congruence; left|right; exists c1, w1; auto].
    + intros f Hf. destruct (decide (wt_prog wt = f)) as [<-|Hne]; [by rewrite fn_lookup_insert in Hf|].
      rewrite fn_lookup_insert_ne in Hf by done. destruct (wi_owed f Hf) as (c1 & w1 & Hw1 & <-). exists c1, w1. split; [|done].
      apply Hdel; [|done]. intros ->. by assert (w1 = wt) as -> by congruence.
  - destruct Hbi. split; cbn -[of_prog]; rewrite ?app_nil_r; try done. intros f. by rewrite of_prog_app, <- app_assoc, Hg.
Qed.

(** Resuming one ready coroutine, and all of them, uses up operations. *)
Lemma resume_ready w L G todo items co :
  good w L G (co :: todo) [] items ->
  exists w' L' G' items', resume w co = Ok w' /\ good w' L' G' todo [] items' /\
    (left L' (length (todo ++ readys w')) < left L (length ((co :: todo) ++ readys w)))%nat.
Proof.
  intros Hinv. pose proof Hinv as [[] [] _].
  destruct (wi_todo co) as [wt Hwt]; [left|].
  destruct (wi_all co wt Hwt) as (Hmain & (c & Hc & Hu & [x Hx]) & _).
  destruct (resume_switch malloc entry end_ main_func main_ctx user stack_size scratch Hsize Hmalloc w co c
    ri_sound Hmain Hc) as (w1 & Hk & Hs1 & Hr1 & _ & _ & (c1 & Hc1 & _) & ->).
  assert (Hinv1 : good w1 L G (co :: todo) [] items) by (by eapply inv_kept).
  assert (Hu1 : sw_user w1 = sw_user w) by apply Hk. assert (Hwt1 : ca_waiting (sw_user w1) !! co = Some wt) by (by rewrite Hu1).
  destruct (end_ok w1 L G todo items co wt Hinv1 Hr1 Hwt1) as (w2 & He & Hrun & Hs2).
  assert (Hst : stopped (user w1 co (entry_of c)) w1 L todo [] co).
  { unfold entry_of. rewrite Hx. unfold chan_user. rewrite Hwt1, He. cbn [obind].
    destruct (run_ok w2 L _ todo [] items co _ _ Hrun) as (w' & x' & L' & G' & items' & E & H1 & H2 & H3 & H4 & H5 & H6).
    exists w', x', L', G', items'. rewrite Hs2 in H2, H6. done. }
  destruct (after_run w1 L todo [] co c1 _ Hst Hc1) as (w' & L' & G' & items' & E & _ & Hw & Hinv' & _).
  assert (Htk : sc_tasks (sw_sched w1) = sc_tasks (sw_sched w)) by apply Hk. rewrite Htk in Hw.
  exists w', L', G', items'. split_and!; try done. unfold weight in *. cbn. lia.
Qed.

Lemma resume_all_ready w L G todo items :
  good w L G todo [] items ->
  exists w' L' G' items', resume_all malloc entry end_ main_func main_ctx user w todo = Ok w' /\
    good w' L' G' [] [] items' /\
    (left L' (length (readys w')) + Nat.min 1 (length todo) <= left L (length (todo ++ readys w)))%nat.
Proof.
  revert w L G items. induction todo as [|co todo IH]; intros w L G items Hinv; cbn [resume_all].
  - exists w, L, G, items. split_and!; try done. cbn. lia.
  - destruct (resume_ready w L G todo items co Hinv) as (w1 & L1 & G1 & items1 & -> & Hinv1 & Hlt). cbn [obind].
    destruct (IH w1 L1 G1 items1 Hinv1) as (w' & L' & G' & items' & -> & Hinv' & Hle).
    exists w', L', G', items'. split_and!; try done. cbn [length] in *. lia.
Qed.

(** ** Lemmas: starting the functions *)

Lemma Pop_details p i p' :
  Copoll_Pop p = Ok (i, p') ->
  exists c0 c, cp_pool p !! i = Some c0 /\ cp_pool p' = <[i := c]> (cp_pool p) /\ co_union_ c = co_union_ c0 /\
    fb_SIZE (co_stack c) = fb_SIZE (co_stack c0) /\
    (co_ctx c = None \/ (i = Z.to_nat (cp_id p) /\ co_ctx c = co_ctx c0)).
Proof.
  unfold Copoll_Pop, Copoll_at. destruct (last (cp_idle p)) as [id|].
  - destruct (cp_pool p !! Z.to_nat id) as [c0|] eqn:E; [|done]. cbn. intros [= <- <-].
    eexists c0, _. split_and!; try done. by left.
  - destruct (cp_pool p !! Z.to_nat (cp_id p)) as [c0|] eqn:E; [|done]. cbn. intros [= <- <-].
    eexists c0, _. split_and!; try done. by right.
Qed.

(** The coroutine that [NewCoroutine] gives. *)
Lemma NewCoroutine_ok s f alive :
  sound malloc stack_size scratch s -> pool_ready (sc_pool s) alive -> Z.of_nat (length alive) < kPoolSize ->
  exists co c s', SchedulerImpl_NewCoroutine s f = Ok (co, s') /\ ~ co ∈ alive /\
    get_co s' co = Ok c /\ entry_of c = Call f /\ co_union_ c = func_ f /\ co_ctx c = None /\
    (exists a b, s' = set_sc_pool s (mkCopoll a b (<[co := c]> (cp_pool (sc_pool s))))) /\
    (exists c0 g, get_co s co = Ok c0 /\ co_union_ c0 = func_ g) /\
    pool_ready (sc_pool s') (co :: alive) /\
    (co <> sc_main s -> sound malloc stack_size scratch s').
Proof.
  intros Hs [Hwf Hun] Hlen. destruct (proj1 (Copoll_Pop_capacity _ _ Hwf)) as [_ Hcap]. destruct (Hcap Hlen) as (co & p' & Epop).
  destruct (Copoll_Pop_wf _ _ _ _ Hwf Epop) as (Hwf' & Hni & cw & Hcw & Hid & Hsid).
  destruct (Pop_details _ _ _ Epop) as (c0 & c1 & Hc0 & Hp' & Hu & Hsz & Hcx).
  destruct (Hun co c0 Hc0 Hni) as [[g Hg] Hnone].
  assert (Hlt : (co < length (cp_pool (sc_pool s)))%nat) by (by eapply lookup_lt_Some).
  assert (Hc1 : co_ctx c1 = None) by (destruct Hcx as [?|[-> E]]; [done|rewrite E; apply Hnone; lia]).
  assert (Hcw1 : cw = c1) by (rewrite Hp', list_lookup_insert_eq in Hcw by done; congruence). subst cw.
  assert (Ef : exists c, set_co_func c1 f = Ok c /\ co_union_ c = func_ f /\ co_ctx c = None /\ co_id c = co_id c1 /\
     co_stack_id c = co_stack_id c1 /\ co_stack c = co_stack c1).
  { unfold set_co_func. rewrite Hu, Hg. eexists. split; [reflexivity|]. done. }
  destruct Ef as (c & Ef & Huf & Hcn & Hic & Hsc & Hst).
  assert (Es : put_co (set_sc_pool s p') co c = set_sc_pool s (mkCopoll (cp_id p') (cp_idle p') (<[co := c]> (cp_pool (sc_pool s))))).
  { unfold put_co. cbn. by rewrite Hp', list_insert_insert_eq. }
  exists co, c, (put_co (set_sc_pool s p') co c). split_and!; try done.
  - unfold SchedulerImpl_NewCoroutine. rewrite Epop. cbn [obind]. unfold get_co at 1. cbn [set_sc_pool sc_pool]. rewrite Hcw.
    cbn [obind]. by rewrite Ef.
  - apply get_put_co. cbn. by rewrite Hp', length_insert.
  - unfold entry_of. by rewrite Hcn, Huf.
  - eexists _, _. exact Es.
  - exists c0, g. unfold get_co. by rewrite Hc0.
  - destruct Hwf' as (Hl' & Hr' & Hpm' & Hnn' & Hids'). rewrite Es. split.
    + unfold copoll_wf. cbn [sc_pool set_sc_pool cp_pool cp_id cp_idle]. rewrite Hp', length_insert in Hl'. rewrite length_insert.
      split_and!; try done; try apply Hr'. intros i ci Hi Hci. destruct (decide (co = i)) as [<-|Hne].
      * rewrite list_lookup_insert_eq in Hci by done. injection Hci as <-. rewrite Hic, Hsc. done.
      * apply Hids'; [done|]. rewrite Hp'. rewrite list_lookup_insert_ne in Hci |- * by done. done.
    + cbn. intros i ci Hci Hni'. assert (co <> i) by (intros <-; apply Hni'; left).
      rewrite list_lookup_insert_ne in Hci by done. destruct (Hun i ci Hci) as [? Hno]; [intros ?; apply Hni'; by right|].
      split; [done|]. intros Hge. apply Hno. 
      assert (Z.to_nat (cp_id (sc_pool s)) <= Z.to_nat (cp_id p'))%nat; [|lia].
      clear - Epop Hwf. unfold Copoll_Pop, Copoll_at in Epop. destruct (last (cp_idle (sc_pool s))).
      * destruct (_ !! _); [|done]. cbn in Epop. injection Epop as <- <-. done.
      * destruct (cp_pool (sc_pool s) !! Z.to_nat (cp_id (sc_pool s))) eqn:E; [|done]. cbn in Epop. injection Epop as <- <-. cbn.
        destruct Hwf as (Hl & Hr & _). apply lookup_lt_Some in E. unfold kPoolSize in *. rewrite uwrap_small by lia. lia.
  - intros Hmain. rewrite Es.
    assert (Hs2 : sound malloc stack_size scratch (put_co s co c)).
    { assert (Hg0 : get_co s co = Ok c0) by (unfold get_co; by rewrite Hc0).
      destruct (sound_co malloc stack_size scratch s co c0 Hs Hg0) as [_ [Hz _]].
      eapply sound_put; [done|exact Hg0| |].
      - split; [|intros _; by exists f]. rewrite Hsc, Hsid. unfold kShareStackSize.
        pose proof (Z.mod_pos_bound (Z.of_nat co) 8). lia.
      - split; [by rewrite Hst, Hsz|]. intros _ ctx. by rewrite Hcn. }
    exact Hs2.
Qed.

(** Another coroutine of the pool does not matter to those that wait. *)
Lemma good_new w L G off items s' co c c0 g a b :
  good w L G [] off items -> s' = set_sc_pool (sw_sched w) (mkCopoll a b (<[co := c]> (cp_pool (sc_pool (sw_sched w))))) ->
  get_co (sw_sched w) co = Ok c0 -> co_union_ c0 = func_ g -> sound malloc stack_size scratch s' ->
  good (set_sw_sched w s') L G [] off items /\ ca_waiting (sw_user w) !! co = None.
Proof.
  intros [[] [] Hbi] -> Hc0 Hg Hs.
  assert (Hnone : ca_waiting (sw_user w) !! co = None).
  { destruct (ca_waiting (sw_user w) !! co) as [wt|] eqn:E; [|done].
    destruct (wi_all co wt E) as (_ & (c1 & Hc1 & Hu & _) & _). congruence. }
  split; [|done]. unfold get_co in Hc0. destruct (cp_pool (sc_pool (sw_sched w)) !! co) as [c1|] eqn:Ec; [|done]. injection Hc0 as ->.
  split.
  - split; cbn; try done. eapply chan_inv_world; [exact ri_chan|done|done|].
    intros wc (Hst & co' & c' & sc & Hwc & Hc' & Hu). split; [done|]. exists co', c', sc. split_and!; try done. cbn in Hc' |- *.
    rewrite list_lookup_insert_ne; [done|]. intros <-. congruence.
  - split; cbn; try done. intros co' wt Hwt. destruct (wi_all co' wt Hwt) as (? & (c' & Hc' & ?) & ? & ? & ?).
    assert (co <> co') by congruence. split_and!; try done. exists c'. split; [|done].
    unfold get_co. cbn. by rewrite list_lookup_insert_ne.
  - destruct Hbi. by split.
Qed.

(** A function is started and runs until it waits or ends. *)
Lemma start_one w L G off items f alive :
  good w L G [] (f :: off) items -> ~ f ∈ off -> L f = prog f ->
  pool_ready (sc_pool (sw_sched w)) alive -> 0%nat ∈ alive -> Z.of_nat (length alive) < kPoolSize ->
  exists co s w' L' G' items' alive', SchedulerImpl_NewCoroutine (sw_sched w) f = Ok (co, s) /\
    resume (set_sw_sched w s) co = Ok w' /\ good w' L' G' [] off items' /\ (forall h, h ∈ off -> L' h = L h) /\
    (left L' (length (readys w')) <= left L (length (readys w)))%nat /\
    pool_ready (sc_pool (sw_sched w')) alive' /\ 0%nat ∈ alive' /\ (length alive' <= S (length alive))%nat.
Proof.
  intros Hinv Hoff HL Hpr H0 Hlen. pose proof Hinv as [[] _ _].
  destruct (NewCoroutine_ok (sw_sched w) f alive ri_sound Hpr Hlen)
    as (co & c & s & Enew & Hni & Hc & Hent & Hun & Hcn & (a & b & Es) & (c0 & g & Hc0 & Hg) & Hpr' & Hsnd).
  assert (Hm : co <> sc_main (sw_sched w)) by (rewrite ri_main; by intros ->). specialize (Hsnd Hm).
  destruct (good_new w L G (f :: off) items s co c c0 g a b Hinv Es Hc0 Hg Hsnd) as [Hinv0 Hnone].
  set (w0 := set_sw_sched w s) in *. assert (Hmain0 : sc_main (sw_sched w0) = 0%nat) by (unfold w0; cbn; by rewrite Es).
  destruct (resume_switch malloc entry end_ main_func main_ctx user stack_size scratch Hsize Hmalloc w0 co c)
    as (w1 & Hk & Hs1 & Hr1 & Hi1 & Hcx1 & (c1 & Hc1 & Hkc & Hx1) & Er); [done|by rewrite Hmain0, <- ri_main|done|].
  assert (Hinv1 : good w1 L G [] (f :: off) items) by (by eapply inv_kept).
  assert (Hu1 : sw_user w1 = sw_user w) by apply Hk. assert (Hmain1 : sc_main (sw_sched w1) = 0%nat) by (destruct Hinv1 as [[]]; done).
  assert (Hrun : runs w1 L G [] off items co f (prog f)).
  { split; try done; [by rewrite Hmain1, <- ri_main|by exists c1|by rewrite Hu1]. }
  pose proof (run_ok _ _ _ _ _ _ _ _ _ Hrun) as Hst. rewrite Hent in Er.
  destruct (after_run w1 L [] off co c1 (Call f) Hst Hc1) as (w' & L' & G' & items' & E & Hoff' & Hw & Hinv' & Hpool).
  assert (Hmain' : sc_main (sw_sched w') = 0%nat) by (destruct Hinv' as [[]]; done).
  assert (Htk : sc_tasks (sw_sched w1) = sc_tasks (sw_sched w)).
  { assert (sc_tasks (sw_sched w1) = sc_tasks (sw_sched w0)) as -> by apply Hk. unfold w0. cbn. by rewrite Es. }
  rewrite Htk in Hw. rewrite E in Er.
  assert (Hpr1 : pool_ready (sc_pool (sw_sched w1)) (co :: alive)).
  { eapply pool_ready_kept; [apply Hk|exact Hi1|exact Hcx1|left|rewrite Hmain0; by right|exact Hpr']. }
  assert (Hfin : pool_ready (sc_pool (sw_sched w')) alive \/ pool_ready (sc_pool (sw_sched w')) (co :: alive)).
  { apply Hpool; [done|done|by rewrite Hmain'|]. exists f. destruct Hkc as (_ & _ & _ & -> & _). exact Hun. }
  destruct Hfin as [Hf|Hf]; eexists co, s, w', L', G', items', _; split_and!; try done; cbn; try lia; try exact Hf; by right || done.
Qed.

(** All functions, one after the other. *)
Lemma resume_new_ok w L G off items alive :
  good w L G [] off items -> NoDup off -> (forall f, f ∈ off -> L f = prog f) ->
  pool_ready (sc_pool (sw_sched w)) alive -> 0%nat ∈ alive -> Z.of_nat (length alive + length off) <= kPoolSize ->
  exists w' L' G' items', resume_new malloc entry end_ main_func main_ctx user w off = Ok w' /\
    good w' L' G' [] [] items' /\ (left L' (length (readys w')) <= left L (length (readys w)))%nat.
Proof.
  revert w L G items alive. induction off as [|f off IH]; intros w L G items alive Hinv Hnd HL Hpr H0 Hlen; cbn [resume_new].
  - exists w, L, G, items. done.
  - apply NoDup_cons in Hnd as [Hf Hnd]. cbn [length] in Hlen.
    destruct (start_one w L G off items f alive Hinv Hf) as (co & s & w1 & L1 & G1 & items1 & alive1 & -> & E & Hinv1 & HL1 & Hw1 & Hpr1 & H01 & Hlen1);
      [apply HL; left|done|done|lia|]. cbn [obind]. rewrite E. cbn [obind].
    destruct (IH w1 L1 G1 items1 alive1 Hinv1 Hnd) as (w' & L' & G' & items' & -> & Hinv' & Hw'); try done; [|lia|].
    + intros h Hh. rewrite HL1 by done. apply HL. by right.
    + exists w', L', G', items'. split_and!; try done. lia.
Qed.

(** ** Lemmas: turns of the loop *)

Abbreviation iteration := (Loop_iteration malloc clk entry end_ main_func main_ctx answers user).
Abbreviation loop := (SchedulerImpl_Loop malloc clk entry end_ main_func main_ctx answers user).
Abbreviation tasks := (Loop_tasks malloc entry end_ main_func main_ctx user).

(** [epoll_wait] reports the wake-up only, or fails. *)
Definition quiet_result (r : wait_result) : Prop :=
  match r with WaitErr _ => True | WaitEvents evs => Forall (fun ev => data_fd ev = evtfd) evs end.

(** How often it returns with events. *)
Definition turns (rs : list wait_result) : nat :=
  length (omap (fun r => match r with WaitEvents evs => Some evs | WaitErr _ => None end) rs).

Definition set_epoll (w : world) (ep : Epoll) : world := set_sw_sched w (set_sc_epoll (sw_sched w) ep).
Definition take_tasks (w : world) : world := set_sw_sched w (set_sc_tasks (sw_sched w) TaskManager_empty).

Lemma handle_events_quiet (w : world) evs :
  wake_up_fd_ (sc_epoll (sw_sched w)) = evtfd -> Forall (fun ev => data_fd ev = evtfd) evs ->
  exists ep, handle_events malloc entry end_ main_func main_ctx answers user w evs = Ok (set_epoll w ep) /\
    wake_up_fd_ ep = evtfd.
Proof.
  revert w. induction evs as [|ev evs IH]; intros w Hfd Hall; cbn [handle_events].
  - exists (sc_epoll (sw_sched w)). split; [|done]. unfold set_epoll. destruct w as [[] ? ? ? ? ? ? ?]. done.
  - apply Forall_cons in Hall as [Hev Hall]. unfold handle_event, Epoll_is_wakeup_fd. rewrite Hev, Hfd, Z.eqb_refl. cbn [obind].
    set (w1 := set_sw_sched w _). destruct (IH w1) as (ep & -> & Hep); [done|done|]. by exists ep.
Qed.

Lemma good_epoll w L G off items ep :
  good w L G [] off items -> wake_up_fd_ ep = evtfd -> good (set_epoll w ep) L G [] off items.
Proof. intros [[] [] []] Hfd. split; split; cbn; done. Qed.

Lemma good_taken w L G items :
  good w L G [] [] items -> good (take_tasks w) L G (readys w) [] items.
Proof.
  intros [[] [] []]. split; split; cbn; rewrite ?app_nil_r; try done.
Qed.

(** Nothing has timed out. *)
Lemma timeouts_quiet w L G items :
  good w L G [] [] items -> exists w', Loop_timeouts malloc clk entry end_ main_func main_ctx user w = Ok w' /\
    good w' L G [] [] items /\ readys w' = readys w.
Proof.
  intros Hinv. pose proof Hinv as [[] _ _]. unfold Loop_timeouts, TimerManager_CollectTimeoutTasks. rewrite ri_timers. cbn.
  eexists. split; [reflexivity|]. split; [|done].
  set (w' := mkSW _ _ _ _ _ _ _ _).
  assert (Hk : kept scratch w w').
  { split_and!; try done. unfold sched_kept. cbn. split_and!; try done. by destruct (sc_timers (sw_sched w)); cbn in *; subst. }
  eapply inv_kept; [exact Hlay|exact Hk| |exact Hinv]. exact ri_sound.
Qed.

Lemma tasks_ok w L G items :
  good w L G [] [] items ->
  exists w' L' G' items', tasks w = Ok w' /\ good w' L' G' [] [] items' /\
    (left L' (length (readys w')) + Nat.min 1 (length (readys w)) <= left L (length (readys w)))%nat /\
    (readys w = [] -> readys w' = []).
Proof.
  intros Hinv. pose proof Hinv as [[] _ _]. unfold Loop_tasks. rewrite GetAllTasks_cleared, ri_new. cbn [resume_new obind].
  fold (take_tasks w). destruct (resume_all_ready (take_tasks w) L G (readys w) items) as (w' & L' & G' & items' & E & Hinv' & Hw);
    [by apply good_taken|].
  exists w', L', G', items'. split_and!; try done.
  - cbn in Hw. by rewrite app_nil_r in Hw.
  - intros Hr. rewrite Hr in E. cbn in E. injection E as <-. done.
Qed.

Lemma iteration_ok w L G items evs :
  good w L G [] [] items -> quiet_result (WaitEvents evs) ->
  exists w' L' G' items', iteration w (WaitEvents evs) = Ok w' /\ good w' L' G' [] [] items' /\
    (left L' (length (readys w')) + Nat.min 1 (length (readys w)) <= left L (length (readys w)))%nat /\
    (readys w = [] -> readys w' = []).
Proof.
  intros Hinv Hq. pose proof Hinv as [[] _ _]. unfold Loop_iteration. rewrite ri_stop.
  destruct (handle_events_quiet w evs ri_fd Hq) as (ep & -> & Hep). cbn [obind].
  destruct (tasks_ok (set_epoll w ep) L G items) as (w1 & L1 & G1 & items1 & -> & Hinv1 & Hw1 & Hr1); [by apply good_epoll|].
  cbn [obind]. destruct (timeouts_quiet w1 L1 G1 items1 Hinv1) as (w2 & -> & Hinv2 & Hr2). cbn [obind].
  exists (set_sw_sched w2 (set_sc_running (sw_sched w2) None)), L1, G1, items1. split_and!; try done.
  - eapply inv_kept; [exact Hlay| | |exact Hinv2]; [done|]. by destruct Hinv2 as [[] _ _].
  - cbn. rewrite Hr2. exact Hw1.
  - intros Hr. cbn. rewrite Hr2. by apply Hr1.
Qed.

Lemma loop_ok rs w L G items :
  good w L G [] [] items -> Forall quiet_result rs ->
  exists w' L' G' items', loop w rs = Ok w' /\ good w' L' G' [] [] items' /\
    (readys w = [] \/ (left L (length (readys w)) <= turns rs)%nat -> readys w' = []).
Proof.
  revert w L G items. induction rs as [|r rs IH]; intros w L G items Hinv Hq; cbn [SchedulerImpl_Loop].
  - exists w, L, G, items. split_and!; try done. intros [?|Hle]; [done|]. unfold weight, turns in Hle. cbn in Hle.
    destruct (readys w); [done|cbn in Hle; lia].
  - apply Forall_cons in Hq as [Hr Hq]. pose proof Hinv as [[] _ _]. rewrite ri_stop. destruct r as [err|evs].
    + unfold Loop_iteration. rewrite ri_stop. cbn [obind]. by apply (IH w L G items).
    + destruct (iteration_ok w L G items evs Hinv Hr) as (w1 & L1 & G1 & items1 & -> & Hinv1 & Hw1 & Hr1). cbn [obind].
      destruct (IH w1 L1 G1 items1 Hinv1 Hq) as (w' & L' & G' & items' & -> & Hinv' & Hd).
      exists w', L', G', items'. split_and!; try done. intros Hor. apply Hd.
      destruct (readys w) as [|co l] eqn:Er; [left; by apply Hr1|]. right. destruct Hor as [?|Hle]; [done|].
      unfold turns in Hle. cbn [omap list_omap length] in Hle. cbn [length] in Hw1, Hle. unfold turns. lia.
Qed.

(** ** Lemmas: the beginning *)

(** A world whose functions have not been started. *)
Definition starting (w : world) (off : list Closure) : Prop :=
  good (take_tasks w) prog (fun _ => []) [] off [] /\ sc_tasks (sw_sched w) = mkTaskManager off [] /\
  pool_ready (sc_pool (sw_sched w)) [0%nat].

Lemma first_turn w evs :
  starting w fs -> Z.of_nat (length fs) < kPoolSize -> quiet_result (WaitEvents evs) ->
  exists w' L G items, iteration w (WaitEvents evs) = Ok w' /\ good w' L G [] [] items /\
    (left L (length (readys w')) <= 2 * sum_list (map (fun f => length (prog f)) fs))%nat.
Proof.
  intros (Hinv & Htk & Hpr) Hlen Hq. pose proof Hinv as [[] _ _]. unfold Loop_iteration.
  change (sc_stop (sw_sched (take_tasks w))) with (sc_stop (sw_sched w)) in ri_stop. rewrite ri_stop.
  destruct (handle_events_quiet w evs ri_fd Hq) as (ep & -> & Hep). cbn [obind].
  unfold Loop_tasks. rewrite GetAllTasks_cleared. cbn [sw_sched set_epoll set_sw_sched set_sc_epoll sc_tasks]. rewrite Htk.
  cbn [new_tasks_ ready_tasks_]. change (set_sw_sched (set_epoll w ep) _) with (set_epoll (take_tasks w) ep).
  destruct (resume_new_ok (set_epoll (take_tasks w) ep) prog (fun _ => []) fs [] [0%nat]) as (w1 & L1 & G1 & items1 & -> & Hinv1 & Hw1);
    try done; [by apply good_epoll|left|cbn; unfold kPoolSize in *; lia|]. cbn [obind resume_all].
  destruct (timeouts_quiet w1 L1 G1 items1 Hinv1) as (w2 & -> & Hinv2 & Hr2). cbn [obind].
  exists (set_sw_sched w2 (set_sc_running (sw_sched w2) None)), L1, G1, items1. split_and!; try done.
  - eapply inv_kept; [exact Hlay| | |exact Hinv2]; [done|]. by destruct Hinv2 as [[] _ _].
  - cbn. rewrite Hr2. unfold weight in *. cbn in Hw1. lia.
Qed.

Lemma loop_from_start rs w :
  starting w fs -> Z.of_nat (length fs) < kPoolSize -> Forall quiet_result rs ->
  (2 * sum_list (map (fun f => length (prog f)) fs) < turns rs)%nat ->
  exists w' L G items, loop w rs = Ok w' /\ good w' L G [] [] items /\ readys w' = [].
Proof.
  intros Hst Hlen. induction rs as [|r rs IH]; intros Hq Ht; [unfold turns in Ht; cbn in Ht; lia|].
  apply Forall_cons in Hq as [Hr Hq]. cbn [SchedulerImpl_Loop].
  assert (Hstop : sc_stop (sw_sched w) = false) by (destruct Hst as [[[] _ _] _]; done). rewrite Hstop.
  destruct r as [err|evs].
  - unfold Loop_iteration at 1. rewrite Hstop. cbn [obind]. by apply IH.
  - destruct (first_turn w evs Hst Hlen Hr) as (w1 & L1 & G1 & items1 & -> & Hinv1 & Hw1). cbn [obind].
    destruct (loop_ok rs w1 L1 G1 items1 Hinv1 Hq) as (w' & L' & G' & items' & -> & Hinv' & Hd).
    exists w', L', G', items'. split_and!; try done. apply Hd. right. unfold turns in *. cbn [omap list_omap length] in Ht. lia.
Qed.

Lemma fold_new_tasks l s :
  exists ep, fold_left (fun s f => SchedulerImpl_AddNewTask s f answers) l s =
      set_sc_epoll (set_sc_tasks s (mkTaskManager (new_tasks_ (sc_tasks s) ++ l) (ready_tasks_ (sc_tasks s)))) ep /\
    wake_up_fd_ ep = wake_up_fd_ (sc_epoll s).
Proof.
  revert s. induction l as [|f l IH]; intros s; cbn [fold_left].
  - exists (sc_epoll s). rewrite app_nil_r. split; [|done]. by destruct s as [? ? ? ? ? ? ? ? ? ? [] ? ? ?].
  - destruct (IH (SchedulerImpl_AddNewTask s f answers)) as (ep & -> & Hep). exists ep.
    unfold SchedulerImpl_AddNewTask in *. cbn in *. rewrite <- app_assoc. split; [done|]. rewrite Hep.
    unfold Epoll_Wakeup. by destruct (atomic_compare_swap _ _ _ _).
Qed.

(** A new pool, of which the loop has taken the first coroutine. *)
Lemma new_pool junk : Forall (fun c => exists j, c = Coroutine_new j) (cp_pool (Copoll_new junk)).
Proof.
  apply Forall_forall. intros x Hx. unfold Copoll_new in Hx. cbn [cp_pool] in Hx.
  apply list_elem_of_fmap in Hx as (i & -> & _). by eexists.
Qed.

Lemma popped_pool p0 p :
  copoll_wf p0 [] -> cp_id p0 = 0 -> Forall (fun c => exists j, c = Coroutine_new j) (cp_pool p0) ->
  Copoll_Pop p0 = Ok (0%nat, p) ->
  pool_ready p [0%nat] /\ (0 < length (cp_pool p))%nat /\
  Forall (fun c => co_ok c /\ fb_SIZE (co_stack c) = kSmallBuffer) (cp_pool p) /\
  forall i c, i <> 0%nat -> cp_pool p !! i = Some c -> co_ctx c = None.
Proof.
  intros Hwf0 Hid Hall E. destruct (Copoll_Pop_wf _ _ _ _ Hwf0 E) as (Hwf & _ & c1 & Hc1 & _ & Hsid).
  destruct (Pop_details _ _ _ E) as (c0 & c & Hc0 & Hp & Hu & Hsz & Hcx).
  assert (Hlt : (0 < length (cp_pool p0))%nat) by (by eapply lookup_lt_Some).
  destruct (Forall_lookup_1 _ _ _ _ Hall Hc0) as [j0 ->].
  assert (c1 = c) as -> by (rewrite Hp, list_lookup_insert_eq in Hc1 by done; congruence).
  assert (Hoth : forall i ci, i <> 0%nat -> cp_pool p !! i = Some ci -> exists j, ci = Coroutine_new j).
  { intros i ci Hne Hci. rewrite Hp, list_lookup_insert_ne in Hci by done. by apply (Forall_lookup_1 _ _ _ _ Hall Hci). }
  split_and!.
  - split; [done|]. intros i ci Hci Hni. assert (Hne : i <> 0%nat) by (intros ->; apply Hni; left).
    destruct (Hoth i ci Hne Hci) as [j ->]. split; [by eexists|done].
  - by rewrite Hp, length_insert.
  - apply Forall_lookup. intros i ci Hci. destruct (decide (i = 0%nat)) as [->|Hne].
    + assert (ci = c) as -> by congruence. split; [|exact Hsz]. split; [rewrite Hsid; change (Z.of_nat 0 mod 8) with 0; unfold kShareStackSize; lia|].
      intros _. exists 0%nat. exact Hu.
    + destruct (Hoth i ci Hne Hci) as [j ->]. split; [|done]. split; [cbn; unfold kShareStackSize; lia|intros _; by eexists].
  - intros i ci Hne Hci. by destruct (Hoth i ci Hne Hci) as [j ->].
Qed.

Lemma new_scheduler_sound id num junk ev s ev' :
  SchedulerImpl_new id num stack_size evtfd junk ev = Ok (s, ev') ->
  sound malloc stack_size scratch s /\ sc_main s = 0%nat /\ sc_timers s = TimerManager_new /\ sc_stop s = false /\
  sc_timeout s = false /\ wake_up_fd_ (sc_epoll s) = evtfd /\ sc_tasks s = TaskManager_empty /\
  pool_ready (sc_pool s) [0%nat].
Proof.
  unfold SchedulerImpl_new, Epoll_new. destruct (Epoll_AddEvRead _ _ _ _) as [[? ?] ?].
  pose proof (copoll_wf_new junk) as Hwf0. pose proof (new_pool junk) as Hall0.
  assert (Hid : cp_id (Copoll_new junk) = 0) by done. assert (Hidle : cp_idle (Copoll_new junk) = []) by done.
  revert Hwf0 Hall0 Hid Hidle. generalize (Copoll_new junk). intros p0 Hwf0 Hall0 Hid Hidle.
  destruct (Copoll_Pop_fresh p0 [] Hwf0 Hidle) as (c & Hc & E); [by rewrite Hid|]. rewrite Hid in E. change (Z.to_nat 0) with 0%nat in E.
  destruct (popped_pool p0 _ Hwf0 Hid Hall0 E) as (Hrdy & Hlt & Hall & Hcx). rewrite E. cbn [obind].
  revert Hrdy Hlt Hall Hcx. generalize (mkCopoll (0 + 1) [] (<[0%nat := set_co_stack_id (set_co_id c 0) (0 mod 8)]> (cp_pool p0))).
  intros p Hrdy Hlt Hall Hcx [= <- <-]. split_and!; try done. unfold sound, sched_ok. cbn [sc_stacks sc_pool sc_main sc_stack_size].
  split_and!; try done.
  - by repeat constructor.
  - eapply Forall_impl; [exact Hall|]. by intros ? [? _].
  - repeat constructor.
  - intros co c1 Hco. unfold get_co in Hco. cbn [sc_pool] in Hco. destruct (cp_pool p !! co) as [c2|] eqn:E2; [|done].
    injection Hco as ->. split; [apply (Forall_lookup_1 _ _ _ _ Hall E2)|]. intros Hne ctx Hctx.
    rewrite (Hcx co c1 Hne E2) in Hctx. done.
Qed.

(** ** Lemmas: the end *)

(** A function that only sends or only receives. *)
Definition one_way (ops : list chan_op) : Prop :=
  Forall (fun op => exists p, op = Send p) ops \/ Forall (fun op => exists p, op = Recv p) ops.

Definition total (f : Closure -> nat) : nat := sum_list (map f fs).

Lemma total_add (f g : Closure -> nat) : total (fun x => f x + g x)%nat = (total f + total g)%nat.
Proof. unfold total. clear. induction fs as [|x l IH]; cbn in *; lia. Qed.

Lemma total_ext (f g : Closure -> nat) : (forall x, f x = g x) -> total f = total g.
Proof. intros E. unfold total. f_equal. apply map_ext. exact E. Qed.

Lemma total_zero (f : Closure -> nat) g : total f = 0%nat -> g ∈ fs -> f g = 0%nat.
Proof.
  unfold total. clear. induction fs as [|x l IH]; intros Hz Hin; [by apply elem_of_nil in Hin|]. cbn in Hz.
  apply elem_of_cons in Hin as [->|Hin]; [lia|]. apply IH; [lia|done].
Qed.

Lemma of_prog_cons f g b log : of_prog f ((g, b) :: log) = (if decide (g = f) then [b] else []) ++ of_prog f log.
Proof. unfold of_prog. rewrite filter_cons. cbn. by case_decide. Qed.

(** A log of functions of the list is split among them. *)
Lemma log_total log : Forall (fun e => fst e ∈ fs) log -> length log = total (fun f => length (of_prog f log)).
Proof.
  induction log as [|[g b] log IH]; intros Hall.
  - unfold total. clear. by induction fs.
  - apply Forall_cons in Hall as [Hg Hall]. cbn [length].
    rewrite (total_ext _ (fun f => (if decide (g = f) then 1 else 0) + length (of_prog f log))%nat).
    2:{ intros f. rewrite of_prog_cons. by case_decide. }
    rewrite total_add, <- IH by done. cbn in Hg. clear - Hg Hfs. unfold total.
    assert (E : sum_list (map (fun f => if decide (g = f) then 1 else 0)%nat fs) = 1%nat); [|lia].
    induction fs as [|x l IH]; [by apply elem_of_nil in Hg|]. apply NoDup_cons in Hfs as [Hx Hnd]. cbn.
    destruct (decide (g = x)) as [->|Hne].
    + assert (E : sum_list (map (fun f => if decide (x = f) then 1 else 0)%nat l) = 0%nat); [|lia].
      clear - Hx. induction l as [|y l IH]; [done|]. cbn. rewrite decide_False by (intros ->; apply Hx; left).
      apply IH. intros ?. apply Hx. by right.
    + apply elem_of_cons in Hg as [?|Hg]; [done|]. by apply IH.
Qed.

Lemma of_prog_in f b log : (f, b) ∈ log -> of_prog f log <> [].
Proof.
  induction log as [|[g c] log IH]; intros Hin; [by apply elem_of_nil in Hin|]. rewrite of_prog_cons.
  apply elem_of_cons in Hin as [[= -> ->]|Hin]; [by rewrite decide_True|]. intros [_ E]%app_eq_nil. by apply IH.
Qed.

Lemma logs_in_fs w L G items :
  good w L G [] [] items -> Forall (fun e => fst e ∈ fs) (ca_in (sw_user w)) /\ Forall (fun e => fst e ∈ fs) (ca_out (sw_user w)).
Proof.
  intros [_ _ []]. split; apply Forall_forall; intros [f b] Hin; apply Hprog; intros E; cbn in E; apply (of_prog_in f b _ Hin).
  - specialize (bi_in f). rewrite E in bi_in. by apply app_eq_nil in bi_in as [? _].
  - specialize (bi_out f). rewrite E in bi_out. cbn in bi_out. apply length_zero_iff_nil. lia.
Qed.

Lemma one_way_left ops pre : one_way (pre ++ ops) -> one_way ops.
Proof. intros [H1|H1]; apply Forall_app in H1 as [_ ?]; [by left|by right]. Qed.

Lemma one_way_recv p ops : one_way (Recv p :: ops) -> sent_by blk m0 (Recv p :: ops) = [] /\ recvs (Recv p :: ops) = S (length ops).
Proof.
  intros [H1|H1]; apply Forall_cons in H1 as [[q E] H1]; [done|]. clear E. unfold sent_by, recvs. cbn.
  induction H1 as [|x l [y ->] _ [IH1 IH2]]; [done|]. cbn. split; [done|]. by injection IH2 as ->.
Qed.

Lemma one_way_send p ops : one_way (Send p :: ops) -> recvs (Send p :: ops) = 0%nat.
Proof.
  intros [H1|H1]; apply Forall_cons in H1 as [[q E] H1]; [|done]. clear E. unfold recvs. cbn.
  induction H1 as [|x l [y ->] _ IH1]; done.
Qed.

(** When nobody is ready, whoever waits cannot go on, and a function with operations left
    is in one of them. *)
Lemma waiters_stuck w L G items co wt :
  good w L G [] [] items -> readys w = [] -> ca_waiting (sw_user w) !! co = Some wt ->
  L (wt_prog wt) = wt_op wt :: wt_rest wt /\ stuck n items (wt_op wt).
Proof.
  intros [_ [] _] Hr Hwt. destruct (wi_all co wt Hwt) as (_ & _ & _ & _ & [(_ & _ & ? & _ & ?)|(_ & Hin & _)]); [done|].
  rewrite Hr in Hin. by apply elem_of_nil in Hin.
Qed.

Lemma left_stuck w L G items f :
  good w L G [] [] items -> readys w = [] -> L f = [] \/ exists op rest, L f = op :: rest /\ stuck n items op.
Proof.
  intros Hinv Hr. destruct (L f) as [|op rest] eqn:E; [by left|right].
  pose proof (inv_waiters _ _ _ _ _ _ _ _ _ _ _ _ _ _ Hinv) as Hwi. destruct (wi_left _ _ _ _ _ _ _ _ _ Hwi f) as [?%elem_of_nil|(co & wt & Hwt & Hf)];
    [by rewrite E|done|]. destruct (waiters_stuck w L G items co wt) as [HL Hs]; [done..|].
  rewrite Hf, E in HL. injection HL as -> ->. eauto.
Qed.

(** The logs, function by function. *)
Lemma log_sums w L G items :
  good w L G [] [] items ->
  let into := total (fun f => length (of_prog f (ca_in (sw_user w)))) in
  let out := total (fun f => length (of_prog f (ca_out (sw_user w)))) in
  into = (out + length items)%nat /\
  (into + total (fun f => length (sent_by blk m0 (L f))) = total (fun f => length (sent_by blk m0 (prog f))))%nat /\
  (out + total (fun f => recvs (L f)) = total (fun f => recvs (prog f)))%nat.
Proof.
  intros Hinv. destruct (logs_in_fs _ _ _ _ Hinv) as [Hfi Hfo]. destruct Hinv as [_ _ []]. split_and!.
  - pose proof (f_equal length bi_fifo) as Hlen. by rewrite length_app, !length_map, (log_total _ Hfi), (log_total _ Hfo) in Hlen.
  - rewrite <- total_add. apply total_ext. intros f. by rewrite <- bi_in, length_app.
  - rewrite <- total_add. by apply total_ext.
Qed.

Lemma total_none f : (forall x, f x = 0%nat) -> total f = 0%nat.
Proof. intros E. rewrite (total_ext _ _ E). unfold total. clear. by induction fs. Qed.

(** When nobody is ready and as much is sent as is received, nobody waits. *)
Lemma all_done w L G items :
  good w L G [] [] items -> readys w = [] -> (forall f, one_way (prog f)) ->
  total (fun f => length (sent_by blk m0 (prog f))) = total (fun f => recvs (prog f)) ->
  items = [] /\ (forall f, L f = []) /\ ca_waiting (sw_user w) = ∅ /\ (forall f, G f = []).
Proof.
  intros Hinv Hr Hone Hbal. destruct (log_sums _ _ _ _ Hinv) as (Hlen & Hin & Hout).
  pose proof (fun f => left_stuck _ _ _ _ f Hinv Hr) as Hleft.
  pose proof (fun co wt => waiters_stuck _ _ _ _ co wt Hinv Hr) as Hblocked. destruct Hinv as [_ [] []].
  assert (Hone' : forall f, one_way (L f)).
  { intros f. destruct (bi_suffix f) as [pre E]. apply (one_way_left _ pre). by rewrite <- E. }
  assert (Hitems : items = []).
  { destruct items as [|b items]; [done|]. rewrite (total_none (fun f => recvs (L f))) in Hout; [cbn [length] in Hlen; lia|].
    intros f. destruct (Hleft f) as [->|(op & rest & E & Hs)]; [done|]. specialize (Hone' f). rewrite E in *.
    destruct op; [done|]. by apply one_way_send. }
  subst items. cbn [length] in Hlen.
  assert (Hz : forall f, sent_by blk m0 (L f) = [] /\ recvs (L f) = length (L f)).
  { intros f. destruct (Hleft f) as [->|(op & rest & E & Hs)]; [done|]. specialize (Hone' f). rewrite E in *.
    destruct op; [by apply one_way_recv|]. cbn in Hs. lia. }
  rewrite (total_none (fun f => length (sent_by blk m0 (L f)))) in Hin by (intros f; by rewrite (proj1 (Hz f))).
  assert (HL : forall f, L f = []).
  { intros f. destruct (decide (f ∈ fs)) as [Hf|Hf].
    - apply length_zero_iff_nil. rewrite <- (proj2 (Hz f)). apply (total_zero (fun f => recvs (L f)) f); [lia|done].
    - destruct (bi_suffix f) as [pre E]. destruct (prog f) eqn:Ep; [by apply eq_sym, app_eq_nil in E as [_ ?]|].
      destruct Hf. apply Hprog. by rewrite Ep. }
  assert (Hw : forall co, ca_waiting (sw_user w) !! co = None).
  { intros co. destruct (ca_waiting (sw_user w) !! co) as [wt|] eqn:E; [|done]. destruct (Hblocked co wt E) as [E2 _].
    by rewrite HL in E2. }
  split_and!; try done; [by apply map_empty|]. intros f. destruct (G f) as [|b g] eqn:E; [done|].
  destruct (wi_owed f) as (co & wt & Hwt & _); [by rewrite E|]. by rewrite Hw in Hwt.
Qed.
End traffic.

(** A scheduler from its constructor, to which the functions have been given. *)
Lemma starting_from_new {K : Type} `{EpollKernel K} answers prog malloc stack_size scratch n blk m0 evtfd fs id num junk ring
  (ev : ev_state K) s ev' :
  0 < blk -> (1 <= n)%nat -> Z.of_nat n * blk < 2 ^ 32 -> Z.of_nat (length ring) = Z.of_nat n * blk ->
  (forall f, prog f <> [] -> f ∈ fs) ->
  SchedulerImpl_new id num stack_size evtfd junk ev = Ok (s, ev') ->
  starting prog malloc stack_size scratch n blk m0 evtfd
    (chan_start answers s ev' m0 (ChannelImpl_new (Z.of_nat n * blk) blk (u32 (-1)) ring) fs) fs.
Proof.
  intros Hb Hn Hlt Hring Hprog Enew.
  destruct (new_scheduler_sound malloc stack_size scratch n evtfd Hn id num junk ev s ev' Enew)
    as (Hs & Hmain & Htm & Hstop & Hto & Hfd & Htk & Hpr).
  unfold chan_start. destruct (fold_new_tasks answers fs s) as (ep & -> & Hep). rewrite Htk. split_and!; [|done|exact Hpr].
  split; split; cbn; rewrite ?Htm, ?Hep; try done; try (by intros ? ?%elem_of_nil); try apply NoDup_nil_2.
  - cbn in Hring |- *. unfold view. cbn. by eapply (chan_inv_new n blk (u32 (-1)) ring).
  - cbn. intros f Hf. left. by apply Hprog.
  - by intros f; exists [].
Qed.

(** ** Theorems *)


(** ** Samples and the witness *)

(** Function 1 sends three bytes, function 2 receives them; the channel holds one. *)
Definition prog_sample (f : Closure) : list chan_op :=
  match f with
  | 1%nat => [Send 10; Send 11; Send 12]
  | 2%nat => [Recv 20; Recv 21; Recv 22]
  | _ => []
  end.
Definition scratch_sample (x : Z) : Prop := 100000 <= x.
Definition ev_empty : ev_state epoll_table := mkEvState ∅ ∅.
Definition chan_run_sample (prog : Closure -> list chan_op) (ms : Z) (clk : nat -> Z) (fs : list Closure) (turns : nat)
  : outcome (sworld epoll_table chan_app) :=
  let* (s, ev) := SchedulerImpl_new 0 1 1024 3 (fun _ => []) ev_empty in
  SchedulerImpl_Loop (fun i => 100000 * (Z.of_nat i + 1)) clk 1 2 3 4 []
    (chan_user (fun i => 500 + Z.of_nat i) (fun _ => kInit) clk [] prog (fun _ => 100000))
    (chan_start [] s ev (fun x => x mod 256) (ChannelImpl_new 1 1 ms [0]) fs)
    (replicate turns (WaitEvents [mkEpollEvent 1 3])).
Definition run_sample : list Closure -> nat -> outcome (sworld epoll_table chan_app) :=
  chan_run_sample prog_sample (u32 (-1)) (fun _ => 0).

(** Function 1 sends a byte, function 2 receives it with a limit of 100 milliseconds and
    ends; the clock shows 200 from its eighth reading on. *)
Definition timed_sample (turns : nat) : outcome (sworld epoll_table chan_app) :=
  chan_run_sample (fun f => match f with 1%nat => [Send 10] | 2%nat => [Recv 20] | _ => [] end) 100
    (fun i => nth i [0; 1; 1; 2; 2; 3; 3] 200) [2; 1]%nat turns.

(** The receiver is served in time, but its timer stays: the read has returned, its
    coroutine has come to its end and lies with the idle ones when the timer is due, and is
    resumed all the same, which its code cannot follow. *)
Theorem ended_reader_resumed :
  (exists w, timed_sample 3 = Ok w /\ ca_got (sw_user w) = [(2%nat, [10])] /\
     map_to_list (ca_waiting (sw_user w)) = [] /\ cp_idle (sc_pool (sw_sched w)) = [2; 1] /\
     tn_co <$> timer_ (sc_timers (sw_sched w)) = [1%nat]) /\
  timed_sample 4 = Fault AssertionFailed.
Proof.
  split; [|vm_compute; done].
  assert (E : match timed_sample 3 with
              | Ok w => ca_got (sw_user w) = [(2%nat, [10])] /\ map_to_list (ca_waiting (sw_user w)) = [] /\
                        cp_idle (sc_pool (sw_sched w)) = [2; 1] /\ tn_co <$> timer_ (sc_timers (sw_sched w)) = [1%nat]
              | Fault _ => False
              end) by (vm_compute; done).
  destruct (timed_sample 3) as [w|]; [by exists w|done].
Qed.

(** The run, evaluated: whoever is started first, the bytes at 20, 21 and 22 are those
    at 10, 11 and 12 after four turns already. *)
Example run_sample_ends :
  forall fs, fs ∈ [[1; 2]; [2; 1]]%nat ->
  match run_sample fs 4 with
  | Ok w => map (sw_mem w) [20; 21; 22] = [10; 11; 12] /\ size (ca_waiting (sw_user w)) = 0%nat /\
            ca_got (sw_user w) = [(2%nat, [10]); (2%nat, [11]); (2%nat, [12])]
  | Fault _ => False
  end.
Proof.
  intros fs [->|[->|?%elem_of_nil]%elem_of_cons]%elem_of_cons; [..|done]; vm_compute; done.
Qed.

Lemma prog_sample_addr f op :
  op ∈ prog_sample f ->
  match op with Send p => f = 1%nat /\ 10 <= p <= 12 | Recv p => f = 2%nat /\ 20 <= p <= 22 end.
Proof.
  destruct f as [|[|[|f]]]; cbn; intros Hin; repeat (apply elem_of_cons in Hin as [->|Hin]); try (by apply elem_of_nil in Hin);
    split; done || lia.
Qed.

Lemma prog_sample_layout : layout_ok prog_sample scratch_sample 1.
Proof.
  unfold layout_ok, scratch_sample, disjoint_ranges. split_and!.
  - intros f op x Hin%prog_sample_addr. destruct op; cbn; lia.
  - intros f g p q Hp%prog_sample_addr Hq%prog_sample_addr. lia.
  - intros f g p q Hne Hp%prog_sample_addr Hq%prog_sample_addr. lia.
Qed.

