(* ===== verification/ChannelLimit.v ===== *)
(** * A read with a time limit that nobody serves

    From the constructor of a scheduler to the end of the limit: the coroutine waits in
    the queue of the channel and in the timers; the loop leaves it there until it finds
    the limit over, and then the read returns without a block. *)

From stdpp Require Import base numbers functions list gmap.
From Stdlib Require Import Lia ZArith.
From S2P Require Import Prelude Atomic Stream Errno SockCtx Epoll Wakeup Coroutine Copoll TaskManager TimerManager Context.
From S2P Require Import Scheduler Switching Channel ChannelRun ChannelTraffic.

Section limit.
Context {K : Type} `{EpollKernel K}.
Context (wait_block wait_junk : nat -> Z) (clk : nat -> Z) (answers : list io_result).
Context (prog : Closure -> list chan_op) (park : nat -> Z).
Context (malloc : nat -> Z) (entry end_ main_func main_ctx : Z) (stack_size : Z) (scratch : Z -> Prop).
Context (m0 : memory) (evtfd : Z).
Context (Hsize : 128 <= stack_size)
  (Hmalloc : forall i x, malloc i <= x < malloc i + stack_size + kSmallBuffer -> scratch x)
  (Hjunk : forall i, wait_junk i = kInit) (Hpark : forall co, ctx_placed scratch (park co)).
(** The function [f] reads once, to [p]; the limit is [ms] and is over at [limit]. *)
Context (f : Closure) (p ms limit : Z) (Hprog : prog f = [Recv p]) (Hp : ~ scratch p)
  (Hms : ms <> u32 (-1)).

Abbreviation world := (sworld K chan_app).
Abbreviation user := (chan_user (K := K) wait_block wait_junk clk answers prog park).
Abbreviation resume := (SchedulerImpl_Resume malloc entry end_ main_func main_ctx user).
Abbreviation iteration := (Loop_iteration malloc clk entry end_ main_func main_ctx answers user).
Abbreviation loop := (SchedulerImpl_Loop malloc clk entry end_ main_func main_ctx answers user).
Abbreviation sound' := (sound malloc stack_size scratch).

(** ** The states of the read *)

(** What holds from the start: [st] is the state of the wait context, [timers] and
    [waits] are those who wait. *)
Record limit_inv (w : world) (st : Z) (timers : list timer_node) (waits : gmap nat waiting) : Prop := {
  li_sound : sound' (sw_sched w);
  li_main : sc_main (sw_sched w) = 0%nat;
  li_stop : sc_stop (sw_sched w) = false;
  li_timeout : sc_timeout (sw_sched w) = false;
  li_fd : wake_up_fd_ (sc_epoll (sw_sched w)) = evtfd;
  li_tasks : sc_tasks (sw_sched w) = TaskManager_empty;
  li_timers : timer_ (sc_timers (sw_sched w)) = timers;
  li_waiting : ca_waiting (sw_user w) = waits;
  li_got : ca_got (sw_user w) = [];
  li_queue : ch_queue (ca_chan (sw_user w)) = [0%nat];
  li_ctx : exists wc, sw_ctxs w !! 0%nat = Some wc /\ wc_state wc = st;
  li_mem : forall x, ~ scratch x -> sw_mem w x = m0 x
}.

Definition still_waiting (w : world) (co : nat) : Prop :=
  (exists id, limit_inv w kInit [mkNode id limit co] {[co := mkWaiting f (Recv p) 0 []]}) /\ co <> 0%nat /\
  exists c, get_co (sw_sched w) co = Ok c /\ is_Some (co_ctx c) /\ co_wait_ctx c = Some 0%nat.

Definition given_up (w : world) : Prop := limit_inv w kTimeout [] ∅.

(** ** Lemmas: switching keeps the state *)

Lemma limit_inv_kept w w' st timers waits :
  kept scratch w w' -> sound' (sw_sched w') -> limit_inv w st timers waits -> limit_inv w' st timers waits.
Proof.
  intros (Hk & Hm & _ & _ & Hx & Hu) Hs []. destruct Hk as (_ & _ & Hep & Hmain & Htk & Htm & Hto & Hstop & _).
  split; rewrite ?Hu, ?Hmain, ?Htm, ?Htk, ?Hep, ?Hto, ?Hstop, ?Hx; try done. intros x Hns. rewrite Hm by done. auto.
Qed.

(** ** Lemmas: the wait begins *)

(** A world whose coroutine [co] is about to read. *)
Record about_to_read (w : world) (co : nat) : Prop := {
  ar_sound : sound' (sw_sched w);
  ar_main : sc_main (sw_sched w) = 0%nat;
  ar_co : co <> 0%nat /\ sc_running (sw_sched w) = Some co;
  ar_ctx : exists c, get_co (sw_sched w) co = Ok c /\ is_Some (co_ctx c);
  ar_sched : sc_stop (sw_sched w) = false /\ sc_timeout (sw_sched w) = false /\
    wake_up_fd_ (sc_epoll (sw_sched w)) = evtfd /\ sc_tasks (sw_sched w) = TaskManager_empty /\
    sc_timers (sw_sched w) = TimerManager_new;
  ar_app : exists ch, sw_user w = app_init ch /\ ch_rx ch = ch_wx ch /\ ch_full ch = false /\ ch_queue ch = [] /\
    ch_ms ch = ms;
  ar_world : sw_ctxs w = ∅ /\ sw_clock w = 0%nat /\ forall x, ~ scratch x -> sw_mem w x = m0 x
}.

Lemma AddTimer_first s now co c :
  sound' s -> sc_running s = Some co -> get_co s co = Ok c -> co_ctx c <> None -> sc_timers s = TimerManager_new ->
  exists s' c', SchedulerImpl_AddTimer s now ms = Ok s' /\ sound' s' /\ sc_main s' = sc_main s /\
    timer_ (sc_timers s') = [mkNode 0 (i64 (now + ms)) co] /\ sc_running s' = Some co /\
    sc_stop s' = sc_stop s /\ sc_timeout s' = sc_timeout s /\ sc_epoll s' = sc_epoll s /\ sc_tasks s' = sc_tasks s /\
    get_co s' co = Ok c' /\ co_ctx c' = co_ctx c /\ co_wait_ctx c' = co_wait_ctx c.
Proof.
  intros Hs Hr Hc Hcx Htm. pose proof (get_co_lt _ _ _ Hc) as Hlt. destruct (sound_co malloc stack_size scratch s co c Hs Hc) as [[Hsid _] Hpl].
  unfold SchedulerImpl_AddTimer. set (s1 := if ms <? sc_wait_ms s then _ else s).
  assert (Hs1 : sound' s1 /\ sc_running s1 = Some co /\ sc_timers s1 = TimerManager_new /\ get_co s1 co = Ok c /\
      sc_main s1 = sc_main s /\ sc_stop s1 = sc_stop s /\ sc_timeout s1 = sc_timeout s /\ sc_epoll s1 = sc_epoll s /\
      sc_tasks s1 = sc_tasks s) by (unfold s1; destruct (ms <? sc_wait_ms s); done).
  clearbody s1. destruct Hs1 as (Hs1 & Hr1 & Htm1 & Hc1 & Hm1 & Hst1 & Hto1 & Hep1 & Htk1).
  unfold get_running. rewrite Hr1, Htm1. cbn [obind].
  set (tm := mkTimerManager [mkNode 0 (i64 (now + ms)) co] (Some 0%nat) 1).
  change (TimerManager_AddTimer TimerManager_new now ms co) with (Ok (0%nat, tm)). cbn [obind].
  change (get_co (set_sc_timers s1 tm) co) with (get_co s1 co). rewrite Hc1. cbn [obind].
  eexists _, (set_co_timer_id c (Some 0%nat)). split; [reflexivity|]. split_and!; try done; cbn.
  - apply (sound_put malloc stack_size scratch (set_sc_timers s1 tm) co c); [done|done|split; [done|]|].
    + intros E. by destruct Hcx.
    + cbn. by rewrite Hm1.
  - apply get_put_co. exact (get_co_lt _ _ _ Hc1).
Qed.

(** The read publishes its wait context, adds a timer, and yields. *)
Lemma begin_timed w co :
  about_to_read w co -> limit = i64 (clk 0%nat + ms) ->
  exists w', run_prog (K := K) wait_block wait_junk clk answers park w f [Recv p] = Ok (w', Yielded (park co)) /\
    still_waiting w' co /\ sw_clock w' = 1%nat /\ sc_running (sw_sched w') = Some co.
Proof.
  intros [Hs Hmain [Hco Hr] (c & Hc & Hcx) (Hstop & Hto & Hfd & Htk & Htm) (ch & Hu & Hrx & Hfull & Hq & Hchms) (Hx & Hck & Hm)] Hlim.
  pose proof (get_co_lt _ _ _ Hc) as Hlt. destruct (sound_co malloc stack_size scratch _ co c Hs Hc) as [[Hsid Hcf] [Hsz Hpl]].
  set (cl := mkCaller co false (wait_block 0%nat) kInit 0 (sc_id (sw_sched w))).
  assert (Hcl : chan_caller (K := K) wait_block wait_junk w p = Ok cl).
  { unfold chan_caller, get_running. rewrite Hr. cbn [obind].
    rewrite (on_stack_false malloc stack_size scratch _ co c p Hs Hr Hc Hp Hmalloc). cbn [obind]. by rewrite Hu, Hjunk. }
  set (wc := wait_ctx_of cl p).
  set (v := mkChWorld (ch_move ch (ch_buf ch) (ch_rx ch) (ch_wx ch) (ch_full ch) [0%nat]) (sw_mem w)
              {[0%nat := wc]} (cp_pool (sc_pool (sw_sched w))) []).
  assert (Ev : ChannelImpl_Read (view w) cl p = Ok (v, Blocks 0)).
  { unfold ChannelImpl_Read, view. cbn [cw_ch]. rewrite Hu. cbn [app_init ca_chan]. rewrite Hrx, Z.eqb_refl, Hfull. cbn [negb].
    unfold v, wc. cbn. by rewrite Hq, Hx, Hrx, Hfull. }
  set (c1 := parked c 0 (sc_id (sw_sched w))). set (w1 := parked_world w v co c1).
  assert (Hc' : cp_pool (sc_pool (sw_sched w)) !! co = Some c).
  { unfold get_co in Hc. by destruct (_ !! co); [injection Hc as ->|]. }
  assert (Eb : ChannelImpl_block v cl 0 = Ok (mkChWorld (cw_ch v) (cw_m v) (cw_ctx v) (<[co := c1]> (cw_cos v)) [], true)).
  { unfold ChannelImpl_block. cbn [cl cl_co v cw_cos]. rewrite Hc'. change (ch_ms (cw_ch v)) with (ch_ms ch). rewrite Hchms.
    by rewrite (proj2 (Z.eqb_neq _ _) Hms). }
  assert (Hs1 : sound' (put_co (sw_sched w) co c1)).
  { apply (sound_put malloc stack_size scratch _ co c); [done|done|split; [done|]|by split].
    intros Hnone. cbn in Hnone. rewrite Hnone in Hcx. by destruct Hcx. }
  destruct (AddTimer_first (put_co (sw_sched w) co c1) (clk 0%nat) co c1 Hs1 Hr) as
    (s2 & c2 & E2 & Hs2 & Hm2 & Ht2 & Hr2 & Hst2 & Hto2 & Hep2 & Htk2 & Hc2 & Hx2 & Hwx2).
  { by apply get_put_co. } { intros E. cbn in E. rewrite E in Hcx. by destruct Hcx. } { exact Htm. }
  set (s3 := put_co s2 co (set_co_scheduler c2 (sc_id s2))). pose proof (get_co_lt _ _ _ Hc2) as Hlt2.
  set (w2 := mkSW s3 (sw_mem w) (sw_ev w) {[0%nat := wc]} 1 (sw_mallocs w) (sw_resumed w)
               (mkApp (cw_ch v) 1 {[co := mkWaiting f (Recv p) 0 []]} [] [] [] [])).
  exists w2. split_and!.
  - cbn [run_prog]. unfold chan_begin. cbn [op_addr]. rewrite Hcl. cbn [obind]. rewrite Ev. cbn [obind]. rewrite Eb. cbn [obind].
    change (put_view answers w _) with w1.
    change (sw_clock w1) with (sw_clock w). change (ch_ms _) with (ch_ms ch). rewrite Hck, Hchms.
    change (sw_sched w1) with (put_co (sw_sched w) co c1). rewrite E2. cbn [obind].
    unfold SchedulerImpl_Yield, get_running. cbn [sw_sched]. rewrite Hr2. cbn [obind]. rewrite Hc2. cbn [obind sw_sched set_sw_sched].
    change (sc_running (put_co s2 _ _)) with (sc_running s2). rewrite Hr2. cbn [obind]. unfold w2, w1, parked_world, set_user_waiting. cbn.
    rewrite Hu. reflexivity.
  - destruct (sound_co malloc stack_size scratch _ co c2 Hs2 Hc2) as [[Hsid2 _] Hpl2]. split_and!; [|done|].
    + cbn in Hm2, Hst2, Hto2, Hep2, Htk2. exists 0%nat. split; cbn; try done; try congruence.
      * apply (sound_put malloc stack_size scratch s2 co c2); [done|done|split; [done|]|done].
        intros E. cbn in E. rewrite Hx2 in E. cbn in E. rewrite E in Hcx. by destruct Hcx.
      * exists wc. split; [apply lookup_singleton_eq|done].
    + exists (set_co_scheduler c2 (sc_id s2)). split_and!; [by apply get_put_co|cbn; by rewrite Hx2|cbn; by rewrite Hwx2].
  - done.
  - done.
Qed.

(** ** Lemmas: turns of the loop *)

Lemma still_waiting_kept w w' co :
  kept scratch w w' -> sound' (sw_sched w') -> still_waiting w co -> still_waiting w' co.
Proof.
  intros Hk Hs ([id Hi] & Hco & c & Hc & Hcx & Hwx). split_and!; [by exists id; eapply limit_inv_kept|done|].
  destruct (sched_kept_co _ _ _ _ (proj1 Hk) Hc) as (c' & Hc' & (_ & _ & Hw' & _ & _ & Hc2)). exists c'.
  split_and!; [done|auto|congruence].
Qed.

(** A turn in which no task is queued comes to the timers with the same state. *)
Definition before_timeouts (w : world) (ep : Epoll) : world := take_tasks (set_epoll w ep).
Definition after_turn (w : world) : world := set_sw_sched w (set_sc_running (sw_sched w) None).

Lemma iteration_quiet w evs :
  sc_stop (sw_sched w) = false -> sc_tasks (sw_sched w) = TaskManager_empty -> wake_up_fd_ (sc_epoll (sw_sched w)) = evtfd ->
  quiet_result evtfd (WaitEvents evs) ->
  exists ep, wake_up_fd_ ep = evtfd /\
    iteration w (WaitEvents evs) =
      let* w' := Loop_timeouts malloc clk entry end_ main_func main_ctx user (before_timeouts w ep) in Ok (after_turn w').
Proof.
  intros Hstop Htk Hfd Hq. unfold Loop_iteration. rewrite Hstop.
  destruct (handle_events_quiet wait_block wait_junk clk answers prog park malloc entry end_ main_func main_ctx evtfd w evs Hfd Hq)
    as (ep & -> & Hep). exists ep. split; [done|]. cbn [obind]. unfold Loop_tasks. rewrite GetAllTasks_cleared.
  cbn [sw_sched set_epoll set_sw_sched set_sc_epoll sc_tasks]. by rewrite Htk.
Qed.

Lemma before_timeouts_ok w ep st timers waits :
  limit_inv w st timers waits -> wake_up_fd_ ep = evtfd -> limit_inv (before_timeouts w ep) st timers waits.
Proof. intros [] Hfd. by split. Qed.

Lemma after_turn_ok w st timers waits : limit_inv w st timers waits -> limit_inv (after_turn w) st timers waits.
Proof. intros []. by split. Qed.

Abbreviation timeouts := (Loop_timeouts malloc clk entry end_ main_func main_ctx user).

(** The limit is not over. *)
Lemma timeouts_waiting w co :
  still_waiting w co -> clk (sw_clock w) < limit ->
  exists w', timeouts w = Ok w' /\ still_waiting w' co /\ sw_clock w' = (2 + sw_clock w)%nat.
Proof.
  intros ([id Hi] & Hco & c & Hc & Hcx & Hwx) Hlt. pose proof Hi as []. unfold Loop_timeouts, TimerManager_CollectTimeoutTasks.
  rewrite li_timers0. cbn [collect_loop tn_when tn_id]. rewrite (proj2 (Z.ltb_lt _ _)) by done. cbn.
  eexists. split; [reflexivity|]. split; [|done]. split_and!; [|done|by exists c]. exists id. by split.
Qed.

(** Nobody waits any more. *)
Lemma timeouts_over w : given_up w -> exists w', timeouts w = Ok w' /\ given_up w'.
Proof.
  intros Hi. pose proof Hi as []. unfold Loop_timeouts, TimerManager_CollectTimeoutTasks. rewrite li_timers0. cbn.
  eexists. split; [reflexivity|]. by split.
Qed.

(** The limit is over: the coroutine is resumed, leaves the read, and ends. *)
Lemma timeouts_due w co :
  still_waiting w co -> limit <= clk (sw_clock w) -> exists w', timeouts w = Ok w' /\ given_up w'.
Proof.
  intros ([id Hi] & Hco & c & Hc & Hcx & Hwx) Hle. pose proof Hi as [Hs Hmain Hstop Hto Hfd Htk Htm Hw Hg Hq (wc & Hwc & Hst) Hm].
  assert (Hp1 : cp_pool (sc_pool (sw_sched w)) !! co = Some c).
  { unfold get_co in Hc. by destruct (_ !! co); [injection Hc as ->|]. }
  unfold Loop_timeouts, TimerManager_CollectTimeoutTasks. rewrite Htm. cbn [collect_loop tn_when].
  rewrite (proj2 (Z.ltb_ge _ _)) by done. unfold expire. cbn [cw_pool cw_ctxs tn_co]. rewrite Hp1, Hwx, Hwc, Hst.
  change (atomic_compare_swap uint8 kInit kInit kTimeout) with (kTimeout, kInit). cbn [obind app length Nat.eqb Z.eqb kInit cw_pool cw_ctxs].
  set (w1 := set_sw_sched _ _).
  assert (Hs1 : sound' (sw_sched w1)) by exact Hs. assert (Hc1 : get_co (sw_sched w1) co = Ok c) by exact Hc.
  assert (Hm1 : co <> sc_main (sw_sched w1)) by (change (co <> sc_main (sw_sched w)); by rewrite Hmain).
  destruct (resume_switch malloc entry end_ main_func main_ctx user stack_size scratch Hsize Hmalloc w1 co c Hs1 Hm1 Hc1)
    as (w2 & Hk & Hs2 & Hr2 & _ & _ & (c2 & Hc2 & Hkc & _) & E).
  cbn [resume_all]. rewrite E. clear E. pose proof Hk as ((_ & _ & Hep2 & Hmain2 & Htk2 & Htm2 & Hto2 & Hst2 & _) & Hm2 & _ & _ & Hx2 & Hu2).
  assert (Hwt : ca_waiting (sw_user w2) = {[co := mkWaiting f (Recv p) 0 []]}) by (rewrite Hu2; exact Hw).
  assert (Hctx : exists wc', sw_ctxs w2 !! 0%nat = Some wc' /\ wc_state wc' = kTimeout).
  { rewrite Hx2. eexists. split; [apply lookup_insert_eq|done]. }
  destruct Hctx as (wc' & Hwc' & Hst').
  set (w3 := add_logs (set_sw_mem (set_user_waiting w2 ∅) (sw_mem w2)) [] [] []).
  assert (Eu : user w2 co (entry_of c) = Ok (w3, Finished)).
  { unfold entry_of. destruct (co_ctx c) as [x|]; [|by destruct Hcx]. unfold chan_user. rewrite Hwt, lookup_singleton_eq, delete_singleton_eq.
    unfold chan_end, SchedulerImpl_is_timeout, ChannelImpl_Read_resume, get_ctx. cbn [wt_op wt_wid view cw_ctx].
    change (sw_ctxs (set_user_waiting w2 ∅)) with (sw_ctxs w2). change (sw_sched (set_user_waiting w2 ∅)) with (sw_sched w2).
    rewrite Hto2, Hwc'. reflexivity. }
  rewrite Eu. cbn [obind].
  assert (Hm3 : co <> sc_main (sw_sched w3)) by (change (co <> sc_main (sw_sched w2)); rewrite Hmain2; exact Hm1).
  destruct (finish_returned malloc stack_size scratch w3 co c2 Hs2 Hr2 Hc2 Hm3) as (w4 & -> & Hk4 & Hs4 & _). cbn [obind].
  eexists. split; [reflexivity|].
  assert (Hi3 : limit_inv (set_sw_sched w3 (set_sc_timeout (sw_sched w3) false)) kTimeout [] ∅).
  { split; cbn; rewrite ?Hu2, ?Hmain2, ?Htk2, ?Htm2, ?Hst2, ?Hep2; try done.
    - by rewrite app_nil_r.
    - by exists wc'.
    - intros x Hx. rewrite Hm2 by done. by apply Hm. }
  eapply (limit_inv_kept (set_sw_sched w3 (set_sc_timeout (sw_sched w3) false))); [|exact Hs4|exact Hi3].
  destruct Hk4 as (Hsk & Hrest). split; [|exact Hrest]. unfold sched_kept in *. cbn. destruct_and!. by split_and!.
Qed.

(** ** Lemmas: the loop *)

(** The clock's readings of [k] more turns are before the limit, the next one is not. *)
Definition over_after (w : world) (k : nat) : Prop :=
  (forall i, (i < k)%nat -> clk (sw_clock w + 2 * i)%nat < limit) /\ limit <= clk (sw_clock w + 2 * k)%nat.

Lemma turn_waiting w co k :
  still_waiting w co -> over_after w k ->
  exists w', (let* w' := timeouts w in Ok (after_turn w')) = Ok w' /\
    match k with O => given_up w' | S k' => still_waiting w' co /\ over_after w' k' end.
Proof.
  intros Hw [Hb Hl]. destruct k as [|k].
  - rewrite Nat.mul_0_r, Nat.add_0_r in Hl. destruct (timeouts_due w co Hw Hl) as (w1 & -> & Hg). cbn [obind].
    eexists. split; [reflexivity|]. by apply after_turn_ok.
  - assert (Hlt : clk (sw_clock w) < limit) by (rewrite <- (Nat.add_0_r (sw_clock w)); apply (Hb 0%nat); lia).
    destruct (timeouts_waiting w co Hw Hlt) as (w1 & -> & ([id Hi] & Hco & Hc) & Hck). cbn [obind].
    eexists. split; [reflexivity|]. split; [split_and!; [exists id; by apply after_turn_ok|done|exact Hc]|].
    unfold over_after. change (sw_clock (after_turn w1)) with (sw_clock w1). rewrite Hck. split.
    + intros i Hik. replace (2 + sw_clock w + 2 * i)%nat with (sw_clock w + 2 * S i)%nat by lia. apply Hb. lia.
    + replace (2 + sw_clock w + 2 * k)%nat with (sw_clock w + 2 * S k)%nat by lia. done.
Qed.

Lemma loop_over rs w : given_up w -> Forall (quiet_result evtfd) rs -> exists w', loop w rs = Ok w' /\ given_up w'.
Proof.
  revert w. induction rs as [|r rs IH]; intros w Hw Hq; cbn [SchedulerImpl_Loop]; [by exists w|].
  apply Forall_cons in Hq as [Hr Hq]. pose proof Hw as []. rewrite li_stop0. destruct r as [err|evs].
  - unfold Loop_iteration. rewrite li_stop0. cbn [obind]. by apply IH.
  - destruct (iteration_quiet w evs) as (ep & Hep & ->); [done..|].
    destruct (timeouts_over (before_timeouts w ep)) as (w1 & -> & Hw1); [by apply before_timeouts_ok|]. cbn [obind].
    apply IH; [|done]. by apply after_turn_ok.
Qed.

Lemma loop_waiting rs w co k :
  still_waiting w co -> over_after w k -> Forall (quiet_result evtfd) rs ->
  exists w', loop w rs = Ok w' /\ if decide (k < turns rs)%nat then given_up w' else still_waiting w' co.
Proof.
  revert w k. induction rs as [|r rs IH]; intros w k Hw Hb Hq; cbn [SchedulerImpl_Loop]; [by exists w|].
  apply Forall_cons in Hq as [Hr Hq]. pose proof Hw as ([id Hi] & Hco & Hc). pose proof Hi as []. rewrite li_stop0.
  destruct r as [err|evs].
  - unfold Loop_iteration. rewrite li_stop0. cbn [obind]. by apply IH.
  - destruct (iteration_quiet w evs) as (ep & Hep & ->); [done..|].
    destruct (turn_waiting (before_timeouts w ep) co k) as (w1 & -> & Hw1); [|exact Hb|].
    { split_and!; [exists id; by apply before_timeouts_ok|done|exact Hc]. }
    cbn [obind]. unfold turns. cbn [omap list_omap length]. fold (turns rs). destruct k as [|k].
    + destruct (loop_over rs w1 Hw1 Hq) as (w' & -> & Hw'). exists w'. split; [done|]. by rewrite decide_True by lia.
    + destruct Hw1 as [Hw1 Hb1]. destruct (IH w1 k Hw1 Hb1 Hq) as (w' & -> & Hd). exists w'. split; [done|].
      destruct (decide (k < turns rs)%nat); [by rewrite decide_True by lia|by rewrite decide_False by lia].
Qed.

(** ** Lemmas: the first turn *)

(** A new scheduler with [f] in its queue and an empty channel. *)
Record not_started (w : world) : Prop := {
  ns_sound : sound' (sw_sched w);
  ns_main : sc_main (sw_sched w) = 0%nat;
  ns_sched : sc_stop (sw_sched w) = false /\ sc_timeout (sw_sched w) = false /\
    wake_up_fd_ (sc_epoll (sw_sched w)) = evtfd /\ sc_timers (sw_sched w) = TimerManager_new;
  ns_tasks : sc_tasks (sw_sched w) = mkTaskManager [f] [];
  ns_pool : pool_ready (sc_pool (sw_sched w)) [0%nat];
  ns_app : exists ch, sw_user w = app_init ch /\ ch_rx ch = ch_wx ch /\ ch_full ch = false /\ ch_queue ch = [] /\
    ch_ms ch = ms;
  ns_world : sw_ctxs w = ∅ /\ sw_clock w = 0%nat /\ forall x, ~ scratch x -> sw_mem w x = m0 x
}.

Lemma first_tasks w :
  not_started w -> limit = i64 (clk 0%nat + ms) ->
  exists w' co, Loop_tasks malloc entry end_ main_func main_ctx user w = Ok w' /\ still_waiting w' co /\ sw_clock w' = 1%nat.
Proof.
  intros [Hs Hmain (Hstop & Hto & Hfd & Htm) Htk Hpr (ch & Hu & Hch) (Hx & Hck & Hm)] Hlim.
  unfold Loop_tasks. rewrite GetAllTasks_cleared, Htk. cbn [new_tasks_ ready_tasks_ resume_new].
  destruct (NewCoroutine_ok malloc stack_size scratch 1 ltac:(done) (set_sc_tasks (sw_sched w) TaskManager_empty) f [0%nat] Hs Hpr)
    as (co & c & s & Enew & Hni & Hc & Hent & _ & _ & (a & b & Es) & _ & _ & Hsnd); [cbn; unfold kPoolSize; lia|].
  assert (Hco : co <> 0%nat) by (intros ->; apply Hni; left).
  specialize (Hsnd ltac:(cbn; by rewrite Hmain)). cbn [sw_sched set_sw_sched]. rewrite Enew. cbn [obind].
  set (w0 := set_sw_sched _ s).
  assert (Hm0 : co <> sc_main (sw_sched w0)) by (unfold w0; cbn; rewrite Es; cbn; by rewrite Hmain).
  destruct (resume_switch malloc entry end_ main_func main_ctx user stack_size scratch Hsize Hmalloc w0 co c Hsnd Hm0 Hc)
    as (w1 & Hk & Hs1 & Hr1 & _ & _ & (c1 & Hc1 & _ & Hcx1) & ->).
  rewrite Hent. cbn [chan_user]. rewrite Hprog.
  assert (Har : about_to_read w1 co).
  { destruct Hk as ((_ & _ & Hep1 & Hmain1 & Htk1 & Htm1 & Hto1 & Hst1 & _) & Hm1 & _ & Hck1 & Hx1 & Hu1).
    unfold w0 in *. cbn in *. rewrite Es in *. cbn in *.
    split; rewrite ?Hep1, ?Hmain1, ?Htk1, ?Htm1, ?Hto1, ?Hst1, ?Hck1, ?Hx1, ?Hu1; try done.
    - by exists c1.
    - exists ch. by split.
    - split_and!; try done. intros x Hns. rewrite Hm1 by done. auto. }
  destruct (begin_timed w1 co Har Hlim) as (w2 & -> & Hw2 & Hck2 & Hr2). cbn [obind].
  pose proof Hw2 as ([id []] & _ & c2 & Hc2 & _).
  destruct (finish_yielded malloc stack_size scratch w2 co c2 (park co) li_sound0 Hr2 Hc2 (Hpark co)) as (w3 & -> & Hk3 & Hs3 & _).
  cbn [obind resume_all]. exists w3, co. split_and!; [done|by eapply still_waiting_kept|].
  destruct Hk3 as (_ & _ & _ & -> & _). done.
Qed.

Lemma loop_first rs w k :
  not_started w -> limit = i64 (clk 0%nat + ms) -> Forall (quiet_result evtfd) rs -> (0 < turns rs)%nat ->
  (forall i, (i < k)%nat -> clk (1 + 2 * i)%nat < limit) -> limit <= clk (1 + 2 * k)%nat ->
  exists w' co, loop w rs = Ok w' /\ if decide (k < turns rs)%nat then given_up w' else still_waiting w' co.
Proof.
  intros Hns Hlim Hq Ht Hb Hl. revert w Hns Hq Ht. induction rs as [|r rs IH]; intros w Hns Hq Ht; [unfold turns in Ht; cbn in Ht; lia|].
  apply Forall_cons in Hq as [Hr Hq]. cbn [SchedulerImpl_Loop].
  assert (Hsch : sc_stop (sw_sched w) = false /\ wake_up_fd_ (sc_epoll (sw_sched w)) = evtfd) by (destruct Hns; by destruct_and!).
  destruct Hsch as [Hstop Hfd]. rewrite Hstop. unfold Loop_iteration at 1. rewrite Hstop. destruct r as [err|evs]; [by apply IH|].
  destruct (handle_events_quiet wait_block wait_junk clk answers prog park malloc entry end_ main_func main_ctx evtfd w evs Hfd Hr)
    as (ep & -> & Hep). cbn [obind].
  destruct (first_tasks (set_epoll w ep)) as (w1 & co & -> & Hw1 & Hck1); [|done|].
  { destruct Hns. destruct_and!. by split. }
  cbn [obind]. destruct (turn_waiting w1 co k Hw1) as (w2 & Et & Hw2); [unfold over_after; by rewrite Hck1|].
  unfold turns. cbn [omap list_omap length]. fold (turns rs). change (set_sw_sched ?w (set_sc_running (sw_sched ?w) None)) with (after_turn w).
  rewrite Et. cbn [obind]. destruct k as [|k].
  - destruct (loop_over rs w2 Hw2 Hq) as (w' & -> & Hw'). exists w', co. split; [done|]. by rewrite decide_True by lia.
  - destruct Hw2 as [Hw2 Hb2]. destruct (loop_waiting rs w2 co k Hw2 Hb2 Hq) as (w' & -> & Hd). exists w', co. split; [done|].
    destruct (decide (k < turns rs)%nat); [by rewrite decide_True by lia|by rewrite decide_False by lia].
Qed.
End limit.

(** ** Theorems *)

(** C10: a read with a time limit. A new scheduler is given a function that reads from an
    empty channel with a limit of [ms] milliseconds, and nobody writes; as for producers and
    consumers, the state byte of the wait context's memory is [kInit], and the block that is
    read into lies outside of the shared stacks and of the 4000 bytes behind each of them. The coroutine
    waits, first in the queue of the channel, after every turn of the loop whose clock
    reading is before the limit. The first turn that finds the limit over ends the read
    and the function: nothing was received, no memory but that of the shared stacks has
    changed, no timer is left, and a later write does not find a waiter. *)
Theorem read_time_limit {K : Type} `{EpollKernel K} wait_block wait_junk clk answers prog park
  malloc entry end_ main_func main_ctx stack_size scratch m0 f p ms id num evtfd junk size blk ring
  (ev : ev_state K) s ev' rs k :
  128 <= stack_size -> (forall i x, malloc i <= x < malloc i + stack_size + kSmallBuffer -> scratch x) ->
  (forall co, ctx_placed scratch (park co)) -> (forall i, wait_junk i = kInit) ->
  prog f = [Recv p] -> ~ scratch p -> 0 <= ms < u32 (-1) -> - 2 ^ 63 <= clk 0%nat + ms < 2 ^ 63 ->
  SchedulerImpl_new id num stack_size evtfd junk ev = Ok (s, ev') ->
  Forall (quiet_result evtfd) rs -> (0 < turns rs)%nat ->
  (forall i, (i < k)%nat -> clk (1 + 2 * i)%nat < clk 0%nat + ms) -> clk 0%nat + ms <= clk (1 + 2 * k)%nat ->
  exists w,
    SchedulerImpl_Loop malloc clk entry end_ main_func main_ctx answers
      (chan_user wait_block wait_junk clk answers prog park)
      (chan_start answers s ev' m0 (ChannelImpl_new size blk ms ring) [f]) rs = Ok w /\
    ca_got (sw_user w) = [] /\ (forall x, ~ scratch x -> sw_mem w x = m0 x) /\
    if decide (k < turns rs)%nat
    then ca_waiting (sw_user w) = ∅ /\ timer_ (sc_timers (sw_sched w)) = [] /\
      first_live (sw_ctxs w) (ch_queue (ca_chan (sw_user w))) = None
    else exists co, ca_waiting (sw_user w) = {[co := mkWaiting f (Recv p) 0 []]} /\
      first_live (sw_ctxs w) (ch_queue (ca_chan (sw_user w))) = Some (0%nat, []).
Proof.
  intros Hsize Hmalloc Hpark Hjunk Hprog Hp Hms Hov Enew Hq Ht Hb Hl.
  destruct (new_scheduler_sound malloc stack_size scratch 1 evtfd ltac:(done) id num junk ev s ev' Enew)
    as (Hs & Hmain & Htm & Hstop & Hto & Hfd & Htk & Hpr).
  destruct (fold_new_tasks answers [f] s) as (ep & Efold & Hep). set (ch := ChannelImpl_new size blk ms ring).
  assert (Hloop : exists w co, SchedulerImpl_Loop malloc clk entry end_ main_func main_ctx answers
      (chan_user wait_block wait_junk clk answers prog park) (chan_start answers s ev' m0 ch [f]) rs = Ok w /\
      if decide (k < turns rs)%nat then given_up malloc stack_size scratch m0 evtfd w
      else still_waiting malloc stack_size scratch m0 evtfd f p (clk 0%nat + ms) w co).
  { eapply (loop_first wait_block wait_junk clk answers prog park) with (ms := ms); try done; [lia| |symmetry; apply swrap_small; [done|exact Hov]].
    unfold chan_start. rewrite Efold. split; try done; cbn; [by rewrite Hep|by rewrite Htk|by exists ch]. }
  destruct Hloop as (w & co & E & Hd). exists w. split; [done|]. destruct (decide (k < turns rs)%nat).
  - destruct Hd as [? ? ? ? ? ? Htw Hw Hg Hqu (wc & Hwc & Hst) Hm]. split_and!; try done.
    rewrite Hqu. cbn. by rewrite Hwc, Hst.
  - destruct Hd as ([tid [? ? ? ? ? ? Htw Hw Hg Hqu (wc & Hwc & Hst) Hm]] & _). split_and!; try done. exists co.
    split; [done|]. rewrite Hqu. cbn. by rewrite Hwc, Hst.
Qed.

(** ** Witness *)

(** The clock shows 10 at first, then 20 for each reading but the last; the limit of
    50 milliseconds is over in the third turn. *)
Definition clk_sample (i : nat) : Z := nth i [10; 20; 20; 20; 20] 70.

Lemma read_time_limit_witness :
  match SchedulerImpl_new 0 1 1024 3 (fun _ => []) ev_empty with
  | Ok (s, ev) =>
      exists w,
        SchedulerImpl_Loop (fun i => 100000 * (Z.of_nat i + 1)) clk_sample 1 2 3 4 []
          (chan_user (fun i => 500 + Z.of_nat i) (fun _ => kInit) clk_sample [] (fun _ => [Recv 20]) (fun _ => 100000))
          (chan_start [] s ev (fun x => x mod 256) (ChannelImpl_new 1 1 50 [0]) [1%nat])
          (replicate 3 (WaitEvents [mkEpollEvent 1 3])) = Ok w /\
        ca_got (sw_user w) = [] /\ (forall x, ~ scratch_sample x -> sw_mem w x = x mod 256) /\
        ca_waiting (sw_user w) = ∅ /\ timer_ (sc_timers (sw_sched w)) = [] /\
        first_live (sw_ctxs w) (ch_queue (ca_chan (sw_user w))) = None
  | Fault _ => False
  end.
Proof.
  destruct (SchedulerImpl_new 0 1 1024 3 (fun _ => []) ev_empty) as [[s ev]|?] eqn:E;
    [|apply (f_equal (fun r => match r with Ok _ => true | Fault _ => false end)) in E; vm_compute in E; done].
  apply (read_time_limit (fun i => 500 + Z.of_nat i) (fun _ => kInit) clk_sample [] (fun _ => [Recv 20])
    (fun _ => 100000) (fun i => 100000 * (Z.of_nat i + 1)) 1 2 3 4 1024 scratch_sample (fun x => x mod 256) 1%nat 20 50
    0 1 3 (fun _ => []) 1 1 [0] ev_empty s ev (replicate 3 (WaitEvents [mkEpollEvent 1 3])) 2); try done; try lia.
  - unfold scratch_sample. lia.
  - unfold ctx_placed, scratch_sample. lia.
  - unfold scratch_sample. lia.
  - repeat constructor.
  - cbn. lia.
  - intros [|[|i]] Hi; [done..|lia].
Defined.
