(* ===== verification/Sleeping.v ===== *)
(** * A sleep that never ends

    [Sleep] of scheduler.cc adds a timer for its coroutine, which waits on nothing that a
    timer could time out; [CollectTimeoutTasks] drops such a timer when it is due. Here is
    what comes of it, from the constructor of a scheduler through any number of turns of
    its loop. *)

From stdpp Require Import base numbers functions list gmap.
From Stdlib Require Import Lia ZArith.
From S2P Require Import Prelude Atomic Stream Errno SockCtx Epoll Wakeup Coroutine Copoll TaskManager TimerManager Context.
From S2P Require Import Scheduler Switching ChannelTraffic.

(** What user code notes: the coroutine it ran in and how it was entered. *)
Abbreviation entry_log := (list (nat * user_entry)).

Section sleeping.
Context {K : Type} `{EpollKernel K}.
Context (clk : nat -> Z) (answers : list io_result) (park : nat -> Z).
Context (malloc : nat -> Z) (entry end_ main_func main_ctx : Z) (stack_size : Z) (scratch : Z -> Prop).
Context (evtfd : Z).
Context (Hsize : 128 <= stack_size)
  (Hmalloc : forall i x, malloc i <= x < malloc i + stack_size + kSmallBuffer -> scratch x)
  (Hpark : forall co, ctx_placed scratch (park co)).
(** The function [f] sleeps [ms] milliseconds and returns. *)
Context (f : Closure) (ms : Z).

Abbreviation world := (sworld K entry_log).

Definition sleep_user (w : world) (co : nat) (e : user_entry) : outcome (world * user_exit) :=
  let w := set_sw_user w (sw_user w ++ [(co, e)]) in
  match e with
  | Call _ =>
      let* tls := sleep (Some (sw_sched w)) (clk (sw_clock w)) ms in
      match tls with
      | Some s => Ok (mkSW s (sw_mem w) (sw_ev w) (sw_ctxs w) (S (sw_clock w)) (sw_mallocs w) (sw_resumed w) (sw_user w),
                      Yielded (park co))
      | None => Ok (w, Finished)
      end
  | Continue => Ok (w, Finished)
  end.

Abbreviation iteration := (Loop_iteration malloc clk entry end_ main_func main_ctx answers sleep_user).
Abbreviation loop := (SchedulerImpl_Loop malloc clk entry end_ main_func main_ctx answers sleep_user).
Abbreviation timeouts := (Loop_timeouts malloc clk entry end_ main_func main_ctx sleep_user).
Abbreviation sound' := (sound malloc stack_size scratch).

(** ** The state of the sleeper *)

Definition limit : Z := i64 (clk 0%nat + ms).

(** Nobody but the sleeper [co] is known to the scheduler, and it waits on nothing. *)
Record asleep (w : world) (co : nat) : Prop := {
  sl_sound : sound' (sw_sched w);
  sl_main : sc_main (sw_sched w) = 0%nat;
  sl_stop : sc_stop (sw_sched w) = false;
  sl_fd : wake_up_fd_ (sc_epoll (sw_sched w)) = evtfd;
  sl_tasks : sc_tasks (sw_sched w) = TaskManager_empty;
  sl_user : sw_user w = [(co, Call f)];
  sl_co : exists c, get_co (sw_sched w) co = Ok c /\ co_wait_ctx c = None
}.

(** After [n] turns its timer is there, due at none of their clock readings, or gone. *)
Definition timer_kept (w : world) (co n : nat) : Prop :=
  (exists id, timer_ (sc_timers (sw_sched w)) = [mkNode id limit co]) /\ sw_clock w = (1 + 2 * n)%nat /\
  forall i, (i < n)%nat -> clk (1 + 2 * i)%nat < limit.
Definition timer_gone (w : world) : Prop := timer_ (sc_timers (sw_sched w)) = [].

Lemma asleep_kept w w' co : kept scratch w w' -> sound' (sw_sched w') -> asleep w co -> asleep w' co.
Proof.
  intros (Hk & _ & _ & _ & _ & Hu) Hs [Hs0 Hm Hst Hfd Htk Hus (c & Hc & Hw)].
  destruct (sched_kept_co _ _ _ _ Hk Hc) as (c' & Hc' & (_ & _ & Hw' & _)).
  destruct Hk as (_ & _ & Hep & Hmain & Htk' & _ & _ & Hstop & _).
  split; rewrite ?Hu, ?Hmain, ?Htk', ?Hep, ?Hstop; try done. exists c'. split; [done|congruence].
Qed.

(** ** One turn *)

Definition at_epoll (w : world) (ep : Epoll) : world := set_sw_sched w (set_sc_epoll (sw_sched w) ep).
Definition tasks_taken (w : world) : world := set_sw_sched w (set_sc_tasks (sw_sched w) TaskManager_empty).

Lemma quiet_events (w : world) evs :
  wake_up_fd_ (sc_epoll (sw_sched w)) = evtfd -> Forall (fun ev => data_fd ev = evtfd) evs ->
  exists ep, handle_events malloc entry end_ main_func main_ctx answers sleep_user w evs = Ok (at_epoll w ep) /\
    wake_up_fd_ ep = evtfd.
Proof.
  revert w. induction evs as [|ev evs IH]; intros w Hfd Hall; cbn [handle_events].
  - exists (sc_epoll (sw_sched w)). split; [|done]. unfold at_epoll. destruct w as [[] ? ? ? ? ? ? ?]. done.
  - apply Forall_cons in Hall as [Hev Hall]. unfold handle_event, Epoll_is_wakeup_fd. rewrite Hev, Hfd, Z.eqb_refl. cbn [obind].
    set (w1 := set_sw_sched w _). destruct (IH w1) as (ep & -> & Hep); [done|done|]. by exists ep.
Qed.

(** The timer stays, or is dropped; nobody is resumed. *)
Lemma timeouts_drop (w : world) co n :
  asleep w co -> timer_kept w co n \/ timer_gone w ->
  exists w', timeouts w = Ok w' /\ asleep w' co /\ (timer_kept w' co (S n) \/ timer_gone w').
Proof.
  intros Hw Ht. pose proof Hw as [Hs Hm Hst Hfd Htk Hus (c & Hc & Hwx)]. unfold Loop_timeouts, TimerManager_CollectTimeoutTasks.
  destruct Ht as [([id Hid] & Hck & Hb)|Hgone].
  - rewrite Hid. cbn [collect_loop tn_when]. rewrite Hck. destruct (Z.ltb_spec (clk (1 + 2 * n)%nat) limit) as [Hlt|Hge].
    + cbn. eexists. split; [reflexivity|]. split; [split; try done; by exists c|]. left. split; [by exists id|]. cbn.
      split; [lia|]. intros i Hi. destruct (decide (i = n)) as [->|]; [done|apply Hb; lia].
    + unfold expire. cbn [tn_co cw_pool]. apply get_co_pool in Hc. rewrite Hc, Hwx. cbn. eexists. split; [reflexivity|].
      split; [split; try done; exists c; split; [by apply get_co_pool|done]|by right].
  - rewrite Hgone. cbn. eexists. split; [reflexivity|]. split; [split; try done; by exists c|by right].
Qed.

Lemma turn_asleep (w : world) co n evs :
  asleep w co -> timer_kept w co n \/ timer_gone w -> quiet_result evtfd (WaitEvents evs) ->
  exists w', iteration w (WaitEvents evs) = Ok w' /\ asleep w' co /\ (timer_kept w' co (S n) \/ timer_gone w').
Proof.
  intros Hw Ht Hq. pose proof Hw as [Hs Hm Hst Hfd Htk Hus Hco]. unfold Loop_iteration. rewrite Hst.
  destruct (quiet_events w evs Hfd Hq) as (ep & -> & Hep). cbn [obind]. unfold Loop_tasks. rewrite GetAllTasks_cleared.
  cbn [sw_sched at_epoll set_sw_sched set_sc_epoll sc_tasks]. rewrite Htk. cbn [TaskManager_empty new_tasks_ ready_tasks_ resume_new resume_all obind].
  destruct (timeouts_drop (tasks_taken (at_epoll w ep)) co n) as (w' & E & Hw' & Ht'); [by split|exact Ht|].
  change (tasks_taken (at_epoll w ep)) with (set_sw_sched (at_epoll w ep) (set_sc_tasks (set_sc_epoll (sw_sched w) ep) TaskManager_empty)) in E.
  rewrite E. cbn [obind]. eexists. split; [reflexivity|]. split; [|exact Ht'].
  destruct Hw'. by split.
Qed.

Lemma loop_asleep rs w co n :
  asleep w co -> timer_kept w co n \/ timer_gone w -> Forall (quiet_result evtfd) rs ->
  exists w', loop w rs = Ok w' /\ asleep w' co /\ (timer_kept w' co (n + turns rs) \/ timer_gone w').
Proof.
  revert w n. induction rs as [|r rs IH]; intros w n Hw Ht Hq; cbn [SchedulerImpl_Loop].
  - exists w. unfold turns. cbn. by rewrite Nat.add_0_r.
  - apply Forall_cons in Hq as [Hr Hq]. pose proof Hw as []. rewrite sl_stop0. destruct r as [err|evs].
    + unfold Loop_iteration. rewrite sl_stop0. cbn [obind]. by apply IH.
    + destruct (turn_asleep w co n evs Hw Ht Hr) as (w1 & -> & Hw1 & Ht1). cbn [obind].
      destruct (IH w1 (S n) Hw1 Ht1 Hq) as (w' & -> & Hw' & Ht'). exists w'. split; [done|]. split; [done|].
      unfold turns in *. cbn [omap list_omap length]. by rewrite Nat.add_succ_r.
Qed.

(** ** The first turn *)

Lemma new_scheduler_waits_on_nothing id num size fd junk (ev : ev_state K) s ev' :
  SchedulerImpl_new id num size fd junk ev = Ok (s, ev') ->
  forall i c, cp_pool (sc_pool s) !! i = Some c -> co_wait_ctx c = None.
Proof.
  unfold SchedulerImpl_new, Epoll_new. destruct (Epoll_AddEvRead _ _ _ _) as [[? ?] ?].
  pose proof (new_pool junk) as Hall. assert (Hidle : cp_idle (Copoll_new junk) = []) by done. revert Hall Hidle.
  generalize (Copoll_new junk). intros p0 Hall Hidle E. apply obind_Ok in E as ([main pool] & Ep & [= <- <-]). cbn.
  unfold Copoll_Pop, Copoll_at in Ep. rewrite Hidle in Ep. cbn in Ep.
  destruct (cp_pool p0 !! _) as [c0|] eqn:E0; cbn in Ep; [|done]. injection Ep as <- <-. cbn.
  assert (Hnew : forall i c, cp_pool p0 !! i = Some c -> co_wait_ctx c = None).
  { intros i c Hc. by destruct (Forall_lookup_1 _ _ _ _ Hall Hc) as [j ->]. }
  intros i c Hc. apply list_lookup_insert_Some in Hc as [(_ & <- & _)|[_ Hc]]; [by apply Hnew in E0|by apply Hnew in Hc].
Qed.

Lemma NewCoroutine_waits_on_nothing s co s' c :
  (forall i c, cp_pool (sc_pool s) !! i = Some c -> co_wait_ctx c = None) ->
  SchedulerImpl_NewCoroutine s f = Ok (co, s') -> get_co s' co = Ok c -> co_wait_ctx c = None.
Proof.
  intros Hall E Hc. unfold SchedulerImpl_NewCoroutine in E. apply obind_Ok in E as ([i p] & Ep & E).
  apply obind_Ok in E as (c1 & Hc1 & E). apply obind_Ok in E as (c2 & Hc2 & [= <- <-]).
  rewrite get_put_co in Hc by (by eapply get_co_lt). injection Hc as <-.
  assert (Hw : co_wait_ctx c1 = None).
  { apply get_co_pool in Hc1. cbn in Hc1. unfold Copoll_Pop, Copoll_at in Ep.
    destruct (last (cp_idle (sc_pool s))) as [id|];
      destruct (cp_pool (sc_pool s) !! _) as [c0|] eqn:E0; cbn in Ep; try done; injection Ep as <- <-;
      cbn in Hc1; rewrite list_lookup_insert_eq in Hc1 by (by eapply lookup_lt_Some); injection Hc1 as <-; cbn;
      by apply Hall in E0. }
  unfold set_co_func in Hc2. destruct (co_union_ c1); [|done]. by injection Hc2 as <-.
Qed.

(** A new scheduler with [f] in its queue. *)
Record sleep_start (w : world) : Prop := {
  ss_sound : sound' (sw_sched w);
  ss_main : sc_main (sw_sched w) = 0%nat;
  ss_stop : sc_stop (sw_sched w) = false;
  ss_fd : wake_up_fd_ (sc_epoll (sw_sched w)) = evtfd;
  ss_timers : sc_timers (sw_sched w) = TimerManager_new;
  ss_tasks : sc_tasks (sw_sched w) = mkTaskManager [f] [];
  ss_pool : pool_ready (sc_pool (sw_sched w)) [0%nat];
  ss_wait : forall i c, cp_pool (sc_pool (sw_sched w)) !! i = Some c -> co_wait_ctx c = None;
  ss_world : sw_user w = [] /\ sw_clock w = 0%nat
}.

(** [Sleep] in a coroutine: the timer, and the jump away. *)
Lemma Sleep_first s now co c :
  sound' s -> sc_running s = Some co -> get_co s co = Ok c -> is_Some (co_ctx c) -> sc_timers s = TimerManager_new ->
  exists s' c', SchedulerImpl_Sleep s now ms = Ok s' /\ sound' s' /\ sc_main s' = sc_main s /\
    timer_ (sc_timers s') = [mkNode 0 (i64 (now + ms)) co] /\ sc_running s' = Some co /\
    sc_stop s' = sc_stop s /\ sc_epoll s' = sc_epoll s /\ sc_tasks s' = sc_tasks s /\
    get_co s' co = Ok c' /\ co_wait_ctx c' = co_wait_ctx c.
Proof.
  intros Hs Hr Hc Hx Htm. unfold SchedulerImpl_Sleep. set (s1 := if ms <? sc_wait_ms s then _ else s).
  assert (Hs1 : sound' s1 /\ sc_running s1 = Some co /\ sc_timers s1 = TimerManager_new /\ get_co s1 co = Ok c /\
      sc_main s1 = sc_main s /\ sc_stop s1 = sc_stop s /\ sc_epoll s1 = sc_epoll s /\ sc_tasks s1 = sc_tasks s)
    by (unfold s1; destruct (ms <? sc_wait_ms s); done).
  clearbody s1. destruct Hs1 as (Hs1 & Hr1 & Htm1 & Hc1 & Hm1 & Hst1 & Hep1 & Htk1).
  unfold get_running. rewrite Hr1, Htm1. cbn [obind].
  set (tm := mkTimerManager [mkNode 0 (i64 (now + ms)) co] (Some 0%nat) 1).
  change (TimerManager_AddTimer TimerManager_new now ms co) with (Ok (0%nat, tm)). cbn [obind].
  unfold SchedulerImpl_Yield, get_running. change (sc_running (set_sc_timers s1 tm)) with (sc_running s1). rewrite Hr1. cbn [obind].
  change (get_co (set_sc_timers s1 tm) co) with (get_co s1 co). rewrite Hc1. cbn [obind].
  eexists _, (set_co_scheduler c (sc_id s1)). split; [reflexivity|].
  destruct (sound_co malloc stack_size scratch s1 co c Hs1 Hc1) as [[Hsid _] Hpl]. split_and!; try done.
  - apply (sound_put malloc stack_size scratch (set_sc_timers s1 tm) co c); [done|done|split; [done|]|done].
    cbn. intros E. rewrite E in Hx. by destruct Hx.
  - apply get_put_co. exact (get_co_lt _ _ _ Hc1).
Qed.

Lemma first_sleep (w : world) :
  sleep_start w ->
  exists w' co, Loop_tasks malloc entry end_ main_func main_ctx sleep_user w = Ok w' /\ asleep w' co /\ timer_kept w' co 0.
Proof.
  intros [Hs Hmain Hst Hfd Htm Htk Hpr Hwt [Hu Hck]]. unfold Loop_tasks. rewrite GetAllTasks_cleared, Htk.
  cbn [new_tasks_ ready_tasks_ resume_new].
  destruct (NewCoroutine_ok malloc stack_size scratch 1 ltac:(done) (set_sc_tasks (sw_sched w) TaskManager_empty) f [0%nat] Hs Hpr)
    as (co & c & s & Enew & Hni & Hc & Hent & _ & _ & (a & b & Es) & _ & _ & Hsnd); [cbn; unfold kPoolSize; lia|].
  assert (Hco : co <> 0%nat) by (intros ->; apply Hni; left).
  assert (Hcw : co_wait_ctx c = None) by (by eapply (NewCoroutine_waits_on_nothing (set_sc_tasks (sw_sched w) TaskManager_empty))).
  specialize (Hsnd ltac:(cbn; by rewrite Hmain)). cbn [sw_sched set_sw_sched]. rewrite Enew. cbn [obind].
  set (w0 := set_sw_sched _ s).
  assert (Hm0 : co <> sc_main (sw_sched w0)) by (unfold w0; cbn; rewrite Es; cbn; by rewrite Hmain).
  destruct (resume_switch malloc entry end_ main_func main_ctx sleep_user stack_size scratch Hsize Hmalloc w0 co c Hsnd Hm0 Hc)
    as (w1 & Hk & Hs1 & Hr1 & _ & _ & (c1 & Hc1 & Hkc & Hcx1) & ->).
  rewrite Hent. unfold sleep_user at 1, sleep. cbn [sw_sched set_sw_user sw_user sw_clock].
  destruct Hk as ((_ & _ & Hep1 & Hmain1 & Htk1 & Htm1 & _ & Hst1 & _) & _ & _ & Hck1 & _ & Hu1).
  unfold w0 in Hep1, Hmain1, Htk1, Htm1, Hst1, Hck1, Hu1. cbn in Hep1, Hmain1, Htk1, Htm1, Hst1, Hck1, Hu1. rewrite Es in *. cbn in *.
  destruct (Sleep_first (sw_sched w1) (clk (sw_clock w1)) co c1 Hs1 Hr1 Hc1 Hcx1) as
    (s2 & c2 & -> & Hs2 & Hm2 & Ht2 & Hr2 & Hst2 & Hep2 & Htk2 & Hc2 & Hw2); [congruence|]. cbn [obind].
  set (w2 := mkSW s2 _ _ _ _ _ _ _).
  destruct (finish_yielded malloc stack_size scratch w2 co c2 (park co) Hs2 Hr2 Hc2 (Hpark co)) as (w3 & E3 & Hk3 & Hs3 & _).
  rewrite E3. clear E3. cbn [obind resume_all]. exists w3, co. split; [done|]. split.
  - apply (asleep_kept w2); [exact Hk3|exact Hs3|]. split; try done; cbn; try congruence.
    + by rewrite Hu1, Hu.
    + exists c2. split; [done|]. rewrite Hw2. destruct Hkc as (_ & _ & -> & _). exact Hcw.
  - destruct Hk3 as ((_ & _ & _ & _ & _ & Htm3 & _) & _ & _ & Hck3 & _). split; [|split; [|lia]].
    + exists 0%nat. rewrite Htm3. cbn. rewrite Ht2, Hck1, Hck. done.
    + rewrite Hck3. cbn. by rewrite Hck1, Hck.
Qed.

Lemma loop_sleeps rs (w : world) :
  sleep_start w -> Forall (quiet_result evtfd) rs -> (0 < turns rs)%nat ->
  exists w' co, loop w rs = Ok w' /\ asleep w' co /\ (timer_kept w' co (turns rs) \/ timer_gone w').
Proof.
  intros Hw Hq. revert w Hw. induction rs as [|r rs IH]; intros w Hw Ht; [unfold turns in Ht; cbn in Ht; lia|].
  apply Forall_cons in Hq as [Hr Hq]. cbn [SchedulerImpl_Loop]. pose proof Hw as []. rewrite ss_stop0.
  unfold Loop_iteration at 1. rewrite ss_stop0. destruct r as [err|evs]; [by apply IH|].
  destruct (quiet_events w evs ss_fd0 Hr) as (ep & -> & Hep). cbn [obind].
  destruct (first_sleep (at_epoll w ep)) as (w1 & co & -> & Hw1 & Ht1); [by split|]. cbn [obind].
  destruct (timeouts_drop w1 co 0 Hw1 (or_introl Ht1)) as (w2 & -> & Hw2 & Ht2). cbn [obind].
  destruct (loop_asleep rs (set_sw_sched w2 (set_sc_running (sw_sched w2) None)) co 1) as (w' & -> & Hw' & Ht'); [|exact Ht2|done|].
  - destruct Hw2. by split.
  - exists w', co. by split_and!.
Qed.
End sleeping.

(** ** Theorems *)

(** C36: A sleep never ends. A new scheduler is given a function that sleeps [ms]
    milliseconds and returns. However long the loop runs, whatever its clock shows, the
    function is entered once, at its beginning, and never again; its timer stays until a
    turn finds it due, and then is gone. *)
Theorem sleep_never_ends {K : Type} `{EpollKernel K} clk answers park malloc entry end_ main_func main_ctx
  stack_size scratch m0 f ms id num evtfd junk (ev : ev_state K) s ev' rs :
  128 <= stack_size -> (forall i x, malloc i <= x < malloc i + stack_size + kSmallBuffer -> scratch x) ->
  (forall co, ctx_placed scratch (park co)) ->
  SchedulerImpl_new id num stack_size evtfd junk ev = Ok (s, ev') ->
  Forall (quiet_result evtfd) rs -> (0 < turns rs)%nat ->
  exists w co,
    SchedulerImpl_Loop malloc clk entry end_ main_func main_ctx answers (sleep_user clk park ms)
      (mkSW (SchedulerImpl_AddNewTask s f answers) m0 ev' ∅ 0 0 [] []) rs = Ok w /\
    sw_user w = [(co, Call f)] /\
    ((exists i, (i < turns rs)%nat /\ i64 (clk 0%nat + ms) <= clk (1 + 2 * i)%nat) -> timer_ (sc_timers (sw_sched w)) = []).
Proof.
  intros Hsize Hmalloc Hpark Enew Hq Ht.
  destruct (new_scheduler_sound malloc stack_size scratch 1 evtfd ltac:(done) id num junk ev s ev' Enew)
    as (Hs & Hmain & Htm & Hstop & _ & Hfd & Htk & Hpr).
  destruct (loop_sleeps clk answers park malloc entry end_ main_func main_ctx stack_size scratch evtfd Hsize Hmalloc Hpark f ms rs
    (mkSW (SchedulerImpl_AddNewTask s f answers) m0 ev' ∅ 0 0 [] [])) as (w & co & E & Hw & Hk); [|done|done|].
  - split; try done; cbn; [|by rewrite Htk|by apply (new_scheduler_waits_on_nothing id num stack_size evtfd junk ev s ev')].
    rewrite <- Hfd. unfold Epoll_Wakeup. by destruct (atomic_compare_swap _ _ _ _).
  - exists w, co. split; [done|]. split; [apply Hw|]. intros (i & Hi & Hle). destruct Hk as [(_ & _ & Hb)|Hgone]; [|done].
    specialize (Hb i Hi). unfold limit in Hb. lia.
Qed.

(** ** Witness *)

(** The clock shows 10 at first, then 20; the 5 milliseconds are over in the first turn. *)
Lemma sleep_never_ends_witness :
  match SchedulerImpl_new 0 1 1024 3 (fun _ => []) ev_empty with
  | Ok (s, ev) =>
      exists w co,
        SchedulerImpl_Loop (fun i => 100000 * (Z.of_nat i + 1)) (fun i => if Nat.eqb i 0 then 10 else 20) 1 2 3 4 []
          (sleep_user (fun i => if Nat.eqb i 0 then 10 else 20) (fun _ => 100000) 5)
          (mkSW (SchedulerImpl_AddNewTask s 1%nat []) (fun x => x mod 256) ev ∅ 0 0 [] [])
          (replicate 3 (WaitEvents [mkEpollEvent 1 3])) = Ok w /\
        sw_user w = [(co, Call 1%nat)] /\ timer_ (sc_timers (sw_sched w)) = []
  | Fault _ => False
  end.
Proof.
  destruct (SchedulerImpl_new 0 1 1024 3 (fun _ => []) ev_empty) as [[s ev]|?] eqn:E;
    [|apply (f_equal (fun r => match r with Ok _ => true | Fault _ => false end)) in E; vm_compute in E; done].
  destruct (sleep_never_ends (fun i => if Nat.eqb i 0 then 10 else 20) [] (fun _ => 100000)
    (fun i => 100000 * (Z.of_nat i + 1)) 1 2 3 4 1024 scratch_sample (fun x => x mod 256) 1%nat 5 0 1 3 (fun _ => []) ev_empty s ev
    (replicate 3 (WaitEvents [mkEpollEvent 1 3]))) as (w & co & El & Hu & Ht); try done; try lia.
  - unfold scratch_sample. lia.
  - unfold ctx_placed, scratch_sample. lia.
  - repeat constructor.
  - cbn. lia.
  - exists w, co. split; [exact El|]. split; [exact Hu|]. apply Ht. exists 0%nat. split; [cbn; lia|by vm_compute].
Defined.
