(* ===== verification/ChannelHandles.v ===== *)
(** * [Channel<T>] of channel.h: handles of shared channels

    A [Channel<T>] is a shared pointer to a [ChannelImpl]: copies are handles of the same
    channel, a move leaves a null handle behind, and the channel is destroyed with its last
    handle. A handle lives in a place (a variable, a member, an entry of a map), which is a
    number; a channel is known by its address. The blocks that pass through a channel are
    Channel.v's. *)

From stdpp Require Import base numbers list gmap.
From Stdlib Require Import Lia ZArith.
From S2P Require Import Prelude Atomic Coroutine Context Channel.

(** ** State *)

(** The channels that exist, the handles, and what the channels share. *)
Record handles : Type := mkHandles {
  hd_impls : gmap nat ChannelImpl;
  hd_vars : gmap nat (option nat);      (* impl_, None for null *)
  hd_m : memory;
  hd_ctx : gmap nat WaitCtx;
  hd_cos : list Coroutine;
  hd_ready : list (Z * nat)
}.

Definition set_impls_vars (s : handles) (impls : gmap nat ChannelImpl) (vars : gmap nat (option nat)) : handles :=
  mkHandles impls vars (hd_m s) (hd_ctx s) (hd_cos s) (hd_ready s).

(** Channel [ch] with what it shares, and the state after an operation on channel [i]. *)
Definition world_of (s : handles) (ch : ChannelImpl) : ch_world := mkChWorld ch (hd_m s) (hd_ctx s) (hd_cos s) (hd_ready s).
Definition put_world (s : handles) (i : nat) (w : ch_world) : handles :=
  mkHandles (<[i := cw_ch w]> (hd_impls s)) (hd_vars s) (cw_m w) (cw_ctx w) (cw_cos w) (cw_ready w).

(** [shared_ptr::use_count]. *)
Definition use_count (vars : gmap nat (option nat)) (i : nat) : nat := size (filter (fun kv => kv.2 = Some i) vars).

(** A handle of [h] is gone: without another one, the channel goes, too. *)
Definition release (s : handles) (h : option nat) : handles :=
  match h with
  | Some i => if (use_count (hd_vars s) i =? 0)%nat then set_impls_vars s (delete i (hd_impls s)) (hd_vars s) else s
  | None => s
  end.

Definition get_handle (s : handles) (x : nat) : outcome (option nat) :=
  match hd_vars s !! x with Some h => Ok h | None => Fault OutOfBounds end.

(** ** Operations *)

(** [Channel(cap, ms)] at place [x]; [i] is the address of the new channel. *)
Definition Channel_ctor (s : handles) (x i : nat) (sizeof_T cap ms : Z) (junk : list Z) : handles :=
  set_impls_vars s (<[i := Channel_new sizeof_T cap ms junk]> (hd_impls s)) (<[x := Some i]> (hd_vars s)).

(** The default arguments. *)
Definition Channel_default (s : handles) (x i : nat) (sizeof_T : Z) (junk : list Z) : handles :=
  Channel_ctor s x i sizeof_T 1 (u32 (-1)) junk.

Definition Channel_copy (s : handles) (x y : nat) : outcome handles :=
  let* h := get_handle s y in
  Ok (set_impls_vars s (hd_impls s) (<[x := h]> (hd_vars s))).

Definition Channel_move (s : handles) (x y : nat) : outcome handles :=
  let* h := get_handle s y in
  Ok (set_impls_vars s (hd_impls s) (<[x := h]> (<[y := None]> (hd_vars s)))).

Definition Channel_assign (s : handles) (x y : nat) : outcome handles :=
  let* h := get_handle s y in
  let* old := get_handle s x in
  Ok (release (set_impls_vars s (hd_impls s) (<[x := h]> (hd_vars s))) old).

(** The move assignment of a shared pointer to itself changes nothing. *)
Definition Channel_move_assign (s : handles) (x y : nat) : outcome handles :=
  let* h := get_handle s y in
  let* old := get_handle s x in
  if (x =? y)%nat then Ok s
  else Ok (release (set_impls_vars s (hd_impls s) (<[x := h]> (<[y := None]> (hd_vars s)))) old).

Definition Channel_dtor (s : handles) (x : nat) : outcome handles :=
  let* old := get_handle s x in
  Ok (release (set_impls_vars s (hd_impls s) (delete x (hd_vars s))) old).

(** [impl_->Read(&p)] and [impl_->Write(&p)]. *)
Definition get_impl (s : handles) (x : nat) : outcome (nat * ChannelImpl) :=
  let* h := get_handle s x in
  match h with
  | None => Fault NullDereference
  | Some i => match hd_impls s !! i with Some ch => Ok (i, ch) | None => Fault UseAfterFree end
  end.
Definition Channel_read (s : handles) (x : nat) (cl : caller) (p : Z) : outcome (handles * ch_result) :=
  let* (i, ch) := get_impl s x in
  let* (w, r) := ChannelImpl_Read (world_of s ch) cl p in
  Ok (put_world s i w, r).
Definition Channel_write (s : handles) (x : nat) (cl : caller) (p : Z) : outcome (handles * ch_result) :=
  let* (i, ch) := get_impl s x in
  let* (w, r) := ChannelImpl_Write (world_of s ch) cl p in
  Ok (put_world s i w, r).

(** *** A channel handed through a map, as a client of remote calls does it *)

(** [request_map_[id] = recv_channel_]: the entry [slot] is made, with a channel at [j],
    when there is none. *)
Definition map_get (s : handles) (slot j : nat) (sizeof_T : Z) (junk : list Z) : handles :=
  match hd_vars s !! slot with Some _ => s | None => Channel_default s slot j sizeof_T junk end.
Definition hand_in (s : handles) (slot x j : nat) (sizeof_T : Z) (junk : list Z) : outcome handles :=
  Channel_assign (map_get s slot j sizeof_T junk) slot x.

(** One round of the receiving loop: a handle [z] of its own, with a channel at [i], takes
    the entry, the entry is erased, and the block at [p] is written. *)
Definition hand_out (s : handles) (slot z i j : nat) (sizeof_T : Z) (junk : list Z) (cl : caller) (p : Z)
  : outcome (handles * ch_result) :=
  let s := Channel_default s z i sizeof_T junk in
  let* s := Channel_move_assign (map_get s slot j sizeof_T junk) z slot in
  let* s := Channel_dtor s slot in
  let* (s, r) := Channel_write s z cl p in
  let* s := Channel_dtor s z in
  Ok (s, r).

(** ** Specification *)

(** The channels that exist are those that have a handle. *)
Definition handles_ok (s : handles) : Prop :=
  forall i, is_Some (hd_impls s !! i) <-> exists x, hd_vars s !! x = Some (Some i).

Definition preserves (s : handles) (r : outcome handles) : Prop := forall s', r = Ok s' -> handles_ok s -> handles_ok s'.

(** ** Lemmas *)

Lemma use_count_zero vars i : use_count vars i = 0%nat <-> forall x, vars !! x <> Some (Some i).
Proof.
  unfold use_count. rewrite map_size_empty_iff, map_empty_filter. split.
  - intros Hall x Hx. by apply (Hall x (Some i) Hx).
  - intros Hall x h Hx Hh. cbn in Hh. subst h. by apply (Hall x).
Qed.

Lemma use_count_held vars i : use_count vars i <> 0%nat -> exists x, vars !! x = Some (Some i).
Proof.
  unfold use_count. rewrite map_size_empty_iff. intros (x & h & Hx)%map_choose.
  apply map_lookup_filter_Some in Hx as [Hx Hh]. cbn in Hh. subst h. by exists x.
Qed.

(** After a handle of [h] is gone, the channels are those with a handle again. *)
Lemma release_ok s h :
  (forall i, is_Some (hd_impls s !! i) <-> (exists x, hd_vars s !! x = Some (Some i)) \/ h = Some i) ->
  handles_ok (release s h).
Proof.
  intros Hs. unfold release. destruct h as [j|].
  - destruct (Nat.eqb_spec (use_count (hd_vars s) j) 0) as [E|E].
    + rewrite use_count_zero in E. intros i. cbn [set_impls_vars hd_impls hd_vars].
      destruct (decide (i = j)) as [-> |Hne].
      * rewrite lookup_delete_eq. split; [by intros [? ?]|]. intros (x & Hx). by destruct (E x).
      * rewrite lookup_delete_ne, Hs by done. split; [|by left]. intros [?|[= ->]]; done.
    + intros i. rewrite Hs. split; [|by left]. intros [?|[= <-]]; [done|].
      by apply use_count_held.
  - intros i. rewrite Hs. split; [|by left]. by intros [?|?].
Qed.

Lemma release_vars s h : hd_vars (release s h) = hd_vars s.
Proof. unfold release. destruct h; [|done]. by destruct (_ =? _)%nat. Qed.

Lemma get_handle_ok s x h : get_handle s x = Ok h <-> hd_vars s !! x = Some h.
Proof. unfold get_handle. destruct (hd_vars s !! x); split; congruence. Qed.

(** Which places hold [i] after a place has been set. *)
Lemma holders_insert (vars : gmap nat (option nat)) x h i :
  (exists y, <[x := h]> vars !! y = Some (Some i)) <-> h = Some i \/ exists y, y <> x /\ vars !! y = Some (Some i).
Proof.
  split.
  - intros (y & Hy). destruct (decide (y = x)) as [-> |Hne].
    + rewrite lookup_insert_eq in Hy. left. congruence.
    + rewrite lookup_insert_ne in Hy by done. right. by exists y.
  - intros [-> |(y & Hne & Hy)]; [exists x|exists y]; by rewrite ?lookup_insert_eq, ?lookup_insert_ne.
Qed.

Lemma holders_old (vars : gmap nat (option nat)) x old i : vars !! x = Some old ->
  (exists y, vars !! y = Some (Some i)) <-> old = Some i \/ exists y, y <> x /\ vars !! y = Some (Some i).
Proof. intros Hx. rewrite <- (holders_insert vars x old i). by rewrite (insert_id vars x old). Qed.

Lemma ctor_ok s x i sizeof_T cap ms junk : hd_impls s !! i = None -> hd_vars s !! x = None ->
  handles_ok s -> handles_ok (Channel_ctor s x i sizeof_T cap ms junk).
Proof.
  intros Hi Hx Hok j. cbn [Channel_ctor set_impls_vars hd_impls hd_vars]. rewrite holders_insert.
  destruct (decide (j = i)) as [-> |Hne].
  - rewrite lookup_insert_eq. split; [by left|]. by intros _; eexists.
  - rewrite lookup_insert_ne, (Hok j) by done. split.
    + intros (y & Hy). right. exists y. split; [congruence|done].
    + intros [[= ->]|(y & _ & Hy)]; [done|by exists y].
Qed.

Lemma copy_ok s x y : hd_vars s !! x = None -> preserves s (Channel_copy s x y).
Proof.
  intros Hx s'. unfold Channel_copy. destruct (get_handle s y) as [h|] eqn:Eh; [|done]. apply get_handle_ok in Eh.
  intros [= <-] Hok i. cbn [set_impls_vars hd_impls hd_vars]. rewrite holders_insert, (Hok i). split.
  - intros (z & Hz). right. exists z. split; [congruence|done].
  - intros [-> |(z & _ & Hz)]; [by exists y|by exists z].
Qed.

Lemma move_ok s x y : hd_vars s !! x = None -> preserves s (Channel_move s x y).
Proof.
  intros Hx s'. unfold Channel_move. destruct (get_handle s y) as [h|] eqn:Eh; [|done]. apply get_handle_ok in Eh.
  intros [= <-] Hok i. cbn [set_impls_vars hd_impls hd_vars].
  assert (Hne : x <> y) by congruence. rewrite insert_insert_ne, holders_insert by done.
  rewrite (Hok i), (holders_old _ y h i Eh). split.
  - intros [-> |(z & Hz & Hv)]; right.
    + exists x. split; [done|]. by rewrite lookup_insert_eq.
    + exists z. split; [done|]. rewrite lookup_insert_ne by congruence. done.
  - intros [?|(z & Hz & Hv)]; [done|]. destruct (decide (z = x)) as [-> |Hzx].
    + rewrite lookup_insert_eq in Hv. left. congruence.
    + rewrite lookup_insert_ne in Hv by done. right. by exists z.
Qed.

Lemma assign_ok s x y : preserves s (Channel_assign s x y).
Proof.
  intros s'. unfold Channel_assign. destruct (get_handle s y) as [h|] eqn:Eh; [|done]. apply get_handle_ok in Eh.
  cbn [obind]. destruct (get_handle s x) as [old|] eqn:Ex; [|done]. apply get_handle_ok in Ex.
  intros [= <-] Hok. apply release_ok. intros i. cbn [set_impls_vars hd_impls hd_vars].
  rewrite (Hok i), holders_insert, (holders_old _ x old i Ex). split; [tauto|].
  intros [[-> |?]| ->]; [|by right|by left].
  destruct (decide (y = x)) as [-> |Hne]; [left; congruence|]. right. by exists y.
Qed.

Lemma move_assign_ok s x y : preserves s (Channel_move_assign s x y).
Proof.
  intros s'. unfold Channel_move_assign. destruct (get_handle s y) as [h|] eqn:Eh; [|done]. apply get_handle_ok in Eh.
  cbn [obind]. destruct (get_handle s x) as [old|] eqn:Ex; [|done]. apply get_handle_ok in Ex. cbn [obind].
  destruct (Nat.eqb_spec x y) as [-> |Hne]; intros [= <-]; [done|]. intros Hok. apply release_ok. intros i.
  cbn [set_impls_vars hd_impls hd_vars]. rewrite holders_insert, (Hok i). split.
  - intros (z & Hz). destruct (decide (z = x)) as [-> |Hzx]; [right; congruence|left].
    destruct (decide (z = y)) as [-> |Hzy]; [left; congruence|right].
    exists z. split; [done|]. by rewrite lookup_insert_ne.
  - intros [[-> |(z & Hz & Hv)]| ->]; [by exists y| |by exists x].
    destruct (decide (z = y)) as [-> |Hzy]; [by rewrite lookup_insert_eq in Hv|].
    rewrite lookup_insert_ne in Hv by done. by exists z.
Qed.

Lemma dtor_ok s x : preserves s (Channel_dtor s x).
Proof.
  intros s'. unfold Channel_dtor. destruct (get_handle s x) as [old|] eqn:Ex; [|done]. apply get_handle_ok in Ex.
  intros [= <-] Hok. apply release_ok. intros i. cbn [set_impls_vars hd_impls hd_vars].
  rewrite (Hok i). split.
  - intros (z & Hz). destruct (decide (z = x)) as [-> |Hzx]; [right; congruence|left].
    exists z. by rewrite lookup_delete_ne.
  - intros [(z & Hz)| ->]; [|by exists x]. exists z. by apply lookup_delete_Some in Hz as [_ ?].
Qed.

Lemma put_world_ok s i w : is_Some (hd_impls s !! i) -> handles_ok s -> handles_ok (put_world s i w).
Proof.
  intros Hi Hok j. cbn [put_world hd_impls hd_vars]. rewrite <- (Hok j).
  destruct (decide (j = i)) as [-> |Hne]; [|by rewrite lookup_insert_ne].
  rewrite lookup_insert_eq. split; [done|]. by intros _; eexists.
Qed.

Lemma get_impl_ok s x i ch : get_impl s x = Ok (i, ch) <-> hd_vars s !! x = Some (Some i) /\ hd_impls s !! i = Some ch.
Proof.
  unfold get_impl, get_handle. destruct (hd_vars s !! x) as [[j|]|]; cbn [obind]; [|by split; [|intros []]..].
  destruct (hd_impls s !! j) eqn:E; split; [intros [= <- <-]; done|intros [[= <-] ?]; congruence|done|intros [[= <-] ?]; congruence].
Qed.

(** Nobody has a handle of an address where there is no channel. *)
Lemma no_holder s j x : handles_ok s -> hd_impls s !! j = None -> hd_vars s !! x <> Some (Some j).
Proof. intros Hok Hj Hx. assert (Hi : is_Some (hd_impls s !! j)) by (apply Hok; by exists x). rewrite Hj in Hi. by destruct Hi. Qed.

Lemma set_twice s a b c d : set_impls_vars (set_impls_vars s a b) c d = set_impls_vars s c d.
Proof. done. Qed.

(** The last handle of a channel that has just been made. *)
Lemma release_new s impls (vars : gmap nat (option nat)) j ch :
  impls !! j = None -> (forall x, vars !! x <> Some (Some j)) ->
  release (set_impls_vars s (<[j := ch]> impls) vars) (Some j) = set_impls_vars s impls vars.
Proof.
  intros Hj Hno. unfold release. cbn [set_impls_vars hd_vars hd_impls].
  apply use_count_zero in Hno. rewrite Hno. cbn [Nat.eqb]. unfold set_impls_vars. by rewrite delete_insert_id.
Qed.

Lemma release_held s x i : hd_vars s !! x = Some (Some i) -> release s (Some i) = s.
Proof.
  intros Hx. unfold release. destruct (Nat.eqb_spec (use_count (hd_vars s) i) 0) as [E|E]; [|done].
  rewrite use_count_zero in E. by destruct (E x).
Qed.

(** Who can hold a channel after some places have been set. *)
Ltac no_place Hy :=
  repeat (apply lookup_insert_Some in Hy as [[? ?]|[? Hy]]; [simplify_eq; try done|]).

Lemma hand_in_eq s slot x i j sizeof_T junk : handles_ok s -> hd_vars s !! x = Some (Some i) ->
  hd_vars s !! slot = None -> hd_impls s !! j = None ->
  hand_in s slot x j sizeof_T junk = Ok (set_impls_vars s (hd_impls s) (<[slot := Some i]> (hd_vars s))).
Proof.
  intros Hok Hx Hslot Hj. assert (Hne : slot <> x) by congruence.
  unfold hand_in, map_get. rewrite Hslot. unfold Channel_assign, get_handle, Channel_default, Channel_ctor.
  cbn [set_impls_vars hd_vars hd_impls]. rewrite lookup_insert_ne, Hx, lookup_insert_eq by done. cbn [obind].
  rewrite insert_insert_eq. f_equal. apply (release_new s); [done|].
  intros y Hy. no_place Hy; [by apply (no_holder s j x)|by apply (no_holder s j y)].
Qed.

(** The default channel takes one block without waiting. *)
Lemma write_new s i sizeof_T junk cl p : 0 < sizeof_T < 2 ^ 32 ->
  exists ch, ChannelImpl_Write (world_of s (Channel_new sizeof_T 1 (u32 (-1)) junk)) cl p = Ok (world_of s ch, Done) /\
    put_world s i (world_of s ch) = set_impls_vars s (<[i := ch]> (hd_impls s)) (hd_vars s).
Proof.
  intros Hs. unfold ChannelImpl_Write, Channel_new, ChannelImpl_Create, ChannelImpl_new.
  cbn [world_of cw_ch cw_m cw_ctx cw_cos cw_ready ch_wx ch_rx ch_full ch_queue pop_live obind negb].
  change (0 =? 0) with true. cbn [negb]. unfold ring_write. cbn [ch_blk_size ch_buf_size ch_wx].
  rewrite Z.mul_1_l, uwrap_small by lia.
  assert (Hb : (0 <=? 0) && (0 + sizeof_T <=? sizeof_T) = true) by (apply andb_true_intro; split; apply Z.leb_le; lia).
  rewrite Hb. cbn [obind]. eexists. split; [reflexivity|]. done.
Qed.

(** The entry holds the channel of [x]: the write is the one that [x] would do. *)
Lemma hand_out_eq s slot x z i k j sizeof_T junk cl p : handles_ok s ->
  hd_vars s !! x = Some (Some i) -> hd_vars s !! slot = Some (Some i) -> x <> slot ->
  hd_vars s !! z = None -> hd_impls s !! k = None ->
  hand_out s slot z k j sizeof_T junk cl p =
    Channel_write (set_impls_vars s (hd_impls s) (delete slot (hd_vars s))) x cl p.
Proof.
  intros Hok Hx Hslot Hxs Hz Hk. assert (Hzs : z <> slot) by congruence. assert (Hzx : z <> x) by congruence.
  assert (Hik : i <> k) by (intros ->; by apply (no_holder s k x)).
  assert (Hi : is_Some (hd_impls s !! i)) by (apply Hok; by exists x). destruct Hi as [ch Hch].
  unfold hand_out, Channel_default, Channel_ctor, map_get. cbn [set_impls_vars hd_vars hd_impls].
  rewrite lookup_insert_ne, Hslot by done. unfold Channel_move_assign, get_handle at 1 2.
  cbn [set_impls_vars hd_vars hd_impls]. rewrite lookup_insert_ne, Hslot, lookup_insert_eq by done. cbn [obind].
  destruct (Nat.eqb_spec z slot); [done|]. rewrite set_twice, (release_new s (hd_impls s)); [|done|].
  2: { intros y Hy. no_place Hy. by apply (no_holder s k y). }
  cbn [obind]. unfold Channel_dtor at 1, get_handle. cbn [set_impls_vars hd_vars hd_impls].
  rewrite lookup_insert_ne, lookup_insert_eq by done. cbn [obind release].
  assert (Ev : delete slot (<[z := Some i]> (<[slot := None]> (<[z := Some k]> (hd_vars s)))) =
               <[z := Some i]> (delete slot (hd_vars s))).
  { rewrite delete_insert_ne, delete_insert_eq, delete_insert_ne, insert_insert_eq by done. done. }
  rewrite set_twice, Ev.
  unfold Channel_write.
  rewrite (proj2 (get_impl_ok (set_impls_vars s _ (<[z := Some i]> _)) z i ch)) by (cbn; by rewrite lookup_insert_eq).
  rewrite (proj2 (get_impl_ok (set_impls_vars s _ _) x i ch)) by (cbn; by rewrite lookup_delete_ne).
  cbn [obind]. change (world_of (mkHandles _ _ _ _ _ _) ch) with (world_of s ch).
  change (world_of (set_impls_vars _ _ _) ch) with (world_of s ch).
  destruct (ChannelImpl_Write (world_of s ch) cl p) as [[w r]|]; [|done]. cbn [obind].
  unfold Channel_dtor, get_handle. cbn [put_world set_impls_vars hd_vars hd_impls]. rewrite lookup_insert_eq. cbn [obind].
  rewrite delete_insert_eq, (delete_id (delete slot _)) by (by rewrite lookup_delete_ne).
  by rewrite (release_held _ x i) by (cbn; by rewrite lookup_delete_ne).
Qed.

(** Without an entry, the block goes to a channel that nobody else has. *)
Lemma hand_out_dropped s slot z k j sizeof_T junk cl p : handles_ok s -> 0 < sizeof_T < 2 ^ 32 ->
  hd_vars s !! slot = None -> hd_vars s !! z = None -> z <> slot -> k <> j ->
  hd_impls s !! k = None -> hd_impls s !! j = None ->
  hand_out s slot z k j sizeof_T junk cl p = Ok (s, Done).
Proof.
  intros Hok Hsz Hslot Hz Hzs Hkj Hk Hj. destruct (write_new s j sizeof_T junk cl p Hsz) as (ch & Ew & Ep).
  set (new := Channel_new sizeof_T 1 (u32 (-1)) junk) in Ew.
  unfold hand_out, Channel_default, Channel_ctor, map_get. cbn [set_impls_vars hd_vars hd_impls].
  rewrite lookup_insert_ne, Hslot by done. unfold Channel_move_assign, Channel_default, Channel_ctor, get_handle at 1 2.
  cbn [set_impls_vars hd_vars hd_impls].
  rewrite lookup_insert_eq, lookup_insert_ne, lookup_insert_eq by done. cbn [obind].
  destruct (Nat.eqb_spec z slot); [done|]. fold new. rewrite !set_twice.
  rewrite (insert_insert_ne (hd_impls s) j k) by congruence. rewrite (release_new s (<[j := new]> (hd_impls s))); cycle 1.
  { by rewrite lookup_insert_ne. }
  { intros y Hy. no_place Hy. by apply (no_holder s k y). }
  cbn [obind]. unfold Channel_dtor at 1, get_handle. cbn [set_impls_vars hd_vars hd_impls].
  rewrite lookup_insert_ne, lookup_insert_eq by done. cbn [obind release]. rewrite set_twice.
  assert (Ev : delete slot (<[z := Some j]> (<[slot := None]> (<[slot := Some j]> (<[z := Some k]> (hd_vars s))))) =
               <[z := Some j]> (hd_vars s)).
  { rewrite insert_insert_eq, delete_insert_ne, delete_insert_eq, delete_insert_ne, insert_insert_eq by done.
    by rewrite delete_id. }
  rewrite Ev. unfold Channel_write.
  rewrite (proj2 (get_impl_ok (set_impls_vars s _ _) z j new)) by (cbn; by rewrite !lookup_insert_eq).
  cbn [obind]. change (world_of (set_impls_vars _ _ _) new) with (world_of s new). rewrite Ew. cbn [obind].
  unfold Channel_dtor, get_handle. cbn [put_world set_impls_vars hd_vars hd_impls]. rewrite lookup_insert_eq. cbn [obind].
  rewrite delete_insert_id, insert_insert_eq by done.
  change (release _ _) with (release (set_impls_vars s (<[j := ch]> (hd_impls s)) (hd_vars s)) (Some j)).
  rewrite (release_new s (hd_impls s)); [by destruct s|done|]. intros y. by apply (no_holder s j y).
Qed.

(** ** Theorems *)

(** The channels live as long as their handles. Every operation on handles keeps the
    channels exactly those that have a handle, so that a channel reached through a handle
    always exists; only a null handle, as a move leaves behind, cannot be used. *)
Theorem handles_sound (s : handles) x y i sizeof_T cap ms junk cl p :
  handles_ok s ->
  (hd_vars s !! x = None ->
   (hd_impls s !! i = None -> handles_ok (Channel_ctor s x i sizeof_T cap ms junk)) /\
   preserves s (Channel_copy s x y) /\ preserves s (Channel_move s x y)) /\
  preserves s (Channel_assign s x y) /\ preserves s (Channel_move_assign s x y) /\ preserves s (Channel_dtor s x) /\
  (forall s' r, Channel_read s x cl p = Ok (s', r) \/ Channel_write s x cl p = Ok (s', r) -> handles_ok s') /\
  get_impl s x <> Fault UseAfterFree.
Proof.
  intros Hok. split; [|split; [|split; [|split; [|split]]]].
  - intros Hx. split; [by intros; apply ctor_ok|]. split; [by apply copy_ok|by apply move_ok].
  - apply assign_ok.
  - apply move_assign_ok.
  - apply dtor_ok.
  - intros s' r [E|E]; unfold Channel_read, Channel_write in E;
      (destruct (get_impl s x) as [[j ch]|] eqn:Ei; [|done]); apply get_impl_ok in Ei as [_ Hj]; cbn [obind] in E.
    + destruct (ChannelImpl_Read _ _ _) as [[w r']|]; [|done]. injection E as <- _. apply put_world_ok; [by eexists|done].
    + destruct (ChannelImpl_Write _ _ _) as [[w r']|]; [|done]. injection E as <- _. apply put_world_ok; [by eexists|done].
  - unfold get_impl, get_handle. destruct (hd_vars s !! x) as [[j|]|] eqn:Hx; [|done..]. cbn [obind].
    assert (Hj : is_Some (hd_impls s !! j)) by (apply Hok; by exists x). by destruct Hj as [ch ->].
Qed.

(** C15: A channel handed through a map is the caller's. Registering the channel of [x] makes
    the entry a second handle of it and nothing else; the round of the receiving loop that
    takes the entry does, and returns, what a write through [x] does once the entry is
    gone; and a round that finds no entry changes nothing: its block is lost with the
    channel that was made for it. *)
Theorem channel_handed_over (s : handles) slot x z i k j sizeof_T junk cl p :
  handles_ok s -> hd_vars s !! x = Some (Some i) -> hd_vars s !! slot = None -> hd_vars s !! z = None ->
  z <> slot -> k <> j -> hd_impls s !! k = None -> hd_impls s !! j = None -> 0 < sizeof_T < 2 ^ 32 ->
  let s1 := set_impls_vars s (hd_impls s) (<[slot := Some i]> (hd_vars s)) in
  hand_in s slot x j sizeof_T junk = Ok s1 /\ handles_ok s1 /\
  hand_out s1 slot z k j sizeof_T junk cl p = Channel_write s x cl p /\
  hand_out s slot z k j sizeof_T junk cl p = Ok (s, Done).
Proof.
  intros Hok Hx Hslot Hz Hzs Hkj Hk Hj Hsz s1. assert (Hxs : x <> slot) by congruence.
  assert (E := hand_in_eq s slot x i j sizeof_T junk Hok Hx Hslot Hj).
  assert (Hok1 : handles_ok s1).
  { apply (copy_ok s slot x Hslot s1); [|done]. unfold Channel_copy, get_handle. by rewrite Hx. }
  split; [exact E|]. split; [exact Hok1|]. split; [|by apply hand_out_dropped].
  rewrite (hand_out_eq s1 slot x z i k j); try done.
  - cbn [s1 set_impls_vars hd_vars hd_impls]. rewrite delete_insert_eq, delete_id by done. by destruct s.
  - cbn. by rewrite lookup_insert_ne.
  - cbn. by rewrite lookup_insert_eq.
  - cbn. by rewrite lookup_insert_ne.
Qed.

(** ** Witnesses *)

(** One channel of pointers, with a handle at place 0. *)
Definition handles_sample : handles :=
  mkHandles {[5%nat := Channel_new 8 1 (u32 (-1)) (replicate 8 0)]} {[0%nat := Some 5%nat]} (fun _ => 0) ∅ [] [].

Lemma handles_sample_ok : handles_ok handles_sample.
Proof.
  intros i. cbn [handles_sample hd_impls hd_vars]. split.
  - intros [ch Hi]. apply lookup_singleton_Some in Hi as [<- _]. exists 0%nat. by rewrite lookup_singleton_eq.
  - intros (x & Hx). apply lookup_singleton_Some in Hx as [_ [= <-]]. by rewrite lookup_singleton_eq.
Qed.

Definition caller_sample : caller := mkCaller 0 false 0 0 0 0.

Lemma channel_handed_over_witness :
  exists s1 s2, hand_in handles_sample 1 0 6 8 [] = Ok s1 /\
    hand_out s1 1 2 7 6 8 [] caller_sample 0 = Ok (s2, Done) /\ use_count (hd_vars s2) 5 = 1%nat /\
    Channel_write handles_sample 0 caller_sample 0 = Ok (s2, Done).
Proof.
  destruct (channel_handed_over handles_sample 1 0 2 5 7 6 8 [] caller_sample 0 handles_sample_ok eq_refl eq_refl eq_refl
              ltac:(done) ltac:(done) eq_refl eq_refl ltac:(done)) as (E1 & _ & E2 & _).
  eexists _, _. split; [exact E1|]. rewrite E2. split; [reflexivity|]. split; [reflexivity|reflexivity].
Defined.
