(* ===== verification/CoMutex.v ===== *)
(** * mutex.h and mutex.cc: the mutex between coroutines

    The thread mutex [mutex_] makes the locked part of each operation atomic. A coroutine
    that has to wait publishes its scheduler, queues itself and yields; [UnLock] hands the
    lock to the first of the queue by making it ready, with [lock_] left true. The
    operations are functions on the mutex; [mx_step] is what any number of coroutines can
    do with them. *)

From stdpp Require Import base numbers list.
From Stdlib Require Import Lia ZArith.
From S2P Require Import Prelude Coroutine.

Record Mutex : Type := mkMutex { lock_ : bool; mx_queue : list nat }.

Definition Mutex_new : Mutex := mkMutex false [].

(** The mutex, the coroutines that use it, and the ones made ready by it with the
    scheduler they were given to. *)
Record mx_world : Type := mkMxWorld { mw_mutex : Mutex; mw_cos : list Coroutine; mw_ready : list (Z * nat) }.

(** [Lock] by coroutine [co] of scheduler [sched], up to its [Yield]: true when it has
    the lock, false when it has to wait. *)
Definition Mutex_Lock (w : mx_world) (sched : Z) (co : nat) : outcome (mx_world * bool) :=
  let m := mw_mutex w in
  if lock_ m then
    match mw_cos w !! co with
    | None => Fault NullDereference
    | Some c =>
        Ok (mkMxWorld (mkMutex (lock_ m) (mx_queue m ++ [co]))
              (<[co := set_co_scheduler c sched]> (mw_cos w)) (mw_ready w), false)
    end
  else Ok (mkMxWorld (mkMutex true (mx_queue m)) (mw_cos w) (mw_ready w), true).

Definition Mutex_UnLock (w : mx_world) : outcome mx_world :=
  let m := mw_mutex w in
  match mx_queue m with
  | co :: q =>
      match mw_cos w !! co with
      | None => Fault NullDereference
      | Some c =>
          let* s := get_co_scheduler c in
          Ok (mkMxWorld (mkMutex (lock_ m) q) (mw_cos w) (mw_ready w ++ [(s, co)]))
      end
  | [] => Ok (mkMxWorld (mkMutex false []) (mw_cos w) (mw_ready w))
  end.

Definition Mutex_TryLock (w : mx_world) : bool * mx_world :=
  let m := mw_mutex w in
  if lock_ m then (false, w)
  else (true, mkMxWorld (mkMutex true (mx_queue m)) (mw_cos w) (mw_ready w)).

(** [MutexGuard]: locks when it is made, unlocks when it is destroyed. *)
Definition MutexGuard_new := Mutex_Lock.
Definition MutexGuard_destroy := Mutex_UnLock.

(** ** Coroutines using the mutex

    [Outside], queued inside [Lock], made ready but not resumed yet, or past [Lock]. *)
Inductive mx_pc : Type := Outside | Queued | Woken | Inside.

#[export] Instance mx_pc_eq_dec : EqDecision mx_pc.
Proof. solve_decision. Defined.

Definition mx_state : Type := mx_world * list mx_pc.

Inductive mx_step (sched : Z) : mx_state -> mx_state -> Prop :=
| MxLock w w' pcs co got :
    pcs !! co = Some Outside -> Mutex_Lock w sched co = Ok (w', got) ->
    mx_step sched (w, pcs) (w', <[co := if got then Inside else Queued]> pcs)
| MxTryLock w w' pcs co got :
    pcs !! co = Some Outside -> Mutex_TryLock w = (got, w') ->
    mx_step sched (w, pcs) (w', <[co := if got then Inside else Outside]> pcs)
| MxUnLockFree w w' pcs co :
    pcs !! co = Some Inside -> mx_queue (mw_mutex w) = [] -> Mutex_UnLock w = Ok w' ->
    mx_step sched (w, pcs) (w', <[co := Outside]> pcs)
| MxUnLockHand w w' pcs co next q :
    pcs !! co = Some Inside -> mx_queue (mw_mutex w) = next :: q -> Mutex_UnLock w = Ok w' ->
    mx_step sched (w, pcs) (w', <[next := Woken]> (<[co := Outside]> pcs))
| MxResume w pcs co :
    pcs !! co = Some Woken -> mx_step sched (w, pcs) (w, <[co := Inside]> pcs).

(** [n] coroutines, none of which has touched the mutex. *)
Definition mx_init (cos : list Coroutine) : mx_state :=
  (mkMxWorld Mutex_new cos [], replicate (length cos) Outside).

(** The coroutine owns the lock, or it has been handed to it. *)
Definition owns (pc : mx_pc) : Prop := pc = Inside \/ pc = Woken.

(** The invariant: the lock is taken exactly when somebody owns it, and then one
    coroutine does; the queue lists the queued coroutines, each once, with their
    schedulers published. *)
Definition mx_inv (s : mx_state) : Prop :=
  let '(w, pcs) := s in
  length pcs = length (mw_cos w) /\
  (lock_ (mw_mutex w) = true <-> exists co pc, pcs !! co = Some pc /\ owns pc) /\
  (forall i j pi pj, pcs !! i = Some pi -> pcs !! j = Some pj -> owns pi -> owns pj -> i = j) /\
  NoDup (mx_queue (mw_mutex w)) /\
  (forall co, co ∈ mx_queue (mw_mutex w) <-> pcs !! co = Some Queued) /\
  (lock_ (mw_mutex w) = false -> mx_queue (mw_mutex w) = []) /\
  (forall co, co ∈ mx_queue (mw_mutex w) -> exists c s, mw_cos w !! co = Some c /\ co_union_ c = scheduler_ s).

(** ** Lemmas *)

Lemma lookup_pc (pcs : list mx_pc) i j x y :
  (i < length pcs)%nat -> <[i := x]> pcs !! j = Some y <-> (i = j /\ x = y) \/ (i <> j /\ pcs !! j = Some y).
Proof.
  intros Hi. destruct (decide (i = j)) as [<-|Hne].
  - rewrite list_lookup_insert_eq by done. split; [intros [= ->]; auto|intros [[_ ->]|[? _]]; done].
  - rewrite list_lookup_insert_ne by done. split; [auto|intros [[? _]|[_ ?]]; done].
Qed.

Lemma lookup_pc_lt (pcs : list mx_pc) i x : pcs !! i = Some x -> (i < length pcs)%nat.
Proof. apply lookup_lt_Some. Qed.

(** Reads every lookup in an updated table of positions. *)
Ltac pcs_cases :=
  repeat match goal with
  | H : <[_ := _]> _ !! _ = Some _ |- _ =>
      apply lookup_pc in H; [destruct H as [[? ?]|[? ?]]; subst|rewrite ?length_insert; eauto using lookup_pc_lt]
  | H : owns Outside |- _ => destruct H; discriminate
  | H : owns Queued |- _ => destruct H; discriminate
  end.

Lemma owner_unlocked w pcs co pc :
  mx_inv (w, pcs) -> lock_ (mw_mutex w) = false -> pcs !! co = Some pc -> ~ owns pc.
Proof.
  intros (_ & Hl & _) Hf Hco Ho. assert (lock_ (mw_mutex w) = true) by (apply Hl; eauto). congruence.
Qed.

(** A free mutex is taken by [co]. *)
Lemma mx_inv_take w pcs co cos ready :
  mx_inv (w, pcs) -> lock_ (mw_mutex w) = false -> pcs !! co = Some Outside -> cos = mw_cos w ->
  mx_inv (mkMxWorld (mkMutex true (mx_queue (mw_mutex w))) cos ready, <[co := Inside]> pcs).
Proof.
  intros Hinv Hf Hco ->. pose proof (owner_unlocked w pcs) as Hno.
  pose proof Hinv as (Hlen & Hl & Hu & Hnd & Hq & Hnil & Hs). pose proof (lookup_pc_lt _ _ _ Hco) as Hlt.
  unfold mx_inv. cbn [mw_mutex mw_cos lock_ mx_queue]. split_and!; try done.
  - by rewrite length_insert.
  - split; [|done]. intros _. exists co, Inside. split; [by rewrite list_lookup_insert_eq|by left].
  - intros i j pi pj Hi Hj Hoi Hoj. pcs_cases; try done; exfalso; eapply Hno; eauto.
  - intros x. rewrite Hq. rewrite lookup_pc by done. split; [|intros [[_ ?]|[_ ?]]; done].
    intros Hx. right. split; [|done]. intros ->. congruence.
Qed.

(** A coroutine that finds it taken queues. *)
Lemma mx_inv_wait w pcs co c sched :
  mx_inv (w, pcs) -> lock_ (mw_mutex w) = true -> pcs !! co = Some Outside -> mw_cos w !! co = Some c ->
  mx_inv (mkMxWorld (mkMutex (lock_ (mw_mutex w)) (mx_queue (mw_mutex w) ++ [co]))
            (<[co := set_co_scheduler c sched]> (mw_cos w)) (mw_ready w), <[co := Queued]> pcs).
Proof.
  intros (Hlen & Hl & Hu & Hnd & Hq & Hnil & Hs) Ht Hco Hc. pose proof (lookup_pc_lt _ _ _ Hco) as Hlt.
  assert (Hni : co ∉ mx_queue (mw_mutex w)) by (rewrite Hq; congruence).
  unfold mx_inv. cbn [mw_mutex mw_cos lock_ mx_queue]. split_and!.
  - by rewrite !length_insert.
  - rewrite Hl. split; intros (i & pi & Hi & Hoi).
    + exists i, pi. split; [|done]. rewrite list_lookup_insert_ne; [done|]. intros <-.
      rewrite Hco in Hi. injection Hi as <-. by destruct Hoi.
    + pcs_cases. eauto.
  - intros i j pi pj Hi Hj Hoi Hoj. pcs_cases. eauto.
  - apply NoDup_app. split_and!; [done| |apply NoDup_singleton]. intros x Hx ->%list_elem_of_singleton. done.
  - intros x. rewrite elem_of_app, list_elem_of_singleton, Hq, lookup_pc by done. split.
    + intros [Hx| ->]; [right|by left]. split; [|done]. intros ->. congruence.
    + intros [[-> _]|[_ Hx]]; auto.
  - congruence.
  - intros x. rewrite elem_of_app, list_elem_of_singleton. destruct (decide (co = x)) as [<-|Hne].
    + intros _. eexists _, sched. rewrite list_lookup_insert_eq by lia. done.
    + intros [Hx|?]; [|congruence]. rewrite list_lookup_insert_ne by done. by apply Hs.
Qed.

Lemma mx_inv_free w pcs co ready :
  mx_inv (w, pcs) -> pcs !! co = Some Inside -> mx_queue (mw_mutex w) = [] ->
  mx_inv (mkMxWorld (mkMutex false []) (mw_cos w) ready, <[co := Outside]> pcs).
Proof.
  intros (Hlen & Hl & Hu & Hnd & Hq & Hnil & Hs) Hco Hemp. pose proof (lookup_pc_lt _ _ _ Hco) as Hlt.
  rewrite Hemp in *. unfold mx_inv. cbn [mw_mutex mw_cos lock_ mx_queue]. split_and!; try done.
  - by rewrite length_insert.
  - split; [done|]. intros (i & pi & Hi & Hoi). pcs_cases. exfalso.
    assert (i = co) by (eapply (Hu i co); [eassumption|exact Hco|assumption|by left]). congruence.
  - intros i j pi pj Hi Hj Hoi Hoj. pcs_cases. eauto.
  - intros x. rewrite Hq, lookup_pc by done. split; [|intros [[_ ?]|[_ ?]]; done].
    intros Hx. right. split; [|done]. intros ->. congruence.
Qed.

Lemma mx_inv_hand w pcs co next q ready :
  mx_inv (w, pcs) -> pcs !! co = Some Inside -> mx_queue (mw_mutex w) = next :: q ->
  mx_inv (mkMxWorld (mkMutex (lock_ (mw_mutex w)) q) (mw_cos w) ready, <[next := Woken]> (<[co := Outside]> pcs)).
Proof.
  intros (Hlen & Hl & Hu & Hnd & Hq & Hnil & Hs) Hco Hemp. pose proof (lookup_pc_lt _ _ _ Hco) as Hlt.
  assert (Hn : pcs !! next = Some Queued) by (apply Hq; rewrite Hemp; constructor).
  pose proof (lookup_pc_lt _ _ _ Hn) as Hnlt. assert (Hne : next <> co) by congruence.
  assert (Ht : lock_ (mw_mutex w) = true) by (apply Hl; exists co, Inside; split; [done|by left]).
  rewrite Hemp in *. apply NoDup_cons in Hnd as [Hnin Hnd].
  unfold mx_inv. cbn [mw_mutex mw_cos lock_ mx_queue]. split_and!; try done.
  - by rewrite !length_insert.
  - split; [|intros _; exact Ht]. intros _. exists next, Woken. split; [|by right].
    by rewrite list_lookup_insert_eq by (by rewrite length_insert).
  - intros i j pi pj Hi Hj Hoi Hoj. pcs_cases; try done.
    + assert (i = co) by (eapply (Hu i co); [eassumption|exact Hco|assumption|by left]). congruence.
    + assert (j = co) by (eapply (Hu j co); [eassumption|exact Hco|assumption|by left]). congruence.
    + eauto.
  - intros x. rewrite lookup_pc by (by rewrite length_insert). rewrite lookup_pc by done. split.
    + intros Hx. right. split; [congruence|]. right.
      assert (Hxq : pcs !! x = Some Queued) by (apply Hq; by constructor). split; [congruence|done].
    + intros [[_ ?]|[Hx [[_ ?]|[_ Hx']]]]; [done|done|].
      apply Hq in Hx'. by apply elem_of_cons in Hx' as [->|?].
  - congruence.
  - intros x Hx. apply Hs. by constructor.
Qed.

Lemma mx_inv_resume w pcs co : mx_inv (w, pcs) -> pcs !! co = Some Woken -> mx_inv (w, <[co := Inside]> pcs).
Proof.
  intros (Hlen & Hl & Hu & Hnd & Hq & Hnil & Hs) Hco. pose proof (lookup_pc_lt _ _ _ Hco) as Hlt.
  unfold mx_inv. split_and!; try done.
  - by rewrite length_insert.
  - rewrite Hl. split; intros (i & pi & Hi & Hoi).
    + exists co, Inside. split; [by rewrite list_lookup_insert_eq|by left].
    + exists co, Woken. split; [done|by right].
  - intros i j pi pj Hi Hj Hoi Hoj. pcs_cases; try done; eapply Hu; eauto; by right.
  - intros x. rewrite Hq, lookup_pc by done. split; [|intros [[_ ?]|[_ ?]]; done].
    intros Hx. right. split; [|done]. intros ->. congruence.
Qed.

Lemma mx_step_inv sched s s' : mx_inv s -> mx_step sched s s' -> mx_inv s'.
Proof.
  intros Hinv Hstep. destruct Hstep as [w w' pcs co got Hco E|w w' pcs co got Hco E|w w' pcs co Hco Hq E
    |w w' pcs co next q Hco Hq E|w pcs co Hco].
  - unfold Mutex_Lock in E. destruct (lock_ (mw_mutex w)) eqn:El.
    + destruct (mw_cos w !! co) as [c|] eqn:Ec; [|done]. injection E as <- <-.
      rewrite <- El. by apply mx_inv_wait.
    + injection E as <- <-. by apply mx_inv_take.
  - unfold Mutex_TryLock in E. destruct (lock_ (mw_mutex w)) eqn:El; injection E as <- <-.
    + by rewrite list_insert_id.
    + by apply mx_inv_take.
  - unfold Mutex_UnLock in E. rewrite Hq in E. injection E as <-. by eapply mx_inv_free.
  - unfold Mutex_UnLock in E. rewrite Hq in E. destruct (mw_cos w !! next) as [c|]; [|done].
    destruct (get_co_scheduler c) as [s|]; [|done]. injection E as <-. by eapply mx_inv_hand.
  - by apply mx_inv_resume.
Qed.

Lemma mx_inv_init cos : mx_inv (mx_init cos).
Proof.
  unfold mx_init, mx_inv. cbn. rewrite length_replicate.
  assert (H : forall co pc, replicate (length cos) Outside !! co = Some pc -> pc = Outside)
    by (intros co pc [? _]%lookup_replicate; done).
  split_and!; try done.
  - split; [done|]. intros (co & pc & ->%H & [?|?]); done.
  - intros i j pi pj ->%H _ [?|?]; done.
  - constructor.
  - intros co. split; [by intros ?%elem_of_nil|]. by intros ?%H.
  - by intros co ?%elem_of_nil.
Qed.

(** ** Theorems *)

(** C3: mutual exclusion. In every state the coroutines can reach, at most one of them
    is past [Lock] or has been handed the lock; whoever waits, waits in the queue, once,
    and only while somebody owns the lock, so nobody waits on a free mutex. *)
Theorem mutex_exclusion sched cos w pcs :
  star (mx_step sched) (mx_init cos) (w, pcs) ->
  (forall i j pi pj, pcs !! i = Some pi -> pcs !! j = Some pj -> owns pi -> owns pj -> i = j) /\
  NoDup (mx_queue (mw_mutex w)) /\
  (forall co, pcs !! co = Some Queued -> co ∈ mx_queue (mw_mutex w) /\
     exists i pi, pcs !! i = Some pi /\ owns pi).
Proof.
  intros Hrun. pose proof (star_invariant _ _ (mx_step_inv sched) _ _ Hrun (mx_inv_init cos))
    as (_ & Hl & Hu & Hnd & Hq & Hnil & _).
  split_and!; try done. intros co Hco. apply Hq in Hco. split; [done|]. apply Hl.
  destruct (lock_ (mw_mutex w)) eqn:E; [done|]. rewrite (Hnil eq_refl) in Hco. by apply elem_of_nil in Hco.
Qed.

(** C16: hand-over. In every reachable state, [UnLock] by the coroutine inside gives a
    result: with nobody queued the mutex becomes free; otherwise the lock stays taken,
    the coroutine that has waited longest leaves the queue, and it alone is made ready,
    on the scheduler it published. *)
Theorem mutex_hand_over sched cos w pcs co :
  star (mx_step sched) (mx_init cos) (w, pcs) -> pcs !! co = Some Inside ->
  exists w', Mutex_UnLock w = Ok w' /\
    match mx_queue (mw_mutex w) with
    | [] => lock_ (mw_mutex w') = false /\ mw_ready w' = mw_ready w
    | next :: q => lock_ (mw_mutex w') = true /\ mx_queue (mw_mutex w') = q /\
        exists c s, mw_cos w !! next = Some c /\ co_union_ c = scheduler_ s /\ mw_ready w' = mw_ready w ++ [(s, next)]
    end.
Proof.
  intros Hrun Hco. pose proof (star_invariant _ _ (mx_step_inv sched) _ _ Hrun (mx_inv_init cos))
    as (_ & Hl & _ & _ & _ & _ & Hs). unfold Mutex_UnLock.
  destruct (mx_queue (mw_mutex w)) as [|next q] eqn:Eq; [by eexists|].
  destruct (Hs next) as (c & s & Hc & Hcs); [constructor|]. unfold get_co_scheduler. rewrite Hc, Hcs. cbn [obind].
  eexists. split; [reflexivity|]. cbn. split_and!; [|done|eauto].
  apply Hl. exists co, Inside. split; [done|by left].
Qed.

(** ** Progress

    Each coroutine locks and unlocks a number of times; the second list says how often it
    still will. A coroutine inside goes on to its [UnLock]. *)

Inductive mxr_step (sched : Z) : mx_state * list nat -> mx_state * list nat -> Prop :=
| MxrLock w w' pcs rounds co r got :
    pcs !! co = Some Outside -> rounds !! co = Some (S r) -> Mutex_Lock w sched co = Ok (w', got) ->
    mxr_step sched (w, pcs, rounds) (w', <[co := if got then Inside else Queued]> pcs, <[co := r]> rounds)
| MxrUnLockFree w w' pcs rounds co :
    pcs !! co = Some Inside -> mx_queue (mw_mutex w) = [] -> Mutex_UnLock w = Ok w' ->
    mxr_step sched (w, pcs, rounds) (w', <[co := Outside]> pcs, rounds)
| MxrUnLockHand w w' pcs rounds co next q :
    pcs !! co = Some Inside -> mx_queue (mw_mutex w) = next :: q -> Mutex_UnLock w = Ok w' ->
    mxr_step sched (w, pcs, rounds) (w', <[next := Woken]> (<[co := Outside]> pcs), rounds)
| MxrResume w pcs rounds co :
    pcs !! co = Some Woken -> mxr_step sched (w, pcs, rounds) (w, <[co := Inside]> pcs, rounds).

Definition mxr_finished (s : mx_state * list nat) : Prop :=
  Forall (fun pc => pc = Outside) (snd (fst s)) /\ Forall (fun r => r = 0%nat) (snd s).

Definition pc_rank (pc : mx_pc) : nat :=
  match pc with Outside => 0 | Queued => 3 | Woken => 2 | Inside => 1 end.
Definition mxr_work (s : mx_state * list nat) : nat :=
  sum_list_with pc_rank (snd (fst s)) + sum_list_with (fun r => 4 * r)%nat (snd s).

Definition mxr_inv (s : mx_state * list nat) : Prop :=
  mx_inv (fst s) /\ length (snd s) = length (snd (fst s)).

Lemma mxr_step_mx sched s s' : mxr_step sched s s' -> mx_step sched (fst s) (fst s').
Proof.
  destruct 1; cbn; [by eapply MxLock|by eapply MxUnLockFree|by eapply MxUnLockHand|by eapply MxResume].
Qed.

Lemma mxr_step_inv sched s s' : mxr_inv s -> mxr_step sched s s' -> mxr_inv s'.
Proof.
  intros [Hinv Hl] Hstep. split; [eapply mx_step_inv; [exact Hinv|by apply mxr_step_mx]|].
  destruct Hstep; cbn in *; by rewrite ?length_insert.
Qed.

Lemma mxr_step_work sched s s' : mxr_inv s -> mxr_step sched s s' -> (mxr_work s' < mxr_work s)%nat.
Proof.
  intros [Hinv _] Hstep. unfold mxr_work.
  destruct Hstep as [w w' pcs rounds co r got Hco Hr E|w w' pcs rounds co Hco Hn E
    |w w' pcs rounds co next q Hco Hn E|w pcs rounds co Hco]; cbn [fst snd] in *.
  - pose proof (sum_list_with_insert (fun r => 4 * r)%nat _ _ _ r Hr) as E1. cbn beta in E1.
    pose proof (sum_list_with_insert pc_rank _ _ _ (if got then Inside else Queued) Hco) as E2.
    destruct got; cbn [pc_rank] in E2; lia.
  - pose proof (sum_list_with_insert pc_rank _ _ _ Outside Hco) as E2. cbn [pc_rank] in E2. lia.
  - destruct Hinv as (_ & _ & _ & _ & Hq & _).
    assert (Hnext : pcs !! next = Some Queued) by (apply Hq; rewrite Hn; constructor).
    pose proof (sum_list_with_insert pc_rank _ _ _ Outside Hco) as E1.
    assert (Hnext' : <[co := Outside]> pcs !! next = Some Queued).
    { rewrite list_lookup_insert_ne; [done|]. intros ->. congruence. }
    pose proof (sum_list_with_insert pc_rank _ _ _ Woken Hnext') as E2. cbn [pc_rank] in *. lia.
  - pose proof (sum_list_with_insert pc_rank _ _ _ Inside Hco) as E2. cbn [pc_rank] in E2. lia.
Qed.

(** [UnLock] by the coroutine inside works. *)
Lemma UnLock_works w pcs co :
  mx_inv (w, pcs) -> pcs !! co = Some Inside -> exists w', Mutex_UnLock w = Ok w'.
Proof.
  intros (_ & _ & _ & _ & _ & _ & Hs) Hco. unfold Mutex_UnLock.
  destruct (mx_queue (mw_mutex w)) as [|next q] eqn:Eq; [by eexists|].
  destruct (Hs next) as (c & s & Hc & Hcs); [constructor|]. unfold get_co_scheduler. rewrite Hc, Hcs. by eexists.
Qed.

Lemma mxr_progress sched s : mxr_inv s -> mxr_finished s \/ exists s', mxr_step sched s s'.
Proof.
  destruct s as [[w pcs] rounds]. intros [Hinv Hlen]. cbn in Hlen.
  pose proof Hinv as (Hl & Hlock & _ & _ & Hq & Hnil & _). cbn in *.
  destruct (decide (Forall (fun pc => pc = Outside) pcs)) as [Hout|Hin].
  - destruct (decide (Forall (fun r => r = 0%nat) rounds)) as [Hz|Hnz]; [by left|right].
    apply not_Forall_Exists in Hnz; [|intros ?; apply _].
    apply Exists_exists in Hnz as (r0 & [co Hr]%list_elem_of_lookup & Hne); destruct r0 as [|r]; [by destruct Hne|].
    destruct (lookup_lt_is_Some_2 pcs co) as [pc Hpc]; [apply lookup_lt_Some in Hr; lia|].
    rewrite Forall_lookup in Hout. pose proof (Hout co pc Hpc) as ->.
    assert (Hf : lock_ (mw_mutex w) = false).
    { destruct (lock_ (mw_mutex w)) eqn:El; [|done]. destruct (proj1 Hlock eq_refl) as (i & pi & Hi & Ho).
      rewrite (Hout i pi Hi) in Ho. by destruct Ho. }
    eexists. eapply (MxrLock _ _ _ _ _ co r true); [done|done|]. unfold Mutex_Lock. by rewrite Hf.
  - right. assert (Hown : exists co pc, pcs !! co = Some pc /\ owns pc).
    { apply not_Forall_Exists in Hin; [|intros ?; apply _].
      apply Exists_exists in Hin as (pc & [co Hco]%list_elem_of_lookup & Hne). destruct pc; [by destruct Hne| | |].
      - apply Hlock. destruct (lock_ (mw_mutex w)) eqn:El; [done|]. apply Hq in Hco.
        rewrite (Hnil eq_refl) in Hco. by apply elem_of_nil in Hco.
      - exists co, Woken. split; [done|by right].
      - exists co, Inside. split; [done|by left]. }
    destruct Hown as (co & pc & Hco & [->| ->]).
    + destruct (UnLock_works w pcs co Hinv Hco) as [w' E]. destruct (mx_queue (mw_mutex w)) as [|next q] eqn:Eq.
      * eexists. by eapply MxrUnLockFree.
      * eexists. by eapply MxrUnLockHand.
    + eexists. by eapply MxrResume.
Qed.

(** C18: Nobody starves. However the coroutines are interleaved, if each of them locks and
    unlocks a finite number of times then every [Lock] returns: all of them get to the
    end of their rounds, and nobody is left in the queue. *)
Theorem mutex_no_starvation sched cos rounds :
  length rounds = length cos ->
  eventually (mxr_step sched)
    (fun s => mxr_finished s /\ mx_queue (mw_mutex (fst (fst s))) = [] /\ lock_ (mw_mutex (fst (fst s))) = false)
    (mx_init cos, rounds).
Proof.
  intros Hl. apply (eventually_measure _ _ mxr_inv mxr_work).
  2:{ split; [apply mx_inv_init|]. cbn. by rewrite length_replicate. }
  intros s Hinv. destruct (mxr_progress sched s Hinv) as [Hf|Hex]; [left|right].
  - split; [done|]. destruct Hf as [Hout _], s as [[w pcs] rs], Hinv as [(_ & Hlock & _ & _ & _ & Hnil & _) _].
    cbn in *. rewrite Forall_lookup in Hout. assert (E : lock_ (mw_mutex w) = false); [|by auto].
    destruct (lock_ (mw_mutex w)); [|done]. destruct (proj1 Hlock eq_refl) as (i & pi & Hi & Ho).
    rewrite (Hout i pi Hi) in Ho. by destruct Ho.
  - split; [done|]. intros s' Hstep. split; [by eapply mxr_step_inv|by eapply mxr_step_work].
Qed.

(** ** Witnesses *)

(** Coroutine 0 locks, coroutine 1 has to wait. *)
Definition mx_sample : mx_state :=
  (mkMxWorld (mkMutex true [1%nat]) [Coroutine_new []; set_co_scheduler (Coroutine_new []) 7] [],
   [Inside; Queued]).

Lemma mx_sample_reached : star (mx_step 7) (mx_init (replicate 2 (Coroutine_new []))) mx_sample.
Proof.
  eapply star_step; [eapply (MxLock _ _ _ _ 0%nat true); reflexivity|].
  apply star_one. change mx_sample with (fst mx_sample, <[1%nat := Queued]> [Inside; Outside]).
  apply (MxLock 7 _ _ [Inside; Outside] 1%nat false); reflexivity.
Qed.

Lemma mutex_no_starvation_witness :
  eventually (mxr_step 7)
    (fun s => mxr_finished s /\ mx_queue (mw_mutex (fst (fst s))) = [] /\ lock_ (mw_mutex (fst (fst s))) = false)
    (mx_init (replicate 3 (Coroutine_new [])), [2; 1; 5]%nat).
Proof. exact (mutex_no_starvation 7 (replicate 3 (Coroutine_new [])) [2; 1; 5]%nat eq_refl). Defined.

Lemma mutex_exclusion_witness :
  (forall i j pi pj, snd mx_sample !! i = Some pi -> snd mx_sample !! j = Some pj -> owns pi -> owns pj -> i = j) /\
  NoDup [1%nat] /\
  (forall co, snd mx_sample !! co = Some Queued -> co ∈ [1%nat] /\ exists i pi, snd mx_sample !! i = Some pi /\ owns pi).
Proof. apply (mutex_exclusion 7 (replicate 2 (Coroutine_new [])) (fst mx_sample) (snd mx_sample)), mx_sample_reached. Defined.

Lemma mutex_hand_over_witness :
  exists w', Mutex_UnLock (fst mx_sample) = Ok w' /\ lock_ (mw_mutex w') = true /\ mx_queue (mw_mutex w') = [] /\
    exists c s, mw_cos (fst mx_sample) !! 1%nat = Some c /\ co_union_ c = scheduler_ s /\ mw_ready w' = [] ++ [(s, 1%nat)].
Proof.
  apply (mutex_hand_over 7 (replicate 2 (Coroutine_new [])) (fst mx_sample) (snd mx_sample) 0);
    [apply mx_sample_reached|reflexivity].
Defined.
