(* ===== verification/Sock.v ===== *)
(** * io_event.h, io_event.cc, sock.h and sock.cc: socket operations for coroutines

    The system calls are the kernel's: each loop runs against the answers of its
    successive calls. After an answer that says the call would block, the coroutine waits
    for the descriptor ([IOEvent::wait]); a script gives, with each answer, whether that
    wait succeeds. A loop that runs out of answers is still waiting: [None]. The [CHECK]
    for a scheduler at the head of the operations is a precondition: the definitions are
    the calls of a coroutine. *)

From stdpp Require Import base numbers list gmap.
From Stdlib Require Import Lia ZArith.
From S2P Require Import Prelude Stream Errno SockCtx Epoll Coroutine Copoll TaskManager TimerManager Scheduler.

(** ** IOEvent *)

Record IOEvent : Type := mkIOEvent { ioe_fd : Z; ioe_ev : io_event_t; ioe_has_ev : bool }.

Definition IOEvent_new (fd : Z) (ev : io_event_t) : IOEvent := mkIOEvent fd ev false.

Section io_event.
Context {K : Type} `{EpollKernel K}.

(** [wait(ms)] up to its [Yield]; [None] when the event could not be added and the call
    returns false at once. *)
Definition IOEvent_wait_start (e : IOEvent) (s : SchedulerImpl) (w : ev_state K) (now ms : Z)
  : outcome (option (IOEvent * SchedulerImpl * ev_state K)) :=
  let* (has, w) := if ioe_has_ev e then Ok (true, w)
                   else SchedulerImpl_AddIoEvent s w (ioe_fd e) (ioe_ev e) in
  let e := mkIOEvent (ioe_fd e) (ioe_ev e) has in
  if negb has then Ok None else
  let* s := if negb (u32 ms =? u32 (-1)) then SchedulerImpl_AddTimer s now (u32 ms) else Ok s in
  let* s := SchedulerImpl_Yield s in
  Ok (Some (e, s, w)).

(** What it returns after the [Yield], with the [errno] it sets. *)
Definition IOEvent_wait_end (s : SchedulerImpl) (ms : Z) : bool * option Z :=
  if negb (u32 ms =? u32 (-1)) then
    if negb (SchedulerImpl_is_timeout s) then (true, None) else (false, Some ETIMEDOUT)
  else (true, None).

Definition IOEvent_destroy (e : IOEvent) (s : SchedulerImpl) (w : ev_state K) : outcome (ev_state K) :=
  if ioe_has_ev e then SchedulerImpl_DelIoEvent s w (ioe_fd e) (ioe_ev e) else Ok w.
End io_event.

(** ** Flags of a descriptor *)

Definition O_NONBLOCK : Z := 2048.
Definition FD_CLOEXEC : Z := 1.
Definition SOCK_NONBLOCK : Z := 2048.
Definition SOCK_CLOEXEC : Z := 524288.
Definition SOCK_STREAM : Z := 1.
Definition SOCK_DGRAM : Z := 2.
Definition IPPROTO_TCP : Z := 6.
Definition IPPROTO_UDP : Z := 17.
Definition AF_INET : Z := 2.
Definition AF_INET6 : Z := 10.

(** The flags after [fcntl(fd, F_SETFL, ...)] and [fcntl(fd, F_SETFD, ...)]. *)
Definition set_nonblock (fl : Z) : Z := Z.lor fl O_NONBLOCK.
Definition set_cloexec (fd_flags : Z) : Z := Z.lor fd_flags FD_CLOEXEC.

(** The arguments of the system call. *)
Definition socket (domain type protocol : Z) : Z * Z * Z :=
  (domain, Z.lor (Z.lor type SOCK_NONBLOCK) SOCK_CLOEXEC, protocol).

(** [socket] on a system without [SOCK_NONBLOCK]. The name in [(socket)(domain, type,
    protocol)] is looked up in the namespace first: the function calls itself. No result:
    out of fuel. The flags of a descriptor are those of [F_GETFL] and of [F_GETFD]. *)
Fixpoint socket_else (fuel : nat) (flags : gmap Z (Z * Z)) (domain type protocol : Z) : option (Z * gmap Z (Z * Z)) :=
  match fuel with
  | O => None
  | S fuel =>
      match socket_else fuel flags domain type protocol with
      | None => None
      | Some (fd, flags) =>
          Some (fd, if negb (fd =? -1)
                    then alter (fun f => (set_nonblock f.1, set_cloexec f.2)) fd flags else flags)
      end
  end.
Definition tcp_socket (domain : Z) : Z * Z * Z := socket domain SOCK_STREAM IPPROTO_TCP.
Definition udp_socket (domain : Z) : Z * Z * Z := socket domain SOCK_DGRAM IPPROTO_UDP.

(** ** Options: the arguments given to [setsockopt] *)

Record sockopt_call : Type := mkSockopt { so_fd : Z; so_level : Z; so_name : Z; so_value : list Z }.

Definition SOL_SOCKET : Z := 1.
Definition SO_REUSEADDR : Z := 2.
Definition SO_SNDBUF : Z := 7.
Definition SO_RCVBUF : Z := 8.
Definition SO_KEEPALIVE : Z := 9.
Definition SO_LINGER : Z := 13.
Definition TCP_NODELAY : Z := 1.

Definition setsockopt (fd lv opt : Z) (optval : list Z) : sockopt_call := mkSockopt fd lv opt optval.
Definition set_reuseaddr (fd : Z) : sockopt_call := setsockopt fd SOL_SOCKET SO_REUSEADDR [1].
Definition set_send_buffer_size (fd n : Z) : sockopt_call := setsockopt fd SOL_SOCKET SO_SNDBUF [n].
Definition set_recv_buffer_size (fd n : Z) : sockopt_call := setsockopt fd SOL_SOCKET SO_RCVBUF [n].
Definition set_tcp_nodelay (fd : Z) : sockopt_call := setsockopt fd IPPROTO_TCP TCP_NODELAY [1].
Definition set_tcp_keepalive (fd : Z) : sockopt_call := setsockopt fd SOL_SOCKET SO_KEEPALIVE [1].

(** ** The loops *)

(** How an operation ends: its result, and [errno] when it is -1. *)
Inductive io_end : Type := IoDone (r : Z) | IoFail (errno : Z).

Definition would_block (errno : Z) : bool := (errno =? EWOULDBLOCK) || (errno =? EAGAIN).

(** Why a wait fails: the event was not added (with the [errno] of that), or timed out. *)
Definition wait_answer : Type := option Z.

(** An answer to a call that returns data, with the wait that follows if it is needed:
    [None] when the wait succeeds. *)
Inductive recv_answer : Type :=
| RData (bytes : list Z)
| RErr (errno : Z) (wait : wait_answer).

(** [recv(fd, buf, n, ms)]: the end, and what was put in [buf]. *)
Fixpoint recv (answers : list recv_answer) : option (io_end * list Z) :=
  match answers with
  | [] => None
  | RData bs :: _ => Some (IoDone (Z.of_nat (length bs)), bs)
  | RErr errno wait :: rest =>
      if would_block errno then
        match wait with None => recv rest | Some e => Some (IoFail e, []) end
      else if errno =? EINTR then recv rest
      else Some (IoFail errno, [])
  end.

(** [recvfrom] differs in the system call only. *)
Definition recvfrom := recv.

(** [recvn(fd, buf, n, ms)]: [s] is what [buf] holds so far, [remain] what is missing. The
    result has the answers that are left for the next call. *)
Fixpoint recvn_loop (n remain : Z) (s : list Z) (answers : list recv_answer)
  : option (io_end * list Z * list recv_answer) :=
  match answers with
  | [] => None
  | RData bs :: rest =>
      let r := Z.of_nat (length bs) in
      if r =? remain then Some (IoDone n, s ++ bs, rest)
      else if r =? 0 then Some (IoDone 0, s, rest)
      else recvn_loop n (i32 (remain - r)) (s ++ bs) rest
  | RErr errno wait :: rest =>
      if -1 =? remain then Some (IoDone n, s, rest) else
      if would_block errno then
        match wait with None => recvn_loop n remain s rest | Some e => Some (IoFail e, s, rest) end
      else if errno =? EINTR then recvn_loop n remain s rest
      else Some (IoFail errno, s, rest)
  end.
Definition recvn (n : Z) (answers : list recv_answer) : option (io_end * list Z * list recv_answer) :=
  recvn_loop n n [] answers.

(** An answer to [send]: how many bytes were taken. *)
Inductive send_answer : Type :=
| STaken (r : Z)
| SErr (errno : Z) (wait : wait_answer).

(** [send(fd, buf, n, ms)]: [s] is what is left to send, [sent] what the kernel took. *)
Fixpoint send_loop (n remain : Z) (s sent : list Z) (answers : list send_answer)
  : option (io_end * list Z * list send_answer) :=
  match answers with
  | [] => None
  | STaken r :: rest =>
      let taken := take (Z.to_nat r) s in
      if r =? remain then Some (IoDone n, sent ++ taken, rest)
      else send_loop n (i32 (remain - r)) (drop (Z.to_nat r) s) (sent ++ taken) rest
  | SErr errno wait :: rest =>
      if -1 =? remain then Some (IoDone n, sent, rest) else
      if would_block errno then
        match wait with None => send_loop n remain s sent rest | Some e => Some (IoFail e, sent, rest) end
      else if errno =? EINTR then send_loop n remain s sent rest
      else Some (IoFail errno, sent, rest)
  end.
Definition send (buf : list Z) (n : Z) (answers : list send_answer) : option (io_end * list Z * list send_answer) :=
  send_loop n n buf [] answers.
Definition sendto := send.

(** [accept]: the wait has no time limit and its result is ignored. *)
Inductive accept_answer : Type := AConn (connfd : Z) | AErr (errno : Z).
Fixpoint accept (answers : list accept_answer) : option io_end :=
  match answers with
  | [] => None
  | AConn connfd :: _ => Some (IoDone connfd)
  | AErr errno :: rest =>
      if would_block errno then accept rest
      else if errno =? EINTR then accept rest
      else Some (IoFail errno)
  end.

(** [connect]: in progress, the coroutine waits to write and asks for the socket's
    error: [inl] is the [errno] of a failing [getsockopt], [inr] the error. *)
Inductive connect_answer : Type :=
| COk
| CInProgress (wait : wait_answer) (sockerr : Z + Z)
| CErr (errno : Z).
Fixpoint connect (answers : list connect_answer) : option io_end :=
  match answers with
  | [] => None
  | COk :: _ => Some (IoDone 0)
  | CInProgress wait sockerr :: _ =>
      match wait with
      | Some e => Some (IoFail e)
      | None => match sockerr with
                | inl e => Some (IoFail e)
                | inr err => if err =? 0 then Some (IoDone 0) else Some (IoFail err)
                end
      end
  | CErr errno :: rest => if errno =? EINTR then connect rest else Some (IoFail errno)
  end.

(** The loop of [close] around [::close]: the result and [errno] of each call. *)
Fixpoint close_loop (answers : list (Z * Z)) : option io_end :=
  match answers with
  | [] => None
  | (r, errno) :: rest =>
      if negb (r =? 0) && (errno =? EINTR) then close_loop rest
      else if r =? 0 then Some (IoDone 0) else Some (IoFail errno)
  end.

Inductive shut_how : Type := SHUT_RD | SHUT_WR | SHUT_RDWR.

Section closing.
Context {K : Type} `{EpollKernel K}.

(** [close(fd, ms)] up to its [Yield] if [ms > 0] and there is a scheduler, whole otherwise:
    the contexts, the scheduler and the result, [None] when it has not returned yet. *)
Definition close (tls : option SchedulerImpl) (w : ev_state K) (fd ms now : Z) (answers : list (Z * Z))
  : outcome (option SchedulerImpl * ev_state K * option io_end) :=
  if fd <? 0 then
    Ok (tls, w, match answers with
                | [] => None
                | (r, e) :: _ => Some (if r =? 0 then IoDone 0 else IoFail e)
                end)
  else
    match tls with
    | Some s =>
        let w := SchedulerImpl_DelIoEvent_all s w fd in
        if 0 <? ms then let* s := SchedulerImpl_Sleep s now (u32 ms) in Ok (Some s, w, None)
        else Ok (Some s, w, close_loop answers)
    | None => Ok (None, mkEvState (ev_kernel w)
                          (put_sock_ctx (ev_ctxs w) fd (SockCtx_DelEvent (get_sock_ctx (ev_ctxs w) fd))),
                  close_loop answers)
    end.

(** What [close] does once its sleep is over. *)
Definition close_resume (answers : list (Z * Z)) : option io_end := close_loop answers.

(** [shutdown(fd, c)]: the contexts and how [::shutdown] is called. [c] is ['r'] (114),
    ['w'] (119) or another character. *)
Definition shutdown (tls : option SchedulerImpl) (w : ev_state K) (fd c : Z) : outcome (ev_state K * shut_how) :=
  if fd <? 0 then Ok (w, SHUT_RDWR) else
  match tls with
  | Some s =>
      if c =? 114 then let* w := SchedulerImpl_DelIoEvent s w fd kEvRead in Ok (w, SHUT_RD)
      else if c =? 119 then let* w := SchedulerImpl_DelIoEvent s w fd kEvWrite in Ok (w, SHUT_WR)
      else Ok (SchedulerImpl_DelIoEvent_all s w fd, SHUT_RDWR)
  | None =>
      let upd (f : SockCtx -> SockCtx) :=
        mkEvState (ev_kernel w) (put_sock_ctx (ev_ctxs w) fd (f (get_sock_ctx (ev_ctxs w) fd))) in
      if c =? 114 then Ok (upd SockCtx_DelEvRead, SHUT_RD)
      else if c =? 119 then Ok (upd SockCtx_DelEvWrite, SHUT_WR)
      else Ok (upd SockCtx_DelEvRead, SHUT_RDWR)
  end.

(** [reset_tcp_socket(fd, ms)]: lingers for no time, then closes. *)
Definition reset_tcp_socket (tls : option SchedulerImpl) (w : ev_state K) (fd ms now : Z) (answers : list (Z * Z))
  : sockopt_call * outcome (option SchedulerImpl * ev_state K * option io_end) :=
  (setsockopt fd SOL_SOCKET SO_LINGER [1; 0], close tls w fd ms now answers).
End closing.

(** ** Specification *)

(** The bytes a script delivers. *)
Fixpoint recv_data (answers : list recv_answer) : list Z :=
  match answers with
  | [] => []
  | RData bs :: rest => bs ++ recv_data rest
  | RErr _ _ :: rest => recv_data rest
  end.

(** Nothing in the script ends a loop: data, interruptions, and waits that succeed. *)
Definition recv_quiet (a : recv_answer) : Prop :=
  match a with
  | RData bs => bs <> []
  | RErr errno wait => (would_block errno = true /\ wait = None) \/ (would_block errno = false /\ errno = EINTR)
  end.

Fixpoint send_taken (answers : list send_answer) : Z :=
  match answers with
  | [] => 0
  | STaken r :: rest => r + send_taken rest
  | SErr _ _ :: rest => send_taken rest
  end.

Definition send_quiet (a : send_answer) : Prop :=
  match a with
  | STaken r => 0 < r
  | SErr errno wait => (would_block errno = true /\ wait = None) \/ (would_block errno = false /\ errno = EINTR)
  end.

(** The kernel takes no more than it is given. *)
Fixpoint send_obeys (remain : Z) (answers : list send_answer) : Prop :=
  match answers with
  | [] => True
  | STaken r :: rest => 0 <= r <= remain /\ send_obeys (remain - r) rest
  | SErr _ _ :: rest => send_obeys remain rest
  end.

(** ** Lemmas *)

Lemma recv_quiet_skip n remain s errno wait rest :
  remain <> -1 -> recv_quiet (RErr errno wait) ->
  recvn_loop n remain s (RErr errno wait :: rest) = recvn_loop n remain s rest.
Proof.
  cbn [recv_quiet send_quiet recvn_loop send_loop].
  intros Hr. destruct (Z.eqb_spec (-1) remain); [lia|]. intros [[-> ->]|[-> ->]]; done.
Qed.

Lemma recvn_loop_complete n remain s answers more :
  Forall recv_quiet answers -> remain = Z.of_nat (length (recv_data answers)) -> 0 < remain < 2 ^ 31 ->
  exists left, recvn_loop n remain s (answers ++ more) = Some (IoDone n, s ++ recv_data answers, left ++ more) /\
               Forall recv_quiet left /\ recv_data left = [].
Proof.
  revert remain s. induction answers as [|[bs|errno wait] rest IH]; intros remain s Hq Hr Hpos;
    [cbn in *; lia| |]; apply Forall_cons in Hq as [Ha Hq]; rewrite <- app_comm_cons.
  - cbn [recvn_loop recv_data] in *. rewrite length_app in Hr.
    destruct (Z.eqb_spec (Z.of_nat (length bs)) remain) as [E|E].
    + assert (Hrest : recv_data rest = []) by (apply length_zero_iff_nil; lia).
      exists rest. by rewrite Hrest, app_nil_r.
    + destruct (Z.eqb_spec (Z.of_nat (length bs)) 0) as [E0|E0].
      * cbn in Ha. destruct bs; [done|cbn in E0; lia].
      * rewrite swrap_small by lia.
        destruct (IH (remain - Z.of_nat (length bs)) (s ++ bs)) as (left & Hl & H2); [done|lia|lia|].
        exists left. by rewrite Hl, <- app_assoc.
  - rewrite recv_quiet_skip by (done || lia). by apply IH.
Qed.

(** The peer closes after [pre], with less than what is wanted. *)
Lemma recvn_loop_eof n remain s pre rest :
  Forall recv_quiet pre -> Z.of_nat (length (recv_data pre)) < remain < 2 ^ 31 ->
  recvn_loop n remain s (pre ++ RData [] :: rest) = Some (IoDone 0, s ++ recv_data pre, rest).
Proof.
  revert remain s. induction pre as [|[bs|errno wait] pre IH]; intros remain s Hq Hlt.
  - cbn [app recvn_loop recv_data length] in *. change (Z.of_nat 0) with 0 in *.
    destruct (Z.eqb_spec 0 remain); [lia|]. by rewrite app_nil_r.
  - apply Forall_cons in Hq as [Ha Hq]. cbn [app recvn_loop recv_data] in *. rewrite length_app in Hlt.
    destruct (Z.eqb_spec (Z.of_nat (length bs)) remain); [lia|].
    destruct (Z.eqb_spec (Z.of_nat (length bs)) 0) as [E0|E0].
    + cbn in Ha. destruct bs; [done|cbn in E0; lia].
    + rewrite swrap_small by lia. rewrite IH by (done || lia). by rewrite <- app_assoc.
  - apply Forall_cons in Hq as [Ha Hq]. rewrite <- app_comm_cons, recv_quiet_skip by (done || lia). by apply IH.
Qed.

Lemma send_quiet_skip n remain s sent errno wait rest :
  remain <> -1 -> send_quiet (SErr errno wait) ->
  send_loop n remain s sent (SErr errno wait :: rest) = send_loop n remain s sent rest.
Proof.
  cbn [recv_quiet send_quiet recvn_loop send_loop].
  intros Hr. destruct (Z.eqb_spec (-1) remain); [lia|]. intros [[-> ->]|[-> ->]]; done.
Qed.

Lemma send_taken_nonneg answers : Forall send_quiet answers -> 0 <= send_taken answers.
Proof. induction 1 as [|[r|e w] rest Ha Hq IH]; cbn in *; lia. Qed.

Lemma send_loop_complete n remain s sent answers more :
  Forall send_quiet answers -> remain = send_taken answers -> remain = Z.of_nat (length s) -> 0 < remain < 2 ^ 31 ->
  exists left, send_loop n remain s sent (answers ++ more) = Some (IoDone n, sent ++ s, left ++ more) /\
               Forall send_quiet left /\ send_taken left = 0.
Proof.
  revert remain s sent. induction answers as [|[r|errno wait] rest IH]; intros remain s sent Hq Ht Hl Hpos;
    [cbn in *; lia| |]; apply Forall_cons in Hq as [Ha Hq]; rewrite <- app_comm_cons.
  - cbn [send_loop send_taken send_quiet] in *. pose proof (send_taken_nonneg rest Hq).
    destruct (Z.eqb_spec r remain) as [E|E].
    + exists rest. rewrite take_ge by lia. split; [done|]. split; [done|lia].
    + rewrite swrap_small by lia.
      destruct (IH (remain - r) (drop (Z.to_nat r) s) (sent ++ take (Z.to_nat r) s)) as (left & E' & H2);
        [done|lia|rewrite length_drop; lia|lia|].
      exists left. by rewrite E', <- app_assoc, take_drop.
  - rewrite send_quiet_skip by (done || lia). by apply IH.
Qed.

(** What has been sent is always a prefix of the buffer, and all of it when the call
    succeeds. *)
Lemma send_loop_sound n remain s sent answers e out left :
  send_obeys remain answers -> remain = Z.of_nat (length s) -> remain < 2 ^ 31 ->
  send_loop n remain s sent answers = Some (e, out, left) ->
  exists k, out = sent ++ take k s /\ (forall r, e = IoDone r -> r = n /\ out = sent ++ s).
Proof.
  revert remain s sent. induction answers as [|[r|errno wait] rest IH]; intros remain s sent Hob Hl Hlt; [done| |].
  - cbn [send_loop send_obeys] in *. destruct Hob as [Hr Hob].
    destruct (Z.eqb_spec r remain) as [->|E].
    + intros [= <- <- _]. exists (Z.to_nat remain). split; [done|]. intros r' [= <-]. by rewrite take_ge by lia.
    + rewrite swrap_small by lia. intros Hs.
      destruct (IH (remain - r) (drop (Z.to_nat r) s) _ Hob ltac:(rewrite length_drop; lia) ltac:(lia) Hs)
        as (k & -> & Hd).
      exists (Z.to_nat r + k)%nat. rewrite <- app_assoc. split.
      * by rewrite take_take_drop.
      * intros r' Hr'. destruct (Hd r' Hr') as [-> Ho]. split; [done|].
        rewrite <- app_assoc in Ho. rewrite Ho. by rewrite <- app_assoc, take_drop.
  - cbn [send_loop send_obeys] in *. destruct (Z.eqb_spec (-1) remain); [lia|]. destruct (would_block errno).
    + destruct wait as [e'|]; [|by eapply IH]. intros [= <- <- _]. exists 0%nat. rewrite take_0, app_nil_r. done.
    + destruct (errno =? EINTR); [by eapply IH|]. intros [= <- <- _]. exists 0%nat. rewrite take_0, app_nil_r. done.
Qed.

(** What has been taken is a prefix, whatever the kernel says. *)
Lemma send_loop_prefix n remain s sent answers e out left :
  send_loop n remain s sent answers = Some (e, out, left) -> exists k, out = sent ++ take k s.
Proof.
  revert remain s sent. induction answers as [|[r|errno wait] rest IH]; intros remain s sent; [done| |].
  - cbn [send_loop]. destruct (r =? remain); intros E.
    + injection E as _ <- _. by eexists.
    + destruct (IH _ _ _ E) as (k & ->). exists (Z.to_nat r + k)%nat. by rewrite <- app_assoc, take_take_drop.
  - cbn [send_loop]. intros E.
    repeat match type of E with
           | (if ?b then _ else _) = _ => destruct b
           | match ?w with None => _ | Some _ => _ end = _ => destruct w
           end; try (by eapply IH); injection E as _ <- _; exists 0%nat; by rewrite take_0, app_nil_r.
Qed.

Lemma send_quiet_obeys answers : Forall send_quiet answers -> forall remain, send_taken answers <= remain ->
  send_obeys remain answers.
Proof.
  induction 1 as [|[r|errno wait] rest Ha Hq IH]; intros remain Hr; cbn [send_obeys send_taken send_quiet] in *; [done| |by apply IH].
  pose proof (send_taken_nonneg rest Hq). split; [lia|]. apply IH. lia.
Qed.

Lemma send_quiet_done n remain s sent answers e out left :
  Forall send_quiet answers -> send_taken answers <= remain -> 0 < remain < 2 ^ 31 ->
  send_loop n remain s sent answers = Some (e, out, left) -> e = IoDone n.
Proof.
  revert remain s sent. induction answers as [|[r|errno wait] rest IH]; intros remain s sent Hq Ht Hr; [done| |];
    apply Forall_cons in Hq as [Ha Hq].
  - cbn [send_loop send_taken send_quiet] in *. pose proof (send_taken_nonneg rest Hq).
    destruct (Z.eqb_spec r remain); [by intros [= <- _ _]|]. rewrite swrap_small by lia. apply IH; [done|lia|lia].
  - rewrite send_quiet_skip by (done || lia). by apply IH.
Qed.

(** A kernel that answers for the bytes it takes has, when the call returns, taken all. *)
Lemma send_quiet_all buf n answers e out left :
  n = Z.of_nat (length buf) -> 0 < n < 2 ^ 31 ->
  Forall send_quiet answers -> send_taken answers = Z.of_nat (length out) ->
  send buf n answers = Some (e, out, left) -> out = buf.
Proof.
  intros Hn Hr Hq Ht E. unfold send in E. destruct (send_loop_prefix _ _ _ _ _ _ _ _ E) as (k & Hk).
  assert (Hle : send_taken answers <= n) by (rewrite Ht, Hk, Hn; cbn [app]; rewrite length_take; lia).
  assert (He := send_quiet_done _ _ _ _ _ _ _ _ Hq Hle Hr E).
  destruct (send_loop_sound n n buf [] answers e out left) as (_ & _ & Hall); [by apply send_quiet_obeys|done|lia|done|].
  destruct (Hall n He) as [_ ->]. done.
Qed.

(** ** Theorems *)

(** C27: [recvn] collects exactly what it is asked for. However the kernel splits [n]
    bytes, with interruptions and waits in between, the call returns [n], the buffer
    holds the bytes in order and what comes after them is left for the next call; when
    the peer closes before the [n]-th byte it returns 0. *)
Theorem recvn_exact n answers rest :
  Forall recv_quiet answers -> 0 < n < 2 ^ 31 ->
  (Z.of_nat (length (recv_data answers)) = n ->
   exists left, recvn n (answers ++ rest) = Some (IoDone n, recv_data answers, left ++ rest) /\
                Forall recv_quiet left /\ recv_data left = []) /\
  (Z.of_nat (length (recv_data answers)) < n ->
   recvn n (answers ++ RData [] :: rest) = Some (IoDone 0, recv_data answers, rest)).
Proof.
  intros Hq Hn. unfold recvn. split; intros Hl.
  - by apply (recvn_loop_complete n n []).
  - apply (recvn_loop_eof n n []); [done|lia].
Qed.

(** C28: [send] sends exactly its buffer. When the kernel takes the bytes in any number of
    pieces, the call returns [n] and all of the buffer has been taken, in order; and
    whatever the kernel answers, what it has taken is a prefix of the buffer, and the
    call succeeds only when that is the whole of it. *)
Theorem send_exact buf n answers :
  n = Z.of_nat (length buf) -> 0 < n < 2 ^ 31 -> send_obeys n answers ->
  (Forall send_quiet answers -> send_taken answers = n ->
   exists left, send buf n answers = Some (IoDone n, buf, left) /\ Forall send_quiet left /\ send_taken left = 0) /\
  (forall e out left, send buf n answers = Some (e, out, left) ->
     exists k, out = take k buf /\ forall r, e = IoDone r -> r = n /\ out = buf).
Proof.
  intros Hn Hr Hob. unfold send. split.
  - intros Hq Ht. destruct (send_loop_complete n n buf [] answers [] Hq ltac:(done) Hn Hr) as (left & E & H2).
    rewrite !app_nil_r in E. by exists left.
  - intros e out left H. apply (send_loop_sound n n buf [] answers e out left Hob Hn) in H; [exact H|lia].
Qed.

(** Without [SOCK_NONBLOCK] no call of [socket] returns. *)
Theorem socket_else_never_returns fuel flags domain type protocol :
  socket_else fuel flags domain type protocol = None.
Proof. induction fuel as [|fuel IH]; [done|]. cbn [socket_else]. by rewrite IH. Qed.

(** Without a scheduler, shutting a socket down in both directions clears the read slot of
    its context and leaves the write slot. *)
Lemma shutdown_both_keeps_write {K} `{EpollKernel K} (w : ev_state K) fd c w' how :
  0 <= fd -> c <> 114 -> c <> 119 -> shutdown None w fd c = Ok (w', how) ->
  how = SHUT_RDWR /\ write_ev_ (get_sock_ctx (ev_ctxs w') fd) = write_ev_ (get_sock_ctx (ev_ctxs w) fd).
Proof.
  intros Hfd H1 H2. unfold shutdown. destruct (Z.ltb_spec fd 0); [lia|].
  destruct (Z.eqb_spec c 114); [lia|]. destruct (Z.eqb_spec c 119); [lia|].
  intros [= <- <-]. cbn. by rewrite get_put_eq.
Qed.

(** A negative limit other than -1 is converted to [uint32] and adds a timer. *)
Lemma wait_negative_limit_adds_timer {K} `{EpollKernel K} e s (w : ev_state K) now :
  ioe_has_ev e = true ->
  IOEvent_wait_start e s w now (-2) =
    let* s := SchedulerImpl_AddTimer s now (2 ^ 32 - 2) in
    let* s := SchedulerImpl_Yield s in Ok (Some (mkIOEvent (ioe_fd e) (ioe_ev e) true, s, w)).
Proof. intros He. unfold IOEvent_wait_start. rewrite He. reflexivity. Qed.

(** ** Witnesses *)

Lemma recvn_exact_witness :
  exists left, recvn 5 ([RData [1; 2]; RErr EAGAIN None; RErr EINTR None; RData [3; 4; 5]] ++ [RData [6]]) =
    Some (IoDone 5, [1; 2; 3; 4; 5], left ++ [RData [6]]) /\ Forall recv_quiet left /\ recv_data left = [].
Proof.
  apply (recvn_exact 5 [RData [1; 2]; RErr EAGAIN None; RErr EINTR None; RData [3; 4; 5]] [RData [6]]);
    [|lia|reflexivity].
  constructor; [discriminate|]. constructor; [by left|]. constructor; [by right|].
  constructor; [discriminate|constructor].
Defined.

Lemma send_exact_witness :
  exists left, send [1; 2; 3] 3 [STaken 1; SErr EAGAIN None; STaken 2] = Some (IoDone 3, [1; 2; 3], left) /\
    Forall send_quiet left /\ send_taken left = 0.
Proof.
  apply (send_exact [1; 2; 3] 3 [STaken 1; SErr EAGAIN None; STaken 2]); [reflexivity|lia|cbn; lia| |reflexivity].
  constructor; [reflexivity|]. constructor; [by left|]. constructor; [reflexivity|constructor].
Defined.
