(* ===== verification/IoWait.v ===== *)
(** * A wait for a socket, through all the components that take part in it

    [IOEvent::wait] registers the coroutine with Epoll, which notes it in the socket
    context and gives the descriptor to the kernel; the kernel reports the descriptor to
    the loop of the scheduler, which looks the coroutine up and resumes it; the destructor
    of the [IOEvent] takes the registration away. The theorems follow one wait through
    Sock, Epoll, SockCtx and Scheduler. *)

From stdpp Require Import base numbers list gmap.
From Stdlib Require Import Lia ZArith.
From S2P Require Import Prelude Stream Errno SockCtx Epoll Wakeup Coroutine Copoll TaskManager TimerManager Context.
From S2P Require Import Scheduler Sock.

(** ** The slot of a direction *)

Definition slot (ev : io_event_t) (c : SockCtx) : event_t :=
  match ev with kEvRead => read_ev_ c | kEvWrite => write_ev_ c end.
Definition other (ev : io_event_t) : io_event_t :=
  match ev with kEvRead => kEvWrite | kEvWrite => kEvRead end.

(** Nobody waits in this direction. *)
Definition slot_free (ev : io_event_t) (c : SockCtx) : Prop := co_id_ (slot ev c) = kNone.

(** Coroutine [co] of scheduler [sched] waits in it. *)
Definition slot_taken (ev : io_event_t) (c : SockCtx) (sched : Z) (co : nat) : Prop :=
  slot ev c = mkEvent (Z.of_nat co) sched.

(** The scheduler's epoll carries its id, and a coroutine its index. *)
Definition ids_ok (s : SchedulerImpl) : Prop :=
  ep_sched_id (sc_epoll s) = sc_id s /\
  forall co c, get_co s co = Ok c -> co_id c = Z.of_nat co /\ Z.of_nat co < kNone.

Section io_wait.
Context {K U : Type} `{EpollLaws K}.

Lemma free_has_no_event ev c : slot_free ev c ->
  match ev with kEvRead => SockCtx_has_ev_read c | kEvWrite => SockCtx_has_ev_write c end = false.
Proof.
  unfold slot_free, kNone, SockCtx_has_ev_read, SockCtx_has_ev_write. destruct ev; cbn [slot]; intros ->; by rewrite Z.eqb_refl.
Qed.

(** Registering takes the slot, leaves the other one alone and puts the descriptor on the
    interest list, with itself as the data of its events. *)
Lemma AddIoEvent_takes_slot s (w w' : ev_state K) fd ev co c :
  ids_ok s -> sc_running s = Some co -> get_co s co = Ok c ->
  slot_free ev (get_sock_ctx (ev_ctxs w) fd) ->
  SchedulerImpl_AddIoEvent s w fd ev = Ok (true, w') ->
  slot_taken ev (get_sock_ctx (ev_ctxs w') fd) (sc_id s) co /\
  slot (other ev) (get_sock_ctx (ev_ctxs w') fd) = slot (other ev) (get_sock_ctx (ev_ctxs w) fd) /\
  (exists e, interest (ev_kernel w') fd = Some e /\ data_fd e = fd) /\
  (forall fd', fd' <> fd -> get_sock_ctx (ev_ctxs w') fd' = get_sock_ctx (ev_ctxs w) fd').
Proof.
  intros [Hep Hids] Hrun Hco Hfree. destruct (Hids co c Hco) as [Hid _].
  pose proof (free_has_no_event _ _ Hfree) as Hno.
  unfold SchedulerImpl_AddIoEvent, get_running. rewrite Hrun. cbn [obind]. rewrite Hco. cbn [obind].
  intros E. destruct ev; cbn in Hno; revert E; [unfold Epoll_AddEvRead|unfold Epoll_AddEvWrite];
    (destruct (fd <? 0); [done|]; rewrite Hno;
     match goal with |- context [if ?b then Z.lor (Z.lor _ _) _ else _] => set (both := b) end;
     destruct (epoll_ctl _ _ _ _) as [[k' r] e] eqn:Ec; destruct (Z.eqb_spec r 0) as [->|Hr]; [|done];
     intros [= <-]; cbn [ev_ctxs ev_kernel]; rewrite get_put_eq;
     unfold slot_taken; cbn; rewrite Hep, Hid; split; [done|]; split; [done|]; split;
     [|intros fd' Hne; by apply get_put_ne];
     destruct both; eexists; (split; [first [apply (ctl_mod _ _ _ _ _ Ec)|apply (ctl_add _ _ _ _ _ Ec)]|done])).
Qed.

(** The loop looks the coroutine up and resumes it. *)
Lemma handle_event_resumes malloc entry end_ main_func main_ctx answers user (w : sworld K U) fd ev mask co :
  user_ok user -> sched_ok (sw_sched w) -> (co < pool_size (sw_sched w))%nat -> Z.of_nat co < kNone ->
  fd <> wake_up_fd_ (sc_epoll (sw_sched w)) ->
  slot_taken ev (get_sock_ctx (ev_ctxs (sw_ev w)) fd) (sc_id (sw_sched w)) co ->
  slot_free (other ev) (get_sock_ctx (ev_ctxs (sw_ev w)) fd) ->
  exists w', handle_event malloc entry end_ main_func main_ctx answers user w (mkEpollEvent mask fd) = Ok w' /\
    sched_ok (sw_sched w') /\ sw_resumed w' = sw_resumed w ++ [co].
Proof.
  intros Hu Hs Hlt Hk Hfd Htaken Hfree. unfold handle_event, Epoll_is_wakeup_fd. cbn [data_fd].
  destruct (Z.eqb_spec fd (wake_up_fd_ (sc_epoll (sw_sched w)))) as [?|_]; [done|].
  unfold Epoll_user_data. cbn [data_fd events].
  destruct (resume_ok malloc entry end_ main_func main_ctx user w co Hu Hs Hlt) as (w1 & E & Hs1 & _ & Ht).
  assert (Hin : Z.lor mask EPOLLIN <> 0) by (intros [_ ?]%Z.lor_eq_0_iff; done).
  assert (Hout : Z.lor mask EPOLLOUT <> 0) by (intros [_ ?]%Z.lor_eq_0_iff; done).
  destruct (Z.eqb_spec (Z.lor mask EPOLLIN) 0) as [?|_]; [done|].
  destruct (Z.eqb_spec (Z.lor mask EPOLLOUT) 0) as [?|_]; [done|]. cbn [negb].
  unfold slot_taken, slot_free, kNone in *. set (ctx := get_sock_ctx _ _) in *.
  exists w1. split; [|done]. unfold SockCtx_get_read_co_id, SockCtx_get_write_co_id.
  assert (Er : forall b : bool, (if b then u32 (-1) else u32 (-1)) = u32 (-1)) by (by intros []).
  destruct ev; cbn [slot other] in *; rewrite Htaken, Hfree; cbn [co_id_ sched_id_]; rewrite Z.eqb_refl.
  - destruct (Z.eqb_spec (Z.of_nat co) (u32 (-1))) as [E'|_]; [lia|]. cbn [negb]. rewrite Nat2Z.id, E. cbn [obind].
    by rewrite Er, Z.eqb_refl.
  - rewrite Er, Z.eqb_refl. cbn [negb obind].
    destruct (Z.eqb_spec (Z.of_nat co) (u32 (-1))) as [E'|_]; [lia|]. cbn [negb]. by rewrite Nat2Z.id.
Qed.

(** The slot of a coroutine that waits is not empty. *)
Lemma taken_has_event ev c sched co :
  slot_taken ev c sched co -> Z.of_nat co < kNone ->
  match ev with kEvRead => SockCtx_has_ev_read c | kEvWrite => SockCtx_has_ev_write c end = true.
Proof.
  unfold slot_taken, kNone, SockCtx_has_ev_read, SockCtx_has_ev_write.
  destruct ev; cbn [slot]; intros -> Hk; cbn [co_id_]; destruct (Z.eqb_spec (Z.of_nat co) (u32 (-1))); done || lia.
Qed.

(** Removing the registration frees the slot. *)
Lemma DelIoEvent_frees_slot s (w : ev_state K) fd ev run c sched co :
  sc_running s = Some run -> get_co s run = Ok c -> 0 <= fd -> Z.of_nat co < kNone ->
  slot_taken ev (get_sock_ctx (ev_ctxs w) fd) sched co ->
  exists w', SchedulerImpl_DelIoEvent s w fd ev = Ok w' /\ slot_free ev (get_sock_ctx (ev_ctxs w') fd).
Proof.
  intros Hrun Hco Hfd Hk Htaken. pose proof (taken_has_event _ _ _ _ Htaken Hk) as Hhas.
  unfold SchedulerImpl_DelIoEvent, get_running. rewrite Hrun. cbn [obind]. rewrite Hco. cbn [obind].
  eexists. split; [reflexivity|].
  assert (Hkeep : forall w1 : ev_state K, slot_free kEvRead (get_sock_ctx (ev_ctxs w1) fd) ->
    slot_free kEvRead (get_sock_ctx (ev_ctxs (fst (Epoll_DelEvWrite (sc_epoll s) w1 fd (co_id c)))) fd)).
  { intros w1 Hf. unfold Epoll_DelEvWrite. destruct (Z.ltb_spec fd 0); [lia|].
    destruct (negb (SockCtx_has_ev_write _)); [done|]. destruct (if negb _ then _ else _) as [[k r] e].
    cbn [fst ev_ctxs]. by rewrite get_put_eq. }
  destruct ev; cbn in Hhas.
  - apply Hkeep. unfold Epoll_DelEvRead. destruct (Z.ltb_spec fd 0); [lia|]. rewrite Hhas. cbn [negb].
    destruct (if negb _ then _ else _) as [[k r] e]. cbn [fst ev_ctxs]. by rewrite get_put_eq.
  - unfold Epoll_DelEvWrite. destruct (Z.ltb_spec fd 0); [lia|]. rewrite Hhas. cbn [negb].
    destruct (if negb _ then _ else _) as [[k r] e]. cbn [fst ev_ctxs]. by rewrite get_put_eq.
Qed.

(** A wait that begins has registered its coroutine. *)
Lemma wait_start_registers fd ev s (w w1 : ev_state K) now ms e s1 :
  IOEvent_wait_start (IOEvent_new fd ev) s w now ms = Ok (Some (e, s1, w1)) ->
  e = mkIOEvent fd ev true /\ SchedulerImpl_AddIoEvent s w fd ev = Ok (true, w1).
Proof.
  unfold IOEvent_wait_start. cbn [IOEvent_new ioe_has_ev ioe_fd ioe_ev].
  destruct (SchedulerImpl_AddIoEvent s w fd ev) as [[has w2]|]; [|done]. cbn [obind].
  destruct has; [|done]. cbn [negb]. destruct (if negb (u32 ms =? _) then _ else _) as [s2|]; [|done]. cbn [obind].
  destruct (SchedulerImpl_Yield s2) as [s3|]; [|done]. cbn [obind]. by intros [= <- _ <-].
Qed.

Lemma AddIoEvent_fd s (w w1 : ev_state K) fd ev : SchedulerImpl_AddIoEvent s w fd ev = Ok (true, w1) -> 0 <= fd.
Proof.
  unfold SchedulerImpl_AddIoEvent. destruct (get_running s) as [r|]; [|done]. cbn [obind].
  destruct (get_co s r) as [c|]; [|done]. cbn [obind].
  destruct ev; [unfold Epoll_AddEvRead|unfold Epoll_AddEvWrite]; destruct (Z.ltb_spec fd 0); (done || (intros _; lia)).
Qed.
End io_wait.

(** ** Theorems *)

(** C17: a wait for a socket ends with the event. When [IOEvent::wait] of the running
    coroutine has begun, on a descriptor that nobody waits for in either direction, the
    descriptor is on the
    kernel's interest list and its events carry it. Whatever the other coroutines do with
    other descriptors, as long as nobody waits for this one in the other direction either (with
    a reader and a writer an event resumes both: [handle_event_ignores_mask]) and user code
    leaves the scheduler sound ([user_ok]), when the loop gets an event of this one it
    resumes that coroutine, it alone and once; and then the destructor of the [IOEvent] frees the slot, so that the
    next wait can begin. *)
Theorem io_wait_resumed {K U} `{EpollLaws K} malloc entry end_ main_func main_ctx answers user
  (w : sworld K U) fd ev now ms co c e s1 ev1 :
  user_ok user -> ids_ok (sw_sched w) -> sc_running (sw_sched w) = Some co -> get_co (sw_sched w) co = Ok c ->
  slot_free kEvRead (get_sock_ctx (ev_ctxs (sw_ev w)) fd) ->
  slot_free kEvWrite (get_sock_ctx (ev_ctxs (sw_ev w)) fd) ->
  IOEvent_wait_start (IOEvent_new fd ev) (sw_sched w) (sw_ev w) now ms = Ok (Some (e, s1, ev1)) ->
  (exists k, interest (ev_kernel ev1) fd = Some k /\ data_fd k = fd) /\
  (forall (w2 : sworld K U) mask,
     sched_ok (sw_sched w2) -> (co < pool_size (sw_sched w2))%nat -> sc_id (sw_sched w2) = sc_id (sw_sched w) ->
     fd <> wake_up_fd_ (sc_epoll (sw_sched w2)) ->
     get_sock_ctx (ev_ctxs (sw_ev w2)) fd = get_sock_ctx (ev_ctxs ev1) fd ->
     exists w3, handle_event malloc entry end_ main_func main_ctx answers user w2 (mkEpollEvent mask fd) = Ok w3 /\
       sched_ok (sw_sched w3) /\ sw_resumed w3 = sw_resumed w2 ++ [co]) /\
  (forall s2 (ev2 : ev_state K), sc_running s2 = Some co -> is_Some (cp_pool (sc_pool s2) !! co) ->
     get_sock_ctx (ev_ctxs ev2) fd = get_sock_ctx (ev_ctxs ev1) fd ->
     exists ev3, IOEvent_destroy e s2 ev2 = Ok ev3 /\ slot_free ev (get_sock_ctx (ev_ctxs ev3) fd)).
Proof.
  intros Hu Hids Hrun Hco Hr Hw Hstart. destruct (wait_start_registers _ _ _ _ _ _ _ _ _ Hstart) as [-> Hadd].
  assert (Hf : slot_free ev (get_sock_ctx (ev_ctxs (sw_ev w)) fd)) by (by destruct ev).
  assert (Hf' : slot_free (other ev) (get_sock_ctx (ev_ctxs (sw_ev w)) fd)) by (by destruct ev).
  destruct (AddIoEvent_takes_slot _ _ _ _ _ _ _ Hids Hrun Hco Hf Hadd) as (Ht & Ho & Hi & _).
  destruct (proj2 Hids co c Hco) as [_ Hk]. split_and!.
  - done.
  - intros w2 mask Hs Hlt Hid Hfd Hctx. apply (handle_event_resumes _ _ _ _ _ _ _ _ _ ev); try done.
    + by rewrite Hctx, Hid.
    + unfold slot_free in *. by rewrite Hctx, Ho.
  - intros s2 ev2 Hrun2 [c2 Hc2] Hctx. unfold IOEvent_destroy. cbn [ioe_has_ev ioe_fd ioe_ev].
    apply (DelIoEvent_frees_slot _ _ _ _ co c2 (sc_id (sw_sched w)) co); try done.
    + unfold get_co. by rewrite Hc2.
    + by eapply AddIoEvent_fd.
    + by rewrite Hctx.
Qed.

(** C39: a second waiter in the same direction is lost. [AddIoEvent] reports success for it
    without noting it anywhere, so it yields; and the event resumes the first coroutine
    and nobody else. *)
Theorem second_waiter_lost {K U} `{EpollLaws K} malloc entry end_ main_func main_ctx answers user
  (w : sworld K U) fd ev mask co1 co2 c2 :
  user_ok user -> sched_ok (sw_sched w) -> (co1 < pool_size (sw_sched w))%nat -> Z.of_nat co1 < kNone ->
  0 <= fd -> fd <> wake_up_fd_ (sc_epoll (sw_sched w)) ->
  slot_taken ev (get_sock_ctx (ev_ctxs (sw_ev w)) fd) (sc_id (sw_sched w)) co1 ->
  slot_free (other ev) (get_sock_ctx (ev_ctxs (sw_ev w)) fd) ->
  sc_running (sw_sched w) = Some co2 -> co2 <> co1 -> get_co (sw_sched w) co2 = Ok c2 ->
  SchedulerImpl_AddIoEvent (sw_sched w) (sw_ev w) fd ev = Ok (true, sw_ev w) /\
  exists w', handle_event malloc entry end_ main_func main_ctx answers user w (mkEpollEvent mask fd) = Ok w' /\
    sw_resumed w' = sw_resumed w ++ [co1].
Proof.
  intros Hu Hs Hlt Hk Hfd Hwk Ht Hf Hrun Hne Hco. split.
  - pose proof (taken_has_event _ _ _ _ Ht Hk) as Hhas.
    unfold SchedulerImpl_AddIoEvent, get_running. rewrite Hrun. cbn [obind]. rewrite Hco. cbn [obind].
    destruct ev; [unfold Epoll_AddEvRead|unfold Epoll_AddEvWrite]; cbn in Hhas; destruct (Z.ltb_spec fd 0); try lia;
      by rewrite Hhas.
  - destruct (handle_event_resumes malloc entry end_ main_func main_ctx answers user w fd ev mask co1)
      as (w' & E & _ & Hr); try done. eauto.
Qed.

(** ** Witnesses *)

(** Coroutine 1 runs; nobody waits for a descriptor. *)
Definition io_sample : sworld epoll_table unit := sworld_sample 11024 (Some 1%nat) (Some 1%nat).

(** Coroutine 0 waits to read descriptor 5 while coroutine 1 runs. *)
Definition io_sample_taken : sworld epoll_table unit :=
  mkSW (sw_sched io_sample) (sw_mem io_sample)
    (mkEvState {[ 5 := mkEpollEvent 1 5 ]} {[ 5 := mkSockCtx (mkEvent 0 0) (mkEvent kNone 0) ]}) ∅ 0 0 [] tt.

(** What the wait of coroutine 1 for descriptor 5 leaves. *)
Definition io_sample_started : IOEvent * SchedulerImpl * ev_state epoll_table :=
  match IOEvent_wait_start (IOEvent_new 5 kEvRead) (sw_sched io_sample) (sw_ev io_sample) 0 (-1) with
  | Ok (Some r) => r
  | _ => (IOEvent_new 5 kEvRead, sw_sched io_sample, sw_ev io_sample)
  end.

Lemma io_sample_ids : ids_ok (sw_sched io_sample).
Proof. split; [done|]. intros [|[|[|]]] c [= <-]; split; done. Qed.

Lemma io_sample_user : user_ok (fun (w : sworld epoll_table unit) _ _ => Ok (w, Finished)).
Proof. intros w co e Hs Hlt Hr. by exists w, Finished. Qed.

Lemma io_wait_resumed_witness :
  (exists k, interest (ev_kernel (snd io_sample_started)) 5 = Some k /\ data_fd k = 5) /\
  exists w3, handle_event (fun _ => 0) 1 2 3 4 [] (fun w _ _ => Ok (w, Finished))
      (mkSW (sw_sched io_sample) (sw_mem io_sample) (snd io_sample_started) ∅ 0 0 [] tt) (mkEpollEvent 1 5) = Ok w3 /\
    sw_resumed w3 = [1%nat].
Proof.
  destruct (io_wait_resumed (fun _ => 0) 1 2 3 4 [] (fun w _ _ => Ok (w, Finished)) io_sample 5 kEvRead 0 (-1) 1
              (co_sample 1 None) (fst (fst io_sample_started)) (snd (fst io_sample_started)) (snd io_sample_started))
    as (Hi & Hh & _); try reflexivity; [apply io_sample_user|apply io_sample_ids|].
  split; [exact Hi|].
  destruct (Hh (mkSW (sw_sched io_sample) (sw_mem io_sample) (snd io_sample_started) ∅ 0 0 [] tt) 1)
    as (w3 & E & _ & Hr); [apply sched_sample_ok|cbn; lia|reflexivity|discriminate|reflexivity|].
  exists w3. split; [exact E|exact Hr].
Defined.

Lemma second_waiter_lost_witness :
  SchedulerImpl_AddIoEvent (sw_sched io_sample_taken) (sw_ev io_sample_taken) 5 kEvRead
    = Ok (true, sw_ev io_sample_taken) /\
  exists w', handle_event (fun _ => 0) 1 2 3 4 [] (fun w _ _ => Ok (w, Finished)) io_sample_taken (mkEpollEvent 1 5) = Ok w' /\
    sw_resumed w' = [] ++ [0%nat].
Proof.
  apply (second_waiter_lost (fun _ => 0) 1 2 3 4 [] (fun w _ _ => Ok (w, Finished)) io_sample_taken 5 kEvRead 1 0 1
           (co_sample 1 None)); try reflexivity;
    [apply io_sample_user|apply sched_sample_ok|cbn; lia|discriminate|discriminate|discriminate].
Defined.
