(* ===== verification/Net.v ===== *)
(** * byte_order.h, net/address.h, net/conn.h, net/socket.h and the addresses of sock.h

    [Socket<TcpConnFactory>] owns a [TcpConn], the connection of a descriptor; both call
    the operations of Sock.v. The system calls that do not loop ([socket], [setsockopt],
    [bind], [listen], [getsockname]) and the text form of addresses are the parameters
    [NetKernel] and [InetText]. A failed [CHECK] is the fault [AssertionFailed]. *)

From stdpp Require Import base numbers list gmap.
From Stdlib Require Import Lia ZArith.
From S2P Require Import Prelude Stream Errno SockCtx Epoll Coroutine Copoll TaskManager TimerManager Scheduler Sock.

(** ** byte_order.h on a little-endian machine *)

(** The bytes of a value in memory order, and the value of bytes in memory order. *)
Fixpoint le_bytes (n : nat) (v : Z) : list Z :=
  match n with
  | O => []
  | S n => v mod 256 :: le_bytes n (v / 256)
  end.
Fixpoint le_value (bs : list Z) : Z :=
  match bs with
  | [] => 0
  | b :: bs => b + 256 * le_value bs
  end.

(** [htobe16], [be16toh] and the like reverse the bytes. *)
Definition bswap (n : nat) (v : Z) : Z := le_value (rev (le_bytes n v)).

Definition hton16 (v : Z) : Z := bswap 2 (u16 v).
Definition hton32 (v : Z) : Z := bswap 4 (u32 v).
Definition hton64 (v : Z) : Z := bswap 8 (u64 v).
Definition ntoh16 (v : Z) : Z := bswap 2 (u16 v).
Definition ntoh32 (v : Z) : Z := bswap 4 (u32 v).
Definition ntoh64 (v : Z) : Z := bswap 8 (u64 v).

(** ** Addresses *)

Record sockaddr_in : Type := mkSin { sin_family : Z; sin_port : Z; sin_addr : Z }.
Record sockaddr_in6 : Type := mkSin6 { sin6_family : Z; sin6_port : Z; sin6_addr : list Z }.

(** [inet_pton]: the address when it returns 1; [inet_ntop]: the text. *)
Class InetText : Type := {
  inet_pton4 : list Z -> option Z;
  inet_pton6 : list Z -> option (list Z);
  inet_ntop4 : Z -> list Z;
  inet_ntop6 : list Z -> list Z
}.

Definition zero16 : list Z := replicate 16 0.

Section addresses.
Context `{InetText}.

(** The address, and whether the text was one. *)
Definition init_ip_addr (ip : list Z) (port : Z) : sockaddr_in * bool :=
  match inet_pton4 ip with
  | Some a => (mkSin AF_INET (hton16 (u16 port)) a, true)
  | None => (mkSin AF_INET (hton16 (u16 port)) 0, false)
  end.
Definition init_ip_addr6 (ip : list Z) (port : Z) : sockaddr_in6 * bool :=
  match inet_pton6 ip with
  | Some a => (mkSin6 AF_INET6 (hton16 (u16 port)) a, true)
  | None => (mkSin6 AF_INET6 (hton16 (u16 port)) zero16, false)
  end.

Definition ip_str (addr : sockaddr_in) : list Z := inet_ntop4 (sin_addr addr).
Definition ip_str6 (addr : sockaddr_in6) : list Z := inet_ntop6 (sin6_addr addr).

(** The text, [':'] (58) and the port in decimal. *)
Definition to_string (addr : sockaddr_in) : list Z :=
  inet_ntop4 (sin_addr addr) ++ [58] ++ decimal (ntoh16 (sin_port addr)).

(** [peer(fd)]: what [getpeername] gives, or nothing. *)
Definition peer (name : option (sockaddr_in + sockaddr_in6)) : list Z :=
  match name with
  | Some (inl v4) => to_string v4
  | Some (inr _) => []
  | None => []
  end.

Inductive Family : Type := kIpv4 | kIpv6.
Definition family_code (f : Family) : Z := match f with kIpv4 => AF_INET | kIpv6 => AF_INET6 end.

Inductive Address : Type :=
| IPv4Address (addr_ : sockaddr_in)
| IPv6Address (addr_ : sockaddr_in6).

Definition IPv4Address_new : Address := IPv4Address (mkSin AF_INET 0 0).
Definition IPv4Address_Create (ip : list Z) (port : Z) : Address :=
  IPv4Address (mkSin AF_INET (hton16 port) (default 0 (inet_pton4 ip))).
Definition IPv6Address_new : Address := IPv6Address (mkSin6 AF_INET6 0 zero16).
Definition IPv6Address_Create (ip : list Z) (port : Z) : Address :=
  IPv6Address (mkSin6 AF_INET6 (hton16 port) (default zero16 (inet_pton6 ip))).

Definition Address_port (a : Address) : Z :=
  match a with
  | IPv4Address x => ntoh16 (sin_port x)
  | IPv6Address x => ntoh16 (sin6_port x)
  end.
Definition Address_set_port (a : Address) (port : Z) : Address :=
  match a with
  | IPv4Address x => IPv4Address (mkSin (sin_family x) (hton16 port) (sin_addr x))
  | IPv6Address x => IPv6Address (mkSin6 (sin6_family x) (hton16 port) (sin6_addr x))
  end.
Definition Address_addrlen (a : Address) : Z := match a with IPv4Address _ => 16 | IPv6Address _ => 28 end.
Definition Address_family (a : Address) : Family := match a with IPv4Address _ => kIpv4 | IPv6Address _ => kIpv6 end.
(** An IPv6 address prints as a fixed text ("ip v6 ..."). *)
Definition Address_ToString (a : Address) : list Z :=
  match a with
  | IPv4Address x => to_string x
  | IPv6Address _ => [105; 112; 32; 118; 54; 32; 46; 46; 46]
  end.
End addresses.

(** ** net/conn.h *)

Record TcpConn : Type := mkTcpConn { tc_sock_ : Z }.

Section conn.
Context {K : Type} `{EpollKernel K}.

(** What the connection runs in: the scheduler of its thread, the socket contexts, the
    clock, and the descriptors that have been given to [::close] so far. *)
Record net_env : Type := mkNetEnv {
  ne_tls : option SchedulerImpl; ne_ev : ev_state K; ne_now : Z; ne_closed : list Z
}.

Definition TcpConnFactory_Create (fd : Z) : TcpConn := mkTcpConn fd.

(** What follows [co::close(fd, ms)]: once it has returned, [::close] has had [fd] and
    [sock_] is set to -1. While it sleeps or loops, [sock_] keeps its value. *)
Definition conn_closed (c : TcpConn) (r : option io_end) : TcpConn :=
  match r with Some _ => mkTcpConn (-1) | None => c end.
Definition fd_closed (fd : Z) (r : option io_end) (closed : list Z) : list Z :=
  match r with Some _ => closed ++ [fd] | None => closed end.

(** [Close(ms)]: the result is 0 at once when there is no descriptor any more, and [None]
    when [co::close] has not returned yet. *)
Definition TcpConn_Close (c : TcpConn) (e : net_env) (ms : Z) (answers : list (Z * Z))
  : outcome (TcpConn * net_env * option io_end) :=
  if negb (tc_sock_ c =? -1) then
    let* (tls, ev, r) := close (ne_tls e) (ne_ev e) (tc_sock_ c) ms (ne_now e) answers in
    Ok (conn_closed c r, mkNetEnv tls ev (ne_now e) (fd_closed (tc_sock_ c) r (ne_closed e)), r)
  else Ok (mkTcpConn (-1), e, Some (IoDone 0)).

(** [Reset(ms)], with the option it sets first. *)
Definition TcpConn_Reset (c : TcpConn) (e : net_env) (ms : Z) (answers : list (Z * Z))
  : option sockopt_call * outcome (TcpConn * net_env * option io_end) :=
  if negb (tc_sock_ c =? -1) then
    let (opt, r) := reset_tcp_socket (ne_tls e) (ne_ev e) (tc_sock_ c) ms (ne_now e) answers in
    (Some opt, let* (tls, ev, r) := r in
               Ok (conn_closed c r, mkNetEnv tls ev (ne_now e) (fd_closed (tc_sock_ c) r (ne_closed e)), r))
  else (None, Ok (mkTcpConn (-1), e, Some (IoDone 0))).

(** The rest of [Close] or [Reset] when the [co::close] of [fd] it is in goes on. *)
Definition TcpConn_Close_resume (c : TcpConn) (e : net_env) (fd : Z) (answers : list (Z * Z))
  : TcpConn * net_env * option io_end :=
  let r := close_resume answers in
  (conn_closed c r, mkNetEnv (ne_tls e) (ne_ev e) (ne_now e) (fd_closed fd r (ne_closed e)), r).

Definition TcpConn_destroy (c : TcpConn) (e : net_env) (answers : list (Z * Z)) := TcpConn_Close c e 0 answers.
Definition TcpConn_socket (c : TcpConn) : Z := tc_sock_ c.

(** A call on the descriptor -1 fails with [EBADF]; otherwise the loops of Sock.v run
    against the answers. *)
Definition EBADF : Z := 9.
Definition TcpConn_Recv (c : TcpConn) (answers : list recv_answer) : option (io_end * list Z) :=
  if tc_sock_ c =? -1 then Some (IoFail EBADF, []) else recv answers.
Definition TcpConn_Recvn (c : TcpConn) (n : Z) (answers : list recv_answer)
  : option (io_end * list Z * list recv_answer) :=
  if tc_sock_ c =? -1 then Some (IoFail EBADF, [], answers) else recvn n answers.
Definition TcpConn_Send (c : TcpConn) (buf : list Z) (n : Z) (answers : list send_answer)
  : option (io_end * list Z * list send_answer) :=
  if tc_sock_ c =? -1 then Some (IoFail EBADF, [], answers) else send buf n answers.
End conn.
Arguments net_env K : clear implicits.

(** ** net/socket.h *)

Definition kInvalidFd : Z := -1.
Inductive sock_type : Type := kTcp | kUdp.
Definition type_code (t : sock_type) : Z := match t with kTcp => SOCK_STREAM | kUdp => SOCK_DGRAM end.

Record Socket : Type := mkSocket {
  so_fd_ : Z;
  so_family_ : Family;
  so_type_ : sock_type;
  so_protocol_ : Z;
  so_conn_ : option TcpConn;
  so_local_addr_ : option Address;
  so_remote_addr_ : option Address;
  so_connected_ : bool
}.

Definition Socket_new (family : Family) (type : sock_type) (protocol : Z) : Socket :=
  mkSocket kInvalidFd family type protocol None None None false.
Definition Socket_Create : Socket := Socket_new kIpv4 kTcp 0.

(** The system calls of a socket: [-1] or not zero is failure. *)
Class NetKernel (W : Type) : Type := {
  sys_socket : W -> Z * Z * Z -> Z * W;
  sys_setsockopt : W -> sockopt_call -> W;
  sys_getsockname : W -> Z -> option Address;
  sys_bind : W -> Z -> Address -> Z -> Z * W;
  sys_listen : W -> Z -> Z -> Z * W
}.

Section socket.
Context {W : Type} `{NetKernel W}.

Definition set_so_fd (s : Socket) (fd : Z) : Socket :=
  mkSocket fd (so_family_ s) (so_type_ s) (so_protocol_ s) (so_conn_ s) (so_local_addr_ s) (so_remote_addr_ s)
    (so_connected_ s).
Definition set_so_conn (s : Socket) (c : option TcpConn) (connected : bool) : Socket :=
  mkSocket (so_fd_ s) (so_family_ s) (so_type_ s) (so_protocol_ s) c (so_local_addr_ s) (so_remote_addr_ s) connected.
Definition set_so_addrs (s : Socket) (l r : option Address) : Socket :=
  mkSocket (so_fd_ s) (so_family_ s) (so_type_ s) (so_protocol_ s) (so_conn_ s) l r (so_connected_ s).

Definition Socket_is_valid (s : Socket) : bool := negb (so_fd_ s =? kInvalidFd).

(** The address a family starts with. *)
Definition fresh_addr (f : Family) : Address := match f with kIpv4 => IPv4Address_new | kIpv6 => IPv6Address_new end.

Definition Socket_InitLocalAddr (s : Socket) (w : W) : Socket :=
  match so_local_addr_ s with
  | Some _ => s
  | None => let a := match sys_getsockname w (so_fd_ s) with
                     | Some name => name
                     | None => fresh_addr (so_family_ s)
                     end in
            set_so_addrs s (Some a) (so_remote_addr_ s)
  end.
(** The name asked for is that of the socket itself here too. *)
Definition Socket_InitRemoteAddr (s : Socket) (w : W) : Socket :=
  match so_remote_addr_ s with
  | Some _ => s
  | None => let a := match sys_getsockname w (so_fd_ s) with
                     | Some name => name
                     | None => fresh_addr (so_family_ s)
                     end in
            set_so_addrs s (so_local_addr_ s) (Some a)
  end.

Definition Socket_Init (s : Socket) (w : W) (fd : Z) : Socket * W :=
  if fd =? kInvalidFd then (s, w)
  else
    let s := set_so_fd s fd in
    let w := sys_setsockopt w (set_reuseaddr fd) in
    let s := set_so_conn s (Some (TcpConnFactory_Create fd)) true in
    let s := Socket_InitLocalAddr s w in
    (Socket_InitRemoteAddr s w, w).

Definition Socket_CreateSocket (s : Socket) (w : W) : Socket * W :=
  let (fd, w) := sys_socket w (socket (family_code (so_family_ s)) (type_code (so_type_ s)) (so_protocol_ s)) in
  Socket_Init (set_so_fd s fd) w fd.

Definition Socket_Bind (s : Socket) (w : W) (addr : Address) : outcome (bool * Socket * W) :=
  let (s, w) := if Socket_is_valid s then (s, w) else Socket_CreateSocket s w in
  if negb (Socket_is_valid s) then Fault AssertionFailed else
  let (r, w) := sys_bind w (so_fd_ s) addr (Address_addrlen addr) in
  Ok (r =? 0, s, w).

Definition kMaxConn : Z := 4096.
Definition Socket_Listen (s : Socket) (w : W) (backlog : Z) : outcome (bool * W) :=
  if negb (Socket_is_valid s) then Fault AssertionFailed else
  let (r, w) := sys_listen w (so_fd_ s) backlog in
  Ok (r =? 0, w).

(** [Accept()]: [None] while [co::accept] waits. A failure is only logged. *)
Definition Socket_Accept (s : Socket) (w : W) (answers : list accept_answer) : outcome (option (Socket * W)) :=
  if negb (Socket_is_valid s) then Fault AssertionFailed else
  match accept answers with
  | None => Ok None
  | Some e =>
      let client_sock := match e with IoDone fd => fd | IoFail _ => -1 end in
      Ok (Some (Socket_Init (Socket_new (so_family_ s) (so_type_ s) (so_protocol_ s)) w client_sock))
  end.

(** [Connect(address, ms)]: [None] while [co::connect] waits. *)
Definition Socket_Connect (s : Socket) (w : W) (answers : list connect_answer) : outcome (option (bool * Socket * W)) :=
  let (s, w) := if Socket_is_valid s then (s, w) else Socket_CreateSocket s w in
  if negb (Socket_is_valid s) then Fault AssertionFailed else
  match connect answers with
  | None => Ok None
  | Some (IoDone 0) =>
      let s := Socket_InitLocalAddr s w in
      Ok (Some (true, Socket_InitRemoteAddr s w, w))
  | Some _ => Ok (Some (false, s, w))
  end.

(** *** Input and output *)

Definition Socket_Recv (s : Socket) (answers : list recv_answer) : outcome (option (io_end * list Z)) :=
  if negb (so_connected_ s) then Fault AssertionFailed else
  match so_conn_ s with Some c => Ok (TcpConn_Recv c answers) | None => Fault NullDereference end.
Definition Socket_Recvn (s : Socket) (n : Z) (answers : list recv_answer)
  : outcome (option (io_end * list Z * list recv_answer)) :=
  if negb (so_connected_ s) then Fault AssertionFailed else
  match so_conn_ s with Some c => Ok (TcpConn_Recvn c n answers) | None => Fault NullDereference end.
Definition Socket_Send (s : Socket) (buf : list Z) (n : Z) (answers : list send_answer)
  : outcome (option (io_end * list Z * list send_answer)) :=
  if negb (so_connected_ s) then Fault AssertionFailed else
  match so_conn_ s with Some c => Ok (TcpConn_Send c buf n answers) | None => Fault NullDereference end.

Section closing_sockets.
Context {K : Type} `{EpollKernel K}.

(** [conn_->Close(ms) == 0]. *)
Definition close_ok (r : option io_end) : option bool :=
  match r with Some (IoDone 0) => Some true | Some _ => Some false | None => None end.

(** [connected_] goes first: while the connection is being closed, it is false already. *)
Definition Socket_Close (s : Socket) (e : net_env K) (ms : Z) (answers : list (Z * Z))
  : outcome (Socket * net_env K * option bool) :=
  if negb (so_connected_ s) then Ok (s, e, Some true) else
  match so_conn_ s with
  | Some c =>
      let* (c, e, r) := TcpConn_Close c e ms answers in
      Ok (set_so_conn s (Some c) false, e, close_ok r)
  | None => Fault NullDereference
  end.

(** [Close] and [Reset] when the [co::close] of [fd] they are in goes on: [Close] returns
    [close_ok] of the result. *)
Definition Socket_Close_resume (s : Socket) (e : net_env K) (fd : Z) (answers : list (Z * Z))
  : outcome (Socket * net_env K * option io_end) :=
  match so_conn_ s with
  | Some c => let '(c, e, r) := TcpConn_Close_resume c e fd answers in
              Ok (set_so_conn s (Some c) (so_connected_ s), e, r)
  | None => Fault NullDereference
  end.

Definition Socket_Reset (s : Socket) (e : net_env K) (ms : Z) (answers : list (Z * Z))
  : outcome (Socket * net_env K * option io_end) :=
  if negb (so_connected_ s) then Fault AssertionFailed else
  match so_conn_ s with
  | Some c => let* (c, e, r) := snd (TcpConn_Reset c e ms answers) in Ok (set_so_conn s (Some c) (so_connected_ s), e, r)
  | None => Fault NullDereference
  end.

(** The last reference goes: the connection closes its descriptor if it still has it. *)
Definition Socket_destroy (s : Socket) (e : net_env K) (answers : list (Z * Z)) : outcome (net_env K) :=
  match so_conn_ s with
  | Some c => let* (_, e, _) := TcpConn_destroy c e answers in Ok e
  | None => Ok e
  end.
End closing_sockets.
End socket.

(** ** Specification *)

(** A socket that is not connected has no live connection; a live connection is that of
    the socket's descriptor. *)
Definition socket_inv (s : Socket) : Prop :=
  match so_conn_ s with
  | None => so_connected_ s = false
  | Some c => (tc_sock_ c = so_fd_ s \/ tc_sock_ c = -1) /\ so_fd_ s <> -1 /\
              (so_connected_ s = false -> tc_sock_ c = -1)
  end.

(** A socket that coroutines share: its state, what it runs in, and the descriptors of the
    [co::close] calls within [Close] that have not returned. *)
Section lives.
Context {W : Type} `{NetKernel W} {K : Type} `{EpollKernel K}.

Record life : Type := mkLife { lf_sock : Socket; lf_env : net_env K; lf_in : list Z }.

(** The descriptor the connection has. *)
Definition conn_fd (s : Socket) : Z := match so_conn_ s with Some c => tc_sock_ c | None => -1 end.

(** One coroutine calls an operation or goes on within [Close]. A [Reset] that sleeps is
    no step. In between, the scheduler, the kernel and the clock change at will, as long
    as nobody else closes descriptors. *)
Inductive life_step : life -> life -> Prop :=
| LfClose s e l ms answers s' e' ok :
    Socket_Close s e ms answers = Ok (s', e', Some ok) -> life_step (mkLife s e l) (mkLife s' e' l)
| LfCloseWaits s e l ms answers s' e' :
    Socket_Close s e ms answers = Ok (s', e', None) -> life_step (mkLife s e l) (mkLife s' e' (l ++ [conn_fd s]))
| LfResume s e l1 fd l2 answers s' e' r :
    Socket_Close_resume s e fd answers = Ok (s', e', Some r) ->
    life_step (mkLife s e (l1 ++ fd :: l2)) (mkLife s' e' (l1 ++ l2))
| LfReset s e l ms answers s' e' r :
    Socket_Reset s e ms answers = Ok (s', e', Some r) -> life_step (mkLife s e l) (mkLife s' e' l)
| LfBind s e l (w w' : W) addr s' ok :
    Socket_Bind s w addr = Ok (ok, s', w') -> life_step (mkLife s e l) (mkLife s' e l)
| LfConnect s e l (w w' : W) answers s' ok :
    Socket_Connect s w answers = Ok (Some (ok, s', w')) -> life_step (mkLife s e l) (mkLife s' e l)
| LfOther s e l e' :
    ne_closed e' = ne_closed e -> life_step (mkLife s e l) (mkLife s e' l).

(** The connection of [fd]: open, being closed by one coroutine, or closed. *)
Inductive life_phase (fd : Z) (closed : list Z) : life -> Prop :=
| PhOpen s e : conn_fd s = fd -> so_connected_ s = true -> so_fd_ s <> -1 -> ne_closed e = closed ->
    life_phase fd closed (mkLife s e [])
| PhClosing s e : conn_fd s = fd -> so_connected_ s = false -> so_fd_ s <> -1 -> ne_closed e = closed ->
    life_phase fd closed (mkLife s e [fd])
| PhClosed s e : so_conn_ s = Some (mkTcpConn (-1)) -> so_fd_ s <> -1 -> ne_closed e = closed ++ [fd] ->
    life_phase fd closed (mkLife s e []).
End lives.

(** An operation can only fail a [CHECK]; what it gives satisfies [P]. *)
Definition only_checks {A} (x : outcome A) (P : A -> Prop) : Prop :=
  match x with
  | Ok a => P a
  | Fault f => f = AssertionFailed
  end.

(** ** Lemmas *)

Lemma le_bytes_length n v : length (le_bytes n v) = n.
Proof. revert v. induction n; intros v; cbn; auto. Qed.

Lemma le_bytes_range n v : Forall (fun b => 0 <= b < 256) (le_bytes n v).
Proof. revert v. induction n; intros v; cbn; constructor; [apply Z.mod_pos_bound; lia|auto]. Qed.

Lemma le_value_bytes n v : 0 <= v < 256 ^ Z.of_nat n -> le_value (le_bytes n v) = v.
Proof.
  revert v. induction n as [|n IH]; intros v Hv; cbn [le_bytes le_value].
  - change (256 ^ Z.of_nat 0) with 1 in Hv. lia.
  - rewrite Nat2Z.inj_succ, Z.pow_succ_r in Hv by lia. rewrite IH.
    + pose proof (Z_div_mod_eq_full v 256). lia.
    + split; [apply Z.div_pos; lia|apply Z.div_lt_upper_bound; lia].
Qed.

Lemma le_bytes_value bs : Forall (fun b => 0 <= b < 256) bs -> le_bytes (length bs) (le_value bs) = bs.
Proof.
  induction 1 as [|b bs Hb _ IH]; [done|]. cbn [length le_bytes le_value].
  rewrite (Z.mul_comm 256), Z_mod_plus_full, Z.mod_small, Z.div_add, Z.div_small, Z.add_0_l by lia. by rewrite IH.
Qed.

Lemma le_value_range bs : Forall (fun b => 0 <= b < 256) bs -> 0 <= le_value bs < 256 ^ Z.of_nat (length bs).
Proof.
  induction 1 as [|b bs Hb _ IH]; cbn [length le_value]; [lia|]. rewrite Nat2Z.inj_succ, Z.pow_succ_r by lia. lia.
Qed.

Lemma bswap_range n v : 0 <= bswap n v < 256 ^ Z.of_nat n.
Proof.
  unfold bswap. rewrite <- (le_bytes_length n v) at 3. rewrite <- length_rev.
  apply le_value_range. apply Forall_rev, le_bytes_range.
Qed.

(** The bytes in memory are those of the value, the most significant first. *)
Lemma bswap_bytes n v : le_bytes n (bswap n v) = rev (le_bytes n v).
Proof.
  unfold bswap. rewrite <- (le_bytes_length n v) at 1. rewrite <- length_rev.
  apply le_bytes_value, Forall_rev, le_bytes_range.
Qed.

(** Swapping twice. *)
Lemma bswap_bswap n v : 0 <= v < 256 ^ Z.of_nat n -> bswap n (bswap n v) = v.
Proof.
  intros Hv. unfold bswap at 1. rewrite bswap_bytes, rev_involutive. by apply le_value_bytes.
Qed.

Lemma swap_pair n w v : 256 ^ Z.of_nat n = 2 ^ w -> 0 <= w ->
  bswap n (uwrap w (bswap n (uwrap w v))) = uwrap w v.
Proof.
  intros E Hw. pose proof (bswap_range n (uwrap w v)) as Hb. rewrite E in Hb.
  rewrite (uwrap_small w (bswap n _)) by done. apply bswap_bswap. rewrite E. by apply uwrap_range.
Qed.

Lemma ntoh16_hton16 v : ntoh16 (hton16 v) = u16 v.
Proof. by apply swap_pair. Qed.

Section socket_facts.
Context {W : Type} `{NetKernel W} {K : Type} `{EpollKernel K}.

Lemma InitAddrs_fields s (w : W) : exists l r,
  Socket_InitRemoteAddr (Socket_InitLocalAddr s w) w = set_so_addrs s (Some l) (Some r).
Proof.
  unfold Socket_InitLocalAddr, Socket_InitRemoteAddr.
  destruct s as [fd f t p c [l|] [r|] cn]; cbn; by eexists _, _.
Qed.

Lemma Init_inv s (w : W) fd : socket_inv s -> socket_inv (fst (Socket_Init s w fd)).
Proof.
  intros Hs. unfold Socket_Init, kInvalidFd. destruct (Z.eqb_spec fd (-1)) as [E|E]; [done|].
  cbn [fst]. destruct (InitAddrs_fields (set_so_conn (set_so_fd s fd) (Some (TcpConnFactory_Create fd)) true)
                         (sys_setsockopt w (set_reuseaddr fd))) as (l & r & ->).
  cbn. split; [by left|]. split; [done|discriminate].
Qed.

Lemma CreateSocket_inv s (w : W) : so_conn_ s = None -> socket_inv s -> socket_inv (fst (Socket_CreateSocket s w)).
Proof.
  intros Hc Hs. unfold Socket_CreateSocket. destruct (sys_socket w _) as [fd w'].
  apply Init_inv. unfold socket_inv in *. cbn. by rewrite Hc in *.
Qed.

(** A socket without a valid descriptor has no connection. *)
Lemma invalid_no_conn s : socket_inv s -> Socket_is_valid s = false -> so_conn_ s = None.
Proof.
  unfold socket_inv, Socket_is_valid, kInvalidFd. destruct (so_conn_ s) as [c|]; [|done].
  intros (_ & Hfd & _). destruct (Z.eqb_spec (so_fd_ s) (-1)); done.
Qed.

Lemma ensure_inv s (w : W) : socket_inv s ->
  socket_inv (fst (if Socket_is_valid s then (s, w) else Socket_CreateSocket s w)).
Proof.
  intros Hs. destruct (Socket_is_valid s) eqn:Ev; [done|]. apply CreateSocket_inv; [|done]. by apply invalid_no_conn.
Qed.

Lemma set_addrs_inv s l r : socket_inv s -> socket_inv (set_so_addrs s l r).
Proof. done. Qed.

(** [close] fails only where its sleep does, and waits only there. *)
Lemma close_faults tls (ev : ev_state K) fd ms now answers f :
  close tls ev fd ms now answers = Fault f ->
  exists sc, tls = Some sc /\ 0 < ms /\ SchedulerImpl_Sleep sc now (u32 ms) = Fault f.
Proof.
  unfold close. destruct (fd <? 0); [done|]. destruct tls as [sc|]; [|done].
  destruct (Z.ltb_spec 0 ms); [|done]. destruct (SchedulerImpl_Sleep sc now (u32 ms)) eqn:E; cbn; [done|].
  intros [= <-]. by exists sc.
Qed.

Lemma close_at_once tls (ev : ev_state K) fd ms now answers :
  0 <= fd -> ms <= 0 -> exists tls' ev', close tls ev fd ms now answers = Ok (tls', ev', close_loop answers).
Proof.
  intros Hfd Hms. unfold close. destruct (Z.ltb_spec fd 0); [lia|]. destruct (Z.ltb_spec 0 ms); [lia|].
  destruct tls; by eexists _, _.
Qed.

(** [Close] that has returned leaves no descriptor behind, and needs none to be called
    again; until then the descriptor stays. *)
Lemma TcpConn_Close_ok c (e : net_env K) ms answers c' e' r :
  TcpConn_Close c e ms answers = Ok (c', e', r) -> tc_sock_ c <> -1 ->
  c' = conn_closed c r /\ ne_closed e' = fd_closed (tc_sock_ c) r (ne_closed e).
Proof.
  unfold TcpConn_Close. intros E Hc. destruct (Z.eqb_spec (tc_sock_ c) (-1)); [done|]. cbn [negb] in E.
  destruct (close _ _ _ _ _ _) as [[[tls ev] x]|]; cbn in E; [|done]. by injection E as <- <- <-.
Qed.

Lemma TcpConn_Reset_is_Close c (e : net_env K) ms answers :
  snd (TcpConn_Reset c e ms answers) = TcpConn_Close c e ms answers.
Proof. unfold TcpConn_Reset, TcpConn_Close. by destruct (negb _). Qed.

Lemma TcpConn_Close_again c (e : net_env K) ms answers :
  tc_sock_ c = -1 -> TcpConn_Close c e ms answers = Ok (c, e, Some (IoDone 0)).
Proof. destruct c as [s]. cbn. by intros ->. Qed.

Lemma Socket_Reset_connected s (e : net_env K) ms answers x :
  Socket_Reset s e ms answers = Ok x -> so_connected_ s = true.
Proof. unfold Socket_Reset. by destruct (so_connected_ s). Qed.

Lemma conn_fd_some (s : Socket) fd : conn_fd s = fd -> fd <> -1 -> so_conn_ s = Some (mkTcpConn fd).
Proof. unfold conn_fd. destruct (so_conn_ s) as [[x]|]; cbn; by intros <-. Qed.

(** [Close] and [Reset] on an open connection. *)
Lemma Socket_Close_open s (e : net_env K) fd ms answers s' e' ok :
  conn_fd s = fd -> fd <> -1 -> so_connected_ s = true -> Socket_Close s e ms answers = Ok (s', e', ok) ->
  exists r, ok = close_ok r /\ s' = set_so_conn s (Some (conn_closed (mkTcpConn fd) r)) false /\
            ne_closed e' = fd_closed fd r (ne_closed e).
Proof.
  intros Hfd Hne Hc. unfold Socket_Close. rewrite Hc, (conn_fd_some s fd) by done. cbn [negb].
  destruct (TcpConn_Close _ _ _ _) as [[[c' e1] r]|] eqn:E; cbn [obind]; [|done]. intros [= <- <- <-].
  apply TcpConn_Close_ok in E as [-> He]; [|done]. by exists r.
Qed.

Lemma Socket_Reset_open s (e : net_env K) fd ms answers s' e' r :
  conn_fd s = fd -> fd <> -1 -> Socket_Reset s e ms answers = Ok (s', e', r) ->
  s' = set_so_conn s (Some (conn_closed (mkTcpConn fd) r)) (so_connected_ s) /\
  ne_closed e' = fd_closed fd r (ne_closed e).
Proof.
  intros Hfd Hne. unfold Socket_Reset. destruct (so_connected_ s) eqn:Hc; [|done].
  rewrite (conn_fd_some s fd), TcpConn_Reset_is_Close by done. cbn [negb].
  destruct (TcpConn_Close _ _ _ _) as [[[c' e1] x]|] eqn:E; cbn [obind]; [|done]. intros [= <- <- <-].
  apply TcpConn_Close_ok in E as [-> He]; done.
Qed.

(** On a closed one they touch nothing. *)
Lemma Socket_Close_dead s (e : net_env K) ms answers s' e' ok :
  so_conn_ s = Some (mkTcpConn (-1)) -> Socket_Close s e ms answers = Ok (s', e', ok) ->
  ok = Some true /\ e' = e /\ so_conn_ s' = so_conn_ s /\ so_fd_ s' = so_fd_ s.
Proof.
  intros Hc. unfold Socket_Close. destruct (so_connected_ s); cbn [negb]; [|by intros [= <- <- <-]].
  rewrite Hc, TcpConn_Close_again by done. cbn [obind]. by intros [= <- <- <-].
Qed.

Lemma Socket_Reset_dead s (e : net_env K) ms answers s' e' r :
  so_conn_ s = Some (mkTcpConn (-1)) -> Socket_Reset s e ms answers = Ok (s', e', r) ->
  e' = e /\ so_conn_ s' = so_conn_ s /\ so_fd_ s' = so_fd_ s.
Proof.
  intros Hc. unfold Socket_Reset. destruct (so_connected_ s); cbn [negb]; [|done].
  rewrite Hc, TcpConn_Reset_is_Close, TcpConn_Close_again by done. cbn [obind]. by intros [= <- <- <-].
Qed.

(** [Bind] and [Connect] on a socket with a descriptor do not touch the connection. *)
Lemma Bind_valid s (w w' : W) addr ok s' :
  so_fd_ s <> -1 -> Socket_Bind s w addr = Ok (ok, s', w') -> s' = s.
Proof.
  intros Hfd. unfold Socket_Bind, Socket_is_valid, kInvalidFd. destruct (Z.eqb_spec (so_fd_ s) (-1)) as [|Hn]; [done|].
  cbn [negb]. rewrite (proj2 (Z.eqb_neq _ _) Hn). cbn [negb]. destruct (sys_bind _ _ _ _). by intros [= _ <- _].
Qed.

Lemma Connect_valid s (w w' : W) answers ok s' :
  so_fd_ s <> -1 -> Socket_Connect s w answers = Ok (Some (ok, s', w')) ->
  s' = s \/ exists l r, s' = set_so_addrs s l r.
Proof.
  intros Hfd. unfold Socket_Connect, Socket_is_valid, kInvalidFd. destruct (Z.eqb_spec (so_fd_ s) (-1)) as [|Hn]; [done|].
  cbn [negb]. rewrite (proj2 (Z.eqb_neq _ _) Hn). cbn [negb].
  destruct (InitAddrs_fields s w) as (l & r' & E).
  destruct (connect answers) as [[[]|]|]; rewrite ?E; intros [= _ <- _]; eauto.
Qed.
End socket_facts.

(** ** Theorems *)

(** Values survive the network byte order at every width, are laid out with the most
    significant byte first, and the port given to an address is the port it reports. *)
Theorem byte_order_round_trip `{InetText} (v : Z) (a : Address) (ip : list Z) :
  ntoh16 (hton16 v) = u16 v /\ ntoh32 (hton32 v) = u32 v /\ ntoh64 (hton64 v) = u64 v /\
  le_bytes 2 (hton16 v) = rev (le_bytes 2 (u16 v)) /\
  le_bytes 4 (hton32 v) = rev (le_bytes 4 (u32 v)) /\
  le_bytes 8 (hton64 v) = rev (le_bytes 8 (u64 v)) /\
  Address_port (Address_set_port a v) = u16 v /\
  Address_port (IPv4Address_Create ip v) = u16 v /\ Address_port (IPv6Address_Create ip v) = u16 v /\
  ntoh16 (sin_port (fst (init_ip_addr ip v))) = u16 v.
Proof.
  assert (E16 : ntoh16 (hton16 (u16 v)) = u16 v) by (rewrite ntoh16_hton16; apply uwrap_idem).
  split; [apply ntoh16_hton16|]. split; [by apply (swap_pair 4 32)|]. split; [by apply (swap_pair 8 64)|].
  split; [apply bswap_bytes|]. split; [apply bswap_bytes|]. split; [apply bswap_bytes|].
  split; [destruct a; apply ntoh16_hton16|]. split; [apply ntoh16_hton16|]. split; [apply ntoh16_hton16|].
  unfold init_ip_addr. by destruct (inet_pton4 ip).
Qed.

Section life_facts.
Context {W : Type} `{NetKernel W} {K : Type} `{EpollKernel K}.

Lemma phase_eta fd closed (s s' : Socket) (e e' : net_env K) l :
  so_conn_ s' = so_conn_ s -> so_connected_ s' = so_connected_ s -> so_fd_ s' = so_fd_ s -> ne_closed e' = ne_closed e ->
  life_phase fd closed (mkLife s e l) -> life_phase fd closed (mkLife s' e' l).
Proof.
  intros E1 E2 E3 E4 Hp. inversion Hp; subst; [apply PhOpen|apply PhClosing|apply PhClosed];
    unfold conn_fd in *; by rewrite ?E1, ?E2, ?E3, ?E4.
Qed.

(** [Close] in each phase. *)
Lemma phase_close fd closed s (e : net_env K) l ms answers s' e' ok :
  fd <> -1 -> life_phase fd closed (mkLife s e l) -> Socket_Close s e ms answers = Ok (s', e', ok) ->
  life_phase fd closed (mkLife s' e' (match ok with Some _ => l | None => l ++ [conn_fd s] end)).
Proof.
  intros Hfd Hp E. inversion Hp as [? ? Hc Hcn Hv He|? ? Hc Hcn Hv He|? ? Hc Hv He]; subst.
  - apply (Socket_Close_open s e _ _ _ _ _ _ eq_refl Hfd Hcn) in E as (r & -> & -> & E'). destruct r as [[[]|]|].
    all: cbn in E'; first [by apply PhClosed|by apply PhClosing].
  - unfold Socket_Close in E. rewrite Hcn in E. by injection E as <- <- <-.
  - apply Socket_Close_dead in E as (-> & -> & E1 & E2); [|done]. apply PhClosed; congruence.
Qed.

Lemma phase_pending fd closed s (e : net_env K) l :
  life_phase fd closed (mkLife s e l) -> l <> [] ->
  l = [fd] /\ conn_fd s = fd /\ so_fd_ s <> -1 /\ ne_closed e = closed.
Proof. intros Hp Hl. by inversion Hp; subst. Qed.

Lemma life_step_phase fd closed (x y : @life K) :
  fd <> -1 -> life_step (W := W) x y -> life_phase fd closed x -> life_phase fd closed y.
Proof.
  intros Hfd Hstep Hp. destruct Hstep as [s e l ms an s' e' ok E|s e l ms an s' e' E|s e l1 d l2 an s' e' r E
    |s e l ms an s' e' r E|s e l w w' addr s' ok E|s e l w w' an s' ok E|s e l e' E].
  - exact (phase_close _ _ _ _ _ _ _ _ _ (Some ok) Hfd Hp E).
  - exact (phase_close _ _ _ _ _ _ _ _ _ None Hfd Hp E).
  - apply phase_pending in Hp as (El & Hc & Hv & He); [|by destruct l1].
    destruct l1 as [|? [|]]; [|done..]. injection El as -> ->. unfold Socket_Close_resume in E.
    rewrite (conn_fd_some s fd) in E by done. unfold TcpConn_Close_resume in E. destruct (close_resume an); [|done].
    injection E as <- <- _. by apply PhClosed; cbn; congruence.
  - pose proof (Socket_Reset_connected _ _ _ _ _ E) as Hcn.
    inversion Hp as [? ? Hc ? Hv He|? ? ? Hf|? ? Hc Hv He]; subst; [|congruence|].
    + apply (Socket_Reset_open s e _ _ _ _ _ _ eq_refl Hfd) in E as [-> E']. by apply PhClosed.
    + apply Socket_Reset_dead in E as (-> & E1 & E2); [|done]. apply PhClosed; congruence.
  - assert (so_fd_ s <> -1) by by inversion Hp. by apply Bind_valid in E as ->.
  - assert (so_fd_ s <> -1) by by inversion Hp. apply Connect_valid in E as [->|(a & r & ->)]; [done| |done].
    by apply (phase_eta _ _ s _ e e l).
  - by apply (phase_eta _ _ s _ e e' l).
Qed.

Lemma life_phase_reached fd closed (x y : @life K) :
  fd <> -1 -> rtc (life_step (W := W)) x y -> life_phase fd closed x -> life_phase fd closed y.
Proof. intros Hfd. induction 1; [done|]. eauto using life_step_phase. Qed.

(** The destructor closes an open connection and leaves a closed one alone. *)
Lemma phase_destroy fd closed (x : @life K) answers :
  0 <= fd -> life_phase fd closed x -> lf_in x = [] -> close_loop answers <> None ->
  exists e', Socket_destroy (lf_sock x) (lf_env x) answers = Ok e' /\ ne_closed e' = closed ++ [fd].
Proof.
  intros Hfd Hp Hin Ha. unfold Socket_destroy, TcpConn_destroy.
  inversion Hp as [s e Hc Hcn Hv He|s e|s e Hc Hv He]; subst; [|done|]; cbn [lf_sock lf_env].
  - rewrite (conn_fd_some s _ eq_refl) by lia. unfold TcpConn_Close. cbn [tc_sock_].
    destruct (Z.eqb_spec (conn_fd s) (-1)); [lia|]. cbn [negb].
    destruct (close_at_once (ne_tls e) (ne_ev e) (conn_fd s) 0 (ne_now e) answers) as (tls & ev & ->); [done|lia|].
    cbn [obind]. eexists. split; [done|]. cbn. by destruct (close_loop answers).
  - rewrite Hc, TcpConn_Close_again by done. by eexists.
Qed.

(** *** The operations one by one *)

Lemma socket_ops_sound s (w : W) addr backlog ca aa :
  socket_inv s ->
  only_checks (Socket_Bind s w addr) (fun '(_, s', _) => socket_inv s') /\
  only_checks (Socket_Listen s w backlog) (fun _ => True) /\
  only_checks (Socket_Connect s w ca)
    (fun o => match o with Some (_, s', _) => socket_inv s' | None => True end) /\
  only_checks (Socket_Accept s w aa) (fun o => match o with Some (s', _) => socket_inv s' | None => True end).
Proof.
  intros Hs. repeat split.
  - unfold Socket_Bind. pose proof (ensure_inv s w Hs) as Hi.
    destruct (if Socket_is_valid s then _ else _) as [s' w']. cbn [fst] in Hi.
    destruct (Socket_is_valid s'); [|done]. cbn [negb]. by destruct (sys_bind _ _ _ _).
  - unfold Socket_Listen. destruct (Socket_is_valid s); [|done]. cbn [negb]. by destruct (sys_listen _ _ _).
  - unfold Socket_Connect. pose proof (ensure_inv s w Hs) as Hi.
    destruct (if Socket_is_valid s then _ else _) as [s' w']. cbn [fst] in Hi.
    destruct (Socket_is_valid s'); [|done]. cbn [negb]. destruct (connect ca) as [[[]|]|]; try done. cbn [only_checks].
    destruct (InitAddrs_fields s' w') as (l & r & ->). by apply set_addrs_inv.
  - unfold Socket_Accept. destruct (Socket_is_valid s); [|done]. cbn [negb].
    destruct (accept aa) as [x|]; [|done]. cbn [only_checks].
    pose proof (Init_inv (Socket_new (so_family_ s) (so_type_ s) (so_protocol_ s)) w
                  (match x with IoDone fd => fd | IoFail _ => -1 end) ltac:(done)) as Hi.
    by destruct (Socket_Init _ _ _).
Qed.

Lemma socket_io_checks s n ra buf sa :
  socket_inv s ->
  only_checks (Socket_Recv s ra) (fun _ => True) /\ only_checks (Socket_Recvn s n ra) (fun _ => True) /\
  only_checks (Socket_Send s buf n sa) (fun _ => True).
Proof.
  intros Hs. unfold Socket_Recv, Socket_Recvn, Socket_Send. unfold socket_inv in Hs.
  destruct (so_connected_ s); [|done]. destruct (so_conn_ s); [|done]. done.
Qed.

Lemma TcpConn_Close_faults c (e : net_env K) ms answers f :
  TcpConn_Close c e ms answers = Fault f ->
  exists sc, ne_tls e = Some sc /\ 0 < ms /\ SchedulerImpl_Sleep sc (ne_now e) (u32 ms) = Fault f.
Proof.
  unfold TcpConn_Close. destruct (negb _); [|done].
  destruct (close _ _ _ _ _ _) as [[[tls ev] r]|f'] eqn:E; cbn; [done|]. intros [= <-]. by apply close_faults in E.
Qed.

Lemma Socket_Close_faults s (e : net_env K) ms answers f :
  socket_inv s -> Socket_Close s e ms answers = Fault f ->
  exists sc, ne_tls e = Some sc /\ 0 < ms /\ SchedulerImpl_Sleep sc (ne_now e) (u32 ms) = Fault f.
Proof.
  unfold socket_inv, Socket_Close. intros Hs. destruct (so_connected_ s); [|done]. cbn [negb].
  destruct (so_conn_ s) as [c|]; [|done]. destruct (TcpConn_Close _ _ _ _) as [[[c' e1] r]|f'] eqn:E; cbn; [done|].
  intros [= <-]. by apply TcpConn_Close_faults in E.
Qed.

Lemma Socket_Reset_faults s (e : net_env K) ms answers f :
  socket_inv s -> Socket_Reset s e ms answers = Fault f ->
  f = AssertionFailed /\ so_connected_ s = false \/
  exists sc, ne_tls e = Some sc /\ 0 < ms /\ SchedulerImpl_Sleep sc (ne_now e) (u32 ms) = Fault f.
Proof.
  unfold socket_inv, Socket_Reset. intros Hs. destruct (so_connected_ s); [|by intros [= <-]; left]. cbn [negb].
  destruct (so_conn_ s) as [c|]; [|done]. rewrite TcpConn_Reset_is_Close.
  destruct (TcpConn_Close _ _ _ _) as [[[c' e1] r]|f'] eqn:E; cbn; [done|].
  intros [= <-]. right. by apply TcpConn_Close_faults in E.
Qed.

Lemma TcpConn_Close_returned c (e : net_env K) ms answers c' e' r :
  TcpConn_Close c e ms answers = Ok (c', e', Some r) -> c' = mkTcpConn (-1).
Proof.
  unfold TcpConn_Close. destruct (negb _); [|by intros [= <- _ _]].
  destruct (close _ _ _ _ _ _) as [[[tls ev] x]|]; cbn; [|done]. by intros [= <- _ ->].
Qed.

Lemma Socket_Close_returned s (e : net_env K) ms answers s' e' ok :
  socket_inv s -> Socket_Close s e ms answers = Ok (s', e', Some ok) -> socket_inv s' /\ so_connected_ s' = false.
Proof.
  unfold Socket_Close. intros Hs. destruct (so_connected_ s) eqn:Ec; cbn [negb]; [|by intros [= <- _ _]].
  unfold socket_inv in Hs. destruct (so_conn_ s) as [c|]; [|done].
  destruct (TcpConn_Close _ _ _ _) as [[[c' e1] [x|]]|] eqn:E; cbn; [|done..].
  apply TcpConn_Close_returned in E as ->. intros [= <- _ _]. destruct Hs as (_ & Hfd & _).
  split; [|done]. split; [by right|done].
Qed.

Lemma Socket_Reset_returned s (e : net_env K) ms answers s' e' r :
  socket_inv s -> Socket_Reset s e ms answers = Ok (s', e', Some r) -> socket_inv s'.
Proof.
  unfold Socket_Reset. intros Hs. destruct (so_connected_ s) eqn:Ec; cbn [negb]; [|done].
  unfold socket_inv in Hs. destruct (so_conn_ s) as [c|]; [|done]. rewrite TcpConn_Reset_is_Close.
  destruct (TcpConn_Close _ _ _ _) as [[[c' e1] [x|]]|] eqn:E; cbn; [|done..].
  apply TcpConn_Close_returned in E as ->. intros [= <- _ _]. destruct Hs as (_ & Hfd & _).
  split; [by right|done].
Qed.

Lemma open_has_fd s : socket_inv s -> so_connected_ s = true -> so_fd_ s <> -1.
Proof. unfold socket_inv. destruct (so_conn_ s) as [c|]; [|congruence]. by intros (_ & H' & _). Qed.
End life_facts.

Section socket_theorems.
Context {W : Type} `{NetKernel W} {K : Type} `{EpollKernel K}.


(** A [Reset] that sleeps leaves [connected_] and the descriptor as they are: a [Close]
    meanwhile closes the descriptor, and [Reset] closes its number again, whoever has it by
    then. *)
Theorem Reset_wait_closes_twice (s s1 s2 s3 : Socket) (e e1 e2 e3 e4 e5 : net_env K) ms a1 a2 a3 ok r :
  0 <= conn_fd s -> Socket_Reset s e ms a1 = Ok (s1, e1, None) ->
  ne_closed e2 = ne_closed e1 -> Socket_Close s1 e2 (-1) a2 = Ok (s2, e3, Some ok) ->
  ne_closed e4 = ne_closed e3 -> Socket_Close_resume s2 e4 (conn_fd s) a3 = Ok (s3, e5, Some r) ->
  ne_closed e5 = ne_closed e ++ [conn_fd s; conn_fd s].
Proof.
  intros Hfd E1 He2 E2 He4 E3. pose proof (Socket_Reset_connected _ _ _ _ _ E1) as Hcn.
  apply (Socket_Reset_open s e _ _ _ _ _ _ eq_refl) in E1 as [-> E1]; [|lia]. cbn in E1.
  apply (Socket_Close_open _ e2 (conn_fd s)) in E2 as (x & Hx & -> & E2); [|done|lia|done].
  destruct x as [x|]; [|done]. cbn in E2. unfold Socket_Close_resume, TcpConn_Close_resume in E3. cbn in E3.
  unfold close_resume in E3. destruct (close_loop a3); [|done]. injection E3 as <- <- _. cbn.
  rewrite He4, E2, He2, E1, <- app_assoc. done.
Qed.

(** A socket that was closed cannot be connected again. [Close] keeps the number of
    the closed descriptor, so [Connect] creates no new one: whatever it reports, the
    socket keeps the closed descriptor and the next [Send] fails its [CHECK]. *)
Theorem Connect_after_Close (s s' s2 : Socket) (w w' : W) (e e' : net_env K) ms closes r ca ok buf n sa :
  socket_inv s -> so_connected_ s = true -> Socket_Close s e ms closes = Ok (s', e', r) ->
  Socket_Connect s' w ca = Ok (Some (ok, s2, w')) ->
  w' = w /\ so_fd_ s2 = so_fd_ s /\ Socket_Send s2 buf n sa = Fault AssertionFailed.
Proof.
  intros Hs Hc. unfold Socket_Close. rewrite Hc. cbn [negb]. unfold socket_inv in Hs.
  destruct (so_conn_ s) as [c|]; [|congruence]. destruct Hs as (_ & Hfd & _).
  destruct (TcpConn_Close c e ms closes) as [[[c' e1] x]|]; cbn; [|done]. intros [= <- _ _].
  set (s1 := set_so_conn s (Some c') false). unfold Socket_Connect.
  assert (Hv : Socket_is_valid s1 = true).
  { unfold Socket_is_valid, kInvalidFd. cbn. by destruct (Z.eqb_spec (so_fd_ s) (-1)). }
  rewrite Hv. cbn [negb]. rewrite Hv. cbn [negb].
  destruct (InitAddrs_fields s1 w) as (l & r' & E).
  destruct (connect ca) as [[[]|]|]; rewrite ?E; intros [= _ <- <-]; done.
Qed.

(** The remote address of a connection is asked for with [getsockname]: it is the local
    address. *)
Lemma remote_addr_is_local (s : Socket) (w : W) fd :
  fd <> -1 -> so_local_addr_ s = None -> so_remote_addr_ s = None ->
  so_remote_addr_ (fst (Socket_Init s w fd)) = so_local_addr_ (fst (Socket_Init s w fd)).
Proof.
  intros Hfd Hl Hr. unfold Socket_Init, kInvalidFd. destruct (Z.eqb_spec fd (-1)); [done|].
  unfold Socket_InitLocalAddr, Socket_InitRemoteAddr. destruct s; cbn in *. subst. reflexivity.
Qed.

(** When [accept] fails, [Accept] still returns a socket, on which every [Recvn] fails. *)
Lemma Accept_failure_unusable (s : Socket) (w : W) errno n ra :
  Socket_is_valid s = true -> would_block errno = false -> errno <> EINTR ->
  exists s', Socket_Accept s w [AErr errno] = Ok (Some (s', w)) /\ Socket_Recvn s' n ra = Fault AssertionFailed.
Proof.
  intros Hv Hb He. unfold Socket_Accept. rewrite Hv. cbn [negb accept]. rewrite Hb.
  destruct (Z.eqb_spec errno EINTR); [done|]. by eexists.
Qed.
End socket_theorems.

(** ** Witnesses *)

(** A kernel that hands out descriptors from 3 on and remembers what they are bound to. *)
#[export] Instance SampleNet : NetKernel (gmap Z Address) := {|
  sys_socket w _ := (3 + Z.of_nat (size w), <[3 + Z.of_nat (size w) := IPv4Address_new]> w);
  sys_setsockopt w _ := w;
  sys_getsockname w fd := w !! fd;
  sys_bind w fd addr _ := (0, <[fd := addr]> w);
  sys_listen w _ _ := (0, w)
|}.

Definition sample_env : net_env epoll_table := mkNetEnv None (mkEvState ∅ ∅) 0 [].
Definition sample_socket : Socket :=
  mkSocket 7 kIpv4 kTcp 0 (Some (mkTcpConn 7)) (Some IPv4Address_new) (Some IPv4Address_new) true.
Definition closed_socket : Socket :=
  mkSocket 7 kIpv4 kTcp 0 (Some (mkTcpConn (-1))) (Some IPv4Address_new) (Some IPv4Address_new) false.

Lemma sample_socket_inv : socket_inv sample_socket.
Proof. split; [by left|done]. Qed.

(** In a coroutine of a scheduler: [Close(5)] sleeps, and goes on later. *)
Definition sched_env : net_env epoll_table :=
  mkNetEnv (Some (sched_sample 11024 (Some 1%nat) (Some 1%nat))) (mkEvState ∅ ∅) 0 [].
Definition close_sleeping : outcome (Socket * net_env epoll_table * option bool) :=
  Socket_Close sample_socket sched_env 5 [].


Lemma Reset_wait_closes_twice_witness :
  exists s1 e1 s2 e2 s3 e3 ok r, Socket_Reset sample_socket sched_env 5 [] = Ok (s1, e1, None) /\
    Socket_Close s1 e1 (-1) [(0, 0)] = Ok (s2, e2, Some ok) /\
    Socket_Close_resume s2 e2 7 [(-1, EBADF)] = Ok (s3, e3, Some r) /\ ne_closed e3 = [7; 7].
Proof.
  do 8 eexists. split; [vm_compute; reflexivity|]. split; [vm_compute; reflexivity|].
  split; [vm_compute; reflexivity|].
  eapply (Reset_wait_closes_twice sample_socket _ _ _ sched_env _ _ _ _ _ 5 [] [(0, 0)] [(-1, EBADF)]);
    [done|vm_compute; reflexivity|reflexivity|vm_compute; reflexivity|reflexivity|vm_compute; reflexivity].
Defined.

Lemma Connect_after_Close_witness :
  exists e' s2, Socket_Close sample_socket sample_env 0 [(0, 0)] = Ok (closed_socket, e', Some true) /\
    Socket_Connect closed_socket (∅ : gmap Z Address) [COk] = Ok (Some (true, s2, ∅)) /\
    Socket_Send s2 [1] 1 [STaken 1] = Fault AssertionFailed.
Proof.
  eexists _, _. split; [reflexivity|]. split; [reflexivity|].
  eapply (Connect_after_Close sample_socket closed_socket _ (∅ : gmap Z Address) _ sample_env _ 0 [(0, 0)] _ [COk]);
    [exact sample_socket_inv|reflexivity|reflexivity|reflexivity].
Defined.
