(* ===== verification/TcpServer.v ===== *)
(** * net/tcp.h, net/tcp.cc and [BaseServer] of net/server.h: the accepting server

    [Start] binds, listens and starts the coroutine of [Loop]; [Loop] accepts and starts
    a coroutine for each connection, which calls the delegate until the connection is
    closed. What a server does is the list of its actions. *)

From stdpp Require Import base numbers list gmap.
From Stdlib Require Import Lia ZArith.
From S2P Require Import Prelude Stream Errno SockCtx Epoll Coroutine Copoll TaskManager TimerManager Scheduler Sock Net.

Record TcpServer : Type := mkTcpServer {
  ts_addr_ : Address;
  ts_sock_ : Socket;
  ts_delegate_ : bool;      (* [delegate_] is not null *)
  ts_stop_ : bool
}.

Definition TcpServer_new (addr : Address) : TcpServer :=
  mkTcpServer addr (Socket_new (Address_family addr) kTcp 0) false false.
Definition TcpServer_Create `{InetText} (ip : list Z) (port : Z) : TcpServer :=
  TcpServer_new (IPv4Address_Create ip port).
Definition TcpServer_set_delegate (s : TcpServer) (delegate : bool) : TcpServer :=
  mkTcpServer (ts_addr_ s) (ts_sock_ s) delegate (ts_stop_ s).
Definition TcpServer_Exit (s : TcpServer) : TcpServer := s.

(** The calls of the delegate, and the coroutines started with [go]. *)
Inductive server_action : Type :=
| ActBind (ok : bool)
| ActOnBind
| ActListen (ok : bool)
| ActOnListen
| ActGoLoop
| ActGoConn (client_sock : Socket).

Section tcp_server.
Context {W : Type} `{NetKernel W}.

Definition set_ts_sock (s : TcpServer) (sock : Socket) : TcpServer :=
  mkTcpServer (ts_addr_ s) sock (ts_delegate_ s) (ts_stop_ s).

(** The results of [Bind] and [Listen] are ignored. *)
Definition TcpServer_InitSock (s : TcpServer) (w : W) : outcome (TcpServer * W * list server_action) :=
  let* (ok, sock, w) := Socket_Bind (ts_sock_ s) w (ts_addr_ s) in
  let s := set_ts_sock s sock in
  let acts := ActBind ok :: (if ts_delegate_ s then [ActOnBind] else []) in
  let* (ok, w) := Socket_Listen (ts_sock_ s) w kMaxConn in
  Ok (s, w, acts ++ ActListen ok :: (if ts_delegate_ s then [ActOnListen] else [])).

Definition TcpServer_Start (s : TcpServer) (w : W) : outcome (TcpServer * W * list server_action) :=
  let* (s, w, acts) := TcpServer_InitSock s w in
  Ok (s, w, acts ++ [ActGoLoop]).

(** [Loop] against the answers of its successive calls of [Accept]; it waits in the last
    one. *)
Fixpoint TcpServer_Loop (s : TcpServer) (w : W) (accepts : list (list accept_answer))
  : outcome (W * list server_action) :=
  match accepts with
  | [] => Ok (w, [])
  | answers :: accepts =>
      if ts_stop_ s then Ok (w, []) else
      let* r := Socket_Accept (ts_sock_ s) w answers in
      match r with
      | None => Ok (w, [])
      | Some (client_sock, w) =>
          let* (w, acts) := TcpServer_Loop s w accepts in
          Ok (w, (if ts_delegate_ s then [ActGoConn client_sock] else []) ++ acts)
      end
  end.
End tcp_server.

(** The coroutine of a connection: [on_new_conn] is the delegate's method, on a state
    that has the socket. No result: out of fuel. *)
Fixpoint conn_loop {S : Type} (on_new_conn : S -> outcome S) (sock : S -> Socket) (fuel : nat) (st : S)
  : outcome (option (nat * S)) :=
  match fuel with
  | O => Ok None
  | Datatypes.S fuel =>
      let* st := on_new_conn st in
      if negb (so_connected_ (sock st)) then Ok (Some (1%nat, st))
      else let* r := conn_loop on_new_conn sock fuel st in
           Ok (match r with Some (n, st) => Some (Datatypes.S n, st) | None => None end)
  end.

(** *** [BaseServer] *)

Record BaseServer : Type := mkBaseServer { bs_server_ : option TcpServer }.
Definition BaseServer_new : BaseServer := mkBaseServer None.
Definition BaseServer_Bind (b : BaseServer) (addr : Address) : BaseServer :=
  mkBaseServer (Some (TcpServer_set_delegate (TcpServer_new addr) true)).
Definition BaseServer_Start {W} `{NetKernel W} (b : BaseServer) (w : W) : outcome (BaseServer * W * list server_action) :=
  match bs_server_ b with
  | None => Fault NullDereference
  | Some s => let* (s, w, acts) := TcpServer_Start s w in Ok (mkBaseServer (Some s), w, acts)
  end.

(** ** Specification *)

(** The sockets of the connections that were started. *)
Fixpoint started (acts : list server_action) : list Socket :=
  match acts with
  | [] => []
  | ActGoConn s :: acts => s :: started acts
  | _ :: acts => started acts
  end.

(** The descriptors of the calls of [accept] that returned, -1 for a failure. *)
Fixpoint accepted (accepts : list (list accept_answer)) : list Z :=
  match accepts with
  | [] => []
  | answers :: accepts =>
      match accept answers with
      | None => []
      | Some e => (match e with IoDone fd => fd | IoFail _ => -1 end) :: accepted accepts
      end
  end.

(** ** Lemmas *)

Section tcp_facts.
Context {W : Type} `{NetKernel W}.

Lemma Init_fd family type protocol (w : W) fd :
  so_fd_ (fst (Socket_Init (Socket_new family type protocol) w fd)) = fd /\
  so_connected_ (fst (Socket_Init (Socket_new family type protocol) w fd)) = negb (fd =? -1).
Proof.
  unfold Socket_Init, kInvalidFd. destruct (Z.eqb_spec fd (-1)) as [-> |Hne]; [done|]. cbn [fst].
  destruct (InitAddrs_fields (set_so_conn (set_so_fd (Socket_new family type protocol) fd)
              (Some (TcpConnFactory_Create fd)) true) (sys_setsockopt w (set_reuseaddr fd))) as (l & r & ->).
  done.
Qed.

Lemma Loop_spec (s : TcpServer) (w : W) accepts :
  ts_stop_ s = false -> ts_delegate_ s = true -> Socket_is_valid (ts_sock_ s) = true ->
  exists w' acts, TcpServer_Loop s w accepts = Ok (w', acts) /\
    map (fun c => (so_fd_ c, so_connected_ c)) (started acts) = map (fun fd => (fd, negb (fd =? -1))) (accepted accepts).
Proof.
  intros Hst Hd Hv. revert w. induction accepts as [|answers accepts IH]; intros w; [by eexists _, _|].
  cbn [TcpServer_Loop accepted]. rewrite Hst. unfold Socket_Accept. rewrite Hv. cbn [negb].
  destruct (accept answers) as [x|]; cbn [obind]; [|by eexists _, _].
  set (fd := match x with IoDone fd => fd | IoFail _ => -1 end).
  destruct (Init_fd (so_family_ (ts_sock_ s)) (so_type_ (ts_sock_ s)) (so_protocol_ (ts_sock_ s)) w fd) as [Ef Ec].
  destruct (Socket_Init _ w fd) as [c w1]. cbn [fst] in Ef, Ec.
  destruct (IH w1) as (w' & acts & E & Hm). rewrite E, Hd. cbn [obind app]. eexists _, _. split; [done|].
  cbn [started map]. by rewrite Hm, Ef, Ec.
Qed.
End tcp_facts.

(** ** Theorems *)

(** [Start] calls the delegate in order, binding before listening, and then starts
    the loop; the loop starts exactly one coroutine for each call of [accept] that
    returns, in order, on the socket of the descriptor it returned. A failed call is no
    exception: its coroutine gets a socket that is not connected. *)
Theorem server_start_and_loop {W} `{NetKernel W} (s s' : TcpServer) (w w' : W) acts accepts :
  ts_delegate_ s = true -> ts_stop_ s = false -> TcpServer_Start s w = Ok (s', w', acts) ->
  (exists ok1 ok2, acts = [ActBind ok1; ActOnBind; ActListen ok2; ActOnListen; ActGoLoop]) /\
  exists w2 acts2, TcpServer_Loop s' w' accepts = Ok (w2, acts2) /\
    map (fun c => (so_fd_ c, so_connected_ c)) (started acts2) =
      map (fun fd => (fd, negb (fd =? -1))) (accepted accepts).
Proof.
  intros Hd Hst. unfold TcpServer_Start, TcpServer_InitSock.
  destruct (Socket_Bind (ts_sock_ s) w (ts_addr_ s)) as [[[ok1 sock] w1]|]; [|done]. cbn [obind].
  unfold Socket_Listen. cbn [ts_sock_ set_ts_sock]. destruct (Socket_is_valid sock) eqn:Hv; [|done]. cbn [negb].
  destruct (sys_listen w1 (so_fd_ sock) kMaxConn) as [r w2]. cbn [obind ts_delegate_ set_ts_sock]. rewrite Hd.
  intros [= <- <- <-]. split; [by eexists _, _|]. by apply Loop_spec.
Qed.

(** ** Witnesses *)

Definition server_sample : TcpServer := TcpServer_set_delegate (TcpServer_new IPv4Address_new) true.

Lemma server_start_and_loop_witness :
  exists s' w' acts, TcpServer_Start server_sample (∅ : gmap Z Address) = Ok (s', w', acts) /\
    exists w2 acts2, TcpServer_Loop s' w' [[AErr EAGAIN; AConn 9]; [AErr 24]; [AErr EINTR]] = Ok (w2, acts2) /\
      map (fun c => (so_fd_ c, so_connected_ c)) (started acts2) = [(9, true); (-1, false)].
Proof.
  eexists _, _, _. split; [reflexivity|].
  eapply (server_start_and_loop server_sample _ (∅ : gmap Z Address) _ _ [[AErr EAGAIN; AConn 9]; [AErr 24]; [AErr EINTR]]);
    reflexivity.
Defined.
