(* ===== verification/PbRuntime.v ===== *)
(** * What the generated message classes use of the protocol-buffer runtime

    The runtime is not part of the repository: [PbRuntime] lists the functions the
    generated code under rpc/protos/gen calls and [PbRuntimeLaws] what the wire format
    documents about them. [parse_loop] is the loop that every generated [_InternalParse]
    consists of. [WireRuntime] is a runtime that satisfies the laws, with varints and
    length-delimited fields written out. Bytes are [Z], a pointer into the input is the
    list of the bytes that follow it. *)

From stdpp Require Import base numbers list.
From Stdlib Require Import Lia ZArith.
From S2P Require Import Prelude.

(** ** The interface *)

Class PbRuntime : Type := {
  (** The unknown fields kept by [_internal_metadata_]. *)
  UnknownFieldSet : Type;
  uf_empty : UnknownFieldSet;
  uf_have : UnknownFieldSet -> bool;
  uf_merge : UnknownFieldSet -> UnknownFieldSet -> UnknownFieldSet;
  uf_serialize : UnknownFieldSet -> list Z;
  uf_size : UnknownFieldSet -> Z;
  UnknownFieldParse : Z -> UnknownFieldSet -> list Z -> option (UnknownFieldSet * list Z);
  (** Readers: [None] when the pointer they return is null. [ReadVarint32] returns a value
      and [InlineGreedyStringParser] leaves a text in its argument then as well. *)
  ReadTag : list Z -> option (Z * list Z);
  ReadVarint32 : list Z -> option (Z * list Z);
  ReadVarint32_null : list Z -> Z;
  InlineGreedyStringParser : list Z -> option (list Z * list Z);
  StringParser_null : list Z -> list Z -> list Z;
  VerifyUTF8 : list Z -> bool;
  (** Writers: the bytes they append to the target. *)
  WriteUInt32ToArray : Z -> Z -> list Z;
  WriteInt32ToArray : Z -> Z -> list Z;
  WriteStringMaybeAliased : Z -> list Z -> list Z;
  WriteBytesMaybeAliased : Z -> list Z -> list Z;
  UInt32SizePlusOne : Z -> Z;
  Int32SizePlusOne : Z -> Z;
  StringSize : list Z -> Z;
  BytesSize : list Z -> Z;
  (** [SerializeAsString], given the size and the bytes the message computes, and
      [ParseFromString], given the [Clear] and the [_InternalParse] of the message. *)
  SerializeAsString : Z -> list Z -> list Z;
  ParseFromString : forall {M : Type}, (M -> M) -> (M -> list Z -> M * option (list Z)) -> M -> list Z -> M
}.

Definition INT_MAX : Z := MAX_INT32.

Class PbRuntimeLaws `{PbRuntime} : Prop := {
  uf_empty_none : uf_have uf_empty = false;
  uf_merge_empty u : uf_merge uf_empty u = u;
  uf_size_length u : Z.of_nat (length (uf_serialize u)) = uf_size u;
  uf_size_empty : uf_size uf_empty = 0;
  (** Reading moves forward. *)
  ReadTag_forward bs tag r : ReadTag bs = Some (tag, r) -> (length r < length bs)%nat;
  ReadVarint32_forward bs v r : ReadVarint32 bs = Some (v, r) -> (length r <= length bs)%nat;
  ReadVarint32_range bs v r : ReadVarint32 bs = Some (v, r) -> 0 <= v < 2 ^ 32;
  StringParser_forward bs s r : InlineGreedyStringParser bs = Some (s, r) -> (length s + length r <= length bs)%nat;
  StringParser_null_length s bs : (length (StringParser_null s bs) <= length s `max` length bs)%nat;
  UnknownFieldParse_forward tag u bs u' r :
    UnknownFieldParse tag u bs = Some (u', r) -> (length r <= length bs)%nat;
  (** What is written is read back: a tag of one byte (field number and wire type), then
      a varint or a length-delimited string. *)
  WriteUInt32_read f v rest : 1 <= f <= 15 -> 0 <= v < 2 ^ 32 ->
    exists r, ReadTag (WriteUInt32ToArray f v ++ rest) = Some (8 * f, r) /\ ReadVarint32 r = Some (v, rest);
  WriteInt32_read f v rest : 1 <= f <= 15 -> - 2 ^ 31 <= v < 2 ^ 31 ->
    exists r, ReadTag (WriteInt32ToArray f v ++ rest) = Some (8 * f, r) /\ ReadVarint32 r = Some (u32 v, rest);
  WriteString_read f s rest : 1 <= f <= 15 -> Z.of_nat (length s) <= INT_MAX ->
    exists r, ReadTag (WriteStringMaybeAliased f s ++ rest) = Some (8 * f + 2, r) /\
              InlineGreedyStringParser r = Some (s, rest);
  WriteBytes_read f s rest : 1 <= f <= 15 -> Z.of_nat (length s) <= INT_MAX ->
    exists r, ReadTag (WriteBytesMaybeAliased f s ++ rest) = Some (8 * f + 2, r) /\
              InlineGreedyStringParser r = Some (s, rest);
  (** The sizes. *)
  WriteUInt32_size f v : 1 <= f <= 15 -> 0 <= v < 2 ^ 32 ->
    Z.of_nat (length (WriteUInt32ToArray f v)) = UInt32SizePlusOne v;
  WriteInt32_size f v : 1 <= f <= 15 -> - 2 ^ 31 <= v < 2 ^ 31 ->
    Z.of_nat (length (WriteInt32ToArray f v)) = Int32SizePlusOne v;
  WriteString_size f s : 1 <= f <= 15 -> Z.of_nat (length s) <= INT_MAX ->
    Z.of_nat (length (WriteStringMaybeAliased f s)) = 1 + StringSize s;
  WriteBytes_size f s : 1 <= f <= 15 -> Z.of_nat (length s) <= INT_MAX ->
    Z.of_nat (length (WriteBytesMaybeAliased f s)) = 1 + BytesSize s;
  Int32Size_max v : - 2 ^ 31 <= v < 2 ^ 31 -> Int32SizePlusOne v <= 11;
  (** A varint is written in as few bytes as possible, so that only the value 0 has a
      zero byte. *)
  WriteUInt32_nonzero f v : 1 <= f <= 15 -> 0 < v < 2 ^ 32 -> Forall (fun b => b <> 0) (WriteUInt32ToArray f v);
  WriteInt32_nonzero f v : 1 <= f <= 15 -> - 2 ^ 31 <= v < 2 ^ 31 -> v <> 0 ->
    Forall (fun b => b <> 0) (WriteInt32ToArray f v);
  WriteString_nonzero f s : 1 <= f <= 15 -> Z.of_nat (length s) <= INT_MAX -> s <> [] ->
    Forall (fun b => b <> 0) s -> Forall (fun b => b <> 0) (WriteStringMaybeAliased f s);
  WriteBytes_nonzero f s : 1 <= f <= 15 -> Z.of_nat (length s) <= INT_MAX -> s <> [] ->
    Forall (fun b => b <> 0) s -> Forall (fun b => b <> 0) (WriteBytesMaybeAliased f s);
  (** The entry points call the generated code back. *)
  SerializeAsString_bytes size bs :
    size = Z.of_nat (length bs) -> size <= INT_MAX -> SerializeAsString size bs = bs;
  ParseFromString_run {M} (clear : M -> M) parse m bs :
    ParseFromString clear parse m bs = fst (parse (clear m) bs)
}.

(** ** The loop of a generated [_InternalParse] *)

(** What the [switch] over the field number does with a field. *)
Inductive field_step (M : Type) : Type :=
| FieldRead (m : M) (ptr : list Z)      (* [continue] *)
| FieldFailed (m : M)                   (* a [CHK_] fails *)
| FieldUnusual.                         (* [goto handle_unusual] *)
Arguments FieldRead {M} m ptr.
Arguments FieldFailed {M} m.
Arguments FieldUnusual {M}.

Section parse.
Context `{PbRuntime} {M : Type}.
Variable fields : M -> Z -> list Z -> field_step M.
Variable unknown : M -> UnknownFieldSet.
Variable set_unknown : M -> UnknownFieldSet -> M.

(** The message and the pointer at [message_done]; a null pointer is [None]. A failing
    [ReadTag] gives the tag 0, for which [CHK_(ptr)] goes to [failure]. No result: out of
    fuel. *)
Fixpoint parse_loop (fuel : nat) (m : M) (ptr : list Z) : option (M * option (list Z)) :=
  match fuel with
  | O => None
  | S fuel =>
      match ptr with
      | [] => Some (m, Some [])                        (* ctx->Done(&ptr) *)
      | _ =>
          match ReadTag ptr with
          | None => Some (m, None)
          | Some (tag, ptr) =>
              match fields m tag ptr with
              | FieldRead m ptr => parse_loop fuel m ptr
              | FieldFailed m => Some (m, None)
              | FieldUnusual =>
                  if (tag =? 0) || (Z.land tag 7 =? 4) then Some (m, Some ptr)
                  else match UnknownFieldParse tag (unknown m) ptr with
                       | Some (u, ptr) => parse_loop fuel (set_unknown m u) ptr
                       | None => Some (m, None)
                       end
              end
          end
      end
  end.

(** Every turn reads a tag: one turn per byte, and one to see the end, are enough. *)
Definition parse_all (m : M) (ptr : list Z) : M * option (list Z) :=
  match parse_loop (S (length ptr)) m ptr with
  | Some r => r
  | None => (m, None)
  end.
End parse.

(** ** A concrete runtime *)

(** A varint of at most [n] bytes. *)
Fixpoint varint (n : nat) (v : Z) : list Z :=
  match n with
  | O => []
  | S n => if v <? 128 then [v] else (128 + v mod 128) :: varint n (v / 128)
  end.

Fixpoint read_varint (n : nat) (bs : list Z) : option (Z * list Z) :=
  match n, bs with
  | S n, b :: bs =>
      if b <? 128 then Some (b, bs)
      else match read_varint n bs with
           | Some (v, r) => Some (b - 128 + 128 * v, r)
           | None => None
           end
  | _, _ => None
  end.

Definition read_delimited (bs : list Z) : option (list Z * list Z) :=
  match read_varint 5 bs with
  | Some (n, r) => if (0 <=? n) && (n <=? Z.of_nat (length r))
                   then Some (take (Z.to_nat n) r, drop (Z.to_nat n) r) else None
  | None => None
  end.

Definition write_delimited (f : Z) (s : list Z) : list Z :=
  (8 * f + 2) :: varint 5 (Z.of_nat (length s)) ++ s.

(** An unknown field is kept as it was read: varints, 64 and 32 bits, and delimited. *)
Definition skip_unknown (tag : Z) (u bs : list Z) : option (list Z * list Z) :=
  let keep r := (u ++ varint 5 tag ++ take (length bs - length r) bs, r) in
  match Z.land tag 7 with
  | 0 => match read_varint 10 bs with Some (_, r) => Some (keep r) | None => None end
  | 1 => if (8 <=? length bs)%nat then Some (keep (drop 8 bs)) else None
  | 2 => match read_delimited bs with Some (_, r) => Some (keep r) | None => None end
  | 5 => if (4 <=? length bs)%nat then Some (keep (drop 4 bs)) else None
  | _ => None
  end.

#[export] Instance WireRuntime : PbRuntime := {|
  UnknownFieldSet := list Z;
  uf_empty := [];
  uf_have u := match u with [] => false | _ => true end;
  uf_merge u v := u ++ v;
  uf_serialize u := u;
  uf_size u := Z.of_nat (length u);
  UnknownFieldParse := skip_unknown;
  ReadTag := read_varint 5;
  ReadVarint32_null _ := 0;
  StringParser_null s _ := s;
  ReadVarint32 bs := match read_varint 10 bs with Some (v, r) => Some (u32 v, r) | None => None end;
  InlineGreedyStringParser := read_delimited;
  VerifyUTF8 s := forallb (fun b => b <? 128) s;
  WriteUInt32ToArray f v := 8 * f :: varint 5 v;
  WriteInt32ToArray f v := 8 * f :: varint 10 (u64 v);
  WriteStringMaybeAliased := write_delimited;
  WriteBytesMaybeAliased := write_delimited;
  UInt32SizePlusOne v := 1 + Z.of_nat (length (varint 5 v));
  Int32SizePlusOne v := 1 + Z.of_nat (length (varint 10 (u64 v)));
  StringSize s := Z.of_nat (length (varint 5 (Z.of_nat (length s)))) + Z.of_nat (length s);
  BytesSize s := Z.of_nat (length (varint 5 (Z.of_nat (length s)))) + Z.of_nat (length s);
  SerializeAsString size bs := if size <=? INT_MAX then bs else [];
  ParseFromString M clear parse m bs := fst (parse (clear m) bs)
|}.

(** ** Lemmas on the loop *)

Section parse_facts.
Context `{PbRuntimeLaws} {M : Type}.
Variable fields : M -> Z -> list Z -> field_step M.
Variable unknown : M -> UnknownFieldSet.
Variable set_unknown : M -> UnknownFieldSet -> M.
Abbreviation loop := (parse_loop fields unknown set_unknown).

Lemma parse_loop_mono n m ptr r : loop n m ptr = Some r -> forall n', (n <= n')%nat -> loop n' m ptr = Some r.
Proof.
  revert m ptr. induction n as [|n IH]; intros m ptr Hr [|n'] Hle; try (done || lia).
  cbn [parse_loop] in *. destruct ptr; [done|].
  destruct (ReadTag _) as [[tag p]|]; [|done].
  destruct (fields m tag p); [by apply IH; [|lia]|done|].
  destruct (_ || _); [done|]. destruct (UnknownFieldParse _ _ _) as [[u q]|]; [by apply IH; [|lia]|done].
Qed.

(** The fields only move forward. *)
Definition fields_forward : Prop :=
  forall m tag ptr m' ptr', fields m tag ptr = FieldRead m' ptr' -> (length ptr' <= length ptr)%nat.

(** The loop ends: a turn for every byte, and one more, are enough. *)
Lemma parse_loop_total (Hf : fields_forward) n m ptr :
  (length ptr < n)%nat -> exists r, loop n m ptr = Some r.
Proof.
  revert m ptr. induction n as [|n IH]; intros m ptr Hlt; [lia|].
  cbn [parse_loop]. destruct ptr as [|b ptr]; [by eexists|].
  destruct (ReadTag (b :: ptr)) as [[tag p]|] eqn:Et; [|by eexists].
  apply ReadTag_forward in Et. cbn [length] in *.
  destruct (fields m tag p) as [m' p'|m'|] eqn:Ef; [|by eexists|].
  - apply Hf in Ef. apply IH. lia.
  - destruct (_ || _); [by eexists|].
    destruct (UnknownFieldParse _ _ _) as [[u q]|] eqn:Eu; [|by eexists].
    apply UnknownFieldParse_forward in Eu. apply IH. lia.
Qed.

Lemma parse_all_run (Hf : fields_forward) n m ptr r :
  loop n m ptr = Some r -> parse_all fields unknown set_unknown m ptr = r.
Proof.
  intros Hn. unfold parse_all.
  destruct (parse_loop_total Hf (S (length ptr)) m ptr ltac:(lia)) as [r' Hr']. rewrite Hr'.
  pose proof (parse_loop_mono _ _ _ _ Hn (n + S (length ptr)) ltac:(lia)).
  pose proof (parse_loop_mono _ _ _ _ Hr' (n + S (length ptr)) ltac:(lia)). congruence.
Qed.

(** What the fields preserve on an input of at most [bound] bytes holds at the end. *)
Lemma parse_loop_invariant (Hf : fields_forward) (P : M -> Prop) (bound : nat) n m ptr m' p :
  (forall m tag ptr m' ptr', (length ptr <= bound)%nat -> P m ->
     fields m tag ptr = FieldRead m' ptr' \/ fields m tag ptr = FieldFailed m' -> P m') ->
  (forall m u, P m -> P (set_unknown m u)) ->
  loop n m ptr = Some (m', p) -> (length ptr <= bound)%nat -> P m -> P m'.
Proof.
  intros HP HU. revert m ptr. induction n as [|n IH]; intros m ptr; [done|].
  cbn [parse_loop]. destruct ptr as [|b ptr]; [by intros [= <- _]|].
  destruct (ReadTag (b :: ptr)) as [[tag q]|] eqn:Et; [|by intros [= <- _]].
  apply ReadTag_forward in Et. intros Hr Hb Hm.
  destruct (fields m tag q) as [m1 q1|m1|] eqn:Ef.
  - assert (Hq : (length q <= bound)%nat) by lia. pose proof (Hf _ _ _ _ _ Ef).
    apply (IH m1 q1 Hr); [lia|]. apply (HP m tag q m1 q1 Hq Hm). by left.
  - injection Hr as <- _. apply (HP m tag q m1 q ltac:(lia) Hm). by right.
  - destruct (_ || _); [by injection Hr as <- _|].
    destruct (UnknownFieldParse _ _ _) as [[u q1]|] eqn:Eu; [|by injection Hr as <- _].
    apply UnknownFieldParse_forward in Eu. apply (IH _ _ Hr); [lia|]. by apply HU.
Qed.

Lemma parse_loop_end n m : loop (S n) m [] = Some (m, Some []).
Proof. reflexivity. Qed.

(** One turn over a field that the [switch] reads, when the field is present. *)
Lemma parse_loop_field (present : bool) seg rest n m m' tag r ptr :
  (present = true -> ReadTag (seg ++ rest) = Some (tag, ptr) /\ fields m tag ptr = FieldRead m' rest) ->
  (present = false -> m' = m) ->
  loop n m' rest = Some r ->
  loop (S n) m ((if present then seg else []) ++ rest) = Some r.
Proof.
  intros Ht Hf Hr. destruct present.
  - destruct (Ht eq_refl) as [E1 E2]. cbn [parse_loop].
    destruct (seg ++ rest) as [|b l] eqn:E.
    + apply ReadTag_forward in E1. cbn in E1. lia.
    + by rewrite E1, E2.
  - rewrite (Hf eq_refl) in Hr. apply (parse_loop_mono _ _ _ _ Hr). lia.
Qed.
End parse_facts.

(** ** The laws of the concrete runtime *)

Lemma read_varint_forward n bs v r : read_varint n bs = Some (v, r) -> (length r < length bs)%nat.
Proof.
  revert bs v r. induction n as [|n IH]; intros [|b bs] v r; cbn; try done.
  destruct (b <? 128); [by intros [= _ <-]; lia|].
  destruct (read_varint n bs) as [[v' r']|] eqn:E; [|done]. intros [= _ <-]. apply IH in E. lia.
Qed.

Lemma read_varint_varint n k v rest : (0 < n)%nat -> 0 <= v < 128 ^ Z.of_nat n ->
  read_varint (n + k) (varint n v ++ rest) = Some (v, rest).
Proof.
  revert v. induction n as [|n IH]; intros v Hn Hv; [lia|].
  cbn [varint]. destruct (Z.ltb_spec v 128) as [Hs|Hs]; cbn [app read_varint Nat.add].
  - by destruct (Z.ltb_spec v 128); [|lia].
  - pose proof (Z.mod_pos_bound v 128 ltac:(lia)).
    destruct (Z.ltb_spec (128 + v mod 128) 128); [lia|].
    destruct n as [|n]; [change (128 ^ Z.of_nat 1) with 128 in Hv; lia|].
    rewrite IH; [|lia|].
    + do 2 f_equal. pose proof (Z_div_mod_eq_full v 128). lia.
    + rewrite Nat2Z.inj_succ, Z.pow_succ_r in Hv by lia. split; [apply Z.div_pos; lia|].
      apply Z.div_lt_upper_bound; lia.
Qed.

Lemma read_delimited_forward bs s r : read_delimited bs = Some (s, r) -> (length s + length r <= length bs)%nat.
Proof.
  unfold read_delimited. destruct (read_varint 5 bs) as [[n p]|] eqn:E; [|done].
  apply read_varint_forward in E. destruct (_ && _); [|done]. intros [= <- <-].
  rewrite length_take, length_drop. lia.
Qed.

Lemma skip_unknown_forward tag u bs u' r : skip_unknown tag u bs = Some (u', r) -> (length r <= length bs)%nat.
Proof.
  unfold skip_unknown. destruct (Z.land tag 7) as [|[[[]|[]|]|[[]|[]|]|]|]; try done.
  - destruct (read_varint 10 bs) as [[v p]|] eqn:E; [|done].
    apply read_varint_forward in E. intros [= _ <-]. lia.
  - destruct (_ <=? _)%nat; [|done]. intros [= _ <-]. rewrite length_drop. lia.
  - destruct (read_delimited bs) as [[v p]|] eqn:E; [|done].
    apply read_delimited_forward in E. intros [= _ <-]. lia.
  - destruct (_ <=? _)%nat; [|done]. intros [= _ <-]. rewrite length_drop. lia.
Qed.

(** A tag of a field number up to 15 is one byte. *)
Lemma read_tag_byte t rest : 0 <= t < 128 -> read_varint 5 (t :: rest) = Some (t, rest).
Proof. intros Ht. cbn [read_varint]. by destruct (Z.ltb_spec t 128); [|lia]. Qed.

Lemma read_write_delimited f s rest : 1 <= f <= 15 -> Z.of_nat (length s) <= INT_MAX ->
  exists r, read_varint 5 (write_delimited f s ++ rest) = Some (8 * f + 2, r) /\
            read_delimited r = Some (s, rest).
Proof.
  intros Hf Hs. exists (varint 5 (Z.of_nat (length s)) ++ s ++ rest). unfold write_delimited.
  rewrite <- app_comm_cons, <- app_assoc. split; [apply read_tag_byte; lia|].
  change INT_MAX with 2147483647 in Hs. unfold read_delimited.
  rewrite (read_varint_varint 5 0) by (try lia; change (128 ^ Z.of_nat 5) with 34359738368; lia).
  rewrite length_app, (proj2 (Z.leb_le 0 _)), (proj2 (Z.leb_le _ (Z.of_nat (length s + length rest)))) by lia.
  cbn [andb]. by rewrite Nat2Z.id, take_app_length, drop_app_length.
Qed.

Lemma varint_length n v : (length (varint n v) <= n)%nat.
Proof. revert v. induction n as [|n IH]; intros v; cbn; [done|]. destruct (v <? 128); cbn; [lia|]. specialize (IH (v / 128)). lia. Qed.

Lemma varint_nonzero n v : 0 < v -> Forall (fun b => b <> 0) (varint n v).
Proof.
  revert v. induction n as [|n IH]; intros v Hv; [constructor|]. cbn [varint].
  destruct (Z.ltb_spec v 128); [by repeat constructor; lia|]. constructor.
  - pose proof (Z.mod_pos_bound v 128). lia.
  - apply IH. apply Z.div_str_pos. lia.
Qed.

Lemma write_delimited_nonzero f s : 1 <= f <= 15 -> s <> [] -> Forall (fun b => b <> 0) s ->
  Forall (fun b => b <> 0) (write_delimited f s).
Proof.
  intros Hf Hs Hz. unfold write_delimited. constructor; [lia|]. apply Forall_app_2; [|done].
  apply varint_nonzero. destruct s; [done|cbn; lia].
Qed.

Lemma write_delimited_size f s :
  Z.of_nat (length (write_delimited f s)) =
    1 + (Z.of_nat (length (varint 5 (Z.of_nat (length s)))) + Z.of_nat (length s)).
Proof. unfold write_delimited. cbn [length]. rewrite length_app. lia. Qed.

#[export] Instance WireRuntime_laws : @PbRuntimeLaws WireRuntime.
Proof.
  split; cbn [uf_have uf_empty uf_merge uf_size uf_serialize ReadTag ReadVarint32 InlineGreedyStringParser
    ReadVarint32_null StringParser_null UnknownFieldParse WriteUInt32ToArray WriteInt32ToArray WriteStringMaybeAliased WriteBytesMaybeAliased
    UInt32SizePlusOne Int32SizePlusOne StringSize BytesSize SerializeAsString ParseFromString WireRuntime];
    try done.
  - intros *. apply read_varint_forward.
  - intros bs v r. destruct (read_varint 10 bs) as [[v' r']|] eqn:E; [|done].
    intros [= _ <-]. apply read_varint_forward in E. lia.
  - intros bs v r. destruct (read_varint 10 bs) as [[v' r']|]; [|done]. intros [= <- _]. by apply uwrap_range.
  - apply read_delimited_forward.
  - intros s bs. apply Nat.le_max_l.
  - apply skip_unknown_forward.
  - intros f v rest Hf Hv. exists (varint 5 v ++ rest). split; [apply read_tag_byte; lia|].
    rewrite (read_varint_varint 5 5) by (try lia; change (128 ^ Z.of_nat 5) with 34359738368; lia).
    by rewrite uwrap_small.
  - intros f v rest Hf Hv. exists (varint 10 (u64 v) ++ rest). split; [apply read_tag_byte; lia|].
    pose proof (uwrap_range 64 v ltac:(lia)).
    rewrite (read_varint_varint 10 0) by (try lia; change (128 ^ Z.of_nat 10) with 1180591620717411303424; lia).
    f_equal. f_equal. unfold uwrap. apply Z.mod_mod_divide.
    exists (2 ^ 32). reflexivity.
  - apply read_write_delimited.
  - apply read_write_delimited.
  - intros. cbn [length]. lia.
  - intros. cbn [length]. lia.
  - intros. apply write_delimited_size.
  - intros. apply write_delimited_size.
  - intros v Hv. pose proof (varint_length 10 (u64 v)). lia.
  - intros f v Hf Hv. constructor; [lia|]. apply varint_nonzero. lia.
  - intros f v Hf Hv Hne. constructor; [lia|]. apply varint_nonzero.
    pose proof (uwrap_range 64 v ltac:(lia)). enough (u64 v <> 0) by lia. unfold uwrap.
    intros E. apply Z.mod_divide in E as [k E]; lia.
  - intros. by apply write_delimited_nonzero.
  - intros. by apply write_delimited_nonzero.
  - intros size bs _ Hs. by rewrite (proj2 (Z.leb_le _ _) Hs).
Qed.
