(* ===== verification/PbMessages.v ===== *)
(** * rpc/protos/gen: the generated classes of the three messages

    [BaseProtocolBuf] is the envelope of a call, [HelloProtocolBuf] and [WorldProtocolBuf]
    its request and its response. A message is the record of its [Impl_] and the unknown
    fields of [_internal_metadata_]; a string field is the string its [ArenaStringPtr]
    holds. The runtime is the parameter [PbRuntime]. *)

From stdpp Require Import base numbers list.
From Stdlib Require Import Lia ZArith.
From S2P Require Import Prelude PbRuntime.

Definition str_empty (s : list Z) : bool := match s with [] => true | _ => false end.

Section messages.
Context `{PbRuntime}.

(** ** base.pb.h, base.pb.cc *)

Record BaseProtocolBuf : Type := mkBase {
  b_has_bits_ : Z;
  b_cached_size_ : Z;
  b_srv_name_ : list Z;
  b_data_ : list Z;
  b_magic_ : Z;
  b_version_ : Z;
  b_type_ : Z;
  b_req_id_ : Z;
  b_data_len_ : Z;
  b_unknown : UnknownFieldSet
}.

Definition BaseProtocolBuf_new : BaseProtocolBuf := mkBase 0 0 [] [] 0 0 0 0 0 uf_empty.

Definition BaseProtocolBuf_magic (m : BaseProtocolBuf) : Z := b_magic_ m.
Definition BaseProtocolBuf_version (m : BaseProtocolBuf) : Z := b_version_ m.
Definition BaseProtocolBuf_type (m : BaseProtocolBuf) : Z := b_type_ m.
Definition BaseProtocolBuf_req_id (m : BaseProtocolBuf) : Z := b_req_id_ m.
Definition BaseProtocolBuf_data_len (m : BaseProtocolBuf) : Z := b_data_len_ m.
Definition BaseProtocolBuf_srv_name (m : BaseProtocolBuf) : list Z := b_srv_name_ m.
Definition BaseProtocolBuf_data (m : BaseProtocolBuf) : list Z := b_data_ m.
Definition BaseProtocolBuf_has_srv_name (m : BaseProtocolBuf) : bool := negb (Z.land (b_has_bits_ m) 1 =? 0).

Definition BaseProtocolBuf_set_magic (m : BaseProtocolBuf) (v : Z) : BaseProtocolBuf :=
  mkBase (b_has_bits_ m) (b_cached_size_ m) (b_srv_name_ m) (b_data_ m) (u32 v) (b_version_ m) (b_type_ m)
    (b_req_id_ m) (b_data_len_ m) (b_unknown m).
Definition BaseProtocolBuf_set_version (m : BaseProtocolBuf) (v : Z) : BaseProtocolBuf :=
  mkBase (b_has_bits_ m) (b_cached_size_ m) (b_srv_name_ m) (b_data_ m) (b_magic_ m) (u32 v) (b_type_ m)
    (b_req_id_ m) (b_data_len_ m) (b_unknown m).
Definition BaseProtocolBuf_set_type (m : BaseProtocolBuf) (v : Z) : BaseProtocolBuf :=
  mkBase (b_has_bits_ m) (b_cached_size_ m) (b_srv_name_ m) (b_data_ m) (b_magic_ m) (b_version_ m) (u32 v)
    (b_req_id_ m) (b_data_len_ m) (b_unknown m).
Definition BaseProtocolBuf_set_req_id (m : BaseProtocolBuf) (v : Z) : BaseProtocolBuf :=
  mkBase (b_has_bits_ m) (b_cached_size_ m) (b_srv_name_ m) (b_data_ m) (b_magic_ m) (b_version_ m) (b_type_ m)
    (u32 v) (b_data_len_ m) (b_unknown m).
Definition BaseProtocolBuf_set_data_len (m : BaseProtocolBuf) (v : Z) : BaseProtocolBuf :=
  mkBase (b_has_bits_ m) (b_cached_size_ m) (b_srv_name_ m) (b_data_ m) (b_magic_ m) (b_version_ m) (b_type_ m)
    (b_req_id_ m) (u32 v) (b_unknown m).
(** [set_srv_name] and [_internal_mutable_srv_name] followed by a write of the string. *)
Definition BaseProtocolBuf_set_srv_name (m : BaseProtocolBuf) (s : list Z) : BaseProtocolBuf :=
  mkBase (Z.lor (b_has_bits_ m) 1) (b_cached_size_ m) s (b_data_ m) (b_magic_ m) (b_version_ m) (b_type_ m)
    (b_req_id_ m) (b_data_len_ m) (b_unknown m).
Definition BaseProtocolBuf_set_data (m : BaseProtocolBuf) (s : list Z) : BaseProtocolBuf :=
  mkBase (b_has_bits_ m) (b_cached_size_ m) (b_srv_name_ m) s (b_magic_ m) (b_version_ m) (b_type_ m)
    (b_req_id_ m) (b_data_len_ m) (b_unknown m).
Definition BaseProtocolBuf_clear_srv_name (m : BaseProtocolBuf) : BaseProtocolBuf :=
  mkBase (Z.land (b_has_bits_ m) (Z.lnot 1)) (b_cached_size_ m) [] (b_data_ m) (b_magic_ m) (b_version_ m)
    (b_type_ m) (b_req_id_ m) (b_data_len_ m) (b_unknown m).
Definition BaseProtocolBuf_clear_data (m : BaseProtocolBuf) : BaseProtocolBuf := BaseProtocolBuf_set_data m [].
Definition BaseProtocolBuf_SetCachedSize (m : BaseProtocolBuf) (size : Z) : BaseProtocolBuf :=
  mkBase (b_has_bits_ m) (i32 size) (b_srv_name_ m) (b_data_ m) (b_magic_ m) (b_version_ m) (b_type_ m)
    (b_req_id_ m) (b_data_len_ m) (b_unknown m).
Definition b_set_unknown (m : BaseProtocolBuf) (u : UnknownFieldSet) : BaseProtocolBuf :=
  mkBase (b_has_bits_ m) (b_cached_size_ m) (b_srv_name_ m) (b_data_ m) (b_magic_ m) (b_version_ m) (b_type_ m)
    (b_req_id_ m) (b_data_len_ m) u.

(** [Clear]: the name is emptied when its bit is set. *)
Definition BaseProtocolBuf_Clear (m : BaseProtocolBuf) : BaseProtocolBuf :=
  mkBase 0 (b_cached_size_ m) (if negb (Z.land (b_has_bits_ m) 1 =? 0) then [] else b_srv_name_ m) []
    0 0 0 0 0 uf_empty.

(** The [switch] of [_InternalParse]: the field is assigned before [CHK_] looks at the pointer. *)
Definition BaseProtocolBuf_field (m : BaseProtocolBuf) (tag : Z) (ptr : list Z) : field_step BaseProtocolBuf :=
  let uint32_field (t : Z) (set : BaseProtocolBuf -> Z -> BaseProtocolBuf) :=
    if u8 tag =? t then
      match ReadVarint32 ptr with Some (v, ptr) => FieldRead (set m v) ptr | None => FieldFailed (set m (ReadVarint32_null ptr)) end
    else FieldUnusual in
  match Z.shiftr tag 3 with
  | 1 => uint32_field 8 BaseProtocolBuf_set_magic
  | 2 => uint32_field 16 BaseProtocolBuf_set_version
  | 3 => uint32_field 24 BaseProtocolBuf_set_type
  | 4 => uint32_field 32 BaseProtocolBuf_set_req_id
  | 5 => uint32_field 40 BaseProtocolBuf_set_data_len
  | 6 => if u8 tag =? 50 then
           match InlineGreedyStringParser ptr with
           | Some (s, ptr) => let m := BaseProtocolBuf_set_srv_name m s in
                              if VerifyUTF8 s then FieldRead m ptr else FieldFailed m
           | None => FieldFailed (BaseProtocolBuf_set_srv_name m (StringParser_null (b_srv_name_ m) ptr))
           end
         else FieldUnusual
  | 7 => if u8 tag =? 58 then
           match InlineGreedyStringParser ptr with
           | Some (s, ptr) => FieldRead (BaseProtocolBuf_set_data m s) ptr
           | None => FieldFailed (BaseProtocolBuf_set_data m (StringParser_null (b_data_ m) ptr))
           end
         else FieldUnusual
  | _ => FieldUnusual
  end.

(** The local [has_bits] stays empty: [Or] changes nothing. *)
Definition BaseProtocolBuf_InternalParse (m : BaseProtocolBuf) (ptr : list Z)
  : BaseProtocolBuf * option (list Z) :=
  parse_all BaseProtocolBuf_field b_unknown b_set_unknown m ptr.

Definition BaseProtocolBuf_InternalSerialize (m : BaseProtocolBuf) : list Z :=
  (if negb (BaseProtocolBuf_magic m =? 0) then WriteUInt32ToArray 1 (BaseProtocolBuf_magic m) else []) ++
  (if negb (BaseProtocolBuf_version m =? 0) then WriteUInt32ToArray 2 (BaseProtocolBuf_version m) else []) ++
  (if negb (BaseProtocolBuf_type m =? 0) then WriteUInt32ToArray 3 (BaseProtocolBuf_type m) else []) ++
  (if negb (BaseProtocolBuf_req_id m =? 0) then WriteUInt32ToArray 4 (BaseProtocolBuf_req_id m) else []) ++
  (if negb (BaseProtocolBuf_data_len m =? 0) then WriteUInt32ToArray 5 (BaseProtocolBuf_data_len m) else []) ++
  (if BaseProtocolBuf_has_srv_name m then WriteStringMaybeAliased 6 (BaseProtocolBuf_srv_name m) else []) ++
  (if negb (str_empty (BaseProtocolBuf_data m)) then WriteBytesMaybeAliased 7 (BaseProtocolBuf_data m) else []) ++
  (if uf_have (b_unknown m) then uf_serialize (b_unknown m) else []).

(** The size, and the message with its cached size set. *)
Definition BaseProtocolBuf_ByteSizeLong (m : BaseProtocolBuf) : Z * BaseProtocolBuf :=
  let total := 0 in
  let total := if negb (Z.land (b_has_bits_ m) 1 =? 0) then total + 1 + StringSize (b_srv_name_ m) else total in
  let total := if negb (str_empty (b_data_ m)) then total + 1 + BytesSize (b_data_ m) else total in
  let total := if negb (b_magic_ m =? 0) then total + UInt32SizePlusOne (b_magic_ m) else total in
  let total := if negb (b_version_ m =? 0) then total + UInt32SizePlusOne (b_version_ m) else total in
  let total := if negb (b_type_ m =? 0) then total + UInt32SizePlusOne (b_type_ m) else total in
  let total := if negb (b_req_id_ m =? 0) then total + UInt32SizePlusOne (b_req_id_ m) else total in
  let total := if negb (b_data_len_ m =? 0) then total + UInt32SizePlusOne (b_data_len_ m) else total in
  let total := if uf_have (b_unknown m) then total + uf_size (b_unknown m) else total in
  (total, BaseProtocolBuf_SetCachedSize m total).

Definition BaseProtocolBuf_MergeFrom (m from : BaseProtocolBuf) : BaseProtocolBuf :=
  let m := if BaseProtocolBuf_has_srv_name from then BaseProtocolBuf_set_srv_name m (b_srv_name_ from) else m in
  let m := if negb (str_empty (b_data_ from)) then BaseProtocolBuf_set_data m (b_data_ from) else m in
  let m := if negb (b_magic_ from =? 0) then BaseProtocolBuf_set_magic m (b_magic_ from) else m in
  let m := if negb (b_version_ from =? 0) then BaseProtocolBuf_set_version m (b_version_ from) else m in
  let m := if negb (b_type_ from =? 0) then BaseProtocolBuf_set_type m (b_type_ from) else m in
  let m := if negb (b_req_id_ from =? 0) then BaseProtocolBuf_set_req_id m (b_req_id_ from) else m in
  let m := if negb (b_data_len_ from =? 0) then BaseProtocolBuf_set_data_len m (b_data_len_ from) else m in
  b_set_unknown m (uf_merge (b_unknown m) (b_unknown from)).

(** [CopyFrom] of another message. *)
Definition BaseProtocolBuf_CopyFrom (m from : BaseProtocolBuf) : BaseProtocolBuf :=
  BaseProtocolBuf_MergeFrom (BaseProtocolBuf_Clear m) from.

(** The copy constructor. *)
Definition BaseProtocolBuf_copy (from : BaseProtocolBuf) : BaseProtocolBuf :=
  mkBase (b_has_bits_ from) 0
    (if BaseProtocolBuf_has_srv_name from then b_srv_name_ from else [])
    (if negb (str_empty (b_data_ from)) then b_data_ from else [])
    (b_magic_ from) (b_version_ from) (b_type_ from) (b_req_id_ from) (b_data_len_ from)
    (uf_merge uf_empty (b_unknown from)).

(** [InternalSwap] of [*this] and [*other]: everything but the cached sizes. *)
Definition BaseProtocolBuf_InternalSwap (m other : BaseProtocolBuf) : BaseProtocolBuf * BaseProtocolBuf :=
  let with_size (x : BaseProtocolBuf) (c : Z) :=
    mkBase (b_has_bits_ x) c (b_srv_name_ x) (b_data_ x) (b_magic_ x) (b_version_ x) (b_type_ x)
      (b_req_id_ x) (b_data_len_ x) (b_unknown x) in
  (with_size other (b_cached_size_ m), with_size m (b_cached_size_ other)).

Definition BaseProtocolBuf_SerializeAsString (m : BaseProtocolBuf) : list Z :=
  SerializeAsString (fst (BaseProtocolBuf_ByteSizeLong m)) (BaseProtocolBuf_InternalSerialize m).
Definition BaseProtocolBuf_ParseFromString (m : BaseProtocolBuf) (bs : list Z) : BaseProtocolBuf :=
  ParseFromString BaseProtocolBuf_Clear BaseProtocolBuf_InternalParse m bs.

(** ** hello.pb.h, hello.pb.cc *)

Record HelloProtocolBuf : Type := mkHello {
  h_name_ : list Z;
  h_cached_size_ : Z;
  h_unknown : UnknownFieldSet
}.

Definition HelloProtocolBuf_new : HelloProtocolBuf := mkHello [] 0 uf_empty.
Definition HelloProtocolBuf_name (m : HelloProtocolBuf) : list Z := h_name_ m.
Definition HelloProtocolBuf_set_name (m : HelloProtocolBuf) (s : list Z) : HelloProtocolBuf :=
  mkHello s (h_cached_size_ m) (h_unknown m).
Definition HelloProtocolBuf_clear_name (m : HelloProtocolBuf) : HelloProtocolBuf := HelloProtocolBuf_set_name m [].
Definition HelloProtocolBuf_SetCachedSize (m : HelloProtocolBuf) (size : Z) : HelloProtocolBuf :=
  mkHello (h_name_ m) (i32 size) (h_unknown m).
Definition h_set_unknown (m : HelloProtocolBuf) (u : UnknownFieldSet) : HelloProtocolBuf :=
  mkHello (h_name_ m) (h_cached_size_ m) u.
Definition HelloProtocolBuf_Clear (m : HelloProtocolBuf) : HelloProtocolBuf := mkHello [] (h_cached_size_ m) uf_empty.

Definition HelloProtocolBuf_field (m : HelloProtocolBuf) (tag : Z) (ptr : list Z) : field_step HelloProtocolBuf :=
  match Z.shiftr tag 3 with
  | 1 => if u8 tag =? 10 then
           match InlineGreedyStringParser ptr with
           | Some (s, ptr) => let m := HelloProtocolBuf_set_name m s in
                              if VerifyUTF8 s then FieldRead m ptr else FieldFailed m
           | None => FieldFailed (HelloProtocolBuf_set_name m (StringParser_null (h_name_ m) ptr))
           end
         else FieldUnusual
  | _ => FieldUnusual
  end.
Definition HelloProtocolBuf_InternalParse (m : HelloProtocolBuf) (ptr : list Z)
  : HelloProtocolBuf * option (list Z) :=
  parse_all HelloProtocolBuf_field h_unknown h_set_unknown m ptr.

Definition HelloProtocolBuf_InternalSerialize (m : HelloProtocolBuf) : list Z :=
  (if negb (str_empty (h_name_ m)) then WriteStringMaybeAliased 1 (h_name_ m) else []) ++
  (if uf_have (h_unknown m) then uf_serialize (h_unknown m) else []).

Definition HelloProtocolBuf_ByteSizeLong (m : HelloProtocolBuf) : Z * HelloProtocolBuf :=
  let total := 0 in
  let total := if negb (str_empty (h_name_ m)) then total + 1 + StringSize (h_name_ m) else total in
  let total := if uf_have (h_unknown m) then total + uf_size (h_unknown m) else total in
  (total, HelloProtocolBuf_SetCachedSize m total).

Definition HelloProtocolBuf_MergeFrom (m from : HelloProtocolBuf) : HelloProtocolBuf :=
  let m := if negb (str_empty (h_name_ from)) then HelloProtocolBuf_set_name m (h_name_ from) else m in
  h_set_unknown m (uf_merge (h_unknown m) (h_unknown from)).
Definition HelloProtocolBuf_CopyFrom (m from : HelloProtocolBuf) : HelloProtocolBuf :=
  HelloProtocolBuf_MergeFrom (HelloProtocolBuf_Clear m) from.
Definition HelloProtocolBuf_copy (from : HelloProtocolBuf) : HelloProtocolBuf :=
  mkHello (if negb (str_empty (h_name_ from)) then h_name_ from else []) 0 (uf_merge uf_empty (h_unknown from)).
Definition HelloProtocolBuf_InternalSwap (m other : HelloProtocolBuf) : HelloProtocolBuf * HelloProtocolBuf :=
  (mkHello (h_name_ other) (h_cached_size_ m) (h_unknown other),
   mkHello (h_name_ m) (h_cached_size_ other) (h_unknown m)).

Definition HelloProtocolBuf_SerializeAsString (m : HelloProtocolBuf) : list Z :=
  SerializeAsString (fst (HelloProtocolBuf_ByteSizeLong m)) (HelloProtocolBuf_InternalSerialize m).
Definition HelloProtocolBuf_ParseFromString (m : HelloProtocolBuf) (bs : list Z) : HelloProtocolBuf :=
  ParseFromString HelloProtocolBuf_Clear HelloProtocolBuf_InternalParse m bs.

(** ** world.pb.h, world.pb.cc *)

Record WorldProtocolBuf : Type := mkWorld {
  w_result_ : Z;
  w_cached_size_ : Z;
  w_unknown : UnknownFieldSet
}.

Definition WorldProtocolBuf_new : WorldProtocolBuf := mkWorld 0 0 uf_empty.
Definition WorldProtocolBuf_result (m : WorldProtocolBuf) : Z := w_result_ m.
Definition WorldProtocolBuf_set_result (m : WorldProtocolBuf) (v : Z) : WorldProtocolBuf :=
  mkWorld (i32 v) (w_cached_size_ m) (w_unknown m).
Definition WorldProtocolBuf_clear_result (m : WorldProtocolBuf) : WorldProtocolBuf := WorldProtocolBuf_set_result m 0.
Definition WorldProtocolBuf_SetCachedSize (m : WorldProtocolBuf) (size : Z) : WorldProtocolBuf :=
  mkWorld (w_result_ m) (i32 size) (w_unknown m).
Definition w_set_unknown (m : WorldProtocolBuf) (u : UnknownFieldSet) : WorldProtocolBuf :=
  mkWorld (w_result_ m) (w_cached_size_ m) u.
Definition WorldProtocolBuf_Clear (m : WorldProtocolBuf) : WorldProtocolBuf := mkWorld 0 (w_cached_size_ m) uf_empty.

(** [ReadVarint32] is converted to the [int32] of the field, and assigned before the
    pointer is looked at. *)
Definition WorldProtocolBuf_field (m : WorldProtocolBuf) (tag : Z) (ptr : list Z) : field_step WorldProtocolBuf :=
  match Z.shiftr tag 3 with
  | 1 => if u8 tag =? 8 then
           match ReadVarint32 ptr with
           | Some (v, ptr) => FieldRead (WorldProtocolBuf_set_result m v) ptr
           | None => FieldFailed (WorldProtocolBuf_set_result m (ReadVarint32_null ptr))
           end
         else FieldUnusual
  | _ => FieldUnusual
  end.
Definition WorldProtocolBuf_InternalParse (m : WorldProtocolBuf) (ptr : list Z)
  : WorldProtocolBuf * option (list Z) :=
  parse_all WorldProtocolBuf_field w_unknown w_set_unknown m ptr.

Definition WorldProtocolBuf_InternalSerialize (m : WorldProtocolBuf) : list Z :=
  (if negb (w_result_ m =? 0) then WriteInt32ToArray 1 (w_result_ m) else []) ++
  (if uf_have (w_unknown m) then uf_serialize (w_unknown m) else []).

Definition WorldProtocolBuf_ByteSizeLong (m : WorldProtocolBuf) : Z * WorldProtocolBuf :=
  let total := 0 in
  let total := if negb (w_result_ m =? 0) then total + Int32SizePlusOne (w_result_ m) else total in
  let total := if uf_have (w_unknown m) then total + uf_size (w_unknown m) else total in
  (total, WorldProtocolBuf_SetCachedSize m total).

Definition WorldProtocolBuf_MergeFrom (m from : WorldProtocolBuf) : WorldProtocolBuf :=
  let m := if negb (w_result_ from =? 0) then WorldProtocolBuf_set_result m (w_result_ from) else m in
  w_set_unknown m (uf_merge (w_unknown m) (w_unknown from)).
Definition WorldProtocolBuf_CopyFrom (m from : WorldProtocolBuf) : WorldProtocolBuf :=
  WorldProtocolBuf_MergeFrom (WorldProtocolBuf_Clear m) from.
Definition WorldProtocolBuf_copy (from : WorldProtocolBuf) : WorldProtocolBuf :=
  mkWorld (w_result_ from) 0 (uf_merge uf_empty (w_unknown from)).
Definition WorldProtocolBuf_InternalSwap (m other : WorldProtocolBuf) : WorldProtocolBuf * WorldProtocolBuf :=
  (mkWorld (w_result_ other) (w_cached_size_ m) (w_unknown other),
   mkWorld (w_result_ m) (w_cached_size_ other) (w_unknown m)).

Definition WorldProtocolBuf_SerializeAsString (m : WorldProtocolBuf) : list Z :=
  SerializeAsString (fst (WorldProtocolBuf_ByteSizeLong m)) (WorldProtocolBuf_InternalSerialize m).
Definition WorldProtocolBuf_ParseFromString (m : WorldProtocolBuf) (bs : list Z) : WorldProtocolBuf :=
  ParseFromString WorldProtocolBuf_Clear WorldProtocolBuf_InternalParse m bs.
End messages.

(** ** Well-formed messages *)

(** The fields are in the range of their types, and the name is empty unless its bit is
    set. *)
Definition base_ok `{PbRuntime} (m : BaseProtocolBuf) : Prop :=
  (0 <= b_magic_ m < 2 ^ 32 /\ 0 <= b_version_ m < 2 ^ 32 /\ 0 <= b_type_ m < 2 ^ 32 /\
   0 <= b_req_id_ m < 2 ^ 32 /\ 0 <= b_data_len_ m < 2 ^ 32) /\
  (b_has_bits_ m = 0 /\ b_srv_name_ m = [] \/ b_has_bits_ m = 1) /\
  Z.of_nat (length (b_srv_name_ m)) <= INT_MAX /\ Z.of_nat (length (b_data_ m)) <= INT_MAX.
Definition hello_ok `{PbRuntime} (m : HelloProtocolBuf) : Prop := Z.of_nat (length (h_name_ m)) <= INT_MAX.
Definition world_ok `{PbRuntime} (m : WorldProtocolBuf) : Prop := - 2 ^ 31 <= w_result_ m < 2 ^ 31.

(** The messages but for the cached size. *)
Definition base_sized `{PbRuntime} (m : BaseProtocolBuf) (c : Z) : BaseProtocolBuf :=
  mkBase (b_has_bits_ m) c (b_srv_name_ m) (b_data_ m) (b_magic_ m) (b_version_ m) (b_type_ m) (b_req_id_ m)
    (b_data_len_ m) (b_unknown m).
Definition hello_sized `{PbRuntime} (m : HelloProtocolBuf) (c : Z) : HelloProtocolBuf :=
  mkHello (h_name_ m) c (h_unknown m).
Definition world_sized `{PbRuntime} (m : WorldProtocolBuf) (c : Z) : WorldProtocolBuf :=
  mkWorld (w_result_ m) c (w_unknown m).

(** ** Lemmas *)

Lemma str_empty_spec s : str_empty s = true <-> s = [].
Proof. by destruct s. Qed.

Section message_facts.
Context `{PbRuntimeLaws}.

Lemma has_srv_name_bits m : base_ok m -> BaseProtocolBuf_has_srv_name m = negb (b_has_bits_ m =? 0).
Proof. intros (_ & [[E _]|E] & _); unfold BaseProtocolBuf_has_srv_name; by rewrite E. Qed.

(** *** The fields move forward *)

Lemma base_field_forward : fields_forward BaseProtocolBuf_field.
Proof.
  intros m tag ptr m' ptr'. unfold BaseProtocolBuf_field.
  destruct (Z.shiftr tag 3) as [|[[[]|[]|]|[[]|[]|]|]|]; try done;
    (case_match; [|done]);
    (destruct (ReadVarint32 ptr) as [[v r]|] eqn:E; [apply ReadVarint32_forward in E; by intros [= _ <-]|done])
    || (destruct (InlineGreedyStringParser ptr) as [[s r]|] eqn:E; [apply StringParser_forward in E|done];
        repeat case_match; try done; intros [= _ <-]; lia).
Qed.

Lemma hello_field_forward : fields_forward HelloProtocolBuf_field.
Proof.
  intros m tag ptr m' ptr'. unfold HelloProtocolBuf_field.
  destruct (Z.shiftr tag 3) as [|[]|]; try done. case_match; [|done].
  destruct (InlineGreedyStringParser ptr) as [[s r]|] eqn:E; [apply StringParser_forward in E|done].
  case_match; [|done]. intros [= _ <-]. lia.
Qed.

Lemma world_field_forward : fields_forward WorldProtocolBuf_field.
Proof.
  intros m tag ptr m' ptr'. unfold WorldProtocolBuf_field.
  destruct (Z.shiftr tag 3) as [|[]|]; try done. case_match; [|done].
  destruct (ReadVarint32 ptr) as [[v r]|] eqn:E; [|done]. apply ReadVarint32_forward in E. by intros [= _ <-].
Qed.

(** *** One field of a serialised message *)

Abbreviation base_loop := (parse_loop BaseProtocolBuf_field b_unknown b_set_unknown).

Lemma base_loop_uint32 f (set : BaseProtocolBuf -> Z -> BaseProtocolBuf) v rest n m m' r :
  (forall ptr v' p, ReadVarint32 ptr = Some (v', p) ->
     BaseProtocolBuf_field m (8 * f) ptr = FieldRead (set m v') p) ->
  1 <= f <= 15 -> 0 <= v < 2 ^ 32 ->
  m' = (if v =? 0 then m else set m v) ->
  base_loop n m' rest = Some r ->
  base_loop (S n) m ((if negb (v =? 0) then WriteUInt32ToArray f v else []) ++ rest) = Some r.
Proof.
  intros Hf Hn Hv -> Hr. destruct (WriteUInt32_read f v rest Hn Hv) as (p & Ht & Hp).
  eapply (parse_loop_field _ _ _ _ _ _ _ _ _ (8 * f) _ p); [| |exact Hr].
  - intros E. destruct (v =? 0); [done|]. split; [done|]. by apply Hf.
  - intros E. by destruct (v =? 0).
Qed.

(** One turn over the [uint32] field [f], whose value is [v]; the message becomes [m']. *)
Ltac read_uint32 f set v m' :=
  eapply (base_loop_uint32 f set v _ _ _ m');
  [by intros ? ? ? E; unfold BaseProtocolBuf_field; rewrite E|lia|done
  |cbv delta [BaseProtocolBuf_set_magic BaseProtocolBuf_set_version BaseProtocolBuf_set_type
     BaseProtocolBuf_set_req_id BaseProtocolBuf_set_data_len] beta; rewrite uwrap_small by done; by destruct (Z.eqb_spec v 0) as [-> |]|].

(** Parsing what [_InternalSerialize] wrote, into a cleared message. *)
Lemma base_parse_serialize m c : base_ok m -> VerifyUTF8 (b_srv_name_ m) = true -> b_unknown m = uf_empty ->
  base_loop 8 (mkBase 0 c [] [] 0 0 0 0 0 uf_empty) (BaseProtocolBuf_InternalSerialize m) =
    Some (base_sized m c, Some []).
Proof.
  intros Hok Hutf Hu. pose proof (has_srv_name_bits m Hok) as Hhas.
  destruct Hok as ((H1 & H2 & H3 & H4 & H5) & Hbits & Hs & Hd).
  unfold BaseProtocolBuf_InternalSerialize, BaseProtocolBuf_magic, BaseProtocolBuf_version,
    BaseProtocolBuf_type, BaseProtocolBuf_req_id, BaseProtocolBuf_data_len.
  rewrite Hu, uf_empty_none, Hhas.
  read_uint32 1 BaseProtocolBuf_set_magic (b_magic_ m)
    (mkBase 0 c [] [] (b_magic_ m) 0 0 0 0 uf_empty).
  read_uint32 2 BaseProtocolBuf_set_version (b_version_ m)
    (mkBase 0 c [] [] (b_magic_ m) (b_version_ m) 0 0 0 uf_empty).
  read_uint32 3 BaseProtocolBuf_set_type (b_type_ m)
    (mkBase 0 c [] [] (b_magic_ m) (b_version_ m) (b_type_ m) 0 0 uf_empty).
  read_uint32 4 BaseProtocolBuf_set_req_id (b_req_id_ m)
    (mkBase 0 c [] [] (b_magic_ m) (b_version_ m) (b_type_ m) (b_req_id_ m) 0 uf_empty).
  read_uint32 5 BaseProtocolBuf_set_data_len (b_data_len_ m)
    (mkBase 0 c [] [] (b_magic_ m) (b_version_ m) (b_type_ m) (b_req_id_ m) (b_data_len_ m) uf_empty).
  destruct (WriteString_read 6 (b_srv_name_ m)
              ((if negb (str_empty (b_data_ m)) then WriteBytesMaybeAliased 7 (b_data_ m) else []) ++ [])
              ltac:(lia) Hs) as (p & Ht & Hp).
  eapply (parse_loop_field _ _ _ _ _ _ _ _
            (mkBase (b_has_bits_ m) c (b_srv_name_ m) [] (b_magic_ m) (b_version_ m) (b_type_ m) (b_req_id_ m)
               (b_data_len_ m) uf_empty) 50 _ p).
  { intros Hb. split; [exact Ht|]. unfold BaseProtocolBuf_field. rewrite Hp, Hutf.
    destruct Hbits as [[E _]|E]; rewrite E in *; [done|reflexivity]. }
  { intros Hb. destruct Hbits as [[E1 E2]|E]; [by rewrite E1, E2|by rewrite E in Hb]. }
  destruct (WriteBytes_read 7 (b_data_ m) [] ltac:(lia) Hd) as (q & Ht' & Hq).
  eapply (parse_loop_field _ _ _ _ _ _ _ _ (base_sized m c) 58 _ q).
  { intros Hb. split; [exact Ht'|]. unfold BaseProtocolBuf_field, base_sized. by rewrite Hq, Hu. }
  { intros Hb. apply negb_false_iff, str_empty_spec in Hb. unfold BaseProtocolBuf_data in Hb. unfold base_sized. by rewrite Hb, Hu. }
  reflexivity.
Qed.

Lemma hello_parse_serialize m c : hello_ok m -> VerifyUTF8 (h_name_ m) = true -> h_unknown m = uf_empty ->
  parse_loop HelloProtocolBuf_field h_unknown h_set_unknown 2 (mkHello [] c uf_empty)
    (HelloProtocolBuf_InternalSerialize m) = Some (hello_sized m c, Some []).
Proof.
  intros Hok Hutf Hu. unfold HelloProtocolBuf_InternalSerialize. rewrite Hu, uf_empty_none.
  destruct (WriteString_read 1 (h_name_ m) [] ltac:(lia) Hok) as (p & Ht & Hp).
  eapply (parse_loop_field _ _ _ _ _ _ _ _ (hello_sized m c) 10 _ p).
  { intros Hb. split; [exact Ht|]. unfold HelloProtocolBuf_field, hello_sized. by rewrite Hp, Hutf, Hu. }
  { intros Hb. apply negb_false_iff, str_empty_spec in Hb. unfold hello_sized. by rewrite Hb, Hu. }
  reflexivity.
Qed.

Lemma world_parse_serialize m c : world_ok m -> w_unknown m = uf_empty ->
  parse_loop WorldProtocolBuf_field w_unknown w_set_unknown 2 (mkWorld 0 c uf_empty)
    (WorldProtocolBuf_InternalSerialize m) = Some (world_sized m c, Some []).
Proof.
  intros Hok Hu. unfold WorldProtocolBuf_InternalSerialize. rewrite Hu, uf_empty_none.
  destruct (WriteInt32_read 1 (w_result_ m) [] ltac:(lia) Hok) as (p & Ht & Hp).
  eapply (parse_loop_field _ _ _ _ _ _ _ _ (world_sized m c) 8 _ p).
  { intros Hb. split; [exact Ht|]. unfold WorldProtocolBuf_field, WorldProtocolBuf_set_result, world_sized.
    rewrite Hp, Hu. cbn [w_cached_size_ w_unknown]. by rewrite swrap_uwrap, (swrap_small 32) by (lia || exact Hok). }
  { intros Hb. apply negb_false_iff, Z.eqb_eq in Hb. unfold world_sized. by rewrite Hb, Hu. }
  reflexivity.
Qed.

Lemma base_Clear_ok m : base_ok m -> BaseProtocolBuf_Clear m = mkBase 0 (b_cached_size_ m) [] [] 0 0 0 0 0 uf_empty.
Proof.
  intros (_ & [[Eb Es]|Eb] & _); unfold BaseProtocolBuf_Clear; rewrite Eb; [by rewrite Es|reflexivity].
Qed.

(** *** Sizes *)

Lemma length_if (b : bool) (l : list Z) n :
  (b = true -> Z.of_nat (length l) = n) -> Z.of_nat (length (if b then l else [])) = if b then n else 0.
Proof. destruct b; auto. Qed.

Lemma if_add (b : bool) t x : (if b then t + x else t) = t + (if b then x else 0).
Proof. destruct b; lia. Qed.

Lemma base_size_exact m : base_ok m ->
  Z.of_nat (length (BaseProtocolBuf_InternalSerialize m)) = fst (BaseProtocolBuf_ByteSizeLong m).
Proof.
  intros ((H1 & H2 & H3 & H4 & H5) & _ & Hs & Hd).
  unfold BaseProtocolBuf_InternalSerialize, BaseProtocolBuf_ByteSizeLong, BaseProtocolBuf_magic,
    BaseProtocolBuf_version, BaseProtocolBuf_type, BaseProtocolBuf_req_id, BaseProtocolBuf_data_len,
    BaseProtocolBuf_has_srv_name, BaseProtocolBuf_srv_name, BaseProtocolBuf_data.
  rewrite !length_app, !Nat2Z.inj_add. cbn [fst].
  rewrite (length_if _ (WriteUInt32ToArray 1 _) _ (fun _ => WriteUInt32_size 1 _ ltac:(lia) H1)).
  rewrite (length_if _ (WriteUInt32ToArray 2 _) _ (fun _ => WriteUInt32_size 2 _ ltac:(lia) H2)).
  rewrite (length_if _ (WriteUInt32ToArray 3 _) _ (fun _ => WriteUInt32_size 3 _ ltac:(lia) H3)).
  rewrite (length_if _ (WriteUInt32ToArray 4 _) _ (fun _ => WriteUInt32_size 4 _ ltac:(lia) H4)).
  rewrite (length_if _ (WriteUInt32ToArray 5 _) _ (fun _ => WriteUInt32_size 5 _ ltac:(lia) H5)).
  rewrite (length_if _ (WriteStringMaybeAliased 6 _) _ (fun _ => WriteString_size 6 _ ltac:(lia) Hs)).
  rewrite (length_if _ (WriteBytesMaybeAliased 7 _) _ (fun _ => WriteBytes_size 7 _ ltac:(lia) Hd)).
  rewrite (length_if _ (uf_serialize _) _ (fun _ => uf_size_length _)).
  cbv zeta. rewrite <- !Z.add_assoc, !if_add. lia.
Qed.

Lemma hello_size_exact m : hello_ok m ->
  Z.of_nat (length (HelloProtocolBuf_InternalSerialize m)) = fst (HelloProtocolBuf_ByteSizeLong m).
Proof.
  intros Hs. unfold HelloProtocolBuf_InternalSerialize, HelloProtocolBuf_ByteSizeLong.
  rewrite length_app, Nat2Z.inj_add. cbn [fst].
  rewrite (length_if _ (WriteStringMaybeAliased 1 _) _ (fun _ => WriteString_size 1 _ ltac:(lia) Hs)).
  rewrite (length_if _ (uf_serialize _) _ (fun _ => uf_size_length _)).
  cbv zeta. rewrite <- !Z.add_assoc, !if_add. lia.
Qed.

Lemma world_size_exact m : world_ok m ->
  Z.of_nat (length (WorldProtocolBuf_InternalSerialize m)) = fst (WorldProtocolBuf_ByteSizeLong m).
Proof.
  intros Hs. unfold WorldProtocolBuf_InternalSerialize, WorldProtocolBuf_ByteSizeLong.
  rewrite length_app, Nat2Z.inj_add. cbn [fst].
  rewrite (length_if _ (WriteInt32ToArray 1 _) _ (fun _ => WriteInt32_size 1 _ ltac:(lia) Hs)).
  rewrite (length_if _ (uf_serialize _) _ (fun _ => uf_size_length _)).
  cbv zeta. rewrite !if_add. lia.
Qed.

(** *** What parsing preserves *)

Lemma base_ok_set_srv_name m s : base_ok m -> Z.of_nat (length s) <= INT_MAX -> base_ok (BaseProtocolBuf_set_srv_name m s).
Proof. intros (Hr & [[Eb _]|Eb] & _ & Hd) Hs; unfold base_ok; cbn; rewrite Eb; cbn; auto 10. Qed.

Lemma null_text_bound s bs : Z.of_nat (length s) <= INT_MAX -> Z.of_nat (length bs) <= INT_MAX ->
  Z.of_nat (length (StringParser_null s bs)) <= INT_MAX.
Proof. pose proof (StringParser_null_length s bs). lia. Qed.

Lemma base_field_ok m tag ptr m' ptr' : Z.of_nat (length ptr) <= INT_MAX -> base_ok m ->
  BaseProtocolBuf_field m tag ptr = FieldRead m' ptr' \/ BaseProtocolBuf_field m tag ptr = FieldFailed m' ->
  base_ok m'.
Proof.
  intros Hlen Hok. assert (Hok' := Hok). destruct Hok' as (Hr & Hb & Hs & Hd).
  unfold BaseProtocolBuf_field. cbv zeta.
  destruct (Z.shiftr tag 3) as [|[[[]|[]|]|[[]|[]|]|]|]; try (intros []; done);
    (case_match; [|intros []; done]).
  all: pose proof (uwrap_range 32 (ReadVarint32_null ptr) ltac:(lia)) as Hnull.
  all: try (destruct (ReadVarint32 ptr) as [[v r]|] eqn:E; intros [[= <-]|[= <-]]; try done;
    unfold base_ok, BaseProtocolBuf_set_magic, BaseProtocolBuf_set_version, BaseProtocolBuf_set_type,
      BaseProtocolBuf_set_req_id, BaseProtocolBuf_set_data_len;
    cbn [b_magic_ b_version_ b_type_ b_req_id_ b_data_len_ b_has_bits_ b_srv_name_ b_data_];
    try pose proof (uwrap_range 32 v ltac:(lia)); tauto).
  all: destruct (InlineGreedyStringParser ptr) as [[s r]|] eqn:E; [apply StringParser_forward in E|].
  - intros [[= <-]|[= <-]]; try done. unfold base_ok. cbn. repeat split; try tauto. lia.
  - intros [|[= <-]]; [done|]. pose proof (null_text_bound (b_data_ m) ptr Hd Hlen).
    unfold base_ok. cbn. repeat split; try tauto.
  - case_match; intros [[= <-]|[= <-]]; try done; apply base_ok_set_srv_name; (done || lia).
  - intros [|[= <-]]; [done|]. apply base_ok_set_srv_name; [done|]. by apply null_text_bound.
Qed.

Lemma hello_field_ok m tag ptr m' ptr' : Z.of_nat (length ptr) <= INT_MAX -> hello_ok m ->
  HelloProtocolBuf_field m tag ptr = FieldRead m' ptr' \/ HelloProtocolBuf_field m tag ptr = FieldFailed m' ->
  hello_ok m'.
Proof.
  intros Hlen Hok. unfold HelloProtocolBuf_field. destruct (Z.shiftr tag 3) as [|[]|]; try (intros []; done).
  case_match; [|intros []; done].
  destruct (InlineGreedyStringParser ptr) as [[s r]|] eqn:E;
    [apply StringParser_forward in E|intros [|[= <-]]; [done|by apply null_text_bound]].
  case_match; intros [[= <-]|[= <-]]; try done; unfold hello_ok; cbn; lia.
Qed.

Lemma world_field_ok m tag ptr m' ptr' : world_ok m ->
  WorldProtocolBuf_field m tag ptr = FieldRead m' ptr' \/ WorldProtocolBuf_field m tag ptr = FieldFailed m' ->
  world_ok m'.
Proof.
  intros Hok. unfold WorldProtocolBuf_field. destruct (Z.shiftr tag 3) as [|[]|]; try (intros []; done).
  case_match; [|intros []; done].
  destruct (ReadVarint32 ptr) as [[v r]|]; intros [[= <-]|[= <-]]; try done;
    apply (swrap_range 32); lia.
Qed.

(** The loop gives a result, the one [parse_all] returns, and what the fields preserve
    holds of it. *)
Lemma parse_all_ok {M} (fields : M -> Z -> list Z -> field_step M) unknown set_unknown (P : M -> Prop) m ptr :
  fields_forward fields ->
  (forall m tag ptr m' ptr', Z.of_nat (length ptr) <= INT_MAX -> P m ->
     fields m tag ptr = FieldRead m' ptr' \/ fields m tag ptr = FieldFailed m' -> P m') ->
  (forall m u, P m -> P (set_unknown m u)) ->
  Z.of_nat (length ptr) <= INT_MAX -> P m ->
  parse_loop fields unknown set_unknown (S (length ptr)) m ptr = Some (parse_all fields unknown set_unknown m ptr) /\
  P (fst (parse_all fields unknown set_unknown m ptr)).
Proof.
  intros Hf HP HU Hl Hm. unfold parse_all.
  destruct (parse_loop_total fields unknown set_unknown Hf (S (length ptr)) m ptr ltac:(lia)) as [[m' p] Hr].
  rewrite Hr. split; [done|]. cbn [fst].
  refine (parse_loop_invariant fields unknown set_unknown Hf P (length ptr) _ m ptr m' p _ HU Hr ltac:(lia) Hm).
  intros m0 tag q m1 q1 Hq. apply HP. lia.
Qed.
End message_facts.

Section message_theorems.
Context `{PbRuntimeLaws}.

(** A message whose strings have no zero byte, and whose name is not the empty string,
    is serialised without a zero byte. *)
Lemma base_serialize_nonzero m : base_ok m -> b_unknown m = uf_empty ->
  (b_has_bits_ m = 1 -> b_srv_name_ m <> []) ->
  Forall (fun b => b <> 0) (b_srv_name_ m) -> Forall (fun b => b <> 0) (b_data_ m) ->
  Forall (fun b => b <> 0) (BaseProtocolBuf_InternalSerialize m).
Proof.
  intros Hok Hu Hne Hzs Hzd. pose proof (has_srv_name_bits m Hok) as Hhas.
  destruct Hok as ((H1 & H2 & H3 & H4 & H5) & Hbits & Hs & Hd).
  unfold BaseProtocolBuf_InternalSerialize, BaseProtocolBuf_magic, BaseProtocolBuf_version,
    BaseProtocolBuf_type, BaseProtocolBuf_req_id, BaseProtocolBuf_data_len, BaseProtocolBuf_data,
    BaseProtocolBuf_srv_name.
  rewrite Hu, uf_empty_none, Hhas.
  rewrite !Forall_app. repeat split; try done.
  1-5: match goal with |- context [?v =? 0] => destruct (Z.eqb_spec v 0); [constructor|] end;
       apply WriteUInt32_nonzero; lia.
  - destruct Hbits as [[E _]|E]; rewrite E in *; [constructor|]. apply WriteString_nonzero; auto. lia.
  - destruct (str_empty (b_data_ m)) eqn:E; [constructor|]. apply WriteBytes_nonzero; auto; [lia|].
    intros E'. by rewrite E' in E.
Qed.

(** Setting a field that is already zero only when the value is not zero. *)
Lemma set_unless_zero {A} (set : A -> Z -> A) (m : A) v :
  (v = 0 -> set m v = m) -> (if negb (v =? 0) then set m v else m) = set m v.
Proof. intros E. destruct (Z.eqb_spec v 0); [|done]. cbn [negb]. by rewrite E. Qed.

Lemma base_CopyFrom b0 b : base_ok b -> base_ok b0 ->
  BaseProtocolBuf_CopyFrom b0 b = base_sized b (b_cached_size_ b0).
Proof.
  intros Hb Hb0. pose proof (has_srv_name_bits b Hb) as Hhas.
  destruct Hb as ((H1 & H2 & H3 & H4 & H5) & Hbits & _ & _).
  unfold BaseProtocolBuf_CopyFrom, BaseProtocolBuf_MergeFrom. rewrite Hhas, (base_Clear_ok b0 Hb0).
  assert ((if negb (b_has_bits_ b =? 0)
           then BaseProtocolBuf_set_srv_name (mkBase 0 (b_cached_size_ b0) [] [] 0 0 0 0 0 uf_empty) (b_srv_name_ b)
           else mkBase 0 (b_cached_size_ b0) [] [] 0 0 0 0 0 uf_empty) =
          mkBase (b_has_bits_ b) (b_cached_size_ b0) (b_srv_name_ b) [] 0 0 0 0 0 uf_empty) as ->
    by (destruct Hbits as [[-> ->]| ->]; done).
  assert ((if negb (str_empty (b_data_ b))
           then BaseProtocolBuf_set_data
                  (mkBase (b_has_bits_ b) (b_cached_size_ b0) (b_srv_name_ b) [] 0 0 0 0 0 uf_empty) (b_data_ b)
           else mkBase (b_has_bits_ b) (b_cached_size_ b0) (b_srv_name_ b) [] 0 0 0 0 0 uf_empty) =
          mkBase (b_has_bits_ b) (b_cached_size_ b0) (b_srv_name_ b) (b_data_ b) 0 0 0 0 0 uf_empty) as ->
    by (by destruct (b_data_ b)).
  cbv zeta.
  rewrite (set_unless_zero BaseProtocolBuf_set_magic) by (intros ->; reflexivity).
  rewrite (set_unless_zero BaseProtocolBuf_set_version) by (intros ->; reflexivity).
  rewrite (set_unless_zero BaseProtocolBuf_set_type) by (intros ->; reflexivity).
  rewrite (set_unless_zero BaseProtocolBuf_set_req_id) by (intros ->; reflexivity).
  rewrite (set_unless_zero BaseProtocolBuf_set_data_len) by (intros ->; reflexivity).
  unfold b_set_unknown, base_sized, BaseProtocolBuf_set_magic, BaseProtocolBuf_set_version, BaseProtocolBuf_set_type,
    BaseProtocolBuf_set_req_id, BaseProtocolBuf_set_data_len.
  cbn [b_has_bits_ b_cached_size_ b_srv_name_ b_data_ b_magic_ b_version_ b_type_ b_req_id_ b_data_len_ b_unknown].
  by rewrite uf_merge_empty, !uwrap_small by done.
Qed.

(** C20: What is serialised is parsed back. Parsing the bytes of a well-formed message
    whose strings are UTF-8 and that has no unknown fields, into any message of the
    class, gives that message again (the cached size apart) and uses up the input; for
    each of the three message classes. *)
Theorem message_round_trip (b b0 : BaseProtocolBuf) (h h0 : HelloProtocolBuf) (w w0 : WorldProtocolBuf) :
  base_ok b -> base_ok b0 -> VerifyUTF8 (b_srv_name_ b) = true -> b_unknown b = uf_empty ->
  hello_ok h -> VerifyUTF8 (h_name_ h) = true -> h_unknown h = uf_empty ->
  world_ok w -> w_unknown w = uf_empty ->
  BaseProtocolBuf_InternalParse (BaseProtocolBuf_Clear b0) (BaseProtocolBuf_InternalSerialize b) =
    (base_sized b (b_cached_size_ b0), Some []) /\
  HelloProtocolBuf_InternalParse (HelloProtocolBuf_Clear h0) (HelloProtocolBuf_InternalSerialize h) =
    (hello_sized h (h_cached_size_ h0), Some []) /\
  WorldProtocolBuf_InternalParse (WorldProtocolBuf_Clear w0) (WorldProtocolBuf_InternalSerialize w) =
    (world_sized w (w_cached_size_ w0), Some []).
Proof.
  intros Hb Hb0 Hub Hfb Hh Huh Hfh Hw Hfw. split; [|split].
  - rewrite base_Clear_ok by done.
    apply (parse_all_run _ _ _ base_field_forward 8). by apply base_parse_serialize.
  - apply (parse_all_run _ _ _ hello_field_forward 2). by apply hello_parse_serialize.
  - apply (parse_all_run _ _ _ world_field_forward 2). by apply world_parse_serialize.
Qed.

(** [ByteSizeLong] is exactly the number of bytes [_InternalSerialize] writes, and
    becomes the cached size. *)
Theorem ByteSizeLong_exact (b : BaseProtocolBuf) (h : HelloProtocolBuf) (w : WorldProtocolBuf) :
  base_ok b -> hello_ok h -> world_ok w ->
  (let (n, b') := BaseProtocolBuf_ByteSizeLong b in
   n = Z.of_nat (length (BaseProtocolBuf_InternalSerialize b)) /\ b' = base_sized b (i32 n)) /\
  (let (n, h') := HelloProtocolBuf_ByteSizeLong h in
   n = Z.of_nat (length (HelloProtocolBuf_InternalSerialize h)) /\ h' = hello_sized h (i32 n)) /\
  (let (n, w') := WorldProtocolBuf_ByteSizeLong w in
   n = Z.of_nat (length (WorldProtocolBuf_InternalSerialize w)) /\ w' = world_sized w (i32 n)).
Proof.
  intros Hb Hh Hw.
  rewrite (base_size_exact b Hb), (hello_size_exact h Hh), (world_size_exact w Hw). repeat split.
Qed.

(** C31: Parsing never diverges and never leaves the types. For every input of at most
    [INT_MAX] bytes, however malformed, the loop ends within the turns it is given (one
    for each byte and one more), and the message it leaves is well formed. *)
Theorem InternalParse_total (b : BaseProtocolBuf) (h : HelloProtocolBuf) (w : WorldProtocolBuf) (bs : list Z) :
  Z.of_nat (length bs) <= INT_MAX -> base_ok b -> hello_ok h -> world_ok w ->
  (parse_loop BaseProtocolBuf_field b_unknown b_set_unknown (S (length bs)) b bs =
     Some (BaseProtocolBuf_InternalParse b bs) /\ base_ok (fst (BaseProtocolBuf_InternalParse b bs))) /\
  (parse_loop HelloProtocolBuf_field h_unknown h_set_unknown (S (length bs)) h bs =
     Some (HelloProtocolBuf_InternalParse h bs) /\ hello_ok (fst (HelloProtocolBuf_InternalParse h bs))) /\
  (parse_loop WorldProtocolBuf_field w_unknown w_set_unknown (S (length bs)) w bs =
     Some (WorldProtocolBuf_InternalParse w bs) /\ world_ok (fst (WorldProtocolBuf_InternalParse w bs))).
Proof.
  intros Hl Hb Hh Hw. split; [|split].
  - by apply parse_all_ok; [apply base_field_forward|apply base_field_ok| | |].
  - by apply parse_all_ok; [apply hello_field_forward|apply hello_field_ok| | |].
  - by apply parse_all_ok; [apply world_field_forward|intros; by eapply world_field_ok| | |].
Qed.

(** [CopyFrom] and the copy constructor agree: both give the message copied from,
    whatever the target held before. *)
Theorem CopyFrom_copy (b b0 : BaseProtocolBuf) (h h0 : HelloProtocolBuf) (w w0 : WorldProtocolBuf) :
  base_ok b -> base_ok b0 -> world_ok w ->
  (BaseProtocolBuf_CopyFrom b0 b = base_sized b (b_cached_size_ b0) /\ BaseProtocolBuf_copy b = base_sized b 0) /\
  (HelloProtocolBuf_CopyFrom h0 h = hello_sized h (h_cached_size_ h0) /\ HelloProtocolBuf_copy h = hello_sized h 0) /\
  (WorldProtocolBuf_CopyFrom w0 w = world_sized w (w_cached_size_ w0) /\ WorldProtocolBuf_copy w = world_sized w 0).
Proof.
  intros Hb Hb0 Hw. split; [split|split; split].
  - by apply base_CopyFrom.
  - pose proof (has_srv_name_bits b Hb) as Hhas. destruct Hb as (_ & Hbits & _).
    unfold BaseProtocolBuf_copy, base_sized. rewrite Hhas, uf_merge_empty.
    assert ((if negb (b_has_bits_ b =? 0) then b_srv_name_ b else []) = b_srv_name_ b) as ->
      by (destruct Hbits as [[-> ->]| ->]; done).
    by destruct b as [? ? ? [] ? ? ? ? ? ?].
  - destruct h as [[] ? ?]; unfold HelloProtocolBuf_CopyFrom, HelloProtocolBuf_MergeFrom, h_set_unknown; cbn;
      by rewrite uf_merge_empty.
  - destruct h as [[] ? ?]; unfold HelloProtocolBuf_copy, hello_sized; cbn; by rewrite uf_merge_empty.
  - unfold WorldProtocolBuf_CopyFrom, WorldProtocolBuf_MergeFrom, w_set_unknown, WorldProtocolBuf_set_result, world_sized.
    destruct (Z.eqb_spec (w_result_ w) 0) as [E|E]; cbn [negb WorldProtocolBuf_Clear w_result_ w_cached_size_ w_unknown];
      rewrite uf_merge_empty; [by rewrite E|]. by rewrite (swrap_small 32) by (lia || exact Hw).
  - unfold WorldProtocolBuf_copy, world_sized. by rewrite uf_merge_empty.
Qed.
End message_theorems.

(** ** Witnesses *)

Definition sample_base : BaseProtocolBuf := mkBase 1 0 [104; 105] [10; 1; 120] 170 1 5 300 3 [].
Definition sample_hello : HelloProtocolBuf := mkHello [116; 105; 116] 0 [].
Definition sample_world : WorldProtocolBuf := mkWorld (-7) 0 [].

Lemma sample_ok : base_ok sample_base /\ base_ok BaseProtocolBuf_new /\ hello_ok sample_hello /\ world_ok sample_world.
Proof.
  split; [|split; [|split]]; [| |eval_closed|eval_closed]; (split; [eval_closed|]).
  - split; [by right|]. split; eval_closed.
  - split; [by left|]. split; eval_closed.
Qed.

Lemma message_round_trip_witness :
  HelloProtocolBuf_InternalSerialize sample_hello = [10; 3; 116; 105; 116] /\
  BaseProtocolBuf_InternalParse (BaseProtocolBuf_Clear BaseProtocolBuf_new)
    (BaseProtocolBuf_InternalSerialize sample_base) = (sample_base, Some []).
Proof.
  split; [reflexivity|]. destruct sample_ok as (H1 & H2 & H3 & H4).
  apply (message_round_trip sample_base BaseProtocolBuf_new sample_hello HelloProtocolBuf_new
           sample_world WorldProtocolBuf_new H1 H2 eq_refl eq_refl H3 eq_refl eq_refl H4 eq_refl).
Defined.

Lemma ByteSizeLong_exact_witness :
  fst (WorldProtocolBuf_ByteSizeLong sample_world) = 11 /\
  fst (WorldProtocolBuf_ByteSizeLong sample_world) =
    Z.of_nat (length (WorldProtocolBuf_InternalSerialize sample_world)).
Proof.
  split; [reflexivity|]. destruct sample_ok as (H1 & H2 & H3 & H4).
  destruct (ByteSizeLong_exact sample_base sample_hello sample_world H1 H3 H4) as (_ & _ & E).
  exact (proj1 E).
Defined.

(** A truncated name: the parse fails and leaves the bit of the name set. *)
Lemma InternalParse_total_witness :
  parse_loop BaseProtocolBuf_field b_unknown b_set_unknown 6 BaseProtocolBuf_new [8; 170; 1; 50; 9] =
    Some (mkBase 1 0 [] [] 170 0 0 0 0 [], None).
Proof.
  destruct sample_ok as (H1 & H2 & H3 & H4).
  exact (proj1 (proj1 (InternalParse_total BaseProtocolBuf_new sample_hello sample_world [8; 170; 1; 50; 9]
           ltac:(eval_closed) H2 H3 H4))).
Defined.

Lemma CopyFrom_copy_witness : BaseProtocolBuf_CopyFrom BaseProtocolBuf_new sample_base = sample_base.
Proof.
  destruct sample_ok as (H1 & H2 & H3 & H4).
  apply (CopyFrom_copy sample_base BaseProtocolBuf_new sample_hello HelloProtocolBuf_new sample_world
           WorldProtocolBuf_new H1 H2 H4).
Defined.
