(* ===== verification/PbSchema.v ===== *)
(** * The generated classes against their schema

    A generated file carries the description of its messages twice: as the code of their
    methods, and as the serialised descriptor from which the runtime answers questions about
    them. Here the descriptor is decoded (by the wire format, with the field numbers of
    descriptor.proto), and it is compared with the .proto source and with the code: the
    methods must be what a reader of the schema alone would do. That reader is
    [ref_serialize], [ref_size] and [ref_field]. *)

From stdpp Require Import base numbers list strings.
From Stdlib Require Import Lia ZArith.
From S2P Require Import Prelude PbRuntime PbMessages.
Open Scope string_scope.
Open Scope Z_scope.

(** ** Schemas *)

Inductive pb_type : Type := TInt32 | TUInt32 | TString | TBytes.
Record pb_field : Type := mkField { pf_name : list Z; pf_number : Z; pf_type : pb_type; pf_optional : bool }.
Record pb_message : Type := mkMessage { pm_name : list Z; pm_fields : list pb_field }.

#[export] Instance pb_type_eq_dec : EqDecision pb_type.
Proof. solve_decision. Defined.

(** The bytes of a text. *)
Fixpoint pb_str (s : string) : list Z :=
  match s with
  | EmptyString => []
  | String c s => Z.of_N (Ascii.N_of_ascii c) :: pb_str s
  end.

(** ** The .proto sources *)

Definition base_proto : pb_message := mkMessage (pb_str "BaseProtocolBuf")
  [ mkField (pb_str "magic") 1 TUInt32 false;
    mkField (pb_str "version") 2 TUInt32 false;
    mkField (pb_str "type") 3 TUInt32 false;
    mkField (pb_str "req_id") 4 TUInt32 false;
    mkField (pb_str "data_len") 5 TUInt32 false;
    mkField (pb_str "srv_name") 6 TString true;
    mkField (pb_str "data") 7 TBytes false ].
Definition hello_proto : pb_message := mkMessage (pb_str "HelloProtocolBuf")
  [ mkField (pb_str "name") 1 TString false ].
Definition world_proto : pb_message := mkMessage (pb_str "WorldProtocolBuf")
  [ mkField (pb_str "result") 1 TInt32 false ].

(** ** The descriptors in the generated files *)

Definition descriptor_table_protodef_base_2eproto : list Z :=
  [10; 10] ++ pb_str "base.proto" ++ [34; 147; 1; 10; 15] ++ pb_str "BaseProtocolBuf" ++ [18; 13; 10; 5] ++
  pb_str "magic" ++ [24; 1; 32; 1; 40; 13; 18; 15; 10; 7] ++ pb_str "version" ++ [24; 2; 32; 1; 40; 13; 18; 12; 10; 4] ++
  pb_str "type" ++ [24; 3; 32; 1; 40; 13; 18; 14; 10; 6] ++ pb_str "req_id" ++ [24; 4; 32; 1; 40; 13; 18; 16; 10; 8] ++
  pb_str "data_len" ++ [24; 5; 32; 1; 40; 13; 18; 21; 10; 8] ++ pb_str "srv_name" ++
  [24; 6; 32; 1; 40; 9; 72; 0; 136; 1; 1; 18; 12; 10; 4] ++ pb_str "data" ++ [24; 7; 32; 1; 40; 12; 66; 11; 10; 9] ++
  pb_str "_srv_name" ++ [98; 6] ++ pb_str "proto3".
Definition descriptor_table_protodef_hello_2eproto : list Z :=
  [10; 11] ++ pb_str "hello.proto" ++ [34; 32; 10; 16] ++ pb_str "HelloProtocolBuf" ++ [18; 12; 10; 4] ++
  pb_str "name" ++ [24; 1; 32; 1; 40; 9; 98; 6] ++ pb_str "proto3".
Definition descriptor_table_protodef_world_2eproto : list Z :=
  [10; 11] ++ pb_str "world.proto" ++ [34; 34; 10; 16] ++ pb_str "WorldProtocolBuf" ++ [18; 14; 10; 6] ++
  pb_str "result" ++ [24; 1; 32; 1; 40; 5; 98; 6] ++ pb_str "proto3".

(** What a [DescriptorTable] says besides: the size of the descriptor and the file name. *)
Record DescriptorTable : Type := mkTable { dt_size : Z; dt_descriptor : list Z; dt_filename : list Z }.
Definition descriptor_table_base_2eproto : DescriptorTable :=
  mkTable 170 descriptor_table_protodef_base_2eproto (pb_str "base.proto").
Definition descriptor_table_hello_2eproto : DescriptorTable :=
  mkTable 55 descriptor_table_protodef_hello_2eproto (pb_str "hello.proto").
Definition descriptor_table_world_2eproto : DescriptorTable :=
  mkTable 57 descriptor_table_protodef_world_2eproto (pb_str "world.proto").

(** ** Decoding a descriptor *)

(** The fields of a serialised message in order: a number with a varint or with bytes. *)
Fixpoint wire_fields (fuel : nat) (bs : list Z) : option (list (Z * (Z + list Z))) :=
  match fuel, bs with
  | _, [] => Some []
  | O, _ => None
  | S fuel, _ =>
      match read_varint 5 bs with
      | None => None
      | Some (tag, bs) =>
          match Z.land tag 7 with
          | 0 => match read_varint 10 bs with
                 | None => None
                 | Some (v, bs) => option_map (cons (Z.shiftr tag 3, inl v)) (wire_fields fuel bs)
                 end
          | 2 => match read_delimited bs with
                 | None => None
                 | Some (s, bs) => option_map (cons (Z.shiftr tag 3, inr s)) (wire_fields fuel bs)
                 end
          | _ => None
          end
      end
  end.
Definition wire_message (bs : list Z) : option (list (Z * (Z + list Z))) := wire_fields (length bs) bs.

(** The last value of a field counts; of a repeated one, all of them. *)
Definition int_of (n : Z) (fs : list (Z * (Z + list Z))) : option Z :=
  fold_left (fun a f => match f with (k, inl v) => if k =? n then Some v else a | _ => a end) fs None.
Definition bytes_of (n : Z) (fs : list (Z * (Z + list Z))) : option (list Z) :=
  fold_left (fun a f => match f with (k, inr s) => if k =? n then Some s else a | _ => a end) fs None.
Definition all_bytes_of (n : Z) (fs : list (Z * (Z + list Z))) : list (list Z) :=
  flat_map (fun f => match f with (k, inr s) => if k =? n then [s] else [] | _ => [] end) fs.

Fixpoint all_some {A B} (f : A -> option B) (l : list A) : option (list B) :=
  match l with
  | [] => Some []
  | x :: l => match f x, all_some f l with Some y, Some ys => Some (y :: ys) | _, _ => None end
  end.

(** FieldDescriptorProto: name = 1, number = 3, label = 4 (1 is optional), type = 5,
    proto3_optional = 17. *)
Definition decode_field (bs : list Z) : option pb_field :=
  match wire_message bs with
  | None => None
  | Some fs =>
      match bytes_of 1 fs, int_of 3 fs, int_of 4 fs,
            match int_of 5 fs with
            | Some 5 => Some TInt32 | Some 13 => Some TUInt32 | Some 9 => Some TString | Some 12 => Some TBytes
            | _ => None end with
      | Some name, Some number, Some 1, Some t =>
          Some (mkField name number t match int_of 17 fs with Some 1 => true | _ => false end)
      | _, _, _, _ => None
      end
  end.

(** DescriptorProto: name = 1, field = 2. *)
Definition decode_message (bs : list Z) : option pb_message :=
  match wire_message bs with
  | None => None
  | Some fs =>
      match bytes_of 1 fs, all_some decode_field (all_bytes_of 2 fs) with
      | Some name, Some fields => Some (mkMessage name fields)
      | _, _ => None
      end
  end.

(** FileDescriptorProto: name = 1, message_type = 4, syntax = 12. *)
Definition decode_file (bs : list Z) : option (list Z * list pb_message * list Z) :=
  match wire_message bs with
  | None => None
  | Some fs =>
      match bytes_of 1 fs, all_some decode_message (all_bytes_of 4 fs), bytes_of 12 fs with
      | Some name, Some ms, Some syntax => Some (name, ms, syntax)
      | _, _, _ => None
      end
  end.

(** ** What the schema asks of a message *)

Inductive pb_value : Type := VInt (z : Z) | VBytes (s : list Z).

(** A message through its accessors, by the names of its fields. *)
Record dynamic (U M : Type) : Type := mkDynamic {
  dyn_has : M -> list Z -> bool;
  dyn_get : M -> list Z -> pb_value;
  dyn_set : M -> list Z -> pb_value -> M;
  dyn_unknown : M -> U }.
Arguments dyn_has {U M}. Arguments dyn_get {U M}. Arguments dyn_set {U M}. Arguments dyn_unknown {U M}.

Section reference.
Context `{PbRuntime} {M : Type} (D : dynamic UnknownFieldSet M).

(** proto3: an optional field is present when it has been set, any other when it does not
    hold the default of its type. *)
Definition ref_present (m : M) (f : pb_field) : bool :=
  if pf_optional f then dyn_has D m (pf_name f)
  else match dyn_get D m (pf_name f) with VInt z => negb (z =? 0) | VBytes s => negb (str_empty s) end.

Definition ref_write (f : pb_field) (v : pb_value) : list Z :=
  match pf_type f, v with
  | TUInt32, VInt z => WriteUInt32ToArray (pf_number f) z
  | TInt32, VInt z => WriteInt32ToArray (pf_number f) z
  | TString, VBytes s => WriteStringMaybeAliased (pf_number f) s
  | TBytes, VBytes s => WriteBytesMaybeAliased (pf_number f) s
  | _, _ => []
  end.
Definition ref_field_size (f : pb_field) (v : pb_value) : Z :=
  match pf_type f, v with
  | TUInt32, VInt z => UInt32SizePlusOne z
  | TInt32, VInt z => Int32SizePlusOne z
  | TString, VBytes s => 1 + StringSize s
  | TBytes, VBytes s => 1 + BytesSize s
  | _, _ => 0
  end.

Definition ref_serialize (s : pb_message) (m : M) : list Z :=
  flat_map (fun f => if ref_present m f then ref_write f (dyn_get D m (pf_name f)) else []) (pm_fields s) ++
  (if uf_have (dyn_unknown D m) then uf_serialize (dyn_unknown D m) else []).

Definition ref_size (s : pb_message) (m : M) : Z :=
  fold_right Z.add (if uf_have (dyn_unknown D m) then uf_size (dyn_unknown D m) else 0)
    (map (fun f => if ref_present m f then ref_field_size f (dyn_get D m (pf_name f)) else 0) (pm_fields s)).

Definition wire_type (t : pb_type) : Z := match t with TInt32 | TUInt32 => 0 | TString | TBytes => 2 end.

(** What a failed read leaves in a text. *)
Definition null_text (v : pb_value) (ptr : list Z) : pb_value :=
  match v with VBytes s => VBytes (StringParser_null s ptr) | VInt _ => v end.

(** A tag is for the field with its number if it has the wire type of the field; the field is
    read by its type, text must be UTF-8, and a field that cannot be read is assigned too,
    with what the reader leaves. *)
Definition ref_field (s : pb_message) (m : M) (tag : Z) (ptr : list Z) : field_step M :=
  match find (fun f => pf_number f =? Z.shiftr tag 3) (pm_fields s) with
  | None => FieldUnusual
  | Some f =>
      if u8 tag =? u8 (Z.lor (Z.shiftl (pf_number f) 3) (wire_type (pf_type f))) then
        match pf_type f with
        | TInt32 | TUInt32 =>
            match ReadVarint32 ptr with
            | Some (v, ptr) => FieldRead (dyn_set D m (pf_name f) (VInt v)) ptr
            | None => FieldFailed (dyn_set D m (pf_name f) (VInt (ReadVarint32_null ptr)))
            end
        | TString =>
            match InlineGreedyStringParser ptr with
            | Some (s, ptr) => if VerifyUTF8 s then FieldRead (dyn_set D m (pf_name f) (VBytes s)) ptr
                               else FieldFailed (dyn_set D m (pf_name f) (VBytes s))
            | None => FieldFailed (dyn_set D m (pf_name f) (null_text (dyn_get D m (pf_name f)) ptr))
            end
        | TBytes =>
            match InlineGreedyStringParser ptr with
            | Some (s, ptr) => FieldRead (dyn_set D m (pf_name f) (VBytes s)) ptr
            | None => FieldFailed (dyn_set D m (pf_name f) (null_text (dyn_get D m (pf_name f)) ptr))
            end
        end
      else FieldUnusual
  end.
End reference.

(** ** The generated classes as dynamic messages *)

Fixpoint name_eqb (a b : list Z) : bool :=
  match a, b with
  | [], [] => true
  | x :: a, y :: b => match x ?= y with Eq => name_eqb a b | _ => false end
  | _, _ => false
  end.

Section classes.
Context `{PbRuntime}.

Definition base_dynamic : dynamic UnknownFieldSet BaseProtocolBuf := {|
  dyn_has m n := if name_eqb n (pb_str "srv_name") then BaseProtocolBuf_has_srv_name m else true;
  dyn_get m n :=
    if name_eqb n (pb_str "magic") then VInt (BaseProtocolBuf_magic m)
    else if name_eqb n (pb_str "version") then VInt (BaseProtocolBuf_version m)
    else if name_eqb n (pb_str "type") then VInt (BaseProtocolBuf_type m)
    else if name_eqb n (pb_str "req_id") then VInt (BaseProtocolBuf_req_id m)
    else if name_eqb n (pb_str "data_len") then VInt (BaseProtocolBuf_data_len m)
    else if name_eqb n (pb_str "srv_name") then VBytes (BaseProtocolBuf_srv_name m)
    else if name_eqb n (pb_str "data") then VBytes (BaseProtocolBuf_data m)
    else VBytes [];
  dyn_set m n v :=
    match v with
    | VInt z =>
        if name_eqb n (pb_str "magic") then BaseProtocolBuf_set_magic m z
        else if name_eqb n (pb_str "version") then BaseProtocolBuf_set_version m z
        else if name_eqb n (pb_str "type") then BaseProtocolBuf_set_type m z
        else if name_eqb n (pb_str "req_id") then BaseProtocolBuf_set_req_id m z
        else if name_eqb n (pb_str "data_len") then BaseProtocolBuf_set_data_len m z
        else m
    | VBytes s =>
        if name_eqb n (pb_str "srv_name") then BaseProtocolBuf_set_srv_name m s
        else if name_eqb n (pb_str "data") then BaseProtocolBuf_set_data m s
        else m
    end;
  dyn_unknown := b_unknown |}.

Definition hello_dynamic : dynamic UnknownFieldSet HelloProtocolBuf := {|
  dyn_has _ _ := true;
  dyn_get m n := if name_eqb n (pb_str "name") then VBytes (HelloProtocolBuf_name m) else VBytes [];
  dyn_set m n v := match v with
                   | VBytes s => if name_eqb n (pb_str "name") then HelloProtocolBuf_set_name m s else m
                   | VInt _ => m end;
  dyn_unknown := h_unknown |}.

Definition world_dynamic : dynamic UnknownFieldSet WorldProtocolBuf := {|
  dyn_has _ _ := true;
  dyn_get m n := if name_eqb n (pb_str "result") then VInt (WorldProtocolBuf_result m) else VBytes [];
  dyn_set m n v := match v with
                   | VInt z => if name_eqb n (pb_str "result") then WorldProtocolBuf_set_result m z else m
                   | VBytes _ => m end;
  dyn_unknown := w_unknown |}.

(** A class follows a schema: its descriptor decodes to it, and its methods do what the
    schema asks of them. *)
Definition follows_schema {M : Type} (D : dynamic UnknownFieldSet M) (t : DescriptorTable) (s : pb_message)
    (InternalSerialize : M -> list Z) (ByteSizeLong : M -> Z * M) (field : M -> Z -> list Z -> field_step M) : Prop :=
  decode_file (dt_descriptor t) = Some (dt_filename t, [s], pb_str "proto3") /\
  Z.of_nat (length (dt_descriptor t)) = dt_size t /\
  forall m, InternalSerialize m = ref_serialize D s m /\ fst (ByteSizeLong m) = ref_size D s m /\
    forall tag ptr, field m tag ptr = ref_field D s m tag ptr.

(** ** Lemmas *)

Lemma add_if (b : bool) (t x : Z) : (if b then t + x else t) = t + (if b then x else 0).
Proof. destruct b; lia. Qed.
Lemma add_if1 (b : bool) (t x : Z) : (if b then t + 1 + x else t) = t + (if b then 1 + x else 0).
Proof. destruct b; lia. Qed.

Lemma base_ref_size m : ref_size base_dynamic base_proto m =
  (if negb (b_magic_ m =? 0) then UInt32SizePlusOne (b_magic_ m) else 0) +
  ((if negb (b_version_ m =? 0) then UInt32SizePlusOne (b_version_ m) else 0) +
  ((if negb (b_type_ m =? 0) then UInt32SizePlusOne (b_type_ m) else 0) +
  ((if negb (b_req_id_ m =? 0) then UInt32SizePlusOne (b_req_id_ m) else 0) +
  ((if negb (b_data_len_ m =? 0) then UInt32SizePlusOne (b_data_len_ m) else 0) +
  ((if BaseProtocolBuf_has_srv_name m then 1 + StringSize (b_srv_name_ m) else 0) +
  ((if negb (str_empty (b_data_ m)) then 1 + BytesSize (b_data_ m) else 0) +
   (if uf_have (b_unknown m) then uf_size (b_unknown m) else 0))))))).
Proof. reflexivity. Qed.

Lemma base_follows : follows_schema base_dynamic descriptor_table_base_2eproto base_proto
  BaseProtocolBuf_InternalSerialize BaseProtocolBuf_ByteSizeLong BaseProtocolBuf_field.
Proof.
  split; [vm_compute; reflexivity|]. split; [vm_compute; reflexivity|]. intros m. split_and!.
  - unfold BaseProtocolBuf_InternalSerialize, ref_serialize. cbn. by rewrite !app_nil_r, <- ?app_assoc.
  - rewrite base_ref_size. unfold BaseProtocolBuf_ByteSizeLong. cbv zeta. cbn [fst]. rewrite ?add_if1, ?add_if.
    unfold BaseProtocolBuf_has_srv_name. lia.
  - intros tag ptr. unfold ref_field, BaseProtocolBuf_field. cbn -[u8 Z.shiftr].
    generalize (Z.shiftr tag 3) as n. intros n.
    destruct n as [|[[[p|p|]|[p|p|]|]|[[p|p|]|[p|p|]|]|]|p]; cbn -[u8]; try reflexivity;
      repeat case_match; try done; by subst.
Qed.

Lemma hello_follows : follows_schema hello_dynamic descriptor_table_hello_2eproto hello_proto
  HelloProtocolBuf_InternalSerialize HelloProtocolBuf_ByteSizeLong HelloProtocolBuf_field.
Proof.
  split; [vm_compute; reflexivity|]. split; [vm_compute; reflexivity|]. intros m. split_and!.
  - unfold HelloProtocolBuf_InternalSerialize, ref_serialize. cbn. by rewrite app_nil_r.
  - transitivity ((if negb (str_empty (h_name_ m)) then 1 + StringSize (h_name_ m) else 0) +
      (if uf_have (h_unknown m) then uf_size (h_unknown m) else 0)); [|reflexivity].
    unfold HelloProtocolBuf_ByteSizeLong. cbv zeta. cbn [fst]. rewrite ?add_if1, ?add_if. lia.
  - intros tag ptr. unfold ref_field, HelloProtocolBuf_field. cbn -[u8 Z.shiftr].
    generalize (Z.shiftr tag 3) as n. intros n.
    destruct n as [|[p|p|]|p]; cbn -[u8]; reflexivity.
Qed.

Lemma world_follows : follows_schema world_dynamic descriptor_table_world_2eproto world_proto
  WorldProtocolBuf_InternalSerialize WorldProtocolBuf_ByteSizeLong WorldProtocolBuf_field.
Proof.
  split; [vm_compute; reflexivity|]. split; [vm_compute; reflexivity|]. intros m. split_and!.
  - unfold WorldProtocolBuf_InternalSerialize, ref_serialize. cbn. by rewrite app_nil_r.
  - transitivity ((if negb (w_result_ m =? 0) then Int32SizePlusOne (w_result_ m) else 0) +
      (if uf_have (w_unknown m) then uf_size (w_unknown m) else 0)); [|reflexivity].
    unfold WorldProtocolBuf_ByteSizeLong. cbv zeta. cbn [fst]. rewrite ?add_if. lia.
  - intros tag ptr. unfold ref_field, WorldProtocolBuf_field. cbn -[u8 Z.shiftr].
    generalize (Z.shiftr tag 3) as n. intros n.
    destruct n as [|[p|p|]|p]; cbn -[u8]; try reflexivity.
Qed.

(** ** Theorem *)

(** C21: the generated classes are what their schemas say. The descriptor in each of the three
    files decodes, by the wire format, to exactly the message of the .proto source, and its
    size is the one recorded; and for every message, [_InternalSerialize], [ByteSizeLong] and
    the [switch] of [_InternalParse] do what a reader of the schema alone would do: which
    fields are written, in which order, under which numbers and with which encodings, how
    long they are, and which tags are read into which fields. *)
Theorem generated_classes_follow_schema :
  follows_schema base_dynamic descriptor_table_base_2eproto base_proto
    BaseProtocolBuf_InternalSerialize BaseProtocolBuf_ByteSizeLong BaseProtocolBuf_field /\
  follows_schema hello_dynamic descriptor_table_hello_2eproto hello_proto
    HelloProtocolBuf_InternalSerialize HelloProtocolBuf_ByteSizeLong HelloProtocolBuf_field /\
  follows_schema world_dynamic descriptor_table_world_2eproto world_proto
    WorldProtocolBuf_InternalSerialize WorldProtocolBuf_ByteSizeLong WorldProtocolBuf_field.
Proof. split; [apply base_follows|]. split; [apply hello_follows|apply world_follows]. Qed.
End classes.
