(* ===== verification/Protocol.v ===== *)
(** * rpc/protocol.h, rpc/protocols/hello.h, rpc/protocol_manager.h and
      interfaces/serializer_interface.h: protocols and their serialisers

    A string is the list of its bytes. A [ProtocolInterface*] that is not null is a value
    of the classes derived from it; using one at another class is the fault [BadCast].
    A [SerializerInterface] is the record of its two methods. *)

From stdpp Require Import base numbers list gmap.
From Stdlib Require Import Lia ZArith.
From S2P Require Import Prelude PbRuntime PbMessages.

(** ** Protocols *)

Definition kHeartBeat : Z := 0.
Definition kProvider : Z := 1.
Definition kConsumer : Z := 2.
Definition kRequest : Z := 3.
Definition kResponse : Z := 4.
Definition kRequestCall : Z := 5.
Definition kResponseCall : Z := 6.
Definition kRegister : Z := 7.
Definition kRegisterResponse : Z := 8.
Definition kDiscover : Z := 9.
Definition kDiscoverResponse : Z := 10.

Definition kMagic : Z := 170.
Definition kVersion : Z := 1.
Definition kBasicLen : Z := 20.

Record Protocol : Type := mkProtocol {
  magic_ : Z;
  version_ : Z;
  type_ : Z;
  req_id_ : Z;
  data_len_ : Z;
  srv_name_ : list Z;
  data_ : list Z
}.

Definition Protocol_new (type req_id : Z) (data : list Z) : Protocol :=
  mkProtocol kMagic kVersion type (u32 req_id) kBasicLen [] data.
Definition Protocol_set_data_len (p : Protocol) (len : Z) : Protocol :=
  mkProtocol (magic_ p) (version_ p) (type_ p) (req_id_ p) (u32 len) (srv_name_ p) (data_ p).
Definition Protocol_set_srv_name (p : Protocol) (s : list Z) : Protocol :=
  mkProtocol (magic_ p) (version_ p) (type_ p) (req_id_ p) (data_len_ p) s (data_ p).
Definition Protocol_set_data (p : Protocol) (content : list Z) : Protocol :=
  mkProtocol (magic_ p) (version_ p) (type_ p) (req_id_ p) (data_len_ p) (srv_name_ p) content.
Definition Protocol_set_magic (p : Protocol) (v : Z) : Protocol :=
  mkProtocol (u32 v) (version_ p) (type_ p) (req_id_ p) (data_len_ p) (srv_name_ p) (data_ p).
Definition Protocol_set_version (p : Protocol) (v : Z) : Protocol :=
  mkProtocol (magic_ p) (u32 v) (type_ p) (req_id_ p) (data_len_ p) (srv_name_ p) (data_ p).
Definition Protocol_set_msg_type (p : Protocol) (v : Z) : Protocol :=
  mkProtocol (magic_ p) (version_ p) (u32 v) (req_id_ p) (data_len_ p) (srv_name_ p) (data_ p).
Definition Protocol_set_req_id (p : Protocol) (v : Z) : Protocol :=
  mkProtocol (magic_ p) (version_ p) (type_ p) (u32 v) (data_len_ p) (srv_name_ p) (data_ p).

Definition Protocol_Create (type req_id : Z) (data : list Z) : Protocol :=
  Protocol_set_data_len (Protocol_new type req_id data) (Z.of_nat (length data)).
(** The one heart beat, made by the first call. *)
Definition Protocol_CreateHeartBeat (heart_beat : option Protocol) : Protocol :=
  match heart_beat with
  | Some p => p
  | None => Protocol_Create kHeartBeat 0 []
  end.

(** ["|magic=... version=... type=... id=... length=... content=...|"] *)
Definition Protocol_toString (p : Protocol) : list Z :=
  [124; 109; 97; 103; 105; 99; 61] ++ decimal (magic_ p) ++
  [32; 118; 101; 114; 115; 105; 111; 110; 61] ++ decimal (version_ p) ++
  [32; 116; 121; 112; 101; 61] ++ decimal (type_ p) ++
  [32; 105; 100; 61] ++ decimal (req_id_ p) ++
  [32; 108; 101; 110; 103; 116; 104; 61] ++ decimal (data_len_ p) ++
  [32; 99; 111; 110; 116; 101; 110; 116; 61] ++ data_ p ++ [124].

Record HelloProtocol : Type := mkHelloProtocol { hello_name : list Z }.
Definition HelloProtocol_Create (name : list Z) : HelloProtocol := mkHelloProtocol name.
Record WorldProtocol : Type := mkWorldProtocol { world_result : Z }.
Definition WorldProtocol_Create (result : Z) : WorldProtocol := mkWorldProtocol (i32 result).

Inductive ProtocolInterface : Type :=
| PBase (p : Protocol)
| PHello (p : HelloProtocol)
| PWorld (p : WorldProtocol).

(** ** Serialisers *)

(** The pointers may be null: [None]. *)
Record SerializerInterface : Type := mkSerializer {
  Serialize : option ProtocolInterface -> outcome (list Z);
  Deserialize : list Z -> option ProtocolInterface
}.

(** The cast of a pointer to the class of the protocol, and the use of its members. *)
Definition as_Protocol (p : option ProtocolInterface) : outcome Protocol :=
  match p with
  | Some (PBase q) => Ok q
  | Some _ => Fault BadCast
  | None => Fault NullDereference
  end.
Definition as_HelloProtocol (p : option ProtocolInterface) : outcome HelloProtocol :=
  match p with
  | Some (PHello q) => Ok q
  | Some _ => Fault BadCast
  | None => Fault NullDereference
  end.
Definition as_WorldProtocol (p : option ProtocolInterface) : outcome WorldProtocol :=
  match p with
  | Some (PWorld q) => Ok q
  | Some _ => Fault BadCast
  | None => Fault NullDereference
  end.

Section serializers.
Context `{PbRuntime}.

(** The envelope a protocol is serialised to. *)
Definition Protocol_to_buf (p : Protocol) : BaseProtocolBuf :=
  let buf := BaseProtocolBuf_new in
  let buf := BaseProtocolBuf_set_magic buf (magic_ p) in
  let buf := BaseProtocolBuf_set_version buf (version_ p) in
  let buf := BaseProtocolBuf_set_type buf (type_ p) in
  let buf := BaseProtocolBuf_set_data_len buf (data_len_ p) in
  let buf := BaseProtocolBuf_set_data buf (data_ p) in
  let buf := BaseProtocolBuf_set_req_id buf (req_id_ p) in
  if negb (str_empty (srv_name_ p)) then BaseProtocolBuf_set_srv_name buf (srv_name_ p) else buf.

(** The protocol made of a parsed envelope: magic number, version and length are those of
    a new protocol. *)
Definition Protocol_of_buf (buf : BaseProtocolBuf) : Protocol :=
  let p := Protocol_Create (BaseProtocolBuf_type buf) (BaseProtocolBuf_req_id buf) (BaseProtocolBuf_data buf) in
  if BaseProtocolBuf_has_srv_name buf then Protocol_set_srv_name p (BaseProtocolBuf_srv_name buf) else p.

(** [SerializerHandler<Protocol>]. The result of [ParseFromString] is ignored. *)
Definition ProtocolHandler_Serialize (p : option ProtocolInterface) : outcome (list Z) :=
  let* p := as_Protocol p in
  Ok (BaseProtocolBuf_SerializeAsString (Protocol_to_buf p)).
Definition ProtocolHandler_Deserialize (stream : list Z) : option ProtocolInterface :=
  Some (PBase (Protocol_of_buf (BaseProtocolBuf_ParseFromString BaseProtocolBuf_new stream))).
Definition BaseProtocolSerializer : SerializerInterface :=
  mkSerializer ProtocolHandler_Serialize ProtocolHandler_Deserialize.

(** [MySerializerHandler] differs in a line of the log. *)
Definition MySerializerHandler_Serialize (p : option ProtocolInterface) : outcome (list Z) :=
  let* p := as_Protocol p in
  Ok (BaseProtocolBuf_SerializeAsString (Protocol_to_buf p)).
Definition MySerializerHandler_Deserialize (stream : list Z) : option ProtocolInterface :=
  Some (PBase (Protocol_of_buf (BaseProtocolBuf_ParseFromString BaseProtocolBuf_new stream))).
Definition MyProtocolSerializer : SerializerInterface :=
  mkSerializer MySerializerHandler_Serialize MySerializerHandler_Deserialize.

Definition HelloHandler_Serialize (p : option ProtocolInterface) : outcome (list Z) :=
  let* p := as_HelloProtocol p in
  Ok (HelloProtocolBuf_SerializeAsString (HelloProtocolBuf_set_name HelloProtocolBuf_new (hello_name p))).
Definition HelloHandler_Deserialize (stream : list Z) : option ProtocolInterface :=
  Some (PHello (HelloProtocol_Create (HelloProtocolBuf_name (HelloProtocolBuf_ParseFromString HelloProtocolBuf_new stream)))).
Definition HelloSerializer : SerializerInterface := mkSerializer HelloHandler_Serialize HelloHandler_Deserialize.

Definition WorldHandler_Serialize (p : option ProtocolInterface) : outcome (list Z) :=
  let* p := as_WorldProtocol p in
  Ok (WorldProtocolBuf_SerializeAsString (WorldProtocolBuf_set_result WorldProtocolBuf_new (world_result p))).
Definition WorldHandler_Deserialize (stream : list Z) : option ProtocolInterface :=
  Some (PWorld (WorldProtocol_Create (WorldProtocolBuf_result (WorldProtocolBuf_ParseFromString WorldProtocolBuf_new stream)))).
Definition WorldSerializer : SerializerInterface := mkSerializer WorldHandler_Serialize WorldHandler_Deserialize.

(** [SerializerHandler] of a protocol that has no specialisation: a [std::string] is made
    of a null pointer, and [Deserialize] gives null. *)
Definition UnimplementedHandler_Serialize (p : option ProtocolInterface) : outcome (list Z) := Fault NullDereference.
Definition UnimplementedHandler_Deserialize (stream : list Z) : option ProtocolInterface := None.
Definition UnimplementedSerializer : SerializerInterface :=
  mkSerializer UnimplementedHandler_Serialize UnimplementedHandler_Deserialize.

(** ** rpc/protocol_manager.h *)

Record SrvTraits : Type := mkSrvTraits {
  req_serializer : SerializerInterface;
  res_serializer : SerializerInterface
}.
Definition SrvTraits_new : SrvTraits := mkSrvTraits UnimplementedSerializer UnimplementedSerializer.
Definition HelloSrvTraits : SrvTraits := mkSrvTraits HelloSerializer WorldSerializer.

Definition ProtocolManager : Type := gmap (list Z) SrvTraits.
Definition ProtocolManager_Register (m : ProtocolManager) (srv_name : list Z) (traits : SrvTraits) : ProtocolManager :=
  match m !! srv_name with
  | None => <[srv_name := traits]> m
  | Some _ => m
  end.
Definition ProtocolManager_Get (m : ProtocolManager) (srv_name : list Z) : SrvTraits :=
  match m !! srv_name with
  | Some traits => traits
  | None => SrvTraits_new
  end.

(** The manager after the static initialisers: ["hello"] is registered. *)
Definition hello_srv : list Z := [104; 101; 108; 108; 111].
Definition HelloSrvTraits_register (m : ProtocolManager) : ProtocolManager :=
  ProtocolManager_Register m hello_srv HelloSrvTraits.
End serializers.

(** ** Specification *)

(** A protocol whose fields are in the range of their types, with a name in UTF-8. *)
Definition proto_ok `{PbRuntime} (p : Protocol) : Prop :=
  (0 <= magic_ p < 2 ^ 32 /\ 0 <= version_ p < 2 ^ 32 /\ 0 <= type_ p < 2 ^ 32 /\
   0 <= req_id_ p < 2 ^ 32 /\ 0 <= data_len_ p < 2 ^ 32) /\
  Z.of_nat (length (srv_name_ p)) <= INT_MAX /\ Z.of_nat (length (data_ p)) <= INT_MAX /\
  VerifyUTF8 (srv_name_ p) = true.

(** What arrives of a protocol: magic number, version and length are made anew. *)
Definition received (p : Protocol) : Protocol :=
  mkProtocol kMagic kVersion (type_ p) (req_id_ p) (Z.of_nat (length (data_ p))) (srv_name_ p) (data_ p).

(** The contract of a serialiser: on the protocols [valid] describes, [Serialize] gives
    bytes from which [Deserialize] makes what [image] says. *)
Definition serializer_round_trip (ser : SerializerInterface) (valid : ProtocolInterface -> Prop)
    (image : ProtocolInterface -> ProtocolInterface) : Prop :=
  forall p, valid p -> exists bs, Serialize ser (Some p) = Ok bs /\ Deserialize ser bs = Some (image p).

Definition valid_base `{PbRuntime} (p : ProtocolInterface) : Prop :=
  match p with
  | PBase q => proto_ok q /\ Z.of_nat (length (BaseProtocolBuf_InternalSerialize (Protocol_to_buf q))) <= INT_MAX
  | _ => False
  end.
Definition image_base (p : ProtocolInterface) : ProtocolInterface :=
  match p with PBase q => PBase (received q) | _ => p end.
Definition valid_hello `{PbRuntime} (p : ProtocolInterface) : Prop :=
  match p with
  | PHello q => VerifyUTF8 (hello_name q) = true /\
                1 + StringSize (hello_name q) <= INT_MAX /\ Z.of_nat (length (hello_name q)) <= INT_MAX
  | _ => False
  end.
Definition valid_world (p : ProtocolInterface) : Prop :=
  match p with PWorld q => - 2 ^ 31 <= world_result q < 2 ^ 31 | _ => False end.

(** ** Lemmas *)

Section serializer_facts.
Context `{PbRuntimeLaws}.

Lemma to_buf_eq p : proto_ok p ->
  Protocol_to_buf p =
    mkBase (if str_empty (srv_name_ p) then 0 else 1) 0 (srv_name_ p) (data_ p) (magic_ p) (version_ p) (type_ p)
      (req_id_ p) (data_len_ p) uf_empty.
Proof.
  intros ((H1 & H2 & H3 & H4 & H5) & _).
  cbv [Protocol_to_buf BaseProtocolBuf_new BaseProtocolBuf_set_magic BaseProtocolBuf_set_version BaseProtocolBuf_set_type
    BaseProtocolBuf_set_data_len BaseProtocolBuf_set_data BaseProtocolBuf_set_req_id BaseProtocolBuf_set_srv_name
    b_has_bits_ b_cached_size_ b_srv_name_ b_data_ b_magic_ b_version_ b_type_ b_req_id_ b_data_len_ b_unknown].
  rewrite !uwrap_small by done. by destruct (srv_name_ p).
Qed.

Lemma to_buf_ok p : proto_ok p -> base_ok (Protocol_to_buf p).
Proof.
  intros Hp. rewrite to_buf_eq by done. destruct Hp as (Hr & Hs & Hd & _). split; [exact Hr|].
  split; [|done]. cbn. destruct (srv_name_ p); [by left|by right].
Qed.

Lemma of_buf_to_buf p : proto_ok p -> Protocol_of_buf (Protocol_to_buf p) = received p.
Proof.
  intros Hp. rewrite to_buf_eq by done. destruct Hp as ((H1 & H2 & H3 & H4 & H5) & Hs & Hd & _).
  unfold Protocol_of_buf, Protocol_Create, Protocol_set_data_len, Protocol_new, received.
  cbn [BaseProtocolBuf_type BaseProtocolBuf_req_id BaseProtocolBuf_data BaseProtocolBuf_srv_name b_type_ b_req_id_ b_data_
       b_srv_name_ magic_ version_ type_ req_id_ data_len_ srv_name_ data_].
  rewrite (uwrap_small 32 (req_id_ p)), (uwrap_small 32 (Z.of_nat _))
    by (try lia; change INT_MAX with 2147483647 in *; lia).
  unfold BaseProtocolBuf_has_srv_name. cbn [b_has_bits_]. by destruct (srv_name_ p) eqn:E; cbn.
Qed.

Lemma base_SerializeAsString m : base_ok m ->
  Z.of_nat (length (BaseProtocolBuf_InternalSerialize m)) <= INT_MAX ->
  BaseProtocolBuf_SerializeAsString m = BaseProtocolBuf_InternalSerialize m.
Proof.
  intros Hok Hl. apply SerializeAsString_bytes; rewrite <- base_size_exact by done; done.
Qed.

(** Parsing into a new message what was serialised. *)
Lemma base_Parse_Serialize m : base_ok m -> VerifyUTF8 (b_srv_name_ m) = true -> b_unknown m = uf_empty ->
  BaseProtocolBuf_ParseFromString BaseProtocolBuf_new (BaseProtocolBuf_InternalSerialize m) = base_sized m 0.
Proof.
  intros Hok Hutf Hu. unfold BaseProtocolBuf_ParseFromString. rewrite ParseFromString_run.
  unfold BaseProtocolBuf_InternalParse.
  rewrite (parse_all_run _ _ _ base_field_forward 8 _ _ (base_sized m 0, Some [])); [done|].
  by apply base_parse_serialize.
Qed.

Lemma base_serializer_round_trip : serializer_round_trip BaseProtocolSerializer valid_base image_base.
Proof.
  intros [q| |] []; [|done..]. pose proof (to_buf_ok q ltac:(done)) as Hok.
  eexists. split; [reflexivity|]. rewrite base_SerializeAsString by done.
  cbn [Deserialize BaseProtocolSerializer image_base]. unfold ProtocolHandler_Deserialize. do 2 f_equal.
  rewrite <- of_buf_to_buf by done. rewrite base_Parse_Serialize; [|done| |].
  - by rewrite to_buf_eq by done.
  - rewrite to_buf_eq by done. cbn. by destruct H1 as (_ & _ & _ & ->).
  - by rewrite to_buf_eq by done.
Qed.

Lemma hello_serializer_round_trip : serializer_round_trip HelloSerializer valid_hello id.
Proof.
  intros [|[name]|]; try done. intros (Hutf & Hsz & Hl). cbn [hello_name] in *.
  set (m := HelloProtocolBuf_set_name HelloProtocolBuf_new name).
  assert (Hok : hello_ok m) by done.
  eexists. split; [reflexivity|]. cbn [hello_name]. fold m.
  assert (HelloProtocolBuf_SerializeAsString m = HelloProtocolBuf_InternalSerialize m) as ->.
  { apply SerializeAsString_bytes; [by rewrite <- hello_size_exact|].
    unfold HelloProtocolBuf_ByteSizeLong. cbn. rewrite uf_empty_none. destruct name; cbn; [done|lia]. }
  cbn [Deserialize HelloSerializer]. unfold HelloHandler_Deserialize, HelloProtocolBuf_ParseFromString.
  rewrite ParseFromString_run. unfold HelloProtocolBuf_InternalParse.
  rewrite (parse_all_run _ _ _ hello_field_forward 2 _ _ (hello_sized m 0, Some [])); [done|].
  by apply hello_parse_serialize.
Qed.

Lemma world_serializer_round_trip : serializer_round_trip WorldSerializer valid_world id.
Proof.
  intros [| |[v]]; try done. intros Hv. cbn [world_result] in *.
  set (m := WorldProtocolBuf_set_result WorldProtocolBuf_new v).
  assert (Em : m = mkWorld v 0 uf_empty).
  { unfold m, WorldProtocolBuf_set_result. by rewrite (swrap_small 32) by (lia || exact Hv). }
  assert (Hok : world_ok m) by (by rewrite Em).
  eexists. split; [reflexivity|]. cbn [world_result]. fold m.
  assert (WorldProtocolBuf_SerializeAsString m = WorldProtocolBuf_InternalSerialize m) as ->.
  { apply SerializeAsString_bytes; [by rewrite <- world_size_exact|].
    rewrite Em. unfold WorldProtocolBuf_ByteSizeLong. cbn [fst w_result_ w_unknown]. rewrite uf_empty_none.
    destruct (v =? 0); cbn [negb]; [done|]. rewrite Z.add_0_l.
    pose proof (Int32Size_max v Hv). change INT_MAX with 2147483647. lia. }
  cbn [Deserialize WorldSerializer]. unfold WorldHandler_Deserialize, WorldProtocolBuf_ParseFromString.
  rewrite ParseFromString_run. unfold WorldProtocolBuf_InternalParse.
  rewrite (parse_all_run _ _ _ world_field_forward 2 _ _ (world_sized m 0, Some []));
    [|by apply world_parse_serialize; [|by rewrite Em]].
  rewrite Em. cbn. unfold WorldProtocol_Create. by rewrite (swrap_small 32) by (lia || exact Hv).
Qed.
End serializer_facts.

(** ** Theorems *)

(** C30: The serialisers keep their contract. A base protocol arrives with its type, id,
    name and data, and with the magic number, the version and the length made anew; a
    request and a response arrive as they were. [MySerializerHandler] gives the same
    bytes and reads them the same way as the handler of [Protocol]. *)
Theorem serializers_round_trip `{PbRuntimeLaws} :
  serializer_round_trip BaseProtocolSerializer valid_base image_base /\
  serializer_round_trip HelloSerializer valid_hello id /\
  serializer_round_trip WorldSerializer valid_world id /\
  serializer_round_trip MyProtocolSerializer valid_base image_base.
Proof.
  split; [apply base_serializer_round_trip|]. split; [apply hello_serializer_round_trip|].
  split; [apply world_serializer_round_trip|]. exact base_serializer_round_trip.
Qed.

(** The first registration of a name stays. *)
Lemma Register_Get `{PbRuntime} (m : ProtocolManager) name traits name' :
  ProtocolManager_Get (ProtocolManager_Register m name traits) name' =
    if decide (name' = name) then default traits (m !! name) else ProtocolManager_Get m name'.
Proof.
  unfold ProtocolManager_Get, ProtocolManager_Register, ProtocolManager in *. destruct (m !! name) as [t|] eqn:E; case_decide; subst.
  - by rewrite E.
  - done.
  - by rewrite lookup_insert_eq.
  - by rewrite lookup_insert_ne.
Qed.

(** ** Witnesses *)

Lemma serializers_round_trip_witness :
  exists bs, Serialize WorldSerializer (Some (PWorld (mkWorldProtocol (-3)))) = Ok bs /\
             Deserialize WorldSerializer bs = Some (PWorld (mkWorldProtocol (-3))).
Proof.
  apply (proj1 (proj2 (proj2 serializers_round_trip)) (PWorld (mkWorldProtocol (-3)))). eval_closed.
Defined.
