(* ===== verification/Rpc.v ===== *)
(** * rpc/rpc_protocol_handler.h/.cc, protocol/protocol_handler.h, net/server.h and
      rpc/rpc_server_provider.h/.cc: frames on a connection, and the server

    A frame is the length of the serialised envelope in four decimal digits, followed by
    the envelope. [RecvProtocol] is cut where the coroutine waits: before the header and
    before the body, since [NetworkServer] shares its request and its response between
    the coroutines of all connections. *)

From stdpp Require Import base numbers list gmap.
From Stdlib Require Import Lia ZArith.
From S2P Require Import Prelude Stream Errno SockCtx Epoll Coroutine Copoll TaskManager TimerManager Scheduler Sock.
From S2P Require Import Net PbRuntime PbMessages Protocol.

(** ** C strings *)

(** What [std::string(const char* )] takes of a buffer: the bytes before the first zero. *)
Fixpoint c_string (buf : list Z) : list Z :=
  match buf with
  | [] => []
  | b :: buf => if b =? 0 then [] else b :: c_string buf
  end.

Definition is_space (c : Z) : bool := (c =? 32) || ((9 <=? c) && (c <=? 13)).
Definition is_digit_char (c : Z) : bool := (48 <=? c) && (c <=? 57).
Fixpoint atoi_digits (acc : Z) (s : list Z) : Z :=
  match s with
  | [] => acc
  | c :: s => if is_digit_char c then atoi_digits (acc * 10 + (c - 48)) s else acc
  end.
(** [atoi]: spaces, a sign, digits. *)
Fixpoint atoi (s : list Z) : Z :=
  match s with
  | [] => 0
  | c :: s' => if is_space c then atoi s'
               else if c =? 45 then - atoi_digits 0 s'
               else if c =? 43 then atoi_digits 0 s'
               else atoi_digits 0 s
  end.

(** [snprintf(data_len, 5, "%04d", v)] of a value that is not negative: at most four
    characters and a zero. *)
Definition format_04d (v : Z) : list Z := replicate (4 - length (decimal v)) 48 ++ decimal v.
Definition snprintf_04d (v : Z) : list Z := take 4 (format_04d v) ++ [0].

(** ** RpcProtocol *)

Definition kDataLen : Z := 4.
Definition kDataMaxLen : Z := 10000.

(** The bytes from the start of the array [data_len] of [Encode] to the next object of its
    stack frame. The array has four bytes; a compiler may leave more behind it. *)
Class FrameLayout : Type := { data_len_room : Z }.

(** Compiled so that the fifth byte which [snprintf] writes hits no other object. The
    code relies on it; the language does not promise it. *)
Class FrameRoom `{FrameLayout} : Prop := { data_len_spare : 5 <= data_len_room }.

(** The next object eight bytes further. *)
Definition padded_frame : FrameLayout := {| data_len_room := 8 |}.
Lemma padded_frame_room : @FrameRoom padded_frame.
Proof. constructor. cbn. lia. Qed.

Section frames.
Context `{PbRuntime} {FL : FrameLayout}.

(** Five bytes are written to [data_len]; the first four are what is used of it. *)
Definition RpcProtocol_Encode (protocol : option ProtocolInterface) : outcome (list Z) :=
  let* buf := Serialize BaseProtocolSerializer protocol in
  let buf_len := i32 (Z.of_nat (length buf)) in
  if kDataMaxLen <? buf_len then Ok []
  else if data_len_room <? Z.of_nat (length (snprintf_04d buf_len)) then Fault OutOfBounds
  else Ok (take 4 (snprintf_04d buf_len) ++ buf).

Definition RpcProtocol_Decode (buf : list Z) : option ProtocolInterface :=
  Deserialize BaseProtocolSerializer (c_string buf).

(** The value of a call of [int] type. *)
Definition io_code (e : io_end) : Z := match e with IoDone r => r | IoFail _ => -1 end.

(** A socket with the answers the kernel will give to its calls and the bytes it has
    taken to send. *)
Record sock_io (K : Type) : Type := mkIo {
  io_sock : Socket;
  io_env : net_env K;
  io_in : list recv_answer;
  io_out : list send_answer;
  io_closes : list (Z * Z);
  io_sent : list Z
}.
Arguments mkIo {K}.
Arguments io_sock {K}.
Arguments io_env {K}.
Arguments io_in {K}.
Arguments io_out {K}.
Arguments io_closes {K}.
Arguments io_sent {K}.

Section one_socket.
Context {K : Type} `{EpollKernel K}.

Definition set_io_in (io : sock_io K) (l : list recv_answer) : sock_io K :=
  mkIo (io_sock io) (io_env io) l (io_out io) (io_closes io) (io_sent io).

(** [RecvProtocol] up to the second [Recvn]: [inl None] is a null result, [inr n] the
    length of the body. No result: still waiting. *)
Definition RecvProtocol_header (io : sock_io K) : outcome (option (io_end * list Z * sock_io K)) :=
  let* r := Socket_Recvn (io_sock io) kDataLen (io_in io) in
  match r with
  | None => Ok None
  | Some (e, hdr, rest) => Ok (Some (e, hdr, set_io_in io rest))
  end.

(** Between the two [Recvn], on the socket that [socket_] denotes now: [None] when the
    result is null, otherwise the length. *)
Definition RecvProtocol_length (e : io_end) (hdr : list Z) (io : sock_io K)
  : outcome (option (option Z * sock_io K)) :=
  let read := io_code e in
  if read =? 0 then
    let* (s, env, r) := Socket_Close (io_sock io) (io_env io) (-1) (io_closes io) in
    match r with
    | Some _ => Ok (Some (None, mkIo s env (io_in io) (io_out io) (io_closes io) (io_sent io)))
    | None => Ok None
    end
  else if read <? kDataLen then Ok (Some (None, io))
  else
    let data_len := atoi hdr in
    if data_len =? 0 then Ok (Some (None, io))
    else if data_len <? 0 then Fault OutOfBounds
    else Ok (Some (Some data_len, io)).

(** The second [Recvn] and what follows it. *)
Definition RecvProtocol_body (io : sock_io K) (data_len : Z) : outcome (option (option ProtocolInterface * sock_io K)) :=
  let* r := Socket_Recvn (io_sock io) data_len (io_in io) in
  match r with
  | None => Ok None
  | Some (e, body, rest) =>
      let io := set_io_in io rest in
      if io_code e <? data_len then Ok (Some (None, io))
      else Ok (Some (RpcProtocol_Decode body, io))
  end.

(** The whole of [RecvProtocol] when [socket_] does not change meanwhile. *)
Definition RpcProtocol_RecvProtocol (io : sock_io K) : outcome (option (option ProtocolInterface * sock_io K)) :=
  let* r := RecvProtocol_header io in
  match r with
  | None => Ok None
  | Some (e, hdr, io) =>
      let* r := RecvProtocol_length e hdr io in
      match r with
      | None => Ok None
      | Some (None, io) => Ok (Some (None, io))
      | Some (Some data_len, io) => RecvProtocol_body io data_len
      end
  end.

(** [SendProtocol]: the comparison with [buf_len], an [uint], is between unsigned values. *)
Definition RpcProtocol_SendProtocol (io : sock_io K) (protocol : option ProtocolInterface)
  : outcome (option (bool * sock_io K)) :=
  match protocol with
  | None => Ok (Some (false, io))
  | Some _ =>
      let* buf := RpcProtocol_Encode protocol in
      let buf_len := u32 (Z.of_nat (length buf)) in
      if buf_len =? 0 then Ok (Some (false, io)) else
      let* r := Socket_Send (io_sock io) buf (i32 buf_len) (io_out io) in
      match r with
      | None => Ok None
      | Some (e, taken, rest) =>
          let io := mkIo (io_sock io) (io_env io) (io_in io) rest (io_closes io) (io_sent io ++ taken) in
          if u32 (io_code e) <? buf_len then Ok (Some (false, io)) else Ok (Some (true, io))
      end
  end.
End one_socket.

(** ** The server *)

(** [RpcRequest] and [RpcResponse] with the members they inherit from [ProtocolHandler];
    a [TcpSocket::Ptr] is a key of the sockets of the server. *)
Record RpcRequest : Type := mkReq {
  rq_socket_ : option nat;
  rq_req_protocol_ : option ProtocolInterface;
  rq_state_ : Z;
  rq_error_ : Z;
  rq_data_req_protocol_ : option ProtocolInterface
}.
Record RpcResponse : Type := mkResp {
  rs_socket_ : option nat;
  rs_resp_protocol_ : option ProtocolInterface;
  rs_data_resp_protocol_ : option ProtocolInterface
}.
Record NetworkServer : Type := mkServer { ns_req : RpcRequest; ns_resp : RpcResponse }.

Definition RpcRequest_DeserializeDataReqProtocol (req : RpcRequest) (traits : SrvTraits) (raw_data : list Z) : RpcRequest :=
  mkReq (rq_socket_ req) (rq_req_protocol_ req) (rq_state_ req) (rq_error_ req)
    (Deserialize (req_serializer traits) raw_data).
Definition RpcResponse_set_resp_protocol (resp : RpcResponse) (p : option ProtocolInterface) : RpcResponse :=
  mkResp (rs_socket_ resp) p (rs_data_resp_protocol_ resp).
Definition RpcResponse_set_data_resp_protocol (resp : RpcResponse) (p : option ProtocolInterface) : RpcResponse :=
  mkResp (rs_socket_ resp) (rs_resp_protocol_ resp) p.
Definition RpcResponse_SerializeDataRespProtocol (resp : RpcResponse) (traits : SrvTraits) : outcome RpcResponse :=
  let* data := Serialize (res_serializer traits) (rs_data_resp_protocol_ resp) in
  let* p := as_Protocol (rs_resp_protocol_ resp) in
  Ok (RpcResponse_set_resp_protocol resp (Some (PBase (Protocol_set_data p data)))).

(** A registered function works on the server's request and response. *)
Definition Func : Type := NetworkServer -> outcome NetworkServer.

Record RpcServerProvider : Type := mkProvider {
  sp_server_ : NetworkServer;
  sp_handlers_ : gmap (list Z) Func
}.
Definition RpcServerProvider_RegisterHandler (p : RpcServerProvider) (name : list Z) (func : Func) : RpcServerProvider :=
  mkProvider (sp_server_ p) (<[name := func]> (sp_handlers_ p)).

(** The text ["other"]. *)
Definition other_text : list Z := [111; 116; 104; 101; 114].

Definition RpcServerProvider_OnNewConn (handlers : gmap (list Z) Func) (manager : ProtocolManager)
    (server : NetworkServer) : outcome NetworkServer :=
  let req := ns_req server in
  if rq_error_ req =? 1 then Ok server else
  let* protocol := as_Protocol (rq_req_protocol_ req) in
  if type_ protocol =? kRequestCall then
    match handlers !! srv_name_ protocol with
    | Some func =>
        let traits := ProtocolManager_Get manager (srv_name_ protocol) in
        let req := RpcRequest_DeserializeDataReqProtocol req traits (data_ protocol) in
        let* server := func (mkServer req (ns_resp server)) in
        let base_protocol := Protocol_Create kResponseCall (req_id_ protocol) [] in
        let resp := RpcResponse_set_resp_protocol (ns_resp server) (Some (PBase base_protocol)) in
        let* resp := RpcResponse_SerializeDataRespProtocol resp traits in
        Ok (mkServer (ns_req server) resp)
    | None =>
        let base_protocol := Protocol_Create kResponseCall (req_id_ protocol) other_text in
        Ok (mkServer req (RpcResponse_set_resp_protocol (ns_resp server) (Some (PBase base_protocol))))
    end
  else Ok server.

(** [ProtocolHandler::Recv] once [RecvProtocol] has returned. *)
Definition ProtocolHandler_Recv_done (req : RpcRequest) (p : option ProtocolInterface) : RpcRequest :=
  match p with
  | Some _ => mkReq (rq_socket_ req) p (rq_state_ req) (rq_error_ req) (rq_data_req_protocol_ req)
  | None => mkReq (rq_socket_ req) None 1 1 (rq_data_req_protocol_ req)
  end.

(** *** [NetworkServer::OnNewConn] and its coroutines *)

(** Where the coroutine of a connection waits. *)
Inductive conn_pc : Type :=
| AtHeader (sock : nat)                     (* in the first [Recvn], on this socket *)
| AtBody (sock : nat) (data_len : Z)        (* in the second *)
| Returned.                                 (* [OnNewConn] has returned *)

Section server.
Context {K : Type} `{EpollKernel K}.
Variable handlers : gmap (list Z) Func.
Variable manager : ProtocolManager.

Record server_world : Type := mkSrvWorld {
  sw_server : NetworkServer;
  sw_socks : gmap nat (sock_io K)
}.

Definition get_io (w : server_world) (p : option nat) : outcome (nat * sock_io K) :=
  match p with
  | None => Fault NullDereference
  | Some i => match sw_socks w !! i with Some io => Ok (i, io) | None => Fault NullDereference end
  end.
Definition put_io (w : server_world) (i : nat) (io : sock_io K) : server_world :=
  mkSrvWorld (sw_server w) (<[i := io]> (sw_socks w)).

(** Up to the first wait: both members are pointed at the new socket. *)
Definition OnNewConn_enter (w : server_world) (new_sock : nat) : server_world * conn_pc :=
  let req := ns_req (sw_server w) in
  let resp := ns_resp (sw_server w) in
  let req := mkReq (Some new_sock) (rq_req_protocol_ req) (rq_state_ req) (rq_error_ req) (rq_data_req_protocol_ req) in
  let resp := mkResp (Some new_sock) (rs_resp_protocol_ resp) (rs_data_resp_protocol_ resp) in
  (mkSrvWorld (mkServer req resp) (sw_socks w), AtHeader new_sock).

(** [cb_(this)], and the response unless the request failed. No result: [Send] waits. *)
Definition OnNewConn_finish (w : server_world) (p : option ProtocolInterface) : outcome (option server_world) :=
  let server := sw_server w in
  let server := mkServer (ProtocolHandler_Recv_done (ns_req server) p) (ns_resp server) in
  let* server := RpcServerProvider_OnNewConn handlers manager server in
  let w := mkSrvWorld server (sw_socks w) in
  if negb (rq_error_ (ns_req server) =? 1) then
    match rs_resp_protocol_ (ns_resp server) with
    | None => Ok (Some w)
    | Some resp =>
        let* (i, io) := get_io w (rs_socket_ (ns_resp server)) in
        let* r := RpcProtocol_SendProtocol io (Some resp) in
        match r with
        | None => Ok None
        | Some (_, io) => Ok (Some (put_io w i io))
        end
    end
  else Ok (Some w).

(** What the coroutine does when the data it waits for has arrived. *)
Definition OnNewConn_resume (w : server_world) (pc : conn_pc) : outcome (option (server_world * conn_pc)) :=
  match pc with
  | AtHeader sock =>
      let* (i, io) := get_io w (Some sock) in
      let* r := RecvProtocol_header io in
      match r with
      | None => Ok None
      | Some (e, hdr, io) =>
          let w := put_io w i io in
          let* (j, io) := get_io w (rq_socket_ (ns_req (sw_server w))) in
          let* r := RecvProtocol_length e hdr io in
          match r with
          | None => Ok None
          | Some (Some data_len, io) => Ok (Some (put_io w j io, AtBody j data_len))
          | Some (None, io) =>
              let* r := OnNewConn_finish (put_io w j io) None in
              match r with None => Ok None | Some w => Ok (Some (w, Returned)) end
          end
      end
  | AtBody sock data_len =>
      let* (i, io) := get_io w (Some sock) in
      let* r := RecvProtocol_body io data_len in
      match r with
      | None => Ok None
      | Some (p, io) =>
          let* r := OnNewConn_finish (put_io w i io) p in
          match r with None => Ok None | Some w => Ok (Some (w, Returned)) end
      end
  | Returned => Ok (Some (w, Returned))
  end.
End server.

(** The function the example server registers for ["hello"]. *)
Definition hello (server : NetworkServer) : outcome NetworkServer :=
  let* req_protocol := as_HelloProtocol (rq_data_req_protocol_ (ns_req server)) in
  let res_protocol := WorldProtocol_Create (Z.of_nat (length (hello_name req_protocol))) in
  Ok (mkServer (ns_req server)
        (RpcResponse_set_data_resp_protocol (ns_resp server) (Some (PWorld res_protocol)))).
End frames.
Arguments sock_io K : clear implicits.
Arguments mkIo {K}.
Arguments io_sock {K}.
Arguments io_env {K}.
Arguments io_in {K}.
Arguments io_out {K}.
Arguments io_closes {K}.
Arguments io_sent {K}.

(** ** Specification *)

(** The envelope of a protocol as bytes. *)
Definition envelope `{PbRuntime} (p : Protocol) : list Z := BaseProtocolBuf_InternalSerialize (Protocol_to_buf p).

(** A protocol that fits in a frame and has no zero byte in its strings. *)
Definition frameable `{PbRuntime} (p : Protocol) : Prop :=
  proto_ok p /\ 0 < Z.of_nat (length (envelope p)) <= 9999 /\
  Forall (fun b => b <> 0) (srv_name_ p) /\ Forall (fun b => b <> 0) (data_ p).

(** The frame of such a protocol. *)
Definition frame `{PbRuntime} (p : Protocol) : list Z :=
  take 4 (format_04d (Z.of_nat (length (envelope p)))) ++ envelope p.

(** A socket that is connected, on a descriptor that is open. *)
Definition live (s : Socket) : Prop :=
  so_connected_ s = true /\ exists c, so_conn_ s = Some c /\ tc_sock_ c <> -1.

(** [header ++ body] arrive on a connection, in any pieces. *)
Definition delivers (answers1 answers2 : list recv_answer) (bytes : list Z) : Prop :=
  Forall recv_quiet answers1 /\ Forall recv_quiet answers2 /\
  length (recv_data answers1) = 4%nat /\ recv_data answers1 ++ recv_data answers2 = bytes.

(** ** Lemmas *)

(** *** Texts *)

Lemma c_string_nonzero buf : Forall (fun b => b <> 0) buf -> c_string buf = buf.
Proof.
  induction 1 as [|b buf Hb _ IH]; [done|]. cbn. destruct (Z.eqb_spec b 0); [done|]. by rewrite IH.
Qed.

Lemma c_string_cut a b : Forall (fun x => x <> 0) a -> c_string (a ++ 0 :: b) = a.
Proof.
  induction 1 as [|x a Hx _ IH]; [done|]. cbn. destruct (Z.eqb_spec x 0); [done|]. by rewrite IH.
Qed.

(** [atoi] of four digits. *)
Lemma atoi_4 a b c d : 0 <= a < 10 -> 0 <= b < 10 -> 0 <= c < 10 -> 0 <= d < 10 ->
  atoi [48 + a; 48 + b; 48 + c; 48 + d] = 1000 * a + 100 * b + 10 * c + d.
Proof.
  intros Ha Hb Hc Hd.
  assert (Hdig : forall x, 0 <= x < 10 -> is_digit_char (48 + x) = true).
  { intros x Hx. unfold is_digit_char. apply andb_true_iff. split; apply Z.leb_le; lia. }
  assert (Hsp : is_space (48 + a) = false).
  { unfold is_space. apply orb_false_iff. split; [apply Z.eqb_neq; lia|]. apply andb_false_iff. right. apply Z.leb_gt. lia. }
  cbn [atoi atoi_digits]. rewrite Hsp, !Hdig by done.
  destruct (Z.eqb_spec (48 + a) 45) as [?|_]; [lia|]. destruct (Z.eqb_spec (48 + a) 43) as [?|_]; lia.
Qed.

Lemma decimal_digits_S fuel v :
  decimal_digits (S fuel) v = (if v <? 10 then [] else decimal_digits fuel (v / 10)) ++ [48 + v mod 10].
Proof. reflexivity. Qed.

Lemma format_04d_digits v : 0 <= v <= 9999 ->
  format_04d v = [48 + v / 10 / 10 / 10; 48 + (v / 10 / 10) mod 10; 48 + (v / 10) mod 10; 48 + v mod 10].
Proof.
  intros Hv. pose proof (Z_div_mod_eq_full v 10). pose proof (Z.mod_pos_bound v 10).
  pose proof (Z_div_mod_eq_full (v / 10) 10). pose proof (Z.mod_pos_bound (v / 10) 10).
  pose proof (Z_div_mod_eq_full (v / 10 / 10) 10). pose proof (Z.mod_pos_bound (v / 10 / 10) 10).
  unfold format_04d, decimal. rewrite decimal_digits_S. destruct (Z.ltb_spec v 10).
  { cbn [length app replicate Nat.sub]. repeat f_equal; lia. }
  rewrite decimal_digits_S. destruct (Z.ltb_spec (v / 10) 10).
  { cbn [length app replicate Nat.sub]. repeat f_equal; lia. }
  rewrite decimal_digits_S. destruct (Z.ltb_spec (v / 10 / 10) 10).
  { cbn [length app replicate Nat.sub]. repeat f_equal; lia. }
  rewrite decimal_digits_S. destruct (Z.ltb_spec (v / 10 / 10 / 10) 10); [|lia].
  cbn [length app replicate Nat.sub]. rewrite (Z.mod_small (v / 10 / 10 / 10)) by lia. done.
Qed.

Lemma header_spec v : 0 <= v <= 9999 ->
  atoi (take 4 (format_04d v)) = v /\ length (take 4 (format_04d v)) = 4%nat.
Proof.
  intros Hv. rewrite format_04d_digits by done. split; [|done]. cbn [take].
  pose proof (Z_div_mod_eq_full v 10). pose proof (Z.mod_pos_bound v 10).
  pose proof (Z_div_mod_eq_full (v / 10) 10). pose proof (Z.mod_pos_bound (v / 10) 10).
  pose proof (Z_div_mod_eq_full (v / 10 / 10) 10). pose proof (Z.mod_pos_bound (v / 10 / 10) 10).
  rewrite atoi_4; lia.
Qed.

Lemma snprintf_take v : take 4 (snprintf_04d v) = take 4 (format_04d v).
Proof.
  unfold snprintf_04d.
  assert (Hl : (4 <= length (format_04d v))%nat) by (unfold format_04d; rewrite length_app, length_replicate; lia).
  rewrite take_app_le by (rewrite length_take; lia). by rewrite take_take.
Qed.

Section frame_facts.
Context `{PbRuntimeLaws} {FL : FrameLayout} {FR : FrameRoom} {K : Type} `{EpollKernel K}.

(** *** Frames *)

Lemma Serialize_envelope p : proto_ok p -> Z.of_nat (length (envelope p)) <= INT_MAX ->
  Serialize BaseProtocolSerializer (Some (PBase p)) = Ok (envelope p).
Proof.
  intros Hp Hl. cbn. by rewrite base_SerializeAsString by (done || by apply to_buf_ok).
Qed.

Lemma Encode_spec p : proto_ok p -> Z.of_nat (length (envelope p)) <= 10000 ->
  RpcProtocol_Encode (Some (PBase p)) = Ok (frame p).
Proof.
  intros Hp Hl. unfold RpcProtocol_Encode.
  rewrite Serialize_envelope by (done || change INT_MAX with 2147483647; lia). cbn [obind].
  rewrite (swrap_small 32) by lia. unfold kDataMaxLen. destruct (Z.ltb_spec 10000 (Z.of_nat (length (envelope p)))); [lia|].
  assert (Hs : (length (snprintf_04d (Z.of_nat (length (envelope p)))) <= 5)%nat).
  { unfold snprintf_04d. rewrite length_app, length_take. cbn [length]. lia. }
  pose proof data_len_spare. rewrite (proj2 (Z.ltb_ge _ _)) by lia. by rewrite snprintf_take.
Qed.

Lemma envelope_nonzero p : frameable p -> Forall (fun b => b <> 0) (envelope p).
Proof.
  intros (Hp & _ & Hz1 & Hz2). unfold envelope. apply base_serialize_nonzero.
  - by apply to_buf_ok.
  - by rewrite to_buf_eq.
  - rewrite to_buf_eq by done. cbn. by destruct (srv_name_ p).
  - by rewrite to_buf_eq.
  - by rewrite to_buf_eq.
Qed.

Lemma Decode_envelope p : frameable p -> RpcProtocol_Decode (envelope p) = Some (PBase (received p)).
Proof.
  intros Hf. unfold RpcProtocol_Decode. rewrite c_string_nonzero by (by apply envelope_nonzero).
  destruct Hf as (Hp & Hl & _).
  destruct (base_serializer_round_trip (PBase p)) as (bs & E1 & E2).
  { split; [done|]. change INT_MAX with 2147483647. unfold envelope in Hl. lia. }
  rewrite Serialize_envelope in E1 by (done || change INT_MAX with 2147483647; lia). by injection E1 as <-.
Qed.

(** *** A live socket *)

Lemma live_Recvn (s : Socket) n answers : live s -> Socket_Recvn s n answers = Ok (recvn n answers).
Proof.
  intros (Hc & c & Hs & Hd). unfold Socket_Recvn, TcpConn_Recvn. rewrite Hc, Hs. cbn [negb].
  by destruct (Z.eqb_spec (tc_sock_ c) (-1)).
Qed.

Lemma live_Send (s : Socket) buf n answers : live s -> Socket_Send s buf n answers = Ok (send buf n answers).
Proof.
  intros (Hc & c & Hs & Hd). unfold Socket_Send, TcpConn_Send. rewrite Hc, Hs. cbn [negb].
  by destruct (Z.eqb_spec (tc_sock_ c) (-1)).
Qed.

Lemma recv_data_app a b : recv_data (a ++ b) = recv_data a ++ recv_data b.
Proof. induction a as [|[] a IH]; cbn; rewrite ?IH, ?app_assoc; done. Qed.

(** The header of a frame, and the length it gives. *)
Lemma header_phase (io : sock_io K) p a1 a2 rest : frameable p -> live (io_sock io) ->
  io_in io = a1 ++ rest -> delivers a1 a2 (frame p) ->
  exists left, RecvProtocol_header io = Ok (Some (IoDone 4, recv_data a1, set_io_in io (left ++ rest))) /\
    Forall recv_quiet left /\ recv_data left = [] /\
    recv_data a1 = take 4 (format_04d (Z.of_nat (length (envelope p)))) /\ recv_data a2 = envelope p.
Proof.
  intros Hf Hlive Hin (Hq1 & _ & Hl1 & Hb). destruct Hf as (_ & Hl & _).
  destruct (header_spec (Z.of_nat (length (envelope p)))) as [_ Hh]; [lia|].
  apply app_inj_1 in Hb as [E1 E2]; [|by rewrite Hh].
  unfold RecvProtocol_header. rewrite live_Recvn, Hin by done.
  destruct (recvn_loop_complete kDataLen kDataLen [] a1 rest Hq1 ltac:(by rewrite Hl1) ltac:(eval_closed))
    as (left & E & Hq & Hd).
  exists left. unfold recvn. rewrite E. done.
Qed.

Lemma length_phase (io : sock_io K) p : frameable p ->
  RecvProtocol_length (IoDone 4) (take 4 (format_04d (Z.of_nat (length (envelope p))))) io =
    Ok (Some (Some (Z.of_nat (length (envelope p))), io)).
Proof.
  intros (_ & Hl & _). unfold RecvProtocol_length. cbn [io_code]. unfold kDataLen.
  change (4 =? 0) with false. change (4 <? 4) with false. cbv iota.
  destruct (header_spec (Z.of_nat (length (envelope p)))) as [-> _]; [lia|].
  destruct (Z.eqb_spec (Z.of_nat (length (envelope p))) 0); [lia|].
  destruct (Z.ltb_spec (Z.of_nat (length (envelope p))) 0); [lia|]. done.
Qed.

Lemma body_phase (io : sock_io K) p a rest : frameable p -> live (io_sock io) ->
  io_in io = a ++ rest -> Forall recv_quiet a -> recv_data a = envelope p ->
  exists left, RecvProtocol_body io (Z.of_nat (length (envelope p))) =
      Ok (Some (Some (PBase (received p)), set_io_in io (left ++ rest))) /\
    Forall recv_quiet left /\ recv_data left = [].
Proof.
  intros Hf Hlive Hin Hq Hd. unfold RecvProtocol_body. rewrite live_Recvn, Hin by done.
  assert (Hl := Hf). destruct Hl as (_ & Hl & _).
  destruct (recvn_loop_complete (Z.of_nat (length (envelope p))) (Z.of_nat (length (envelope p))) [] a rest Hq)
    as (left & E & Hql & Hdl); [by rewrite Hd|lia|].
  exists left. unfold recvn. rewrite E. cbn [obind io_code].
  destruct (Z.ltb_spec (Z.of_nat (length (envelope p))) (Z.of_nat (length (envelope p)))); [lia|].
  cbn [app]. by rewrite Hd, Decode_envelope.
Qed.

(** A whole frame. *)
Lemma recv_frame (io : sock_io K) p a1 a2 rest : frameable p -> live (io_sock io) ->
  io_in io = a1 ++ a2 ++ rest -> delivers a1 a2 (frame p) ->
  exists left, RpcProtocol_RecvProtocol io = Ok (Some (Some (PBase (received p)), set_io_in io (left ++ rest))) /\
    Forall recv_quiet left /\ recv_data left = [].
Proof.
  intros Hf Hlive Hin Hd.
  destruct (header_phase io p a1 a2 (a2 ++ rest) Hf Hlive Hin Hd) as (left & E & Hq & Hdl & E1 & E2).
  destruct (body_phase (set_io_in io (left ++ a2 ++ rest)) p (left ++ a2) rest) as (l & El & Hql & Hdl'); try done.
  - cbn. by rewrite <- app_assoc.
  - apply Forall_app_2; [done|]. by destruct Hd as (_ & ? & _).
  - by rewrite recv_data_app, Hdl, E2.
  - exists l. split; [|done]. unfold RpcProtocol_RecvProtocol. rewrite E. cbn [obind].
    rewrite E1, length_phase by done. cbn [obind]. exact El.
Qed.
End frame_facts.

Section server_facts.
Context `{PbRuntimeLaws} {FL : FrameLayout} {FR : FrameRoom} {K : Type} `{EpollKernel K}.

(** *** Sending *)

(** The kernel takes exactly the bytes of a frame, in any pieces. *)
Definition takes (answers : list send_answer) (bytes : list Z) : Prop :=
  Forall send_quiet answers /\ send_taken answers = Z.of_nat (length bytes).

Lemma frame_length p : frameable p ->
  Z.of_nat (length (frame p)) = 4 + Z.of_nat (length (envelope p)) /\ 4 < Z.of_nat (length (frame p)) <= 10003.
Proof.
  intros (_ & Hl & _). unfold frame. rewrite length_app.
  destruct (header_spec (Z.of_nat (length (envelope p)))) as [_ ->]; [lia|]. lia.
Qed.

Definition sent_more (io : sock_io K) (bytes : list Z) (left : list send_answer) : sock_io K :=
  mkIo (io_sock io) (io_env io) (io_in io) left (io_closes io) (io_sent io ++ bytes).

Lemma SendProtocol_sends (io : sock_io K) p answers rest : frameable p -> live (io_sock io) ->
  io_out io = answers ++ rest -> takes answers (frame p) ->
  exists left, RpcProtocol_SendProtocol io (Some (PBase p)) = Ok (Some (true, sent_more io (frame p) (left ++ rest))).
Proof.
  intros Hf Hlive Hout (Hq & Ht). destruct (frame_length p Hf) as [_ Hl]. unfold RpcProtocol_SendProtocol.
  rewrite Encode_spec by (apply Hf || (destruct Hf as (_ & ? & _); lia)). cbn [obind].
  rewrite (uwrap_small 32 (Z.of_nat _)) by lia. destruct (Z.eqb_spec (Z.of_nat (length (frame p))) 0); [lia|].
  rewrite (swrap_small 32) by lia. rewrite live_Send, Hout by done. cbn [obind].
  destruct (send_loop_complete (Z.of_nat (length (frame p))) (Z.of_nat (length (frame p))) (frame p) [] answers rest Hq)
    as (left & E & _); [done|done|lia|].
  unfold send. rewrite E. cbn [io_code app]. rewrite (uwrap_small 32 (Z.of_nat _)) by lia.
  destruct (Z.ltb_spec (Z.of_nat (length (frame p))) (Z.of_nat (length (frame p)))); [lia|]. by exists left.
Qed.

(** *** The server's steps *)

Variable handlers : gmap (list Z) Func.
Variable manager : ProtocolManager.

Definition with_socks (w : server_world) (req : RpcRequest) (resp : RpcResponse) (i : nat) (io : sock_io K)
  : server_world := mkSrvWorld (mkServer req resp) (<[i := io]> (sw_socks w)).

Lemma resume_header (w : server_world) me io p a1 a2 rest :
  sw_socks w !! me = Some io -> rq_socket_ (ns_req (sw_server w)) = Some me ->
  frameable p -> live (io_sock io) -> io_in io = a1 ++ rest -> delivers a1 a2 (frame p) ->
  exists left, OnNewConn_resume handlers manager w (AtHeader me) =
      Ok (Some (put_io w me (set_io_in io (left ++ rest)), AtBody me (Z.of_nat (length (envelope p))))) /\
    Forall recv_quiet left /\ recv_data left = [].
Proof.
  intros Hio Hsock Hf Hlive Hin Hd.
  destruct (header_phase io p a1 a2 rest Hf Hlive Hin Hd) as (left & E & Hq & Hdl & E1 & _).
  exists left. split; [|done]. cbn [OnNewConn_resume get_io]. rewrite Hio. cbn [obind]. rewrite E. cbn [obind].
  unfold get_io. cbn [put_io sw_server sw_socks]. rewrite Hsock, lookup_insert_eq. cbn [obind].
  rewrite E1, length_phase by done. cbn [obind]. unfold put_io. cbn [sw_server sw_socks].
  by rewrite insert_insert_eq.
Qed.

(** What the callback makes of a request for a registered service. *)
Definition response_to (p : Protocol) (bs : list Z) : Protocol :=
  mkProtocol kMagic kVersion kResponseCall (req_id_ p) 0 [] bs.

(** A function that answers the request [d] with [q]. *)
Definition answers_with (d : option ProtocolInterface) (q : ProtocolInterface) (func : Func) : Prop :=
  forall s, rq_data_req_protocol_ (ns_req s) = d ->
    func s = Ok (mkServer (ns_req s) (RpcResponse_set_data_resp_protocol (ns_resp s) (Some q))).

(** The request is for a service whose function answers it with a value that is
    serialised to [bs]. *)
Definition served (p : Protocol) (bs : list Z) : Prop :=
  let traits := ProtocolManager_Get manager (srv_name_ p) in
  type_ p = kRequestCall /\
  exists func q, handlers !! srv_name_ p = Some func /\
    answers_with (Deserialize (req_serializer traits) (data_ p)) q func /\
    Serialize (res_serializer traits) (Some q) = Ok bs.

Lemma callback_spec req resp p bs :
  rq_error_ req <> 1 -> rq_req_protocol_ req = Some (PBase p) -> 0 <= req_id_ p < 2 ^ 32 -> served p bs ->
  exists req' resp', RpcServerProvider_OnNewConn handlers manager (mkServer req resp) = Ok (mkServer req' resp') /\
    rq_error_ req' = rq_error_ req /\ rs_socket_ resp' = rs_socket_ resp /\
    rs_resp_protocol_ resp' = Some (PBase (response_to p bs)).
Proof.
  intros He Hp Hid (Ht & func & q & Hh & Hfunc & Hs). unfold RpcServerProvider_OnNewConn. cbn [ns_req ns_resp].
  destruct (Z.eqb_spec (rq_error_ req) 1); [done|]. rewrite Hp. cbn [as_Protocol obind].
  unfold answers_with, Func in *. rewrite Ht, Z.eqb_refl, Hh, Hfunc by done.
  cbn [obind ns_req ns_resp].
  unfold RpcResponse_SerializeDataRespProtocol, RpcResponse_set_resp_protocol, RpcResponse_set_data_resp_protocol,
    RpcRequest_DeserializeDataReqProtocol.
  cbn [rs_socket_ rs_resp_protocol_ rs_data_resp_protocol_ rq_data_req_protocol_ rq_socket_ rq_req_protocol_ rq_state_
       rq_error_].
  rewrite Hs. cbn [obind as_Protocol]. eexists _, _. split; [reflexivity|].
  cbn [rs_socket_ rs_resp_protocol_ rq_error_]. split; [done|]. split; [done|].
  unfold response_to, Protocol_set_data, Protocol_Create, Protocol_set_data_len, Protocol_new.
  cbn [magic_ version_ type_ req_id_ data_len_ srv_name_ data_]. by rewrite uwrap_small.
Qed.

(** After a request for a registered service, the response is sent on the socket that
    [resp_] points at when the callback returns. *)
Lemma finish_eq (w : @server_world K) target tio p bs :
  let server := sw_server w in
  rq_error_ (ns_req server) <> 1 -> rs_socket_ (ns_resp server) = Some target -> sw_socks w !! target = Some tio ->
  0 <= req_id_ p < 2 ^ 32 -> served p bs ->
  exists req' resp', rq_error_ req' <> 1 /\
    OnNewConn_finish handlers manager w (Some (PBase p)) =
      (let* r := RpcProtocol_SendProtocol tio (Some (PBase (response_to p bs))) in
       match r with
       | None => Ok None
       | Some (_, io) => Ok (Some (mkSrvWorld (mkServer req' resp') (<[target := io]> (sw_socks w))))
       end).
Proof.
  cbv zeta. intros He Hsock Htio Hid Hs. unfold OnNewConn_finish.
  destruct (callback_spec (ProtocolHandler_Recv_done (ns_req (sw_server w)) (Some (PBase p))) (ns_resp (sw_server w))
              p bs) as (req' & resp' & E & He' & Hsk & Hrp); [done..|].
  exists req', resp'. rewrite E. cbn [obind ns_req ns_resp]. rewrite He'. cbn [ProtocolHandler_Recv_done rq_error_].
  split; [done|]. destruct (Z.eqb_spec (rq_error_ (ns_req (sw_server w))) 1); [done|]. cbn [negb].
  rewrite Hrp, Hsk, Hsock. unfold get_io. cbn [sw_socks]. rewrite Htio. done.
Qed.

Lemma finish_spec (w : server_world) target tio p bs outs rest :
  let server := sw_server w in
  rq_error_ (ns_req server) <> 1 -> rs_socket_ (ns_resp server) = Some target ->
  sw_socks w !! target = Some tio -> live (io_sock tio) ->
  0 <= req_id_ p < 2 ^ 32 -> served p bs ->
  frameable (response_to p bs) -> io_out tio = outs ++ rest -> takes outs (frame (response_to p bs)) ->
  exists left w', OnNewConn_finish handlers manager w (Some (PBase p)) = Ok (Some w') /\
    sw_socks w' = <[target := sent_more tio (frame (response_to p bs)) (left ++ rest)]> (sw_socks w).
Proof.
  cbv zeta. intros He Hsock Htio Hlive Hid Hs Hf Hout Htk.
  destruct (finish_eq w target tio p bs He Hsock Htio Hid Hs) as (req' & resp' & _ & ->).
  destruct (SendProtocol_sends tio (response_to p bs) outs rest Hf Hlive Hout Htk) as (left & ->). cbn [obind].
  exists left. by eexists.
Qed.

(** A request that arrives on the socket [me], body wait included, is answered on the
    socket that [resp_] points at. *)
Lemma resume_body (w : server_world) me io target tio p bs a rest outs orest :
  rq_error_ (ns_req (sw_server w)) <> 1 -> rs_socket_ (ns_resp (sw_server w)) = Some target ->
  sw_socks w !! me = Some io -> frameable p -> live (io_sock io) ->
  io_in io = a ++ rest -> Forall recv_quiet a -> recv_data a = envelope p ->
  (forall left, <[me := set_io_in io (left ++ rest)]> (sw_socks w) !! target = Some (tio left)) ->
  (forall left, live (io_sock (tio left)) /\ io_out (tio left) = outs ++ orest) ->
  served p bs -> frameable (response_to p bs) -> takes outs (frame (response_to p bs)) ->
  exists left oleft w', OnNewConn_resume handlers manager w (AtBody me (Z.of_nat (length (envelope p)))) =
      Ok (Some (w', Returned)) /\
    sw_socks w' = <[target := sent_more (tio left) (frame (response_to p bs)) (oleft ++ orest)]>
                    (<[me := set_io_in io (left ++ rest)]> (sw_socks w)).
Proof.
  intros He Hsock Hio Hf Hlive Hin Hq Hd Ht Hto Hs Hfr Htk.
  destruct (body_phase io p a rest Hf Hlive Hin Hq Hd) as (left & E & _).
  destruct (Hto left) as [Hlt Hout].
  destruct (finish_spec (put_io w me (set_io_in io (left ++ rest))) target (tio left) (received p) bs outs orest)
    as (oleft & w' & Ef & Hw'); try done; [by apply Ht|apply Hf|].
  exists left, oleft, w'. split; [|exact Hw'].
  cbn [OnNewConn_resume]. unfold get_io. rewrite Hio. cbn [obind]. rewrite E. cbn [obind]. rewrite Ef. done.
Qed.

(** One connection, from the call of [OnNewConn] to its return. *)
Lemma server_run (w : server_world) me io p bs a1 a2 rest outs orest :
  sw_socks w !! me = Some io -> live (io_sock io) -> rq_error_ (ns_req (sw_server w)) <> 1 ->
  frameable p -> io_in io = a1 ++ a2 ++ rest -> delivers a1 a2 (frame p) ->
  served p bs -> frameable (response_to p bs) -> io_out io = outs ++ orest -> takes outs (frame (response_to p bs)) ->
  exists w1 pc1 w2 pc2 w3 io3,
    OnNewConn_enter w me = (w1, pc1) /\
    OnNewConn_resume handlers manager w1 pc1 = Ok (Some (w2, pc2)) /\
    OnNewConn_resume handlers manager w2 pc2 = Ok (Some (w3, Returned)) /\
    sw_socks w3 !! me = Some io3 /\ io_sent io3 = io_sent io ++ frame (response_to p bs) /\
    (forall other, other <> me -> sw_socks w3 !! other = sw_socks w !! other).
Proof.
  intros Hio Hlive He Hf Hin Hd Hs Hfr Hout Htk.
  destruct (OnNewConn_enter w me) as [w1 pc1] eqn:E1. unfold OnNewConn_enter in E1. injection E1 as Ew Ep. subst pc1.
  destruct (resume_header w1 me io p a1 a2 (a2 ++ rest)) as (left & E2 & Hql & Hdl); subst w1; try done.
  assert (Hd2 : recv_data (left ++ a2) = envelope p).
  { destruct (header_phase io p a1 a2 (a2 ++ rest) Hf Hlive Hin Hd) as (_ & _ & _ & _ & _ & E).
    by rewrite recv_data_app, Hdl. }
  set (w1 := mkSrvWorld _ _) in E2 |- *.
  destruct (resume_body (put_io w1 me (set_io_in io (left ++ a2 ++ rest))) me (set_io_in io (left ++ a2 ++ rest)) me
              (fun l => set_io_in io (l ++ rest)) p bs (left ++ a2) rest outs orest) as (l & ol & w3 & E3 & Hw3); try done.
  - cbn. by rewrite lookup_insert_eq.
  - cbn. by rewrite <- app_assoc.
  - apply Forall_app_2; [done|]. by destruct Hd as (_ & ? & _).
  - intros l. by rewrite lookup_insert_eq.
  - eexists w1, _, _, _, w3, _. split; [done|]. split; [exact E2|]. split; [exact E3|]. rewrite Hw3.
    rewrite lookup_insert_eq. split; [done|]. split; [done|]. intros other Hne.
    cbn [put_io sw_socks w1]. by rewrite !lookup_insert_ne by done.
Qed.
End server_facts.

(** The request that a client makes for ["hello"]. *)
Definition hello_request (id : Z) (data : list Z) : Protocol :=
  Protocol_set_srv_name (Protocol_Create kRequestCall id data) hello_srv.

(** The example service serves such a request. *)
Lemma hello_served `{PbRuntimeLaws} handlers (manager : ProtocolManager) id name data bs :
  ProtocolManager_Get manager hello_srv = HelloSrvTraits -> handlers !! hello_srv = Some hello ->
  valid_hello (PHello (mkHelloProtocol name)) ->
  Serialize HelloSerializer (Some (PHello (mkHelloProtocol name))) = Ok data ->
  Serialize WorldSerializer (Some (PWorld (WorldProtocol_Create (Z.of_nat (length name))))) = Ok bs ->
  served handlers manager (hello_request id data) bs.
Proof.
  intros Hm Hh Hv Hdata Hbs. destruct (hello_serializer_round_trip (PHello (mkHelloProtocol name)) Hv) as (bs' & E1 & E2).
  rewrite Hdata in E1. injection E1 as <-. unfold served. cbn [hello_request srv_name_ Protocol_set_srv_name].
  rewrite Hm. split; [done|]. exists hello, (PWorld (WorldProtocol_Create (Z.of_nat (length name)))).
  split; [done|]. split; [|done]. intros s Hs. unfold hello.
  assert (Hr : rq_data_req_protocol_ (ns_req s) = Some (PHello (mkHelloProtocol name))) by (rewrite Hs; exact E2).
  by rewrite Hr.
Qed.

(** ** Theorems *)

Section rpc_theorems.
Context `{PbRuntimeLaws} {FL : FrameLayout} {FR : FrameRoom} {K : Type} `{EpollKernel K}.

(** C13: A frame arrives as it was sent. Compiled with a spare byte behind the array that
    its [snprintf] overruns (without, see [Encode_overruns]), [Encode] gives the frame of a
    protocol that fits in 9999 bytes
    and has no zero byte in its strings; when its bytes arrive on a connection, the four
    of the header and the others in any pieces, [RecvProtocol] returns the protocol with the
    magic, the version and the length that [received] gives it, and
    leaves what follows to the next call. *)
Theorem frame_round_trip (io : sock_io K) (p : Protocol) a1 a2 rest :
  frameable p -> live (io_sock io) -> io_in io = a1 ++ a2 ++ rest -> delivers a1 a2 (frame p) ->
  RpcProtocol_Encode (Some (PBase p)) = Ok (frame p) /\
  exists left, RpcProtocol_RecvProtocol io = Ok (Some (Some (PBase (received p)), set_io_in io (left ++ rest))) /\
    Forall recv_quiet left /\ recv_data left = [].
Proof.
  intros Hf Hlive Hin Hd. split.
  { apply Encode_spec; [apply Hf|]. destruct Hf as (_ & ? & _). lia. }
  by apply recv_frame with a1 a2.
Qed.

(** A server answers a request. When a request for a registered service arrives on a
    connection and no other connection interferes, [OnNewConn] sends on that connection
    exactly one frame: a response with the id of the request and the serialised answer of
    the service's function. Nothing is sent on other connections. *)
Theorem server_answers (handlers : gmap (list Z) Func) (manager : ProtocolManager) (w : server_world) me (io : sock_io K)
    p bs a1 a2 rest outs orest :
  sw_socks w !! me = Some io -> live (io_sock io) -> rq_error_ (ns_req (sw_server w)) <> 1 ->
  frameable p -> io_in io = a1 ++ a2 ++ rest -> delivers a1 a2 (frame p) ->
  served handlers manager p bs -> frameable (response_to p bs) ->
  io_out io = outs ++ orest -> takes outs (frame (response_to p bs)) ->
  exists w1 pc1 w2 pc2 w3 io3,
    OnNewConn_enter w me = (w1, pc1) /\
    OnNewConn_resume handlers manager w1 pc1 = Ok (Some (w2, pc2)) /\
    OnNewConn_resume handlers manager w2 pc2 = Ok (Some (w3, Returned)) /\
    sw_socks w3 !! me = Some io3 /\ io_sent io3 = io_sent io ++ frame (response_to p bs) /\
    (forall other, other <> me -> sw_socks w3 !! other = sw_socks w !! other).
Proof. apply server_run. Qed.

(** The response of one connection can go to another. [req_] and [resp_] belong to
    the server: when a second connection enters [OnNewConn] while the first one waits for
    the body of its request, the response to the first is sent on the second. *)
Theorem response_misrouted (handlers : gmap (list Z) Func) (manager : ProtocolManager) (w : server_world) A B
    (ioA ioB : sock_io K) p bs a1 a2 rest outs orest :
  A <> B -> sw_socks w !! A = Some ioA -> sw_socks w !! B = Some ioB -> live (io_sock ioA) -> live (io_sock ioB) ->
  rq_error_ (ns_req (sw_server w)) <> 1 ->
  frameable p -> io_in ioA = a1 ++ a2 ++ rest -> delivers a1 a2 (frame p) ->
  served handlers manager p bs -> frameable (response_to p bs) ->
  io_out ioB = outs ++ orest -> takes outs (frame (response_to p bs)) ->
  exists w1 pcA w2 pcA' w3 pcB w4 ioA' ioB',
    OnNewConn_enter w A = (w1, pcA) /\
    OnNewConn_resume handlers manager w1 pcA = Ok (Some (w2, pcA')) /\
    OnNewConn_enter w2 B = (w3, pcB) /\
    OnNewConn_resume handlers manager w3 pcA' = Ok (Some (w4, Returned)) /\
    sw_socks w4 !! A = Some ioA' /\ io_sent ioA' = io_sent ioA /\
    sw_socks w4 !! B = Some ioB' /\ io_sent ioB' = io_sent ioB ++ frame (response_to p bs).
Proof.
  intros Hne HA HB HlA HlB He Hf Hin Hd Hs Hfr Hout Htk.
  set (w1 := fst (OnNewConn_enter w A)).
  destruct (resume_header handlers manager w1 A ioA p a1 a2 (a2 ++ rest)) as (left & E2 & Hql & Hdl); try done.
  assert (Hd2 : recv_data (left ++ a2) = envelope p).
  { destruct (header_phase ioA p a1 a2 (a2 ++ rest) Hf HlA Hin Hd) as (_ & _ & _ & _ & _ & E).
    by rewrite recv_data_app, Hdl. }
  set (ioA1 := set_io_in ioA (left ++ a2 ++ rest)) in *.
  set (w3 := fst (OnNewConn_enter (put_io w1 A ioA1) B)).
  destruct (resume_body handlers manager w3 A ioA1 B (fun _ => ioB) p bs (left ++ a2) rest outs orest)
    as (l & ol & w4 & E4 & Hw4); try done.
  - cbn. by rewrite lookup_insert_eq.
  - cbn. by rewrite <- app_assoc.
  - apply Forall_app_2; [done|]. by destruct Hd as (_ & ? & _).
  - intros l. cbn. by rewrite !lookup_insert_ne by done.
  - exists w1, (AtHeader A), (put_io w1 A ioA1), (AtBody A (Z.of_nat (length (envelope p)))), w3, (AtHeader B), w4.
    eexists _, _. do 4 (split; [done|]). rewrite Hw4, lookup_insert_eq, lookup_insert_ne by done.
    rewrite lookup_insert_eq. done.
Qed.

(** One failed request stops the server. [error_] is set when a request cannot be
    received and never reset: from then on no connection gets a response any more. *)
Theorem error_is_sticky (handlers : gmap (list Z) Func) (manager : ProtocolManager) (w w' : @server_world K) q :
  OnNewConn_finish handlers manager w q = Ok (Some w') ->
  (q = None -> rq_error_ (ns_req (sw_server w')) = 1) /\
  (rq_error_ (ns_req (sw_server w)) = 1 ->
   rq_error_ (ns_req (sw_server w')) = 1 /\ sw_socks w' = sw_socks w).
Proof.
  unfold OnNewConn_finish, RpcServerProvider_OnNewConn. intros E.
  assert (Hstop : rq_error_ (ProtocolHandler_Recv_done (ns_req (sw_server w)) q) = 1 ->
                  rq_error_ (ns_req (sw_server w')) = 1 /\ sw_socks w' = sw_socks w).
  { intros He. cbn [ns_req] in E. rewrite He in E. change (1 =? 1) with true in E. cbn [obind ns_req] in E.
    rewrite He in E. injection E as <-. done. }
  split; intros Hq; apply Hstop.
  - by rewrite Hq.
  - by destruct q.
Qed.

(** [SendProtocol] does not see errors. [Send] returns -1, which is compared as an
    unsigned value with the length of the frame: the failure is reported as success. *)
Theorem SendProtocol_hides_errors (io : sock_io K) p errno rest :
  frameable p -> live (io_sock io) -> would_block errno = false -> errno <> EINTR ->
  io_out io = SErr errno None :: rest ->
  exists io', RpcProtocol_SendProtocol io (Some (PBase p)) = Ok (Some (true, io')) /\ io_sent io' = io_sent io.
Proof.
  intros Hf Hlive Hb He Hout. destruct (frame_length p Hf) as [_ Hl]. unfold RpcProtocol_SendProtocol.
  rewrite Encode_spec by (apply Hf || (destruct Hf as (_ & ? & _); lia)). cbn [obind].
  rewrite (uwrap_small 32 (Z.of_nat _)) by lia. destruct (Z.eqb_spec (Z.of_nat (length (frame p))) 0); [lia|].
  rewrite (swrap_small 32) by lia. rewrite live_Send, Hout by done. cbn [obind].
  unfold send. cbn [send_loop]. destruct (Z.eqb_spec (-1) (Z.of_nat (length (frame p)))); [lia|]. rewrite Hb.
  destruct (Z.eqb_spec errno EINTR); [done|]. cbn [io_code]. change (u32 (-1)) with 4294967295.
  destruct (Z.ltb_spec 4294967295 (Z.of_nat (length (frame p)))); [lia|].
  eexists. split; [reflexivity|]. cbn. by rewrite app_nil_r.
Qed.

(** C6: A remote call from end to end, of messages that fit in frames (at most 9999 bytes, no
    zero byte in their strings), with a spare byte behind the array of [Encode] and after no
    failed receive. A client's request for the example service, sent
    as a frame and received by the server in any pieces, makes the server send a frame
    which, received by the client in any pieces, is a response with the id of the request
    whose data is the length of the name. *)
Theorem hello_call_end_to_end (handlers : gmap (list Z) Func) (manager : ProtocolManager) (w : server_world) me
    (io client : sock_io K) id name data bs a1 a2 rest b1 b2 crest outs orest :
  ProtocolManager_Get manager hello_srv = HelloSrvTraits -> handlers !! hello_srv = Some hello ->
  valid_hello (PHello (mkHelloProtocol name)) -> Z.of_nat (length name) < 2 ^ 31 ->
  Serialize HelloSerializer (Some (PHello (mkHelloProtocol name))) = Ok data ->
  Serialize WorldSerializer (Some (PWorld (WorldProtocol_Create (Z.of_nat (length name))))) = Ok bs ->
  frameable (hello_request id data) -> frameable (response_to (hello_request id data) bs) ->
  sw_socks w !! me = Some io -> live (io_sock io) -> rq_error_ (ns_req (sw_server w)) <> 1 -> io_sent io = [] ->
  io_in io = a1 ++ a2 ++ rest -> delivers a1 a2 (frame (hello_request id data)) ->
  io_out io = outs ++ orest -> takes outs (frame (response_to (hello_request id data) bs)) ->
  exists w1 pc1 w2 pc2 w3 io3,
    OnNewConn_enter w me = (w1, pc1) /\
    OnNewConn_resume handlers manager w1 pc1 = Ok (Some (w2, pc2)) /\
    OnNewConn_resume handlers manager w2 pc2 = Ok (Some (w3, Returned)) /\
    sw_socks w3 !! me = Some io3 /\
    (live (io_sock client) -> io_in client = b1 ++ b2 ++ crest -> delivers b1 b2 (io_sent io3) ->
     exists resp client', RpcProtocol_RecvProtocol client = Ok (Some (Some (PBase resp), client')) /\
       type_ resp = kResponseCall /\ req_id_ resp = u32 id /\
       Deserialize WorldSerializer (data_ resp) = Some (PWorld (mkWorldProtocol (Z.of_nat (length name))))).
Proof.
  intros Hm Hh Hv Hln Hdata Hbs Hf Hfr Hio Hlive He Hsent Hin Hd Hout Htk.
  destruct (server_run handlers manager w me io (hello_request id data) bs a1 a2 rest outs orest)
    as (w1 & pc1 & w2 & pc2 & w3 & io3 & E1 & E2 & E3 & Hio3 & Hs3 & _); try done; [by apply hello_served with name|].
  exists w1, pc1, w2, pc2, w3, io3. do 4 (split; [done|]). rewrite Hs3, Hsent, app_nil_l.
  intros Hlc Hinc Hdc.
  destruct (recv_frame client (response_to (hello_request id data) bs) b1 b2 crest Hfr Hlc Hinc Hdc) as (l & El & _).
  eexists _, _. split; [exact El|]. split; [reflexivity|]. split; [reflexivity|].
  destruct (world_serializer_round_trip (PWorld (WorldProtocol_Create (Z.of_nat (length name))))) as (bs' & F1 & F2).
  { apply (swrap_range 32). lia. }
  rewrite Hbs in F1. injection F1 as <-. cbn [received response_to data_]. rewrite F2.
  unfold WorldProtocol_Create, Datatypes.id. clear - Hln. by rewrite (swrap_small 32) by lia.
Qed.
End rpc_theorems.

(** A frame of 10000 bytes is accepted, but its header says 1000: the fifth digit is lost. *)
Lemma header_of_10000 : atoi (take 4 (snprintf_04d 10000)) = 1000.
Proof. vm_compute. reflexivity. Qed.

(** The five bytes that [snprintf] writes to an array of four. *)
Lemma snprintf_overruns v : 0 <= v <= 9999 -> length (snprintf_04d v) = 5%nat.
Proof.
  intros Hv. unfold snprintf_04d. rewrite length_app. destruct (header_spec v Hv) as [_ ->]. done.
Qed.

(** Where the array is followed by another object at once, every [Encode] writes to it. *)
Theorem Encode_overruns `{PbRuntimeLaws} {FL : FrameLayout} p :
  data_len_room < 5 -> proto_ok p -> Z.of_nat (length (envelope p)) <= 9999 ->
  RpcProtocol_Encode (Some (PBase p)) = Fault OutOfBounds.
Proof.
  intros Hr Hp Hl. unfold RpcProtocol_Encode.
  rewrite Serialize_envelope by (done || change INT_MAX with 2147483647; lia). cbn [obind].
  rewrite (swrap_small 32) by lia. unfold kDataMaxLen. rewrite (proj2 (Z.ltb_ge _ _)) by lia.
  by rewrite snprintf_overruns, (proj2 (Z.ltb_lt _ _)) by lia.
Qed.

(** A body with a zero byte is decoded only up to it. *)
Lemma Decode_stops_at_zero `{PbRuntime} a b : Forall (fun x => x <> 0) a ->
  RpcProtocol_Decode (a ++ 0 :: b) = Deserialize BaseProtocolSerializer a.
Proof. intros Ha. unfold RpcProtocol_Decode. by rewrite c_string_cut. Qed.

(** A request for a service that nobody registered is answered with the text ["other"],
    which is no serialised response. *)
Lemma unknown_service_answer `{PbRuntime} handlers (manager : ProtocolManager) req resp p :
  rq_error_ req <> 1 -> rq_req_protocol_ req = Some (PBase p) -> type_ p = kRequestCall ->
  handlers !! srv_name_ p = None ->
  RpcServerProvider_OnNewConn handlers manager (mkServer req resp) =
    Ok (mkServer req (RpcResponse_set_resp_protocol resp
                        (Some (PBase (Protocol_Create kResponseCall (req_id_ p) other_text))))).
Proof.
  intros He Hp Ht Hh. unfold RpcServerProvider_OnNewConn, Func in *. cbn [ns_req ns_resp].
  destruct (Z.eqb_spec (rq_error_ req) 1); [done|]. rewrite Hp. cbn [as_Protocol obind].
  by rewrite Ht, Z.eqb_refl, Hh.
Qed.

(** ** Witnesses *)

#[local] Existing Instance padded_frame.
#[local] Existing Instance padded_frame_room.

(** Closes [frameable] of a closed protocol by evaluation. *)
Ltac frameable_closed :=
  split; [split; [eval_closed|]; split; [eval_closed|]; split; [eval_closed|reflexivity]|];
  split; [eval_closed|]; split; repeat (constructor; [discriminate|]); constructor.

Definition request_data : list Z := [10; 3; 116; 105; 116].
Definition request_sample : Protocol := hello_request 1 request_data.
Definition answer_sample : list Z := [8; 3].
Definition response_sample : Protocol := response_to request_sample answer_sample.
Definition manager_sample : @ProtocolManager := HelloSrvTraits_register ∅.
Definition handlers_sample : gmap (list Z) Func := {[hello_srv := hello]}.

(** The header and the body of the request in pieces, and a kernel that takes bytes. *)
Definition header_in : list recv_answer := [RErr EAGAIN None; RData (take 4 (frame request_sample))].
Definition body_in : list recv_answer :=
  [RData (take 5 (envelope request_sample)); RErr EINTR None; RData (drop 5 (envelope request_sample))].
Definition io_sample : sock_io epoll_table :=
  mkIo sample_socket sample_env (header_in ++ body_in ++ [])
    ([STaken (Z.of_nat (length (frame response_sample)))] ++ []) [] [].
Definition world_sample : @server_world epoll_table :=
  mkSrvWorld (mkServer (mkReq None None 0 0 None) (mkResp None None None)) {[0%nat := io_sample; 1%nat := io_sample]}.

Lemma request_frameable : frameable request_sample.
Proof. frameable_closed. Qed.

Lemma response_frameable : frameable response_sample.
Proof. frameable_closed. Qed.

Lemma sample_live : live (io_sock io_sample).
Proof. split; [done|]. by exists (mkTcpConn 7). Qed.

Lemma sample_delivers : delivers header_in body_in (frame request_sample).
Proof.
  split; [|split; [|split; reflexivity]].
  - constructor; [by left|]. constructor; [discriminate|constructor].
  - constructor; [discriminate|]. constructor; [by right|]. constructor; [discriminate|constructor].
Qed.

Lemma sample_takes : takes [STaken (Z.of_nat (length (frame response_sample)))] (frame response_sample).
Proof. split; [|vm_compute; reflexivity]. constructor; [vm_compute; reflexivity|constructor]. Qed.

Lemma sample_served : served handlers_sample manager_sample request_sample answer_sample.
Proof.
  apply (hello_served handlers_sample manager_sample 1 [116; 105; 116]); [reflexivity|reflexivity| |reflexivity|reflexivity].
  split; [reflexivity|]. split; eval_closed.
Qed.

Lemma frame_round_trip_witness :
  frame request_sample = [48; 48; 50; 53] ++ [8; 170; 1; 16; 1; 24; 5; 32; 1; 40; 5; 50; 5; 104; 101; 108; 108; 111;
    58; 5; 10; 3; 116; 105; 116] /\
  exists left, RpcProtocol_RecvProtocol io_sample = Ok (Some (Some (PBase request_sample), set_io_in io_sample (left ++ []))) /\
    Forall recv_quiet left /\ recv_data left = [].
Proof.
  split; [reflexivity|].
  exact (proj2 (frame_round_trip io_sample request_sample header_in body_in [] request_frameable sample_live eq_refl
                  sample_delivers)).
Defined.

Lemma server_answers_witness :
  exists w1 pc1 w2 pc2 w3 io3,
    OnNewConn_enter world_sample 0 = (w1, pc1) /\
    OnNewConn_resume handlers_sample manager_sample w1 pc1 = Ok (Some (w2, pc2)) /\
    OnNewConn_resume handlers_sample manager_sample w2 pc2 = Ok (Some (w3, Returned)) /\
    sw_socks w3 !! 0%nat = Some io3 /\ io_sent io3 = [] ++ frame response_sample /\
    (forall other, other <> 0%nat -> sw_socks w3 !! other = sw_socks world_sample !! other).
Proof.
  exact (server_answers handlers_sample manager_sample world_sample 0%nat io_sample request_sample answer_sample
           header_in body_in [] _ [] eq_refl sample_live ltac:(discriminate) request_frameable eq_refl sample_delivers
           sample_served response_frameable eq_refl sample_takes).
Defined.

Lemma response_misrouted_witness :
  exists w1 pcA w2 pcA' w3 pcB w4 ioA' ioB',
    OnNewConn_enter world_sample 0 = (w1, pcA) /\
    OnNewConn_resume handlers_sample manager_sample w1 pcA = Ok (Some (w2, pcA')) /\
    OnNewConn_enter w2 1 = (w3, pcB) /\
    OnNewConn_resume handlers_sample manager_sample w3 pcA' = Ok (Some (w4, Returned)) /\
    sw_socks w4 !! 0%nat = Some ioA' /\ io_sent ioA' = [] /\
    sw_socks w4 !! 1%nat = Some ioB' /\ io_sent ioB' = [] ++ frame response_sample.
Proof.
  exact (response_misrouted handlers_sample manager_sample world_sample 0%nat 1%nat io_sample io_sample request_sample
           answer_sample header_in body_in [] _ [] ltac:(discriminate) eq_refl eq_refl sample_live sample_live
           ltac:(discriminate) request_frameable eq_refl sample_delivers sample_served response_frameable eq_refl
           sample_takes).
Defined.

(** A world whose request has failed once. *)
Definition failed_sample : @server_world epoll_table :=
  mkSrvWorld (mkServer (mkReq (Some 0%nat) None 1 1 None) (mkResp (Some 0%nat) None None)) {[0%nat := io_sample]}.

Lemma error_is_sticky_witness :
  exists w', OnNewConn_finish handlers_sample manager_sample failed_sample (Some (PBase request_sample)) = Ok (Some w') /\
    rq_error_ (ns_req (sw_server w')) = 1 /\ sw_socks w' = sw_socks failed_sample.
Proof.
  eexists. split; [reflexivity|].
  exact (proj2 (error_is_sticky handlers_sample manager_sample failed_sample _ (Some (PBase request_sample)) eq_refl) eq_refl).
Defined.

(** The peer has gone: [EPIPE] is 32. *)
Definition broken_io : sock_io epoll_table := mkIo sample_socket sample_env [] [SErr 32 None] [] [].

Lemma SendProtocol_hides_errors_witness :
  exists io', RpcProtocol_SendProtocol broken_io (Some (PBase request_sample)) = Ok (Some (true, io')) /\ io_sent io' = [].
Proof.
  exact (SendProtocol_hides_errors broken_io request_sample 32 [] request_frameable sample_live eq_refl
           ltac:(discriminate) eq_refl).
Defined.

(** The client reads the response in one piece after the header. *)
Definition response_in1 : list recv_answer := [RData (take 4 (frame response_sample))].
Definition response_in2 : list recv_answer := [RData (envelope response_sample)].
Definition client_sample : sock_io epoll_table :=
  mkIo sample_socket sample_env (response_in1 ++ response_in2 ++ []) [] [] [].

Lemma response_delivers : delivers response_in1 response_in2 (frame response_sample).
Proof.
  split; [|split; [|split; reflexivity]]; (constructor; [discriminate|constructor]).
Qed.

(** What the call needs of the sample. *)
Lemma sample_hello_facts :
  ProtocolManager_Get manager_sample hello_srv = HelloSrvTraits /\ handlers_sample !! hello_srv = Some hello /\
  valid_hello (PHello (mkHelloProtocol [116; 105; 116])) /\
  Serialize HelloSerializer (Some (PHello (mkHelloProtocol [116; 105; 116]))) = Ok request_data /\
  Serialize WorldSerializer (Some (PWorld (WorldProtocol_Create (Z.of_nat (length [116; 105; 116]))))) = Ok answer_sample.
Proof.
  split; [reflexivity|]. split; [reflexivity|]. split; [|split; reflexivity].
  split; [reflexivity|]. split; eval_closed.
Qed.

Lemma hello_call_end_to_end_witness :
  exists w1 pc1 w2 pc2 w3 io3,
    OnNewConn_enter world_sample 0 = (w1, pc1) /\
    OnNewConn_resume handlers_sample manager_sample w1 pc1 = Ok (Some (w2, pc2)) /\
    OnNewConn_resume handlers_sample manager_sample w2 pc2 = Ok (Some (w3, Returned)) /\
    sw_socks w3 !! 0%nat = Some io3 /\
    (live (io_sock client_sample) -> io_in client_sample = response_in1 ++ response_in2 ++ [] ->
     delivers response_in1 response_in2 (io_sent io3) ->
     exists resp client', RpcProtocol_RecvProtocol client_sample = Ok (Some (Some (PBase resp), client')) /\
       type_ resp = kResponseCall /\ req_id_ resp = u32 1 /\
       Deserialize WorldSerializer (data_ resp) = Some (PWorld (mkWorldProtocol (Z.of_nat (length [116; 105; 116]))))).
Proof.
  destruct sample_hello_facts as (F1 & F2 & F3 & F4 & F5).
  eapply (hello_call_end_to_end handlers_sample manager_sample world_sample 0%nat io_sample client_sample 1 [116; 105; 116]
            request_data answer_sample header_in body_in []);
    [exact F1|exact F2|exact F3|eval_closed|exact F4|exact F5|exact request_frameable|exact response_frameable|reflexivity
    |exact sample_live|discriminate|reflexivity|reflexivity|exact sample_delivers|reflexivity|exact sample_takes].
Defined.
