(* ===== verification/RpcServing.v ===== *)
(** * The server with several connections

    [NetworkServer] keeps one request and one response for all its connections, and an
    error flag that nobody resets; what one connection does is seen by all of them. Here is
    what comes of it, in the steps of [OnNewConn] that Rpc.v defines: of two open
    connections the first is never answered, and when a peer disconnects, as every client
    does in the end, the server answers nobody any more. *)

From stdpp Require Import base numbers list gmap.
From Stdlib Require Import Lia ZArith.
From S2P Require Import Prelude Stream Errno SockCtx Epoll Coroutine Copoll TaskManager TimerManager Scheduler Sock.
From S2P Require Import Net PbRuntime PbMessages Protocol Rpc.

(** ** Definitions *)

Section server_steps.
Context `{PbRuntime} {FL : FrameLayout} {K : Type} `{EpollKernel K}.
Variable handlers : gmap (list Z) Func.
Variable manager : ProtocolManager.

(** The coroutine of a new connection, one of [news], calls [OnNewConn], or one goes on
    when its data has arrived, wherever it waits. *)
Inductive server_step (news : nat -> Prop) : @server_world K -> @server_world K -> Prop :=
| ServerEnter w sock w' pc : news sock -> OnNewConn_enter w sock = (w', pc) -> server_step news w w'
| ServerResume w pc w' pc' : OnNewConn_resume handlers manager w pc = Ok (Some (w', pc')) -> server_step news w w'.

(** What has been sent on each connection. *)
Definition all_sent (w : @server_world K) : gmap nat (list Z) := io_sent <$> sw_socks w.

(** The server has failed to receive a request, and has sent [sent]. *)
Definition stopped (sent : gmap nat (list Z)) (w : @server_world K) : Prop :=
  rq_error_ (ns_req (sw_server w)) = 1 /\ all_sent w = sent.

(** Responses do not go to [A], on which [sent] has been sent. *)
Definition passed_over (A : nat) (sent : option (list Z)) (w : @server_world K) : Prop :=
  rs_socket_ (ns_resp (sw_server w)) <> Some A /\ all_sent w !! A = sent.

(** The registered functions leave the socket of the response alone. *)
Definition keep_socket : Prop :=
  forall name f s s', handlers !! name = Some f -> f s = Ok s' -> rs_socket_ (ns_resp s') = rs_socket_ (ns_resp s).

(** ** Lemmas *)

Lemma all_sent_put w i io io' : sw_socks w !! i = Some io -> io_sent io' = io_sent io -> all_sent (put_io w i io') = all_sent w.
Proof.
  intros Hi Hs. unfold all_sent, put_io. cbn [sw_socks]. rewrite fmap_insert, Hs. apply insert_id. by rewrite lookup_fmap, Hi.
Qed.

Lemma stopped_put sent w i io io' : sw_socks w !! i = Some io -> io_sent io' = io_sent io ->
  stopped sent w -> stopped sent (put_io w i io').
Proof. intros Hi Hs [He Ha]. split; [exact He|]. by rewrite (all_sent_put w i io io'). Qed.

Lemma get_io_ok (w : @server_world K) p i io : get_io w p = Ok (i, io) -> p = Some i /\ sw_socks w !! i = Some io.
Proof. unfold get_io. destruct p as [j|]; [|done]. destruct (sw_socks w !! j) eqn:E; [|done]. by intros [= <- <-]. Qed.

Lemma finish_stopped sent w q w' : OnNewConn_finish handlers manager w q = Ok (Some w') -> stopped sent w -> stopped sent w'.
Proof.
  intros E [He Ha]. destruct (error_is_sticky handlers manager w w' q E) as [_ Hkeep].
  destruct (Hkeep He) as [He' Hs]. split; [exact He'|]. unfold all_sent. by rewrite Hs.
Qed.

Lemma header_sent (io io' : sock_io K) e hdr : RecvProtocol_header io = Ok (Some (e, hdr, io')) -> io_sent io' = io_sent io.
Proof.
  unfold RecvProtocol_header. destruct (Socket_Recvn _ _ _) as [[[[e' h] rest]|]|]; cbn; try done. by intros [= _ _ <-].
Qed.

Lemma length_sent (io io' : sock_io K) e hdr r :
  RecvProtocol_length e hdr io = Ok (Some (r, io')) -> io_sent io' = io_sent io.
Proof.
  unfold RecvProtocol_length. destruct (io_code e =? 0).
  - destruct (Socket_Close _ _ _ _) as [[[s env] [b|]]|]; cbn; try done. by intros [= _ <-].
  - destruct (io_code e <? kDataLen); [by intros [= _ <-]|]. destruct (atoi hdr =? 0); [by intros [= _ <-]|].
    destruct (atoi hdr <? 0); [done|]. by intros [= _ <-].
Qed.

Lemma body_sent (io io' : sock_io K) n p : RecvProtocol_body io n = Ok (Some (p, io')) -> io_sent io' = io_sent io.
Proof.
  unfold RecvProtocol_body. destruct (Socket_Recvn _ _ _) as [[[[e body] rest]|]|]; cbn; try done.
  destruct (io_code e <? n); by intros [= _ <-].
Qed.

(** What every step keeps: an assertion on the server and on what was sent that [OnNewConn]
    keeps at its beginning and at its end. *)
Lemma server_step_keeps (P : @server_world K -> Prop) news w w' :
  (forall w i io io', sw_socks w !! i = Some io -> io_sent io' = io_sent io -> P w -> P (put_io w i io')) ->
  (forall w q w', OnNewConn_finish handlers manager w q = Ok (Some w') -> P w -> P w') ->
  (forall w sock, news sock -> P w -> P (fst (OnNewConn_enter w sock))) ->
  server_step news w w' -> P w -> P w'.
Proof.
  intros Hput Hfin Hent Hstep Hst. destruct Hstep as [w sock w' pc Hn E|w pc w' pc' E].
  - specialize (Hent w sock Hn Hst). by rewrite E in Hent.
  - destruct pc as [sock|sock n|]; cbn [OnNewConn_resume] in E; [| |by injection E as <- _].
    + destruct (get_io w (Some sock)) as [[i io]|] eqn:Eio; [|done]. apply get_io_ok in Eio as [_ Hi]. cbn [obind] in E.
      destruct (RecvProtocol_header io) as [[[[e hdr] io1]|]|] eqn:Eh; [|done..]. cbn [obind] in E.
      apply header_sent in Eh. assert (Hst1 := Hput _ _ _ _ Hi Eh Hst).
      destruct (get_io (put_io w i io1) _) as [[j io2]|] eqn:Ej; [|done]. apply get_io_ok in Ej as [_ Hj]. cbn [obind] in E.
      destruct (RecvProtocol_length e hdr io2) as [[[[n|] io3]|]|] eqn:El; [| |done..]; cbn [obind] in E;
        apply length_sent in El; assert (Hst2 := Hput _ _ _ _ Hj El Hst1).
      * by injection E as <- _.
      * destruct (OnNewConn_finish _ _ _ _) as [[w3|]|] eqn:Ef; [|done..]. cbn [obind] in E. injection E as <- _. eauto.
    + destruct (get_io w (Some sock)) as [[i io]|] eqn:Eio; [|done]. apply get_io_ok in Eio as [_ Hi]. cbn [obind] in E.
      destruct (RecvProtocol_body io n) as [[[p io1]|]|] eqn:Eb; [|done..]. cbn [obind] in E. apply body_sent in Eb.
      assert (Hst1 := Hput _ _ _ _ Hi Eb Hst).
      destruct (OnNewConn_finish _ _ _ _) as [[w3|]|] eqn:Ef; [|done..]. cbn [obind] in E. injection E as <- _. eauto.
Qed.

(** Every step keeps a stopped server stopped. *)
Lemma server_step_stopped news sent w w' : server_step news w w' -> stopped sent w -> stopped sent w'.
Proof.
  apply server_step_keeps; [by intros w0 i io io'; apply (stopped_put sent)| |by intros w0 sock _].
  intros w0 q w1. by apply finish_stopped.
Qed.

Lemma provider_socket server server' :
  keep_socket -> RpcServerProvider_OnNewConn handlers manager server = Ok server' ->
  rs_socket_ (ns_resp server') = rs_socket_ (ns_resp server).
Proof.
  intros Hk. unfold RpcServerProvider_OnNewConn. destruct (_ =? 1); [by intros [= <-]|].
  destruct (as_Protocol _) as [p|]; [|done]. cbn [obind]. destruct (_ =? kRequestCall); [|by intros [= <-]].
  destruct (handlers !! srv_name_ p) as [f|] eqn:Ef; [|by intros [= <-]].
  destruct (f _) as [s1|] eqn:Es; [|done]. cbn [obind]. unfold RpcResponse_SerializeDataRespProtocol.
  destruct (Serialize _ _) as [d|]; [|done]. cbn [obind]. destruct (as_Protocol _) as [q|]; [|done]. cbn [obind].
  intros [= <-]. by apply (Hk _ _ _ _ Ef) in Es.
Qed.

Lemma SendProtocol_other (w : @server_world K) A i io io' ok p :
  get_io w (rs_socket_ (ns_resp (sw_server w))) = Ok (i, io) -> rs_socket_ (ns_resp (sw_server w)) <> Some A ->
  RpcProtocol_SendProtocol io p = Ok (Some (ok, io')) -> all_sent (put_io w i io') !! A = all_sent w !! A.
Proof.
  intros E Hne _. apply get_io_ok in E as [Ei Hi]. unfold all_sent. cbn [put_io sw_socks].
  rewrite !lookup_fmap, lookup_insert_ne by congruence. done.
Qed.

Lemma finish_passed_over A sent w q w' :
  keep_socket -> OnNewConn_finish handlers manager w q = Ok (Some w') -> passed_over A sent w -> passed_over A sent w'.
Proof.
  intros Hk. unfold OnNewConn_finish. intros E [Hs Ha].
  destruct (RpcServerProvider_OnNewConn _ _ _) as [server|] eqn:Ep; [|done]. cbn [obind] in E.
  apply provider_socket in Ep; [|done]. cbn [ns_resp] in Ep. rewrite <- Ep in Hs.
  destruct (negb _); [|by injection E as <-].
  destruct (rs_resp_protocol_ (ns_resp server)) as [resp|]; [|by injection E as <-].
  set (w1 := mkSrvWorld server (sw_socks w)) in *.
  destruct (get_io w1 _) as [[i io]|] eqn:Eio; [|done]. cbn [obind] in E.
  destruct (RpcProtocol_SendProtocol io (Some resp)) as [[[ok io']|]|] eqn:Es; [|done..]. cbn [obind] in E.
  injection E as <-. split; [done|]. by rewrite (SendProtocol_other w1 A i io io' ok (Some resp)).
Qed.

(** While the responses go elsewhere, nothing is sent on [A]. *)
Lemma server_step_passed_over A sent w w' :
  keep_socket -> server_step (fun sock => sock <> A) w w' -> passed_over A sent w -> passed_over A sent w'.
Proof.
  intros Hk. apply server_step_keeps.
  - intros w0 i io io' Hi Hsent [Hs Ha]. split; [done|]. by rewrite (all_sent_put w0 i io io').
  - intros w0 q w1 E. by apply (finish_passed_over A sent w0 q).
  - intros w0 sock Hne [_ Ha]. split; [cbn; congruence|done].
Qed.
End server_steps.

Section connection_facts.
Context `{PbRuntimeLaws} {FL : FrameLayout} {FR : FrameRoom} {K : Type} `{EpollKernel K}.
Variable handlers : gmap (list Z) Func.
Variable manager : ProtocolManager.

(** The header of a request on [A], when [socket_] is meanwhile that of [B]: the length is
    used to read from [B]. *)
Lemma resume_header_other (w : @server_world K) A B ioA ioB p a1 a2 rest :
  A <> B -> sw_socks w !! A = Some ioA -> sw_socks w !! B = Some ioB -> rq_socket_ (ns_req (sw_server w)) = Some B ->
  frameable p -> live (io_sock ioA) -> io_in ioA = a1 ++ rest -> delivers a1 a2 (frame p) ->
  exists left, recv_data left = [] /\
    OnNewConn_resume handlers manager w (AtHeader A) =
      Ok (Some (put_io w A (set_io_in ioA (left ++ rest)), AtBody B (Z.of_nat (length (envelope p))))).
Proof.
  intros Hne HA HB Hsock Hf Hlive Hin Hd.
  destruct (header_phase ioA p a1 a2 rest Hf Hlive Hin Hd) as (left & E & _ & Hdl & E1 & _).
  exists left. split; [done|]. cbn [OnNewConn_resume]. unfold get_io at 1. rewrite HA. cbn [obind]. rewrite E. cbn [obind].
  unfold get_io. cbn [put_io sw_server sw_socks]. rewrite Hsock, lookup_insert_ne, HB by done. cbn [obind].
  rewrite E1, length_phase by done. cbn [obind]. unfold put_io. cbn [sw_server sw_socks].
  by rewrite (insert_id _ B ioB) by (by rewrite lookup_insert_ne).
Qed.

(** The end of the connection while its coroutine waits for a header. *)
Lemma resume_disconnected (w : @server_world K) A io a rest s' env' ok :
  sw_socks w !! A = Some io -> live (io_sock io) -> rq_socket_ (ns_req (sw_server w)) = Some A ->
  io_in io = a ++ RData [] :: rest -> Forall recv_quiet a -> (length (recv_data a) < 4)%nat ->
  Socket_Close (io_sock io) (io_env io) (-1) (io_closes io) = Ok (s', env', Some ok) ->
  exists w', OnNewConn_resume handlers manager w (AtHeader A) = Ok (Some (w', Returned)) /\
    sw_socks w' = <[A := mkIo s' env' rest (io_out io) (io_closes io) (io_sent io)]> (sw_socks w) /\
    rq_error_ (ns_req (sw_server w')) = 1.
Proof.
  intros HA Hlive Hsock Hin Hq Hl Hc. cbn [OnNewConn_resume]. unfold get_io at 1. rewrite HA. cbn [obind].
  unfold RecvProtocol_header. rewrite live_Recvn, Hin by done. unfold recvn.
  rewrite recvn_loop_eof by (done || (unfold kDataLen; lia)). cbn [obind].
  unfold get_io. cbn [put_io sw_server sw_socks]. rewrite Hsock, lookup_insert_eq. cbn [obind].
  unfold RecvProtocol_length. cbn [io_code]. change (0 =? 0) with true. cbv iota.
  cbn [set_io_in io_sock io_env io_closes]. rewrite Hc. cbn [obind].
  unfold OnNewConn_finish, RpcServerProvider_OnNewConn.
  cbn [ProtocolHandler_Recv_done ns_req ns_resp rq_error_ put_io sw_server sw_socks]. change (1 =? 1) with true.
  cbn [obind ns_req rq_error_]. change (1 =? 1) with true. cbn [negb obind]. eexists. split; [done|]. split; [|done].
  cbn [sw_socks set_io_in io_in io_out io_closes io_sent]. by rewrite insert_insert_eq.
Qed.

Lemma Close_disconnects (s s' : Socket) (e e' : net_env K) ms closes r :
  live s -> Socket_Close s e ms closes = Ok (s', e', r) -> so_connected_ s' = false.
Proof.
  intros (Hc & c & Hs & _). unfold Socket_Close. rewrite Hc, Hs. cbn [negb].
  destruct (TcpConn_Close _ _ _ _) as [[[c' e1] x]|]; cbn; [|done]. by intros [= <- _ _].
Qed.
End connection_facts.

(** ** Theorems *)

Section serving_theorems.
Context `{PbRuntimeLaws} {FL : FrameLayout} {FR : FrameRoom} {K : Type} `{EpollKernel K}.

(** C37: Of two connections only the second is served. Once the coroutine of [B] has
    entered [OnNewConn], nothing is ever sent on an older connection [A], whatever requests
    arrive on it, whichever coroutines go on, and whatever other connections come, as long
    as the registered functions leave the socket of the response alone. And so it goes when
    the coroutines of [A] and then of [B] wait for requests: that of [A] takes the header of
    its request and goes on to wait for the body on [B]; a request on [B] is answered on [B],
    and the body of the request of [A] is left unread. *)
Theorem second_connection_starves_first (handlers : gmap (list Z) Func) (manager : ProtocolManager)
    (w : @server_world K) A B (ioA ioB : sock_io K) p q bs a1 a2 b1 b2 restA restB outs orest :
  A <> B -> sw_socks w !! A = Some ioA -> sw_socks w !! B = Some ioB -> live (io_sock ioA) -> live (io_sock ioB) ->
  rq_error_ (ns_req (sw_server w)) <> 1 ->
  frameable p -> io_in ioA = a1 ++ a2 ++ restA -> delivers a1 a2 (frame p) ->
  frameable q -> io_in ioB = b1 ++ b2 ++ restB -> delivers b1 b2 (frame q) ->
  served handlers manager q bs -> frameable (response_to q bs) ->
  io_out ioB = outs ++ orest -> takes outs (frame (response_to q bs)) -> keep_socket handlers ->
  (forall w0 w2 pcB w', OnNewConn_enter w0 B = (w2, pcB) ->
     star (server_step handlers manager (fun sock => sock <> A)) w2 w' -> all_sent w' !! A = all_sent w0 !! A) /\
  exists w1 w2 w3 w4 w5 ioA' ioB',
    OnNewConn_enter w A = (w1, AtHeader A) /\ OnNewConn_enter w1 B = (w2, AtHeader B) /\
    OnNewConn_resume handlers manager w2 (AtHeader A) =
      Ok (Some (w3, AtBody B (Z.of_nat (length (envelope p))))) /\
    OnNewConn_resume handlers manager w3 (AtHeader B) =
      Ok (Some (w4, AtBody B (Z.of_nat (length (envelope q))))) /\
    OnNewConn_resume handlers manager w4 (AtBody B (Z.of_nat (length (envelope q)))) = Ok (Some (w5, Returned)) /\
    sw_socks w5 !! A = Some ioA' /\ io_sent ioA' = io_sent ioA /\
    recv_data (io_in ioA') = envelope p ++ recv_data restA /\
    sw_socks w5 !! B = Some ioB' /\ io_sent ioB' = io_sent ioB ++ frame (response_to q bs).
Proof.
  intros Hne HA HB HlA HlB He Hp HinA HdA Hq HinB HdB Hs Hfr Hout Htk Hk. split.
  { intros w0 w2 pcB w' [= <- _] Hrun.
    apply (star_invariant _ (passed_over A (all_sent w0 !! A))) in Hrun; [by destruct Hrun| |by split; [cbn; congruence|]].
    intros x y Hx Hstep. by apply (server_step_passed_over handlers manager A _ x y Hk Hstep). }
  set (w1 := fst (OnNewConn_enter w A)). set (w2 := fst (OnNewConn_enter w1 B)).
  destruct (resume_header_other handlers manager w2 A B ioA ioB p a1 a2 (a2 ++ restA)) as (leftA & HdlA & E3); [done..|].
  assert (Ebody : recv_data a2 = envelope p).
  { by destruct (header_phase ioA p a1 a2 (a2 ++ restA) Hp HlA HinA HdA) as (_ & _ & _ & _ & _ & E). }
  set (ioA' := set_io_in ioA (leftA ++ a2 ++ restA)) in *.
  destruct (resume_header handlers manager (put_io w2 A ioA') B ioB q b1 b2 (b2 ++ restB)) as (leftB & E4 & HqB & HdlB);
    try done; [cbn; by rewrite lookup_insert_ne|].
  set (ioB1 := set_io_in ioB (leftB ++ b2 ++ restB)) in *.
  destruct (resume_body handlers manager (put_io (put_io w2 A ioA') B ioB1) B ioB1
              B (fun l => set_io_in ioB1 (l ++ restB)) q bs (leftB ++ b2) restB outs orest) as (l & ol & w5 & E5 & Hw5); try done.
  - cbn. by rewrite lookup_insert_eq.
  - cbn. by rewrite <- app_assoc.
  - apply Forall_app_2; [done|]. by destruct HdB as (_ & ? & _).
  - rewrite recv_data_app, HdlB.
    by destruct (header_phase ioB q b1 b2 (b2 ++ restB) Hq HlB HinB HdB) as (_ & _ & _ & _ & _ & E).
  - intros l. by rewrite lookup_insert_eq.
  - exists w1, w2, (put_io w2 A ioA'), (put_io (put_io w2 A ioA') B ioB1), w5, ioA'. eexists.
    do 5 (split; [done|]). rewrite Hw5. cbn [put_io sw_socks].
    rewrite !lookup_insert_ne, lookup_insert_eq by done. split; [done|]. split; [done|]. split.
    + cbn [ioA' set_io_in io_in]. by rewrite !recv_data_app, HdlA, Ebody.
    + by rewrite lookup_insert_eq.
Qed.

(** C38: One client, and the server is done. When the peer of the newest connection (the one
    that the request of the server points at) disconnects while its coroutine waits for the
    header of a request, the coroutine ends with the socket of the connection closed, and
    from then on, whatever connections come and whatever they ask, no response is sent on
    any. A response is sent in one step: one that was being sent at the time is not
    considered. *)
Theorem server_stops_after_disconnect (handlers : gmap (list Z) Func) (manager : ProtocolManager)
    (w : @server_world K) A (io : sock_io K) a rest s' env' ok :
  sw_socks w !! A = Some io -> live (io_sock io) -> rq_socket_ (ns_req (sw_server w)) = Some A ->
  io_in io = a ++ RData [] :: rest -> Forall recv_quiet a -> (length (recv_data a) < 4)%nat ->
  Socket_Close (io_sock io) (io_env io) (-1) (io_closes io) = Ok (s', env', Some ok) ->
  exists w', OnNewConn_resume handlers manager w (AtHeader A) = Ok (Some (w', Returned)) /\
    (exists io', sw_socks w' !! A = Some io' /\ so_connected_ (io_sock io') = false) /\
    forall w'', star (server_step handlers manager (fun _ => True)) w' w'' -> stopped (all_sent w) w''.
Proof.
  intros HA Hlive Hsock Hin Hq Hl Hc.
  destruct (resume_disconnected handlers manager w A io a rest s' env' ok) as (w' & E & Hs & He); [done..|].
  exists w'. split; [done|]. split.
  - eexists. rewrite Hs, lookup_insert_eq. split; [done|]. by apply (Close_disconnects _ _ _ _ _ _ _ Hlive Hc).
  - intros w'' Hrun. eapply (star_invariant _ (stopped (all_sent w))); [|exact Hrun|].
    + intros w1 w2 Hst Hstep. by eapply server_step_stopped.
    + split; [done|]. unfold all_sent. rewrite Hs, fmap_insert. apply insert_id. by rewrite lookup_fmap, HA.
Qed.
End serving_theorems.

(** ** Witnesses *)

#[local] Existing Instance padded_frame.
#[local] Existing Instance padded_frame_room.

Lemma sample_keep_socket : keep_socket handlers_sample.
Proof.
  intros name f s s' Hf. unfold handlers_sample in Hf. apply lookup_singleton_Some in Hf as [_ <-]. unfold hello.
  destruct (as_HelloProtocol _); [|done]. cbn [obind]. by intros [= <-].
Qed.

(** The steps, and nothing on the first connection whatever the order. *)
Lemma second_connection_starves_first_witness :
  (forall w', star (server_step handlers_sample manager_sample (fun sock => sock <> 0%nat))
                (fst (OnNewConn_enter world_sample 1)) w' -> all_sent w' !! 0%nat = all_sent world_sample !! 0%nat) /\
  exists w1 w2 w3 w4 w5 ioA' ioB',
    OnNewConn_enter world_sample 0 = (w1, AtHeader 0) /\ OnNewConn_enter w1 1 = (w2, AtHeader 1) /\
    OnNewConn_resume handlers_sample manager_sample w2 (AtHeader 0) = Ok (Some (w3, AtBody 1 25)) /\
    OnNewConn_resume handlers_sample manager_sample w3 (AtHeader 1) = Ok (Some (w4, AtBody 1 25)) /\
    OnNewConn_resume handlers_sample manager_sample w4 (AtBody 1 25) = Ok (Some (w5, Returned)) /\
    sw_socks w5 !! 0%nat = Some ioA' /\ io_sent ioA' = [] /\
    recv_data (io_in ioA') = envelope request_sample ++ [] /\
    sw_socks w5 !! 1%nat = Some ioB' /\ io_sent ioB' = [] ++ frame response_sample.
Proof.
  destruct (second_connection_starves_first handlers_sample manager_sample world_sample 0%nat 1%nat io_sample io_sample
           request_sample request_sample answer_sample header_in body_in header_in body_in [] [] _ []
           ltac:(discriminate) eq_refl eq_refl sample_live sample_live ltac:(discriminate)
           request_frameable eq_refl sample_delivers request_frameable eq_refl sample_delivers
           sample_served response_frameable eq_refl sample_takes sample_keep_socket) as [Hnever Hsteps].
  split; [intros w'; by apply (Hnever world_sample _ (AtHeader 1))|exact Hsteps].
Defined.

(** A peer that disconnects, and another connection with a request. *)
Definition leaving_sample : sock_io epoll_table := mkIo sample_socket sample_env [RErr EAGAIN None; RData []] [] [(0, 0)] [].
Definition leaving_world : @server_world epoll_table :=
  mkSrvWorld (mkServer (mkReq (Some 0%nat) None 0 0 None) (mkResp (Some 0%nat) None None))
    {[0%nat := leaving_sample; 1%nat := io_sample]}.


(** The world after a step of a coroutine. *)
Definition next (r : outcome (option (@server_world epoll_table * conn_pc))) : @server_world epoll_table :=
  match r with Ok (Some (w, _)) => w | _ => leaving_world end.
Definition left_world : @server_world epoll_table :=
  next (OnNewConn_resume handlers_sample manager_sample leaving_world (AtHeader 0)).
Definition asked_world : @server_world epoll_table :=
  next (OnNewConn_resume handlers_sample manager_sample (fst (OnNewConn_enter left_world 1)) (AtHeader 1)).
Definition ended_world : @server_world epoll_table :=
  next (OnNewConn_resume handlers_sample manager_sample asked_world (AtBody 1 25)).

Lemma server_stops_after_disconnect_witness :
  OnNewConn_resume handlers_sample manager_sample asked_world (AtBody 1 25) = Ok (Some (ended_world, Returned)) /\
  stopped (all_sent leaving_world) ended_world.
Proof.
  split; [reflexivity|].
  assert (Hq : Forall recv_quiet [RErr EAGAIN None]) by (constructor; [by left|constructor]).
  destruct (server_stops_after_disconnect handlers_sample manager_sample leaving_world 0%nat leaving_sample
              [RErr EAGAIN None] [] _ _ _ eq_refl sample_live eq_refl eq_refl Hq ltac:(cbn; lia) eq_refl)
    as (w' & E & _ & Hall).
  assert (Hw : OnNewConn_resume handlers_sample manager_sample leaving_world (AtHeader 0) = Ok (Some (left_world, Returned)))
    by reflexivity.
  rewrite Hw in E. injection E as <-. apply Hall.
  eapply star_step; [apply (ServerEnter _ _ _ left_world 1 _ (AtHeader 1)); [done|reflexivity]|].
  eapply star_step; [apply (ServerResume _ _ _ _ (AtHeader 1) asked_world (AtBody 1 25)); reflexivity|].
  apply star_one. apply (ServerResume _ _ _ _ (AtBody 1 25) ended_world Returned). reflexivity.
Defined.
