(* ===== verification/RpcClient.v ===== *)
(** * rpc/rpc.h, rpc/rpc_client.h and rpc/rpc_client.cc: remote calls of a client

    A call makes a request with the next id, hands it to the coroutine of [SendLoop]
    through a channel, registers the channel of its answer under the next id and waits.
    The coroutine of [RecvLoop] hands each response to the channel registered under its
    id. [Call] is cut where it can be suspended: in the write to the send channel, in
    taking the lock and in the wait. A channel of answers is a number; the send channel is
    the queue of its blocks (what Channel.v proves of [ChannelImpl]). *)

From stdpp Require Import base numbers list gmap.
From Stdlib Require Import Lia ZArith.
From S2P Require Import Prelude Stream Errno SockCtx Epoll Coroutine Copoll TaskManager TimerManager Scheduler Sock.
From S2P Require Import Net PbRuntime PbMessages Protocol Rpc.

(** ** rpc.h *)

Inductive RpcState : Type := kSuccess | kFail | kNoMethod | kClosed | kTimeoutState.

Record Result : Type := mkResult {
  res_base_proto_ : option ProtocolInterface;
  res_target_proto_ : option ProtocolInterface;
  res_state_ : RpcState
}.
Definition Result_new (base target : option ProtocolInterface) : Result := mkResult base target kSuccess.
Definition Result_set_state (r : Result) (s : RpcState) : Result := mkResult (res_base_proto_ r) (res_target_proto_ r) s.
Definition Result_set_base_proto (r : Result) (p : option ProtocolInterface) : Result :=
  mkResult p (res_target_proto_ r) (res_state_ r).
Definition Result_set_target_proto (r : Result) (p : option ProtocolInterface) : Result :=
  mkResult (res_base_proto_ r) p (res_state_ r).
Definition Result_Fail (r : Result) : Result := Result_set_state r kFail.
Definition Result_Closed (r : Result) : Result := Result_set_state r kClosed.
Definition Result_Success (r : Result) : Result := Result_set_state r kSuccess.
Definition Result_NoMethod (r : Result) : Result := Result_set_state r kNoMethod.
Definition Result_Timeout (r : Result) : Result := Result_set_state r kTimeoutState.

(** ** rpc_client.h *)

Record Params : Type := mkParams { recv_timeout_ : Z; send_timeout_ : Z; send_channel_size : Z }.
Definition kDefaultParams : Params := mkParams (u32 (-1)) (u32 (-1)) 10.

Record RpcClient : Type := mkClient {
  cl_req_id_ : Z;
  cl_params_ : Params;
  cl_closed_ : bool;
  cl_send_channel_ : list Protocol;
  cl_request_map_ : gmap Z nat
}.
Definition RpcClient_new (params : Params) : RpcClient := mkClient 1 params false [] ∅.

(** The request of a [Call], which carries the id of that moment, written to the send
    channel. *)
Definition RpcClient_Call_send (c : RpcClient) (srv_name target_data : list Z) : RpcClient * Protocol :=
  let base_proto := Protocol_set_srv_name (Protocol_Create kRequestCall (cl_req_id_ c) target_data) srv_name in
  (mkClient (cl_req_id_ c) (cl_params_ c) (cl_closed_ c) (cl_send_channel_ c ++ [base_proto]) (cl_request_map_ c),
   base_proto).

(** [Call] up to that write. *)
Definition RpcClient_Call_begin (c : RpcClient) (srv_name : list Z) (serializer : SerializerInterface)
    (req_proto : ProtocolInterface) : outcome (RpcClient * Protocol) :=
  let* target_data := Serialize serializer (Some req_proto) in
  Ok (RpcClient_Call_send c srv_name target_data).

(** The block under the lock: the channel is registered under the id of this moment. *)
Definition RpcClient_Call_register (c : RpcClient) (recv_channel : nat) : RpcClient :=
  mkClient (u32 (cl_req_id_ c + 1)) (cl_params_ c) (cl_closed_ c) (cl_send_channel_ c)
    (<[cl_req_id_ c := recv_channel]> (cl_request_map_ c)).

(** What [Call] returns once its channel has been read or has timed out. *)
Definition RpcClient_Call_result (timed_out : bool) (req_proto : ProtocolInterface) (recv_proto : Protocol)
    (res_serializer : SerializerInterface) : Result :=
  if timed_out then Result_Timeout (mkResult None None kFail)
  else
    match Deserialize res_serializer (data_ recv_proto) with
    | None => Result_NoMethod (mkResult None None kFail)
    | Some res_proto => Result_Success (Result_new (Some req_proto) (Some res_proto))
    end.

(** ** rpc_client.cc *)

(** One response in [RecvLoop]: the channel it is written to. [request_map_[req_id]] makes
    a new channel when there is none, which nobody reads: [None]. *)
Definition RpcClient_RecvLoop_deliver (c : RpcClient) (p : Protocol) : RpcClient * option nat :=
  (mkClient (cl_req_id_ c) (cl_params_ c) (cl_closed_ c) (cl_send_channel_ c)
     (delete (req_id_ p) (cl_request_map_ c)),
   cl_request_map_ c !! req_id_ p).

(** [RecvLoop] against the results of [RecvProtocol]; a null one ends it. *)
Fixpoint RpcClient_RecvLoop (c : RpcClient) (received : list (option Protocol))
  : RpcClient * list (option nat * Protocol) :=
  match received with
  | [] => (c, [])
  | None :: _ => (c, [])
  | Some p :: received =>
      let (c, chan) := RpcClient_RecvLoop_deliver c p in
      let (c, delivered) := RpcClient_RecvLoop c received in
      (c, (chan, p) :: delivered)
  end.

Section send_loop.
Context `{PbRuntime} {FL : FrameLayout} {K : Type} `{EpollKernel K}.

(** [SendLoop] over what its reads of the channel give, [None] for one that timed out. It
    ends when [SendProtocol] fails. No result: a send waits. *)
Fixpoint RpcClient_SendLoop (io : sock_io K) (reads : list (option Protocol))
  : outcome (option (sock_io K * list (option Protocol))) :=
  match reads with
  | [] => Ok (Some (io, []))
  | None :: reads => RpcClient_SendLoop io reads
  | Some p :: reads =>
      let* r := RpcProtocol_SendProtocol io (Some (PBase p)) in
      match r with
      | None => Ok None
      | Some (false, io) => Ok (Some (io, reads))
      | Some (true, io) => RpcClient_SendLoop io reads
      end
  end.
End send_loop.

(** [Connect]: the socket becomes that of the handler, and the two coroutines are started,
    when it connects. *)
Inductive client_coroutine : Type := GoSendLoop | GoRecvLoop.
Definition RpcClient_Connect {W} `{NetKernel W} (w : W) (answers : list connect_answer)
  : outcome (option (bool * option Socket * list client_coroutine * W)) :=
  let* r := Socket_Connect Socket_Create w answers in
  match r with
  | None => Ok None
  | Some (false, _, w) => Ok (Some (false, None, [], w))
  | Some (true, sock, w) => Ok (Some (true, Some sock, [GoSendLoop; GoRecvLoop], w))
  end.

(** ** Calls and their interleavings *)

(** Where a call is: its request has been made with an id; it is registered under an id
    (after the one of its request); it has a response; or it has returned because its time
    is over, and is still registered until its response comes. *)
Inductive call_state : Type :=
| CallSent (req : Protocol)
| CallWaiting (req : Protocol) (registered : Z)
| CallGot (req : Protocol) (resp : Protocol)
| CallTimedOut (req : Protocol) (registered : Z).

Record client_world : Type := mkCW { cw_client : RpcClient; cw_calls : gmap nat call_state }.

Inductive client_step : client_world -> client_world -> Prop :=
| StepSend w k srv data c req :
    cw_calls w !! k = None ->
    RpcClient_Call_send (cw_client w) srv data = (c, req) ->
    client_step w (mkCW c (<[k := CallSent req]> (cw_calls w)))
| StepRegister w k req :
    cw_calls w !! k = Some (CallSent req) ->
    client_step w (mkCW (RpcClient_Call_register (cw_client w) k)
                     (<[k := CallWaiting req (cl_req_id_ (cw_client w))]> (cw_calls w)))
| StepDeliver w p k req i c :
    RpcClient_RecvLoop_deliver (cw_client w) p = (c, Some k) ->
    cw_calls w !! k = Some (CallWaiting req i) ->
    client_step w (mkCW c (<[k := CallGot req p]> (cw_calls w)))
| StepTimeout w k req i :
    cw_calls w !! k = Some (CallWaiting req i) -> recv_timeout_ (cl_params_ (cw_client w)) <> u32 (-1) ->
    client_step w (mkCW (cw_client w) (<[k := CallTimedOut req i]> (cw_calls w)))
| StepLate w p k req i c :
    RpcClient_RecvLoop_deliver (cw_client w) p = (c, Some k) ->
    cw_calls w !! k = Some (CallTimedOut req i) ->
    client_step w (mkCW c (cw_calls w))
| StepLost w p c :
    RpcClient_RecvLoop_deliver (cw_client w) p = (c, None) ->
    client_step w (mkCW c (cw_calls w)).

(** No other call begins between the request and the registration of a call. *)
Inductive call_step : client_world -> client_world -> Prop :=
| CallAtomic w k srv data c req :
    cw_calls w !! k = None ->
    RpcClient_Call_send (cw_client w) srv data = (c, req) ->
    call_step w (mkCW (RpcClient_Call_register c k) (<[k := CallWaiting req (cl_req_id_ c)]> (cw_calls w)))
| CallOther w w' :
    client_step w w' ->
    (forall k req, cw_calls w' !! k <> Some (CallSent req)) ->
    call_step w w'.

(** ** Specification *)

(** A call that is registered under an id. *)
Definition registered_as (st : call_state) (req : Protocol) (i : Z) : Prop :=
  st = CallWaiting req i \/ st = CallTimedOut req i.

(** A registered call waits, or has waited, for the id of its own request, a waiting call is
    registered, and a call that has a response has the one to its request. *)
Definition calls_ok (w : client_world) : Prop :=
  (forall i k, cl_request_map_ (cw_client w) !! i = Some k ->
     0 < i < cl_req_id_ (cw_client w) /\
     exists req st, cw_calls w !! k = Some st /\ registered_as st req i /\ req_id_ req = i) /\
  (forall k req i, cw_calls w !! k = Some (CallWaiting req i) -> cl_request_map_ (cw_client w) !! i = Some k) /\
  (forall k req resp, cw_calls w !! k = Some (CallGot req resp) -> req_id_ resp = req_id_ req) /\
  (forall k req, cw_calls w !! k <> Some (CallSent req)) /\
  0 < cl_req_id_ (cw_client w).

(** Fewer than 2^32 calls have been made. *)
Definition ids_left (w : client_world) : Prop := cl_req_id_ (cw_client w) + 1 < 2 ^ 32.

(** ** Lemmas *)

Section call_facts.
Variable w : client_world.
Hypothesis Hok : calls_ok w.

Lemma atomic_call_ok k srv data c req : ids_left w -> cw_calls w !! k = None ->
  RpcClient_Call_send (cw_client w) srv data = (c, req) ->
  calls_ok (mkCW (RpcClient_Call_register c k) (<[k := CallWaiting req (cl_req_id_ c)]> (cw_calls w))).
Proof.
  destruct Hok as (H1 & H2 & H3 & H4 & H5). intros Hids Hk [= <- <-]. unfold ids_left in Hids. unfold calls_ok.
  cbn [cw_client cw_calls RpcClient_Call_register cl_request_map_ cl_req_id_].
  rewrite (uwrap_small 32) by lia. set (n := cl_req_id_ (cw_client w)) in *.
  split; [|split; [|split; [|split]]].
  - intros i k' Hi. destruct (decide (i = n)) as [-> |Hne].
    + rewrite lookup_insert_eq in Hi. injection Hi as <-. split; [lia|]. rewrite lookup_insert_eq.
      eexists _, _. split; [done|]. split; [by left|]. cbn. apply uwrap_small. lia.
    + rewrite lookup_insert_ne in Hi by done. destruct (H1 i k' Hi) as (Hr & req' & st & Hk' & Hreg). split; [lia|].
      exists req', st. split; [|done]. rewrite lookup_insert_ne; [done|]. intros <-. congruence.
  - intros k' req' i Hk'. destruct (decide (k = k')) as [<- |Hne].
    + rewrite lookup_insert_eq in Hk'. injection Hk' as _ <-. by rewrite lookup_insert_eq.
    + rewrite lookup_insert_ne in Hk' by done. pose proof (H2 k' req' i Hk') as Hm.
      rewrite lookup_insert_ne; [done|]. intros ->. destruct (H1 i k' Hm). lia.
  - intros k' req' resp Hk'. apply lookup_insert_Some in Hk' as [[_ ?]|[_ Hk']]; [done|by eapply H3].
  - intros k' req' Hk'. apply lookup_insert_Some in Hk' as [[_ ?]|[_ Hk']]; [done|by eapply H4].
  - lia.
Qed.

(** A registered call that turns into something else: its id is gone, or it has timed out. *)
Lemma replace_ok k req i (m : gmap Z nat) st :
  cw_calls w !! k = Some (CallWaiting req i) ->
  (forall j k', m !! j = Some k' -> cl_request_map_ (cw_client w) !! j = Some k' /\ (k' = k -> registered_as st req j)) ->
  (forall j k', k' <> k -> cl_request_map_ (cw_client w) !! j = Some k' -> m !! j = Some k') ->
  (forall resp, st = CallGot req resp -> req_id_ resp = req_id_ req) ->
  (exists resp, st = CallGot req resp) \/ st = CallTimedOut req i ->
  forall c, cl_request_map_ c = m -> cl_req_id_ c = cl_req_id_ (cw_client w) ->
  calls_ok (mkCW c (<[k := st]> (cw_calls w))).
Proof.
  destruct Hok as (H1 & H2 & H3 & H4 & H5). intros Hk Hm Hback Hgot Hst c Hc Hid. unfold calls_ok.
  cbn [cw_client cw_calls]. rewrite Hc, Hid. split; [|split; [|split; [|split]]].
  - intros j k' Hj. destruct (Hm j k' Hj) as [Hj' Hreg]. destruct (H1 j k' Hj') as (Hr & req' & st' & Hk' & Hreg' & Hid').
    split; [done|]. destruct (decide (k = k')) as [<- |Hne].
    + exists req, st. rewrite lookup_insert_eq. split; [done|]. split; [by apply Hreg|].
      rewrite Hk in Hk'. injection Hk' as <-. by destruct Hreg' as [[= <-]|?].
    + exists req', st'. by rewrite lookup_insert_ne.
  - intros k' req' j Hk'. apply lookup_insert_Some in Hk' as [[_ ->]|[Hne Hk']]; [by destruct Hst as [[? ?]|?]|].
    by apply Hback, (H2 k' req').
  - intros k' req' resp Hk'. apply lookup_insert_Some in Hk' as [[_ E]|[_ Hk']]; [|by eapply H3].
    destruct Hst as [[resp' ->]| ->]; [|done]. injection E as -> ->. by apply Hgot.
  - intros k' req' Hk'. apply lookup_insert_Some in Hk' as [[_ ->]|[_ Hk']]; [by destruct Hst as [[? ?]|?]|by eapply H4].
  - done.
Qed.

(** Which call a registered id belongs to. *)
Lemma registered_once j j' k : cl_request_map_ (cw_client w) !! j = Some k -> cl_request_map_ (cw_client w) !! j' = Some k ->
  j = j'.
Proof.
  destruct Hok as (H1 & _). intros Hj Hj'.
  destruct (H1 j k Hj) as (_ & req & st & Hk & Hreg & _), (H1 j' k Hj') as (_ & req' & st' & Hk' & Hreg' & _).
  rewrite Hk in Hk'. injection Hk' as <-. destruct Hreg as [-> | ->], Hreg' as [E|E]; by simplify_eq.
Qed.

Lemma deliver_ok p k req i : cl_request_map_ (cw_client w) !! req_id_ p = Some k ->
  cw_calls w !! k = Some (CallWaiting req i) ->
  req_id_ p = req_id_ req /\
  calls_ok (mkCW (fst (RpcClient_RecvLoop_deliver (cw_client w) p)) (<[k := CallGot req p]> (cw_calls w))).
Proof.
  intros Hm Hk. destruct (proj1 Hok _ _ Hm) as (_ & req' & st & Hk' & Hreg & Hid).
  rewrite Hk in Hk'. injection Hk' as <-. destruct Hreg as [[= <- ->]|?]; [|done]. split; [done|].
  apply (replace_ok k req (req_id_ p) (delete (req_id_ p) (cl_request_map_ (cw_client w)))); try done.
  - intros j k' Hj. apply lookup_delete_Some in Hj as [Hne Hj]. split; [done|]. intros ->.
    by destruct (Hne (registered_once _ _ _ Hm Hj)).
  - intros j k' Hne Hj. rewrite lookup_delete_ne; [done|]. intros <-. congruence.
  - intros resp [= <-]. done.
  - left. by exists p.
Qed.

Lemma timeout_ok k req i : cw_calls w !! k = Some (CallWaiting req i) ->
  calls_ok (mkCW (cw_client w) (<[k := CallTimedOut req i]> (cw_calls w))).
Proof.
  intros Hk. assert (Hm := proj1 (proj2 Hok) _ _ _ Hk).
  apply (replace_ok k req i (cl_request_map_ (cw_client w))); try done; [|by right].
  intros j k' Hj. split; [done|]. intros ->. right. by rewrite (registered_once _ _ _ Hj Hm).
Qed.

(** The response of a call that does not wait any more, or of none. *)
Lemma unclaimed_ok p : (forall k req i, cl_request_map_ (cw_client w) !! req_id_ p = Some k ->
    cw_calls w !! k <> Some (CallWaiting req i)) ->
  calls_ok (mkCW (fst (RpcClient_RecvLoop_deliver (cw_client w) p)) (cw_calls w)).
Proof.
  destruct Hok as (H1 & H2 & H3 & H4 & H5). intros Hno. unfold calls_ok.
  cbn [fst cw_client cw_calls RpcClient_RecvLoop_deliver cl_request_map_ cl_req_id_].
  split; [|split; [|done]].
  - intros j k Hj. apply lookup_delete_Some in Hj as [_ Hj]. by apply H1.
  - intros k req j Hk. assert (Hj := H2 k req j Hk). rewrite lookup_delete_ne; [done|]. intros <-. by apply (Hno k req (req_id_ p)).
Qed.
End call_facts.

Lemma call_step_ok w w' : calls_ok w -> ids_left w -> call_step w w' -> calls_ok w'.
Proof.
  intros Hok Hids Hstep. destruct Hstep as [w k srv data c req Hk Hs|w w' Hstep Hno]; [by eapply atomic_call_ok|].
  destruct Hstep as [w k srv data c req Hk Hs|w k req Hk|w p k req i c Hd Hk|w k req i Hk Hlim|w p k req i c Hd Hk|w p c Hd].
  - exfalso. apply (Hno k req). cbn. by rewrite lookup_insert_eq.
  - destruct Hok as (_ & _ & _ & H4 & _). by destruct (H4 k req).
  - injection Hd as <- Hm. by apply (deliver_ok w Hok p k req i).
  - by apply timeout_ok.
  - injection Hd as <- Hm. apply (unclaimed_ok w Hok p). intros k' req' i'. rewrite Hm. intros [= <-]. congruence.
  - injection Hd as <- Hm. apply (unclaimed_ok w Hok p). intros k' req' i'. by rewrite Hm.
Qed.

(** A kernel that takes a whole frame at once. *)
Lemma SendProtocol_sends_whole `{PbRuntimeLaws} {FL : FrameLayout} {FR : FrameRoom} {K} `{EpollKernel K} (io : sock_io K) p rest :
  frameable p -> live (io_sock io) -> io_out io = STaken (Z.of_nat (length (frame p))) :: rest ->
  RpcProtocol_SendProtocol io (Some (PBase p)) = Ok (Some (true, sent_more io (frame p) rest)).
Proof.
  intros Hp Hlive Hout. destruct (frame_length p Hp) as [_ Hl]. unfold RpcProtocol_SendProtocol.
  rewrite Encode_spec by (apply Hp || (destruct Hp as (_ & ? & _); lia)). cbn [obind].
  rewrite (uwrap_small 32 (Z.of_nat _)) by lia. destruct (Z.eqb_spec (Z.of_nat (length (frame p))) 0); [lia|].
  rewrite (swrap_small 32) by lia. rewrite live_Send, Hout by done. cbn [obind send send_loop app].
  rewrite Z.eqb_refl, take_ge by lia. cbn [io_code]. rewrite (uwrap_small 32 (Z.of_nat _)) by lia.
  by rewrite Z.ltb_irrefl.
Qed.

(** [SendLoop] sends the requests as frames, in the order they were read. *)
Lemma SendLoop_frames `{PbRuntimeLaws} {FL : FrameLayout} {FR : FrameRoom} {K} `{EpollKernel K} (io : sock_io K) (ps : list Protocol) rest :
  live (io_sock io) -> Forall frameable ps ->
  io_out io = map (fun p => STaken (Z.of_nat (length (frame p)))) ps ++ rest ->
  exists io', RpcClient_SendLoop io (map Some ps) = Ok (Some (io', [])) /\
    io_sent io' = io_sent io ++ concat (map frame ps) /\ io_out io' = rest.
Proof.
  intros Hlive Hf. revert io Hlive. induction Hf as [|p ps Hp Hf IH]; intros io Hlive Hout.
  - exists io. cbn in *. by rewrite app_nil_r.
  - cbn [map concat RpcClient_SendLoop app] in *.
    rewrite (SendProtocol_sends_whole io p _ Hp Hlive Hout). cbn [obind].
    destruct (IH (sent_more io (frame p) (map (fun p => STaken (Z.of_nat (length (frame p)))) ps ++ rest)))
      as (io' & E' & Hs & Hr); [done..|].
    exists io'. split; [done|]. split; [|done]. rewrite Hs. cbn [sent_more io_sent]. by rewrite <- app_assoc.
Qed.

(** ** Theorems *)

(** Every response reaches its call. As long as no call is suspended between making
    its request and registering its channel, in every state that the calls and the
    receiving loop reach with ids to spare, the registered channels belong to the calls
    that wait for these ids, every waiting call is registered, and each call that has got
    a response has got the one with the id of its request. *)
Theorem responses_reach_their_calls (params : Params) (w : client_world) :
  star (fun w1 w2 => call_step w1 w2 /\ ids_left w1) (mkCW (RpcClient_new params) ∅) w -> calls_ok w.
Proof.
  intros Hrun. apply (star_invariant _ calls_ok) in Hrun; [done| |].
  - intros w1 w2 Hok [Hstep Hids]. by eapply call_step_ok.
  - unfold calls_ok. cbn. repeat split; intros *; rewrite ?lookup_empty; try done; lia.
Qed.

(** Two calls can use the same id. [req_id_] is read before the request is handed
    over and increased only when the channel is registered: when a second call begins in
    between, both requests carry the same id, the channel of the second is registered
    under an id that no request has, and the response to the second request is lost. *)
Theorem request_ids_collide (c : RpcClient) (srv1 srv2 data1 data2 : list Z) (p : Protocol) :
  0 <= cl_req_id_ c -> cl_req_id_ c + 1 < 2 ^ 32 ->
  let n := cl_req_id_ c in
  let (c1, req1) := RpcClient_Call_send c srv1 data1 in
  let (c2, req2) := RpcClient_Call_send c1 srv2 data2 in
  let c3 := RpcClient_Call_register c2 1%nat in
  let c4 := RpcClient_Call_register c3 2%nat in
  let (c5, first) := RpcClient_RecvLoop_deliver c4 p in
  let (c6, second) := RpcClient_RecvLoop_deliver c5 p in
  req_id_ req1 = n /\ req_id_ req2 = n /\
  cl_request_map_ c4 !! n = Some 1%nat /\ cl_request_map_ c4 !! (n + 1) = Some 2%nat /\
  (req_id_ p = n -> first = Some 1%nat /\ second = None /\ cl_request_map_ c6 !! (n + 1) = Some 2%nat).
Proof.
  intros Hn Hlt. cbn -[Z.add Z.pow]. set (n := cl_req_id_ c) in *. rewrite !(uwrap_small 32) by lia.
  split; [done|]. split; [done|]. rewrite lookup_insert_ne, !lookup_insert_eq by lia. split; [done|]. split; [done|].
  intros ->. rewrite lookup_insert_ne, lookup_insert_eq by lia. split; [done|]. rewrite lookup_delete_eq. split; [done|].
  rewrite !lookup_delete_ne, lookup_insert_eq by lia. done.
Qed.

(** The client cannot tell that a service does not exist. Whatever the response, the
    serialisers of the protocols give a value: [Call] returns [kSuccess] unless it timed
    out, and never [kNoMethod]; the answer to a request for an unknown service is parsed
    as a response, too. *)
Theorem Call_never_NoMethod `{PbRuntime} timed_out (req : ProtocolInterface) (resp : Protocol) :
  Forall (fun ser => res_state_ (RpcClient_Call_result timed_out req resp ser) =
                     if timed_out then kTimeoutState else kSuccess)
    [BaseProtocolSerializer; MyProtocolSerializer; HelloSerializer; WorldSerializer].
Proof. repeat constructor; by destruct timed_out. Qed.

(** The response to a request for an unknown service, read as a [WorldProtocol]: 0. *)
Lemma unknown_service_is_zero :
  RpcClient_Call_result false (PHello (mkHelloProtocol [])) (Protocol_Create kResponseCall 1 other_text) WorldSerializer =
    mkResult (Some (PHello (mkHelloProtocol []))) (Some (PWorld (mkWorldProtocol 0))) kSuccess.
Proof. vm_compute. reflexivity. Qed.

(** ** Witnesses *)

#[local] Existing Instance padded_frame.
#[local] Existing Instance padded_frame_room.

Definition one_call : client_world :=
  let (c, req) := RpcClient_Call_send (RpcClient_new kDefaultParams) hello_srv request_data in
  mkCW (RpcClient_Call_register c 7%nat) {[7%nat := CallWaiting req 1]}.

Lemma responses_reach_their_calls_witness : calls_ok one_call.
Proof.
  apply (responses_reach_their_calls kDefaultParams). apply star_one. split; [|eval_closed].
  exact (CallAtomic (mkCW (RpcClient_new kDefaultParams) ∅) 7%nat hello_srv request_data _ _ eq_refl eq_refl).
Defined.

Lemma request_ids_collide_witness :
  let c1 := fst (RpcClient_Call_send (RpcClient_new kDefaultParams) hello_srv request_data) in
  req_id_ (snd (RpcClient_Call_send (RpcClient_new kDefaultParams) hello_srv request_data)) =
  req_id_ (snd (RpcClient_Call_send c1 hello_srv request_data)).
Proof.
  destruct (request_ids_collide (RpcClient_new kDefaultParams) hello_srv hello_srv request_data request_data request_sample
              ltac:(eval_closed) ltac:(eval_closed)) as (E1 & E2 & _).
  etransitivity; [exact E1|symmetry; exact E2].
Defined.
