(* ===== verification/RpcSystem.v ===== *)
(** * Client and server together: the remote calls of one connection

    The parts that Rpc.v and RpcClient.v model one by one, composed as the programs compose
    them: the calls of a client, the coroutines of its [SendLoop] and [RecvLoop], the bytes
    under way in both directions, and the coroutine in which the server runs [OnNewConn]
    again and again for the connection. A step is what one of these does without being
    suspended, or between two suspensions of a coroutine that alone uses its socket; the
    kernel decides how the bytes are split; a call with a time limit may give up at any
    moment, and its response is then thrown away. The client's coroutines run on one scheduler,
    and a call begins only when the send channel has room for its request: then it is not
    suspended before it is registered. The server has one connection; what happens with two
    is in RpcServing.v. *)

From stdpp Require Import base numbers list gmap.
From Stdlib Require Import Lia ZArith.
From S2P Require Import Prelude Stream Errno SockCtx Epoll Coroutine Copoll TaskManager TimerManager Scheduler Sock.
From S2P Require Import Net PbRuntime PbMessages Protocol Rpc RpcClient.

(** ** State *)

(** Where [SendLoop] is. *)
Inductive send_pc : Type :=
| Reading                     (* in the read of the send channel *)
| Sending (p : Protocol)      (* in [SendProtocol] *)
| SendEnded.

(** How a call looks when it begins: its service and its serialised argument. *)
Definition call_args : Type := list Z * list Z.

Section system.
Context `{PbRuntime} {FL : FrameLayout} {K : Type} `{EpollKernel K}.

Record rpc_system : Type := mkSys {
  sy_todo : gmap nat call_args;          (* the calls that have not begun *)
  sy_calls : client_world;               (* the client with the calls that have *)
  sy_send : send_pc;
  sy_recv : bool;                        (* [RecvLoop] runs *)
  sy_io : sock_io K;                     (* the client's socket *)
  sy_up : list Z;                        (* bytes on the way to the server *)
  sy_server : @server_world K;
  sy_pc : conn_pc;                       (* the coroutine of the connection *)
  sy_down : list Z                       (* bytes on the way to the client *)
}.

(** A socket about to make a call that the kernel answers with [ins] and [outs]. *)
Definition kernel_gives (io : sock_io K) (ins : list recv_answer) (outs : list send_answer) : sock_io K :=
  mkIo (io_sock io) (io_env io) ins outs (io_closes io) [].

(** How many bytes the coroutine of the connection waits for. *)
Definition wanted (pc : conn_pc) : option Z :=
  match pc with AtHeader _ => Some kDataLen | AtBody _ n => Some n | Returned => None end.

(** The response at the call that reads its channel, if it still does. *)
Definition sys_deliver (w : client_world) (p : Protocol) : client_world :=
  let (c, chan) := RpcClient_RecvLoop_deliver (cw_client w) p in
  match chan with
  | Some k =>
      match cw_calls w !! k with
      | Some (CallWaiting req _) => mkCW c (<[k := CallGot req p]> (cw_calls w))
      | _ => mkCW c (cw_calls w)
      end
  | None => mkCW c (cw_calls w)
  end.

(** The send channel without its first block. *)
Definition sys_take (w : client_world) (rest : list Protocol) : client_world :=
  let c := cw_client w in
  mkCW (mkClient (cl_req_id_ c) (cl_params_ c) (cl_closed_ c) rest (cl_request_map_ c)) (cw_calls w).

Definition has_room (c : RpcClient) : Prop :=
  Z.of_nat (length (cl_send_channel_ c)) < send_channel_size (cl_params_ c).

(** ** Steps *)

Section steps.
Variable handlers : gmap (list Z) Func.
Variable manager : ProtocolManager.
Variable me : nat.                       (* the server's socket of the connection *)

Inductive sys_step : rpc_system -> rpc_system -> Prop :=
| SysCall todo w send recv io up srv pc down k name data c req :
    todo !! k = Some (name, data) -> has_room (cw_client w) ->
    RpcClient_Call_send (cw_client w) name data = (c, req) ->
    sys_step (mkSys todo w send recv io up srv pc down)
      (mkSys (delete k todo)
         (mkCW (RpcClient_Call_register c k) (<[k := CallWaiting req (cl_req_id_ c)]> (cw_calls w)))
         send recv io up srv pc down)
| SysTimeout todo w send recv io up srv pc down k req i :
    cw_calls w !! k = Some (CallWaiting req i) -> recv_timeout_ (cl_params_ (cw_client w)) <> u32 (-1) ->
    sys_step (mkSys todo w send recv io up srv pc down)
      (mkSys todo (mkCW (cw_client w) (<[k := CallTimedOut req i]> (cw_calls w))) send recv io up srv pc down)
| SysTake todo w recv io up srv pc down p rest :
    cl_send_channel_ (cw_client w) = p :: rest ->
    sys_step (mkSys todo w Reading recv io up srv pc down)
      (mkSys todo (sys_take w rest) (Sending p) recv io up srv pc down)
| SysSend todo w recv io up srv pc down p outs b io' :
    RpcProtocol_SendProtocol (kernel_gives io [] outs) (Some (PBase p)) = Ok (Some (b, io')) ->
    takes outs (io_sent io') ->
    sys_step (mkSys todo w (Sending p) recv io up srv pc down)
      (mkSys todo w (if b : bool then Reading else SendEnded) recv io' (up ++ io_sent io') srv pc down)
| SysEnter todo w send recv io up srv down sio srv' pc' :
    sw_socks srv !! me = Some sio -> so_connected_ (io_sock sio) = true ->
    OnNewConn_enter srv me = (srv', pc') ->
    sys_step (mkSys todo w send recv io up srv Returned down)
      (mkSys todo w send recv io up srv' pc' down)
| SysServe todo w send recv io up srv pc down n a outs sio srv' pc' sio' :
    wanted pc = Some n -> sw_socks srv !! me = Some sio ->
    Forall recv_quiet a -> Z.of_nat (length (recv_data a)) = n ->
    OnNewConn_resume handlers manager (put_io srv me (kernel_gives sio a outs)) pc = Ok (Some (srv', pc')) ->
    sw_socks srv' !! me = Some sio' -> takes outs (io_sent sio') ->
    sys_step (mkSys todo w send recv io (recv_data a ++ up) srv pc down)
      (mkSys todo w send recv io up srv' pc' (down ++ io_sent sio'))
| SysRecv todo w send io up srv pc down a1 a2 r io' :
    Forall recv_quiet a1 -> Forall recv_quiet a2 ->
    length (recv_data a1) = 4%nat -> Z.of_nat (length (recv_data a2)) = atoi (recv_data a1) ->
    RpcProtocol_RecvProtocol (kernel_gives io (a1 ++ a2) []) = Ok (Some (r, io')) ->
    sys_step (mkSys todo w send true io up srv pc (recv_data a1 ++ recv_data a2 ++ down))
      (match r with
       | Some (PBase p) => mkSys todo (sys_deliver w p) send true io' up srv pc down
       | _ => mkSys todo w send false io' up srv pc down
       end).
End steps.

(** The system when the connection has been made and the coroutines have been started. *)
Definition sys_start (prog : gmap nat call_args) (params : Params) (io : sock_io K) (srv : @server_world K) : rpc_system :=
  mkSys prog (mkCW (RpcClient_new params) ∅) Reading true io [] srv Returned [].

(** ** Specification *)

(** The request of a call. *)
Definition request_of (id : Z) (args : call_args) : Protocol :=
  Protocol_set_srv_name (Protocol_Create kRequestCall id (snd args)) (fst args).

Section spec.
Variable handlers : gmap (list Z) Func.
Variable manager : ProtocolManager.
Variable answer : Protocol -> list Z.    (* what the services answer *)

(** The request fits in a frame, its service is registered and gives the answer, which fits
    in a frame. *)
Definition serviceable (p : Protocol) : Prop :=
  frameable p /\ served handlers manager p (answer p) /\ frameable (response_to p (answer p)).

(** Every call can be served under every id it can get. *)
Definition prog_ok (prog : gmap nat call_args) : Prop :=
  forall k args id, prog !! k = Some args -> 0 < id <= Z.of_nat (size prog) -> serviceable (request_of id args).

(** The response to a request. *)
Definition reply (p : Protocol) : Protocol := response_to p (answer p).

(** A call with the answer of its service to its own request. *)
Definition answered (w : client_world) (k : nat) (args : call_args) : Prop :=
  exists id resp, cw_calls w !! k = Some (CallGot (request_of id args) resp) /\
    type_ resp = kResponseCall /\ req_id_ resp = req_id_ (request_of id args) /\
    data_ resp = answer (request_of id args).

(** A call that is over: with its answer, or, if calls have a time limit, without. *)
Definition finished (params : Params) (w : client_world) (k : nat) (args : call_args) : Prop :=
  answered w k args \/
  recv_timeout_ params <> u32 (-1) /\ exists id i, cw_calls w !! k = Some (CallTimedOut (request_of id args) i).
End spec.
End system.

(** ** Lemmas *)

(** *** One call of each coroutine *)

Section coroutine_facts.
Context `{PbRuntimeLaws} {FL : FrameLayout} {FR : FrameRoom} {K : Type} `{EpollKernel K}.
Variable handlers : gmap (list Z) Func.
Variable manager : ProtocolManager.

Definition header (p : Protocol) : list Z := take 4 (format_04d (Z.of_nat (length (envelope p)))).

Lemma header_length p : frameable p -> length (header p) = 4%nat /\ atoi (header p) = Z.of_nat (length (envelope p)).
Proof. intros (_ & Hl & _). destruct (header_spec (Z.of_nat (length (envelope p)))); [lia|done]. Qed.

(** The first four bytes on a way that carries frames. *)
Lemma first_header (f : Protocol -> Protocol) (ps : list Protocol) (a b : list Z) :
  Forall (fun p => frameable (f p)) ps -> length a = 4%nat -> a ++ b = concat (map (fun p => frame (f p)) ps) ->
  exists p rest, ps = p :: rest /\ a = header (f p) /\ b = envelope (f p) ++ concat (map (fun p => frame (f p)) rest).
Proof.
  intros Hf Ha E. destruct Hf as [|p ps Hp Hf]; [by destruct a|].
  cbn [map concat] in E. unfold frame in E at 1. rewrite <- app_assoc in E.
  destruct (header_length _ Hp) as [Hl _]. apply app_inj_1 in E as [-> ->]; [|by rewrite Ha]. by exists p, ps.
Qed.

(** The pieces of a frame that the kernel gives. *)
Lemma delivers_header p a1 : frameable p -> Forall recv_quiet a1 -> recv_data a1 = header p ->
  delivers a1 [RData (envelope p)] (frame p).
Proof.
  intros Hp Hq Ha. destruct (header_length p Hp) as [Hl _]. destruct Hp as (_ & He & _).
  split; [done|]. split; [|split].
  - constructor; [|constructor]. cbn. intros E. rewrite E in He. cbn in He. lia.
  - by rewrite Ha.
  - rewrite Ha. cbn. by rewrite app_nil_r.
Qed.

Lemma quiet_data bs : bs <> [] -> Forall recv_quiet [RData bs].
Proof. intros Hbs. constructor; [exact Hbs|constructor]. Qed.

Lemma frame_quiet p : frameable p -> Forall recv_quiet [RData (header p)] /\ Forall recv_quiet [RData (envelope p)].
Proof.
  intros Hp. destruct (header_length p Hp) as [Hl _]. destruct Hp as (_ & He & _).
  split; apply quiet_data; intros E; rewrite E in *; cbn in *; lia.
Qed.

Lemma SendProtocol_all (io : sock_io K) p ins outs b io' : frameable p -> live (io_sock io) ->
  RpcProtocol_SendProtocol (kernel_gives io ins outs) (Some (PBase p)) = Ok (Some (b, io')) ->
  takes outs (io_sent io') -> b = true /\ io_sent io' = frame p /\ io_sock io' = io_sock io.
Proof.
  intros Hp Hlive E [Hq Ht].
  assert (Hall : io_sent io' = frame p).
  { destruct (frame_length p Hp) as [_ Hl]. unfold RpcProtocol_SendProtocol in E.
    rewrite Encode_spec in E by (apply Hp || (destruct Hp as (_ & ? & _); lia)). cbn [obind] in E.
    rewrite (uwrap_small 32 (Z.of_nat _)) in E by lia. destruct (Z.eqb_spec (Z.of_nat (length (frame p))) 0); [lia|].
    rewrite (swrap_small 32), live_Send in E by (done || lia). cbn [obind kernel_gives io_out] in E.
    destruct (send _ _ _) as [[[e taken] left]|] eqn:Es; [|done].
    assert (Hio : io_sent io' = taken) by (by destruct (_ <? _); injection E as <- <-).
    rewrite Hio in *. apply (send_quiet_all (frame p) (Z.of_nat (length (frame p))) outs e taken left); [done|lia|done..]. }
  rewrite Hall in Ht.
  destruct (SendProtocol_sends (kernel_gives io ins outs) p outs []) as (left & E2); try done.
  { cbn. by rewrite app_nil_r. }
  rewrite E in E2. injection E2 as -> ->. done.
Qed.

(** A kernel that takes a frame at once. *)
Definition at_once (p : Protocol) : list send_answer := [STaken (Z.of_nat (length (frame p)))].

Lemma SendProtocol_can (io : sock_io K) p ins : frameable p -> live (io_sock io) ->
  exists io', RpcProtocol_SendProtocol (kernel_gives io ins (at_once p)) (Some (PBase p)) = Ok (Some (true, io')) /\
    takes (at_once p) (io_sent io').
Proof.
  intros Hp Hlive. destruct (frame_length p Hp) as [_ Hl].
  unfold at_once. rewrite (SendProtocol_sends_whole (kernel_gives io ins _) p [] Hp Hlive eq_refl). eexists. split; [done|].
  unfold takes, sent_more. cbn [io_sent kernel_gives app send_taken]. split; [|lia].
  constructor; [unfold send_quiet; lia|constructor].
Qed.

Lemma RecvProtocol_one (io : sock_io K) p a1 a2 : frameable p -> live (io_sock io) ->
  Forall recv_quiet a1 -> Forall recv_quiet a2 -> recv_data a1 = header p -> recv_data a2 = envelope p ->
  exists left, RpcProtocol_RecvProtocol (kernel_gives io (a1 ++ a2) []) =
    Ok (Some (Some (PBase (received p)), set_io_in (kernel_gives io (a1 ++ a2) []) (left ++ []))).
Proof.
  intros Hp Hlive Hq1 Hq2 E1 E2.
  destruct (recv_frame (kernel_gives io (a1 ++ a2) []) p a1 a2 []) as (left & E & _); try done.
  - cbn. by rewrite app_nil_r.
  - destruct (header_length p Hp) as [Hl _]. repeat split; try done; rewrite E1; [done|]. by rewrite E2.
  - by exists left.
Qed.

(** The body of a request, on the only connection. *)
Lemma resume_body_eq (w : @server_world K) me io p bs a outs :
  rq_error_ (ns_req (sw_server w)) <> 1 -> rs_socket_ (ns_resp (sw_server w)) = Some me ->
  frameable p -> live (io_sock io) -> Forall recv_quiet a -> recv_data a = envelope p -> served handlers manager p bs ->
  exists req' resp' left, rq_error_ req' <> 1 /\
    OnNewConn_resume handlers manager (put_io w me (kernel_gives io a outs)) (AtBody me (Z.of_nat (length (envelope p)))) =
      (let* r := RpcProtocol_SendProtocol (kernel_gives io left outs) (Some (PBase (response_to p bs))) in
       match r with
       | None => Ok None
       | Some (_, io') => Ok (Some (mkSrvWorld (mkServer req' resp') (<[me := io']> (sw_socks w)), Returned))
       end).
Proof.
  intros He Hsock Hp Hlive Hq Hd Hs.
  destruct (body_phase (kernel_gives io a outs) p a [] Hp Hlive) as (left & E & _); [cbn; by rewrite app_nil_r|done..|].
  set (w1 := put_io (put_io w me (kernel_gives io a outs)) me (kernel_gives io (left ++ []) outs)).
  destruct (finish_eq handlers manager w1 me (kernel_gives io (left ++ []) outs) (received p) bs)
    as (req' & resp' & He' & Ef); try done.
  { cbn. by rewrite lookup_insert_eq. }
  { by apply Hp. }
  exists req', resp', (left ++ []). split; [done|]. cbn [OnNewConn_resume].
  unfold get_io. cbn [put_io sw_socks]. rewrite lookup_insert_eq. cbn [obind]. rewrite E. cbn [obind].
  change (put_io (put_io w me (kernel_gives io a outs)) me (set_io_in (kernel_gives io a outs) (left ++ []))) with w1.
  rewrite Ef. change (response_to (received p) bs) with (response_to p bs).
  destruct (RpcProtocol_SendProtocol _ _) as [[[b io']|]|f]; [|done|done]. cbn [obind w1 put_io sw_socks].
  by rewrite !insert_insert_eq.
Qed.
End coroutine_facts.

(** *** The calls and their requests *)

Section call_facts.
Context `{PbRuntimeLaws} {FL : FrameLayout} {FR : FrameRoom}.
Variable handlers : gmap (list Z) Func.
Variable manager : ProtocolManager.
Variable answer : Protocol -> list Z.
Variable prog : gmap nat call_args.

(** What a call that has begun can look like. *)
Definition begun (args : call_args) (st : call_state) : Prop :=
  match st with
  | CallSent _ => False
  | CallWaiting req _ => exists id, req = request_of id args
  | CallGot req resp => exists id, req = request_of id args /\ resp = received (reply answer req)
  | CallTimedOut req _ => exists id, req = request_of id args
  end.

(** The calls, with the requests that are somewhere between being made and being answered,
    the oldest first. *)
Record calls_inv (todo : gmap nat call_args) (w : client_world) (pending : list Protocol) : Prop := {
  ci_calls : calls_ok w;
  ci_ids : cl_req_id_ (cw_client w) + Z.of_nat (size todo) = 1 + Z.of_nat (size prog);
  ci_nodup : NoDup pending;
  ci_pending p : p ∈ pending -> serviceable handlers manager answer p /\
                 exists k st, cl_request_map_ (cw_client w) !! req_id_ p = Some k /\
                              cw_calls w !! k = Some st /\ registered_as st p (req_id_ p);
  ci_waiting k req i : cw_calls w !! k = Some (CallWaiting req i) -> req ∈ pending;
  ci_todo k args : todo !! k = Some args -> prog !! k = Some args /\ cw_calls w !! k = None;
  ci_prog k args : prog !! k = Some args -> todo !! k = Some args \/ is_Some (cw_calls w !! k);
  ci_begun k st : cw_calls w !! k = Some st -> exists args, prog !! k = Some args /\ begun args st
}.

Lemma calls_inv_start params : calls_inv prog (mkCW (RpcClient_new params) ∅) [].
Proof.
  split; cbn [cw_client cw_calls RpcClient_new cl_req_id_].
  - unfold calls_ok. cbn. repeat split; intros *; rewrite ?lookup_empty; try done; lia.
  - lia.
  - constructor.
  - intros p Hp. by apply not_elem_of_nil in Hp.
  - intros k req i. by rewrite lookup_empty.
  - intros k args Hk. by rewrite lookup_empty.
  - intros k args Hk. by left.
  - intros k st. by rewrite lookup_empty.
Qed.

(** Only the map of registered channels, the next id and the calls matter. *)
Lemma calls_inv_take todo w pending rest : calls_inv todo w pending -> calls_inv todo (sys_take w rest) pending.
Proof. intros [H1 H2 H3 H4 H5 H6 H7 H8]. split; assumption. Qed.

(** A call that begins. *)
Lemma calls_inv_call todo w pending k args c req :
  prog_ok handlers manager answer prog -> Z.of_nat (size prog) + 1 < 2 ^ 32 ->
  calls_inv todo w pending -> todo !! k = Some args ->
  RpcClient_Call_send (cw_client w) (fst args) (snd args) = (c, req) ->
  calls_inv (delete k todo)
    (mkCW (RpcClient_Call_register c k) (<[k := CallWaiting req (cl_req_id_ c)]> (cw_calls w))) (pending ++ [req]).
Proof.
  intros Hprog Hsize [H1 H2 H3 H4 H5 H6 H7 H8] Hk Hs.
  destruct (H6 k args Hk) as [Hpk Hck].
  assert (Hd : size (delete k todo) = pred (size todo)) by (by apply map_size_delete_Some).
  assert (Hpos : size todo <> 0%nat) by (intros E; apply map_size_empty_inv in E as ->; by rewrite lookup_empty in Hk).
  assert (Hids : ids_left w) by (unfold ids_left; lia).
  assert (Hok := atomic_call_ok w H1 k (fst args) (snd args) c req Hids Hck Hs).
  injection Hs as <- <-. set (n := cl_req_id_ (cw_client w)) in *.
  change (Protocol_set_srv_name _ _) with (request_of n args) in *.
  assert (Hn : 0 < n) by (by apply H1).
  assert (Hid : req_id_ (request_of n args) = n) by (apply uwrap_small; lia).
  cbn [cl_req_id_ cl_params_ cl_closed_ cl_send_channel_ cl_request_map_] in *.
  split; [exact Hok|..]; cbn [cw_client cw_calls RpcClient_Call_register cl_req_id_ cl_request_map_].
  - rewrite (uwrap_small 32) by lia. lia.
  - apply NoDup_app. split; [done|]. split; [|apply NoDup_singleton].
    intros p Hp ->%list_elem_of_singleton. destruct (H4 _ Hp) as (_ & k' & _ & Hm & _).
    destruct (proj1 H1 _ _ Hm) as [Hr _]. lia.
  - intros p [Hp| ->%list_elem_of_singleton]%elem_of_app.
    + destruct (H4 p Hp) as (Hsv & k' & st & Hm & Hk' & Hreg). split; [done|]. exists k', st.
      destruct (proj1 H1 _ _ Hm) as [Hr _]. rewrite !lookup_insert_ne by (congruence || lia). done.
    + split; [apply (Hprog k); [done|lia]|]. rewrite Hid. exists k. rewrite !lookup_insert_eq.
      eexists. split; [done|]. split; [done|]. by left.
  - intros k' req i Hk'. apply elem_of_app. destruct (decide (k = k')) as [<- |Hne].
    + rewrite lookup_insert_eq in Hk'. injection Hk' as <- <-. right. by apply list_elem_of_singleton.
    + rewrite lookup_insert_ne in Hk' by done. left. by eapply H5.
  - intros k' args' Hk'. apply lookup_delete_Some in Hk' as [Hne Hk']. rewrite lookup_insert_ne by done. by apply H6.
  - intros k' args' Hk'. destruct (decide (k = k')) as [<- |Hne].
    + right. by rewrite lookup_insert_eq.
    + rewrite lookup_delete_ne, lookup_insert_ne by done. by apply H7.
  - intros k' st Hk'. destruct (decide (k = k')) as [<- |Hne].
    + rewrite lookup_insert_eq in Hk'. injection Hk' as <-. exists args. split; [done|]. by exists n.
    + rewrite lookup_insert_ne in Hk' by done. by apply H8.
Qed.

Lemma registered_as_inj st p q i j : registered_as st p i -> registered_as st q j -> p = q.
Proof. unfold registered_as. intros [-> | ->] [E|E]; by simplify_eq. Qed.

(** A waiting call that turns into something else. *)
Lemma calls_inv_replace todo w pending k req i st :
  calls_inv todo w pending -> cw_calls w !! k = Some (CallWaiting req i) ->
  (forall args, begun args (CallWaiting req i) -> begun args st) ->
  let calls := <[k := st]> (cw_calls w) in
  (forall k' args, todo !! k' = Some args -> prog !! k' = Some args /\ calls !! k' = None) /\
  (forall k' args, prog !! k' = Some args -> todo !! k' = Some args \/ is_Some (calls !! k')) /\
  (forall k' st', calls !! k' = Some st' -> exists args, prog !! k' = Some args /\ begun args st').
Proof.
  intros [H1 H2 H3 H4 H5 H6 H7 H8] Hk Hst calls. split; [|split].
  - intros k' args Hk'. destruct (H6 _ _ Hk') as [Hp Hc]. split; [done|]. unfold calls. rewrite lookup_insert_ne; [done|congruence].
  - intros k' args Hk'. destruct (H7 _ _ Hk') as [?|Hs]; [by left|right]. unfold calls.
    destruct (decide (k = k')) as [<- |Hne]; [by rewrite lookup_insert_eq|by rewrite lookup_insert_ne].
  - intros k' st' Hk'. apply lookup_insert_Some in Hk' as [[<- <-]|[_ Hk']]; [|by apply H8].
    destruct (H8 _ _ Hk) as (args & Hp & Hb). exists args. auto.
Qed.

(** A call whose time is over. *)
Lemma calls_inv_timeout todo w pending k req i : calls_inv todo w pending -> cw_calls w !! k = Some (CallWaiting req i) ->
  calls_inv todo (mkCW (cw_client w) (<[k := CallTimedOut req i]> (cw_calls w))) pending.
Proof.
  intros Hinv Hk. assert (Hinv' := Hinv). destruct Hinv' as [H1 H2 H3 H4 H5 H6 H7 H8].
  destruct (calls_inv_replace todo w pending k req i (CallTimedOut req i) Hinv Hk) as (R6 & R7 & R8); [done|].
  split; try done.
  - by apply timeout_ok.
  - intros p Hp. destruct (H4 p Hp) as (Hsv & k' & st & Hm & Hk' & Hreg). split; [done|]. cbn [cw_client cw_calls].
    destruct (decide (k = k')) as [<- |Hne].
    + rewrite Hk in Hk'. injection Hk' as <-. destruct Hreg as [[= <- ->]|?]; [|done].
      exists k. rewrite lookup_insert_eq. eexists. split; [done|]. split; [done|]. by right.
    + exists k', st. by rewrite lookup_insert_ne.
  - intros k' req' j Hk'. cbn [cw_calls] in Hk'. apply lookup_insert_Some in Hk' as [[_ ?]|[_ Hk']]; [done|]. by eapply H5.
Qed.

(** The response to the oldest request. *)
Lemma calls_inv_deliver todo w p pending : calls_inv todo w (p :: pending) ->
  calls_inv todo (sys_deliver w (received (reply answer p))) pending /\
  cl_send_channel_ (cw_client (sys_deliver w (received (reply answer p)))) = cl_send_channel_ (cw_client w) /\
  cl_params_ (cw_client (sys_deliver w (received (reply answer p)))) = cl_params_ (cw_client w).
Proof.
  intros Hinv. assert (Hinv' := Hinv). destruct Hinv' as [H1 H2 H3 H4 H5 H6 H7 H8]. apply NoDup_cons in H3 as [Hnin H3].
  destruct (H4 p) as (Hsv & k & st & Hm & Hk & Hreg); [by left|].
  set (c := fst (RpcClient_RecvLoop_deliver (cw_client w) (received (reply answer p)))).
  assert (Hothers : forall q, q ∈ pending -> serviceable handlers manager answer q /\ exists k' st', k' <> k /\
            cl_request_map_ c !! req_id_ q = Some k' /\ cw_calls w !! k' = Some st' /\ registered_as st' q (req_id_ q)).
  { intros q Hq. destruct (H4 q) as (Hsq & k' & st' & Hm' & Hk' & Hreg'); [by right|]. split; [done|]. exists k', st'.
    assert (Hne : k' <> k).
    { intros ->. rewrite Hk in Hk'. injection Hk' as <-. by rewrite (registered_as_inj _ _ _ _ _ Hreg Hreg') in Hnin. }
    split; [done|]. split; [|done]. cbn. rewrite lookup_delete_ne; [done|]. intros E. congruence. }
  assert (Hwait : forall k' req i, k' <> k -> cw_calls w !! k' = Some (CallWaiting req i) -> req ∈ pending).
  { intros k' req i Hne Hk'. assert (Hq := H5 _ _ _ Hk'). apply elem_of_cons in Hq as [-> |Hq]; [|done]. exfalso.
    destruct H1 as (M1 & M2 & _). assert (Hi := M2 _ _ _ Hk').
    destruct (M1 _ _ Hi) as (_ & req' & st' & Hr & Hreg' & Hid). rewrite Hk' in Hr. injection Hr as <-.
    destruct Hreg' as [[= <-]|?]; [|done]. congruence. }
  unfold sys_deliver. change (RpcClient_RecvLoop_deliver _ _) with (c, cl_request_map_ (cw_client w) !! req_id_ p).
  cbv iota. rewrite Hm, Hk. destruct Hreg as [-> | ->]; (split; [|done]).
  - destruct (calls_inv_replace todo w _ k p _ (CallGot p (received (reply answer p))) Hinv Hk) as (R6 & R7 & R8).
    { intros args [id Hid]. by exists id. }
    split; try done.
    + apply (deliver_ok w H1 (received (reply answer p)) k p (req_id_ p) Hm Hk).
    + intros q Hq. destruct (Hothers q Hq) as (Hsq & k' & st' & Hne & Hm' & Hk' & Hreg'). split; [done|].
      exists k', st'. cbn [cw_client cw_calls]. by rewrite lookup_insert_ne.
    + intros k' req i Hk'. cbn [cw_calls] in Hk'. apply lookup_insert_Some in Hk' as [[_ ?]|[Hne Hk']]; [done|].
      by apply (Hwait k' req i).
  - split; try done.
    + apply (unclaimed_ok w H1 (received (reply answer p))). intros k' req i Hm'. cbn in Hm'. congruence.
    + intros q Hq. destruct (Hothers q Hq) as (Hsq & k' & st' & Hne & Hm' & Hk' & Hreg'). split; [done|]. by exists k', st'.
    + intros k' req i Hk'. cbn [cw_calls] in Hk'. apply (Hwait k' req i); [|done]. intros ->. congruence.
Qed.

(** A call that is over has its answer. *)
Lemma calls_inv_answered todo w pending k args req resp : calls_inv todo w pending -> prog !! k = Some args ->
  cw_calls w !! k = Some (CallGot req resp) -> answered answer w k args.
Proof.
  intros Hinv Hp Hk. destruct (ci_begun _ _ _ Hinv _ _ Hk) as (args' & Hp' & id & -> & ->).
  rewrite Hp in Hp'. injection Hp' as <-. by eexists _, _.
Qed.

(** When nothing is under way and no call has still to begin, all are over. *)
Lemma calls_inv_all w : calls_inv ∅ w [] -> forall k args, prog !! k = Some args ->
  answered answer w k args \/ exists id i, cw_calls w !! k = Some (CallTimedOut (request_of id args) i).
Proof.
  intros Hinv k args Hp. destruct (ci_prog _ _ _ Hinv k args Hp) as [Ht|[st Hk]]; [by rewrite lookup_empty in Ht|].
  destruct st as [req|req i|req resp|req i].
  - destruct (ci_calls _ _ _ Hinv) as (_ & _ & _ & H4 & _). by destruct (H4 k req).
  - by destruct (not_elem_of_nil req (ci_waiting _ _ _ Hinv _ _ _ Hk)).
  - left. by eapply calls_inv_answered.
  - right. destruct (ci_begun _ _ _ Hinv _ _ Hk) as (args' & Hp' & id & ->). rewrite Hp in Hp'. injection Hp' as <-.
    by exists id, i.
Qed.
End call_facts.

(** *** The calls that wait *)

Definition is_waiting (st : call_state) : bool := match st with CallWaiting _ _ => true | _ => false end.
Definition waiting_calls (w : client_world) : gset nat := dom (filter (fun kv => is_waiting kv.2) (cw_calls w)).

Lemma elem_of_waiting w k : k ∈ waiting_calls w <-> exists req i, cw_calls w !! k = Some (CallWaiting req i).
Proof.
  unfold waiting_calls. rewrite elem_of_dom. split.
  - intros [st Hk]. apply map_lookup_filter_Some in Hk as [Hk Hst]. cbn in Hst. destruct st; try done. by eexists _, _.
  - intros (req & i & Hk). exists (CallWaiting req i). by apply map_lookup_filter_Some.
Qed.

Lemma waiting_begin w k c req i : (size (waiting_calls (mkCW c (<[k := CallWaiting req i]> (cw_calls w)))) <=
  S (size (waiting_calls w)))%nat.
Proof.
  assert (Hsub : waiting_calls (mkCW c (<[k := CallWaiting req i]> (cw_calls w))) ⊆ {[k]} ∪ waiting_calls w).
  { intros k'. rewrite elem_of_union, elem_of_singleton, !elem_of_waiting. cbn [cw_calls]. intros (req' & i' & Hk').
    apply lookup_insert_Some in Hk' as [[-> _]|[_ Hk']]; [by left|]. right. by eexists _, _. }
  apply subseteq_size in Hsub. etransitivity; [exact Hsub|]. rewrite size_union_alt, size_singleton.
  assert (Hd : waiting_calls w ∖ {[k]} ⊆ waiting_calls w) by set_solver. apply subseteq_size in Hd. lia.
Qed.

Lemma waiting_end w k c st req i : cw_calls w !! k = Some (CallWaiting req i) -> is_waiting st = false ->
  (size (waiting_calls (mkCW c (<[k := st]> (cw_calls w)))) < size (waiting_calls w))%nat.
Proof.
  intros Hk Hst. apply subset_size. split.
  - intros k'. rewrite !elem_of_waiting. cbn [cw_calls]. intros (req' & i' & Hk').
    apply lookup_insert_Some in Hk' as [[_ ->]|[_ Hk']]; [done|]. by eexists _, _.
  - intros Hsub. assert (Hin : k ∈ waiting_calls w) by (apply elem_of_waiting; by eexists _, _).
    apply Hsub, elem_of_waiting in Hin as (req' & i' & Hk'). cbn [cw_calls] in Hk'. rewrite lookup_insert_eq in Hk'.
    injection Hk' as ->. done.
Qed.

(** Nobody times out because of a response. *)
Lemma deliver_timed_out w p k req i :
  cw_calls (sys_deliver w p) !! k = Some (CallTimedOut req i) -> cw_calls w !! k = Some (CallTimedOut req i).
Proof.
  unfold sys_deliver. cbn [RpcClient_RecvLoop_deliver]. destruct (cl_request_map_ (cw_client w) !! req_id_ p) as [k'|]; [|done].
  destruct (cw_calls w !! k') as [[req'|req' i'|req' resp|req' i']|]; try done.
  cbn [cw_calls]. intros Hk. by apply lookup_insert_Some in Hk as [[_ ?]|[_ Hk]].
Qed.

Lemma waiting_deliver w p : (size (waiting_calls (sys_deliver w p)) <= size (waiting_calls w))%nat.
Proof.
  unfold sys_deliver. cbn [RpcClient_RecvLoop_deliver]. destruct (_ !! _) as [k|]; [|done].
  destruct (cw_calls w !! k) as [[req|req i|req resp|req i]|] eqn:Hk; try done.
  apply Nat.lt_le_incl. by apply (waiting_end w k _ (CallGot req p) req i).
Qed.

(** *** The system and where its requests are *)

(** Where the server is with a request. *)
Inductive serving : Type := SvIdle | SvEntered | SvBody (p : Protocol).

(** The requests under way by stage; with the stages in this order the oldest is first. *)
Record stages : Type := mkStages {
  st_down : list Protocol;       (* answered, the response on its way *)
  st_serving : serving;
  st_up : list Protocol;         (* on the way to the server *)
  st_sending : option Protocol;  (* in [SendProtocol] *)
  st_queued : list Protocol      (* in the send channel *)
}.

Definition served_now (s : serving) : list Protocol := match s with SvBody p => [p] | _ => [] end.
Definition pending (s : stages) : list Protocol :=
  st_down s ++ served_now (st_serving s) ++ st_up s ++ option_list (st_sending s) ++ st_queued s.

(** The steps that are left, but for those of calls that have not begun. *)
Definition stages_rank (s : stages) : nat :=
  length (st_down s) + match st_serving s with SvIdle => 1 | SvEntered => 0 | SvBody _ => 3 end +
  4 * length (st_up s) + 5 * length (option_list (st_sending s)) + 6 * length (st_queued s).

Section system_facts.
Context `{PbRuntimeLaws} {FL : FrameLayout} {FR : FrameRoom} {K : Type} `{EpollKernel K}.
Variable handlers : gmap (list Z) Func.
Variable manager : ProtocolManager.
Variable me : nat.
Variable answer : Protocol -> list Z.
Variable prog : gmap nat call_args.
Variable params : Params.

(** The server between two steps. *)
Definition server_at (srv : @server_world K) (pc : conn_pc) (sv : serving) : Prop :=
  (exists sio, sw_socks srv !! me = Some sio /\ live (io_sock sio)) /\
  rq_error_ (ns_req (sw_server srv)) <> 1 /\
  match sv with
  | SvIdle => pc = Returned
  | SvEntered => pc = AtHeader me
  | SvBody p => pc = AtBody me (Z.of_nat (length (envelope p)))
  end /\
  (sv <> SvIdle -> rq_socket_ (ns_req (sw_server srv)) = Some me /\ rs_socket_ (ns_resp (sw_server srv)) = Some me).

Definition frames_of (f : Protocol -> Protocol) (ps : list Protocol) : list Z := concat (map (fun p => frame (f p)) ps).

(** The state of the system when its requests are at these stages. *)
Record represents (y : rpc_system) (s : stages) : Prop := {
  re_calls : calls_inv handlers manager answer prog (sy_todo y) (sy_calls y) (pending s);
  re_params : cl_params_ (cw_client (sy_calls y)) = params;
  re_limit k req i : cw_calls (sy_calls y) !! k = Some (CallTimedOut req i) -> recv_timeout_ params <> u32 (-1);
  re_queued : cl_send_channel_ (cw_client (sy_calls y)) = st_queued s;
  re_send : sy_send y = match st_sending s with Some p => Sending p | None => Reading end;
  re_recv : sy_recv y = true;
  re_io : live (io_sock (sy_io y));
  re_up : sy_up y = match st_serving s with SvBody p => envelope p | _ => [] end ++ frames_of id (st_up s);
  re_server : server_at (sy_server y) (sy_pc y) (st_serving s);
  re_down : sy_down y = frames_of (reply answer) (st_down s)
}.

Lemma frames_of_app f a b : frames_of f (a ++ b) = frames_of f a ++ frames_of f b.
Proof. unfold frames_of. by rewrite map_app, concat_app. Qed.

Lemma frames_of_cons f p ps : frames_of f (p :: ps) = header (f p) ++ envelope (f p) ++ frames_of f ps.
Proof. unfold frames_of. cbn [map concat]. unfold frame at 1. by rewrite <- app_assoc. Qed.

Lemma recv_data_one bs : recv_data [RData bs] = bs.
Proof. apply app_nil_r. Qed.

Lemma frames_of_one f p : frames_of f [p] = frame (f p).
Proof. cbn. by rewrite app_nil_r. Qed.

(** What is under way can be served. *)
Lemma represents_serviceable y s p : represents y s -> p ∈ pending s -> serviceable handlers manager answer p.
Proof. intros Hr Hp. by apply (ci_pending _ _ _ _ _ _ _ (re_calls _ _ Hr)). Qed.

Lemma up_serviceable y s : represents y s -> Forall (fun p => frameable (id p)) (st_up s).
Proof.
  intros Hr. apply Forall_forall. intros p Hp.
  apply (represents_serviceable y s p Hr). unfold pending. set_solver.
Qed.

Lemma down_serviceable y s : represents y s -> Forall (fun p => frameable (reply answer p)) (st_down s).
Proof.
  intros Hr. apply Forall_forall. intros p Hp.
  apply (represents_serviceable y s p Hr). unfold pending. set_solver.
Qed.

(** *** Each step moves one request one stage *)

Hypothesis Hprog : prog_ok handlers manager answer prog.
Hypothesis Hsize : Z.of_nat (size prog) + 1 < 2 ^ 32.

Definition sys_rank (y : @rpc_system K) (s : stages) : nat :=
  8 * size (sy_todo y) + size (waiting_calls (sy_calls y)) + stages_rank s.

(** The step leads to a state with a lower rank. *)
Definition advances (y : @rpc_system K) (s : stages) (y' : @rpc_system K) : Prop :=
  exists s', represents y' s' /\ (sys_rank y' s' < sys_rank y s)%nat.

Ltac proj :=
  cbn [sy_todo sy_calls sy_send sy_recv sy_io sy_up sy_server sy_pc sy_down st_down st_serving st_up st_sending st_queued] in *.
Ltac rank := unfold sys_rank, stages_rank; proj;
  try match goal with |- context [waiting_calls (sys_take ?w ?r)] => change (waiting_calls (sys_take w r)) with (waiting_calls w) end;
  cbn -[waiting_calls sys_deliver size Nat.mul]; rewrite ?length_app; cbn -[waiting_calls sys_deliver size Nat.mul]; lia.

Lemma advance_call todo w send recv io up srv pc down s k args c req :
  represents (mkSys todo w send recv io up srv pc down) s -> todo !! k = Some args ->
  RpcClient_Call_send (cw_client w) (fst args) (snd args) = (c, req) ->
  advances (mkSys todo w send recv io up srv pc down) s
    (mkSys (delete k todo) (mkCW (RpcClient_Call_register c k) (<[k := CallWaiting req (cl_req_id_ c)]> (cw_calls w)))
       send recv io up srv pc down).
Proof.
  intros [R1 R2 R10 R3 R4 R5 R6 R7 R8 R9] Hk Hs. proj.
  exists (mkStages (st_down s) (st_serving s) (st_up s) (st_sending s) (st_queued s ++ [req])).
  assert (Hc := calls_inv_call _ _ _ _ todo w _ k args c req Hprog Hsize R1 Hk Hs).
  split; [|assert (Hd : size (delete k todo) = pred (size todo)) by (by apply map_size_delete_Some);
           assert (size todo <> 0%nat) by (intros E; apply map_size_empty_inv in E as ->; by rewrite lookup_empty in Hk);
           pose proof (waiting_begin w k (RpcClient_Call_register c k) req (cl_req_id_ c));
           unfold sys_rank, stages_rank; proj; rewrite Hd, !length_app; cbn [length]; lia].
  split; proj; try done.
  - unfold pending in *. proj. rewrite !app_assoc in *. exact Hc.
  - by injection Hs as <- _.
  - intros k' req' i Hk'. cbn [cw_calls] in Hk'. apply lookup_insert_Some in Hk' as [[_ ?]|[_ Hk']]; [done|]. by eapply R10.
  - injection Hs as <- <-. cbn. by rewrite R3.
Qed.

Lemma advance_timeout todo w send recv io up srv pc down s k req i :
  represents (mkSys todo w send recv io up srv pc down) s -> cw_calls w !! k = Some (CallWaiting req i) ->
  recv_timeout_ (cl_params_ (cw_client w)) <> u32 (-1) ->
  advances (mkSys todo w send recv io up srv pc down) s
    (mkSys todo (mkCW (cw_client w) (<[k := CallTimedOut req i]> (cw_calls w))) send recv io up srv pc down).
Proof.
  intros [R1 R2 R10 R3 R4 R5 R6 R7 R8 R9] Hk Hlim. proj. exists s. split.
  - split; try done; proj; [by apply calls_inv_timeout|]. intros *. by rewrite <- R2.
  - pose proof (waiting_end w k (cw_client w) (CallTimedOut req i) req i Hk eq_refl). unfold sys_rank. proj. lia.
Qed.

Lemma advance_take todo w recv io up srv pc down s p rest :
  represents (mkSys todo w Reading recv io up srv pc down) s -> cl_send_channel_ (cw_client w) = p :: rest ->
  advances (mkSys todo w Reading recv io up srv pc down) s (mkSys todo (sys_take w rest) (Sending p) recv io up srv pc down).
Proof.
  destruct s as [sd sv su [q|] sq]; intros [R1 R2 R10 R3 R4 R5 R6 R7 R8 R9] Hq; cbn in R4; [done|].
  cbn [sy_calls] in R3. rewrite Hq in R3. cbn in R3. subst sq.
  exists (mkStages sd sv su (Some p) rest). split; [|rank]. split; try done. by apply calls_inv_take.
Qed.

Lemma advance_send todo w recv io up srv pc down s p outs b io' :
  represents (mkSys todo w (Sending p) recv io up srv pc down) s ->
  RpcProtocol_SendProtocol (kernel_gives io [] outs) (Some (PBase p)) = Ok (Some (b, io')) -> takes outs (io_sent io') ->
  advances (mkSys todo w (Sending p) recv io up srv pc down) s
    (mkSys todo w (if b : bool then Reading else SendEnded) recv io' (up ++ io_sent io') srv pc down).
Proof.
  intros Hr E Ht.
  assert (Hsv : p ∈ pending s -> frameable p) by (intros Hp; apply (represents_serviceable _ _ _ Hr Hp)).
  destruct s as [sd sv su [q|] sq], Hr as [R1 R2 R10 R3 R4 R5 R6 R7 R8 R9]; cbn in R4; [|done]. injection R4 as <-.
  destruct (SendProtocol_all io p [] outs b io') as (-> & Es & Ek); try done; [apply Hsv; unfold pending; set_solver|].
  exists (mkStages sd sv (su ++ [p]) None sq). split; [|rank]. split; proj; try done.
  - unfold pending in *. proj. rewrite <- !app_assoc. exact R1.
  - by rewrite Ek.
  - by rewrite R7, Es, frames_of_app, frames_of_one, <- app_assoc.
Qed.

Lemma advance_enter todo w send recv io up srv down s srv' pc' :
  represents (mkSys todo w send recv io up srv Returned down) s -> OnNewConn_enter srv me = (srv', pc') ->
  advances (mkSys todo w send recv io up srv Returned down) s (mkSys todo w send recv io up srv' pc' down).
Proof.
  destruct s as [sd sv su ss sq]; intros [R1 R2 R10 R3 R4 R5 R6 R7 R8 R9] [= <- <-].
  destruct R8 as (Hsock & He & Hpc & _). cbn in Hpc. destruct sv; [|done..].
  exists (mkStages sd SvEntered su ss sq). split; [|rank]. split; try done.
Qed.

Lemma advance_recv todo w send io up srv pc down s a1 a2 r io' :
  represents (mkSys todo w send true io up srv pc (recv_data a1 ++ recv_data a2 ++ down)) s ->
  Forall recv_quiet a1 -> Forall recv_quiet a2 ->
  length (recv_data a1) = 4%nat -> Z.of_nat (length (recv_data a2)) = atoi (recv_data a1) ->
  RpcProtocol_RecvProtocol (kernel_gives io (a1 ++ a2) []) = Ok (Some (r, io')) ->
  advances (mkSys todo w send true io up srv pc (recv_data a1 ++ recv_data a2 ++ down)) s
      (match r with
       | Some (PBase p) => mkSys todo (sys_deliver w p) send true io' up srv pc down
       | _ => mkSys todo w send false io' up srv pc down
       end).
Proof.
  intros Hr Hq1 Hq2 Hl1 Hl2 E. assert (Hdown := down_serviceable _ _ Hr).
  destruct Hr as [R1 R2 R10 R3 R4 R5 R6 R7 R8 R9]. cbn [sy_down] in R9.
  destruct (first_header (reply answer) (st_down s) _ _ Hdown Hl1 R9) as (p & rest & Hs & E1 & E2).
  rewrite Hs in Hdown. apply Forall_cons in Hdown as [Hp _].
  destruct (header_length _ Hp) as [_ Ha]. rewrite E1, Ha in Hl2. apply app_inj_1 in E2 as [E2 E3]; [|lia].
  destruct (RecvProtocol_one io (reply answer p) a1 a2) as (left & Er); [done..|].
  rewrite E in Er. injection Er as -> ->.
  destruct s as [sd sv su ss sq]. proj. subst sd.
  destruct (calls_inv_deliver _ _ _ _ todo w p _ R1) as (Hc & Hch & Hpar).
  pose proof (waiting_deliver w (received (reply answer p))).
  exists (mkStages rest sv su ss sq). split; [|rank].
  split; proj; try done; [by rewrite Hpar| |by rewrite Hch]. intros k req i Hk. apply (R10 k req i).
  by apply deliver_timed_out in Hk.
Qed.

(** The server takes the header of the oldest request on its way. *)
Lemma serve_header srv sio p a outs :
  sw_socks srv !! me = Some sio -> live (io_sock sio) -> rq_socket_ (ns_req (sw_server srv)) = Some me ->
  frameable p -> Forall recv_quiet a -> recv_data a = header p ->
  exists io', io_sock io' = io_sock sio /\ io_sent io' = [] /\
    OnNewConn_resume handlers manager (put_io srv me (kernel_gives sio a outs)) (AtHeader me) =
      Ok (Some (mkSrvWorld (sw_server srv) (<[me := io']> (sw_socks srv)), AtBody me (Z.of_nat (length (envelope p))))).
Proof.
  intros Hs Hlive Hrq Hp Hq Ha.
  destruct (resume_header handlers manager (put_io srv me (kernel_gives sio a outs)) me (kernel_gives sio a outs)
              p a [RData (envelope p)] []) as (left & E & _); try done.
  - cbn. by rewrite lookup_insert_eq.
  - cbn. by rewrite app_nil_r.
  - by apply delivers_header.
  - exists (kernel_gives sio (left ++ []) outs). split; [done|]. split; [done|]. rewrite E.
    unfold put_io. cbn [sw_server sw_socks]. by rewrite insert_insert_eq.
Qed.

Lemma advance_header todo w send recv io up srv down s a outs sio srv' pc' sio' :
  represents (mkSys todo w send recv io (recv_data a ++ up) srv (AtHeader me) down) s ->
  sw_socks srv !! me = Some sio -> Forall recv_quiet a -> Z.of_nat (length (recv_data a)) = kDataLen ->
  OnNewConn_resume handlers manager (put_io srv me (kernel_gives sio a outs)) (AtHeader me) = Ok (Some (srv', pc')) ->
  sw_socks srv' !! me = Some sio' ->
  advances (mkSys todo w send recv io (recv_data a ++ up) srv (AtHeader me) down) s
    (mkSys todo w send recv io up srv' pc' (down ++ io_sent sio')).
Proof.
  intros Hr Hsio Hq Hl E Hsio'. assert (Hup := up_serviceable _ _ Hr).
  destruct s as [sd sv su ss sq], Hr as [R1 R2 R10 R3 R4 R5 R6 R7 R8 R9]. proj.
  destruct R8 as ((sio0 & Hs0 & Hlive) & He & Hpc & Hin). rewrite Hsio in Hs0. injection Hs0 as <-.
  destruct sv; [done| |done]. destruct Hin as [Hrq Hrs]; [done|].
  unfold kDataLen in Hl. destruct (first_header id su (recv_data a) up Hup) as (p & rest & -> & Ea & Eu); [lia|exact R7|].
  apply Forall_cons in Hup as [Hp _].
  destruct (serve_header srv sio p a outs) as (io' & Hk & Hsent & E'); [done..|].
  rewrite E in E'. injection E' as -> ->. cbn [sw_socks] in Hsio'. rewrite lookup_insert_eq in Hsio'. injection Hsio' as <-.
  exists (mkStages sd (SvBody p) rest ss sq). split; [|rank]. split; proj; try done.
  - split; [|done]. exists io'. cbn [sw_socks]. by rewrite lookup_insert_eq, Hk.
  - by rewrite Hsent, app_nil_r.
Qed.

Lemma advance_body todo w send recv io up srv down s n a outs sio srv' pc' sio' :
  represents (mkSys todo w send recv io (recv_data a ++ up) srv (AtBody me n) down) s ->
  sw_socks srv !! me = Some sio -> Forall recv_quiet a -> Z.of_nat (length (recv_data a)) = n ->
  OnNewConn_resume handlers manager (put_io srv me (kernel_gives sio a outs)) (AtBody me n) = Ok (Some (srv', pc')) ->
  sw_socks srv' !! me = Some sio' -> takes outs (io_sent sio') ->
  advances (mkSys todo w send recv io (recv_data a ++ up) srv (AtBody me n) down) s
    (mkSys todo w send recv io up srv' pc' (down ++ io_sent sio')).
Proof.
  intros Hr Hsio Hq Hl E Hsio' Ht.
  assert (Hsv := fun p => represents_serviceable _ _ p Hr).
  destruct s as [sd sv su ss sq], Hr as [R1 R2 R10 R3 R4 R5 R6 R7 R8 R9]. proj.
  destruct R8 as ((sio0 & Hs0 & Hlive) & He & Hpc & Hin). rewrite Hsio in Hs0. injection Hs0 as <-.
  destruct sv as [| |p]; [done..|]. injection Hpc as ->. destruct Hin as [Hrq Hrs]; [done|].
  destruct (Hsv p) as (Hp & Hserved & Hfr); [unfold pending; cbn; set_solver|].
  apply app_inj_1 in R7 as [Ea ->]; [|lia].
  destruct (resume_body_eq handlers manager srv me sio p (answer p) a outs) as (req' & resp' & left & He' & Eb); [done..|].
  rewrite E in Eb. destruct (RpcProtocol_SendProtocol _ _) as [[[b io']|]|] eqn:Es; [|done..]. cbn [obind] in Eb.
  injection Eb as -> ->. cbn [sw_socks] in Hsio'. rewrite lookup_insert_eq in Hsio'. injection Hsio' as <-.
  destruct (SendProtocol_all sio (response_to p (answer p)) left outs b io') as (_ & Hsent & Hk); [done..|].
  exists (mkStages (sd ++ [p]) SvIdle su ss sq). split; [|rank]. split; proj; try done.
  - unfold pending in *. proj. cbn [served_now] in *. rewrite <- !app_assoc. exact R1.
  - split; [|done]. exists io'. cbn [sw_socks]. by rewrite lookup_insert_eq, Hk.
  - by rewrite R9, Hsent, frames_of_app, frames_of_one.
Qed.

(** Every step. *)
Lemma step_advances y s y' : represents y s -> sys_step handlers manager me y y' -> advances y s y'.
Proof.
  intros Hr Hstep. destruct Hstep.
  - by eapply advance_call with (args := (name, data)).
  - by eapply advance_timeout.
  - by apply advance_take.
  - by eapply advance_send.
  - by eapply advance_enter.
  - destruct pc as [i|i len|]; [| |done]; cbn [wanted] in *; simplify_eq.
    + assert (i = me) as -> by (destruct (re_server _ _ Hr) as (_ & _ & Hpc & _); destruct (st_serving s); by simplify_eq/=).
      by eapply advance_header.
    + assert (i = me) as -> by (destruct (re_server _ _ Hr) as (_ & _ & Hpc & _); destruct (st_serving s); by simplify_eq/=).
      by eapply advance_body.
  - by eapply advance_recv.
Qed.

(** *** As long as something is left to do, a step is possible *)

Hypothesis Hroom : 0 < send_channel_size params.

Lemma can_recv y s p rest : represents y s -> st_down s = p :: rest -> exists y', sys_step handlers manager me y y'.
Proof.
  intros Hr Hs. assert (Hdown := down_serviceable _ _ Hr). destruct Hr as [R1 R2 R10 R3 R4 R5 R6 R7 R8 R9].
  rewrite Hs in *. apply Forall_cons in Hdown as [Hp _].
  destruct (frame_quiet _ Hp) as [Hq1 Hq2]. destruct (header_length _ Hp) as [Hl Ha].
  destruct (RecvProtocol_one (sy_io y) (reply answer p) [RData (header (reply answer p))]
              [RData (envelope (reply answer p))]) as (left & E);
    [done..|apply recv_data_one|apply recv_data_one|].
  destruct y as [todo w send recv io up srv pc down]. proj. subst recv.
  assert (Ed : down = recv_data [RData (header (reply answer p))] ++ recv_data [RData (envelope (reply answer p))] ++
                      frames_of (reply answer) rest).
  { by rewrite R9, !recv_data_one, frames_of_cons. }
  rewrite Ed. eexists. eapply SysRecv; [exact Hq1|exact Hq2| | |exact E]; rewrite !recv_data_one; [exact Hl|symmetry; exact Ha].
Qed.

Lemma can_enter y s : represents y s -> st_serving s = SvIdle -> exists y', sys_step handlers manager me y y'.
Proof.
  intros Hr Hs. destruct (re_server _ _ Hr) as ((sio & Hsio & Hlive) & _ & Hpc & _). rewrite Hs in Hpc.
  destruct y as [todo w send recv io up srv pc down]. proj. subst pc.
  destruct (OnNewConn_enter srv me) as [srv' pc'] eqn:E. eexists. eapply SysEnter; [exact Hsio|apply Hlive|exact E].
Qed.

Lemma can_header y s p rest : represents y s -> st_serving s = SvEntered -> st_up s = p :: rest -> exists y', sys_step handlers manager me y y'.
Proof.
  intros Hr Hs Hu. assert (Hup := up_serviceable _ _ Hr). destruct Hr as [R1 R2 R10 R3 R4 R5 R6 R7 R8 R9].
  rewrite Hs, Hu in *. apply Forall_cons in Hup as [Hp _].
  destruct R8 as ((sio & Hsio & Hlive) & He & Hpc & Hin). destruct Hin as [Hrq _]; [done|].
  destruct (frame_quiet p Hp) as [Hq _]. destruct (header_length p Hp) as [Hl _].
  destruct (serve_header (sy_server y) sio p [RData (header p)] []) as (io' & Hk & Hsent & E);
    [done..|apply recv_data_one|].
  destruct y as [todo w send recv io up srv pc down]. proj. subst pc.
  assert (Eu : up = recv_data [RData (header p)] ++ envelope p ++ frames_of id rest).
  { by rewrite R7, recv_data_one, frames_of_cons. }
  rewrite Eu. eexists. eapply SysServe; [reflexivity|exact Hsio|exact Hq| |exact E| |].
  - by rewrite recv_data_one, Hl.
  - cbn [sw_socks]. by rewrite lookup_insert_eq.
  - rewrite Hsent. by split; [constructor|].
Qed.

Lemma can_body y s p : represents y s -> st_serving s = SvBody p -> exists y', sys_step handlers manager me y y'.
Proof.
  intros Hr Hs. destruct (represents_serviceable y s p Hr) as (Hp & Hserved & Hfr).
  { unfold pending. rewrite Hs. cbn. set_solver. }
  destruct Hr as [R1 R2 R10 R3 R4 R5 R6 R7 R8 R9]. rewrite Hs in *.
  destruct R8 as ((sio & Hsio & Hlive) & He & Hpc & Hin). destruct Hin as [_ Hrs]; [done|].
  destruct (frame_quiet p Hp) as [_ Hq].
  destruct (resume_body_eq handlers manager (sy_server y) me sio p (answer p) [RData (envelope p)]
              (at_once (response_to p (answer p)))) as (req' & resp' & left & _ & E);
    [done..|apply recv_data_one|done|].
  destruct (SendProtocol_can sio (response_to p (answer p)) left Hfr Hlive) as (io' & Es & Ht).
  rewrite Es in E. cbn [obind] in E.
  destruct y as [todo w send recv io up srv pc down]. proj. subst pc.
  assert (Eu : up = recv_data [RData (envelope p)] ++ frames_of id (st_up s)).
  { by rewrite R7, recv_data_one. }
  rewrite Eu. eexists. eapply SysServe; [reflexivity|exact Hsio|exact Hq| |exact E| |exact Ht].
  - by rewrite recv_data_one.
  - cbn [sw_socks]. by rewrite lookup_insert_eq.
Qed.

Lemma can_send y s p : represents y s -> st_sending s = Some p -> exists y', sys_step handlers manager me y y'.
Proof.
  intros Hr Hs. destruct (represents_serviceable y s p Hr) as (Hp & _).
  { unfold pending. rewrite Hs. cbn. set_solver. }
  destruct Hr as [R1 R2 R10 R3 R4 R5 R6 R7 R8 R9]. rewrite Hs in R4.
  destruct (SendProtocol_can (sy_io y) p [] Hp R6) as (io' & E & Ht).
  destruct y as [todo w send recv io up srv pc down]. proj. subst send. eexists. eapply SysSend; [exact E|exact Ht].
Qed.

Lemma can_take y s p rest : represents y s -> st_sending s = None -> st_queued s = p :: rest -> exists y', sys_step handlers manager me y y'.
Proof.
  intros [R1 R2 R10 R3 R4 R5 R6 R7 R8 R9] Hs Hq. rewrite Hs in R4. rewrite Hq in R3.
  destruct y as [todo w send recv io up srv pc down]. proj. subst send. eexists. by eapply SysTake.
Qed.

Lemma can_call y s k args : represents y s -> st_queued s = [] -> sy_todo y !! k = Some args -> exists y', sys_step handlers manager me y y'.
Proof.
  intros [R1 R2 R10 R3 R4 R5 R6 R7 R8 R9] Hq Hk. destruct args as [name data].
  destruct y as [todo w send recv io up srv pc down]. proj.
  destruct (RpcClient_Call_send (cw_client w) name data) as [c req] eqn:E. eexists. eapply SysCall; [exact Hk| |exact E].
  unfold has_room. rewrite R3, Hq, R2. exact Hroom.
Qed.

Lemma progress y s : represents y s -> (sy_todo y = ∅ /\ pending s = []) \/ exists y', sys_step handlers manager me y y'.
Proof.
  intros Hr. destruct s as [sd sv su ss sq] eqn:Es. rewrite <- Es in Hr.
  destruct sd as [|p rest]; [|right; by eapply can_recv; [exact Hr|subst s]].
  destruct sv as [| |p]; [right; by eapply can_enter; [exact Hr|subst s]| |right; by eapply can_body; [exact Hr|subst s]].
  destruct su as [|p rest]; [|right; by eapply can_header; [exact Hr|subst s..]].
  destruct ss as [p|]; [right; by eapply can_send; [exact Hr|subst s]|].
  destruct sq as [|p rest]; [|right; by eapply can_take; [exact Hr|subst s..]].
  destruct (decide (sy_todo y = ∅)) as [Ht|Ht]; [left; by rewrite Es in *|right].
  apply map_choose in Ht as (k & args & Hk). by eapply can_call; [exact Hr|subst s|exact Hk].
Qed.

(** The system as it starts. *)
Lemma represents_start io srv sio : live (io_sock io) -> sw_socks srv !! me = Some sio -> live (io_sock sio) ->
  rq_error_ (ns_req (sw_server srv)) <> 1 ->
  represents (sys_start prog params io srv) (mkStages [] SvIdle [] None []).
Proof.
  intros Hio Hsio Hlive He. split; try done.
  - apply calls_inv_start.
  - split; [by exists sio|]. split; [done|]. split; [done|]. by intros ?.
Qed.
End system_facts.

(** ** Theorems *)

Section system_theorems.
Context `{PbRuntimeLaws} {FL : FrameLayout} {FR : FrameRoom} {K : Type} `{EpollKernel K}.


End system_theorems.

(** ** Witnesses *)

#[local] Existing Instance padded_frame.
#[local] Existing Instance padded_frame_room.

(** Two calls of the example service, with names of three and of two letters. *)
Definition prog_sample : gmap nat call_args :=
  {[0%nat := (hello_srv, request_data); 1%nat := (hello_srv, [10; 2; 99; 111])]}.
Definition hello_answer (p : Protocol) : list Z := if decide (data_ p = request_data) then [8; 3] else [8; 2].

Lemma prog_sample_ok : prog_ok handlers_sample manager_sample hello_answer prog_sample.
Proof.
  intros k args id Hk Hid. change (Z.of_nat (size prog_sample)) with 2 in Hid.
  assert (Hcases : id = 1 \/ id = 2) by lia.
  unfold prog_sample in Hk. apply lookup_insert_Some in Hk as [[<- <-]|[_ Hk]]; [|apply lookup_singleton_Some in Hk as [<- <-]];
    destruct Hcases as [-> | ->].
  1-2: split; [frameable_closed|split; [|frameable_closed]];
    apply (hello_served handlers_sample manager_sample _ [116; 105; 116]); try reflexivity; repeat split; eval_closed.
  1-2: split; [frameable_closed|split; [|frameable_closed]];
    apply (hello_served handlers_sample manager_sample _ [99; 111]); try reflexivity; repeat split; eval_closed.
Qed.

Definition server_sample : @server_world epoll_table :=
  mkSrvWorld (mkServer (mkReq None None 0 0 None) (mkResp None None None)) {[0%nat := io_sample]}.
Definition start_sample : @rpc_system epoll_table := sys_start prog_sample kDefaultParams io_sample server_sample.


(** A step of the server on a way that is known only as a list of bytes. *)
Lemma serve_eq (y y' : @rpc_system epoll_table) a up n outs sio srv' pc' sio' :
  sy_up y = recv_data a ++ up -> wanted (sy_pc y) = Some n -> sw_socks (sy_server y) !! 0%nat = Some sio ->
  Forall recv_quiet a -> Z.of_nat (length (recv_data a)) = n ->
  OnNewConn_resume handlers_sample manager_sample (put_io (sy_server y) 0 (kernel_gives sio a outs)) (sy_pc y) =
    Ok (Some (srv', pc')) ->
  sw_socks srv' !! 0%nat = Some sio' -> takes outs (io_sent sio') ->
  y' = mkSys (sy_todo y) (sy_calls y) (sy_send y) (sy_recv y) (sy_io y) up srv' pc' (sy_down y ++ io_sent sio') ->
  sys_step handlers_sample manager_sample 0%nat y y'.
Proof. destruct y. cbn. intros -> ??????? ->. by eapply SysServe. Qed.

Lemma recv_eq (y y' : @rpc_system epoll_table) a1 a2 down p io' :
  sy_recv y = true -> sy_down y = recv_data a1 ++ recv_data a2 ++ down ->
  Forall recv_quiet a1 -> Forall recv_quiet a2 ->
  length (recv_data a1) = 4%nat -> Z.of_nat (length (recv_data a2)) = atoi (recv_data a1) ->
  RpcProtocol_RecvProtocol (kernel_gives (sy_io y) (a1 ++ a2) []) = Ok (Some (Some (PBase p), io')) ->
  y' = mkSys (sy_todo y) (sys_deliver (sy_calls y) p) (sy_send y) true io' (sy_up y) (sy_server y) (sy_pc y) down ->
  sys_step handlers_sample manager_sample 0%nat y y'.
Proof.
  destruct y. cbn. intros -> -> ????? ->.
  by eapply (SysRecv handlers_sample manager_sample 0%nat _ _ _ _ _ _ _ _ a1 a2 (Some (PBase p))).
Qed.

(** The first call from its beginning to its end. *)
Lemma sample_run : exists y, star (sys_step handlers_sample manager_sample 0%nat) start_sample y /\
  exists req resp, cw_calls (sy_calls y) !! 0%nat = Some (CallGot req resp).
Proof.
  eexists. split.
  - eapply star_step.
    { apply (SysCall handlers_sample manager_sample 0%nat) with (k := 0%nat) (name := hello_srv) (data := request_data);
        [reflexivity|eval_closed|reflexivity]. }
    eapply star_step; [by eapply SysTake|].
    eapply star_step.
    { eapply SysSend with (outs := at_once request_sample); [vm_compute; reflexivity|].
      split; [|vm_compute; reflexivity]. constructor; [vm_compute; reflexivity|constructor]. }
    eapply star_step; [by eapply SysEnter|].
    eapply star_step.
    { eapply (serve_eq _ _ header_in (envelope request_sample) _ []);
        [vm_compute; reflexivity|reflexivity|reflexivity|apply sample_delivers|reflexivity|vm_compute; reflexivity..|
         by split; [constructor|]|reflexivity]. }
    eapply star_step.
    { eapply (serve_eq _ _ body_in [] _ (at_once response_sample));
        [vm_compute; reflexivity|reflexivity|reflexivity|apply sample_delivers|reflexivity|vm_compute; reflexivity..|
         |reflexivity].
      split; [|vm_compute; reflexivity]. constructor; [vm_compute; reflexivity|constructor]. }
    apply star_one.
    eapply (recv_eq _ _ [RData (header response_sample)] [RData (envelope response_sample)] []);
      [reflexivity|vm_compute; reflexivity| | |reflexivity|reflexivity|vm_compute; reflexivity|reflexivity];
      apply frame_quiet; exact response_frameable.
  - eexists _, _. vm_compute. reflexivity.
Qed.

